(* ===== verification/_CoqProject ===== *)
-Q . S2P
Prelude.v
GoLib.v
Paths.v
Protocol.v
Sharing.v
Frame.v
Strict.v
Notify.v
History.v
Owner.v
OwnerInv.v
OwnerOps.v
OwnerAdd.v
OwnerCmd.v
OwnerTime.v
OwnerRun.v
OwnerGen.v
OwnerExpiry.v
OwnerClaims.v
Connection.v
Commands.v
OwnerCalls.v
Handover.v
CallOrder.v
Lineage.v
Fdo.v
BusName.v
Persist.v
Reopen.v
Sidecar.v
SnapshotFrame.v
Views.v
Publish.v
Listen.v
StateDir.v
OpenStore.v
Serving.v
Reader.v
Handshake.v
App.v
Shutdown.v
CatchUp.v
System.v
SystemInv.v
EndToEnd.v
Desktop.v
TestBus.v
Examples.v
Scenarios.v
