(* ===== verification/Prelude.v ===== *)
(** * sysc-notify: a verification development

    sysc-notify is a notification daemon.  Senders call [Notify] and
    [CloseNotification] over D-Bus ([internal/fdo]); what they send is checked
    and normalized ([internal/notify]) and goes to one goroutine that owns the
    state ([internal/state]), which keeps the active notifications, expires
    them, keeps a history ([internal/history]) and hands every change to the
    presenters as a numbered delta ([internal/presenter]), framed and validated
    as [protocol] says.

    ** Files and what they model

    - [Prelude], [GoLib]: the shared ground.  Machine integers with their
      wrap-around, errors, checks, lists; of Go's standard library the times,
      UTF-8, number formats and the JSON texts the program computes with.
    - [Protocol], [Frame], [Strict]: protocol/types.go, validate.go and
      frame.go.  Records and validators; frames over byte streams with short
      reads and writes; strict decoding over JSON tokens.
    - [Sharing]: the clone functions of internal/state/owner.go and
      internal/history/store.go over a heap; the other files work with values.
    - [Notify]: internal/notify.  A D-Bus request becomes a candidate; image
      scaling; the choice of an id.
    - [Lineage], [Fdo], [CallOrder], [BusName]: internal/sender/lineage.go and
      internal/fdo/convert.go, server.go, order.go.  The ancestors of a sender,
      the hints, the two calls, the signals; the order of one sender's calls,
      and the server's life on the bus with its emitter and monitor, as step
      relations.
    - [Owner]: internal/state/owner.go and expiry.go, one function for each
      handler over the record [ownerState], and the loop as the relation
      [step].  Its theory is in [OwnerInv] (invariant and simulation),
      [OwnerOps], [OwnerAdd], [OwnerCmd], [OwnerTime] (the operations),
      [OwnerRun] (runs), [OwnerGen] (presenter generations), [OwnerExpiry] and
      [OwnerClaims].  [OwnerCalls] puts the callers of [Do] and [Snapshot] and
      the closing of the owner around the loop.
    - [Paths]: the part of path/filepath the program uses, and programs over
      system calls, with what they can do whatever the calls answer ([exec])
      and what they do on a disk that nobody else changes ([runOn]).
    - [History], [Persist], [Reopen], [Sidecar], [StateDir], [OpenStore]:
      internal/history/store.go, schema.go and image.go.  The entries and their mutations; the commit as
      its system calls and the persistence worker with [Flush] and [Close] as a
      step relation; decoding what was written; the image files beside the
      document; the directories, and opening the store as a whole.
    - [Connection], [Commands], [Reader], [Handover], [SnapshotFrame],
      [Handshake]: internal/presenter/connection.go and server.go.  The outbound
      queue with its writer, the execution of a command, the read loop, the
      hand-over between connections together with the owner, the framing of a
      snapshot, and who gets as far as the hand-over.
    - [Views], [Publish], [System], [SystemInv], [CatchUp], [EndToEnd]: what a
      presenter shows; [Publish] and its resync goroutines; the owner, the
      server and all its connections as one step relation, and its invariant;
      the writer's way to the owner's sequence number; what the presenter at
      the far end of a wire holds.
    - [Listen], [Serving]: internal/presenter/server.go.  The checks around the
      socket, and the life of the server: [Serve], [acceptLoop], [Close].
    - [App]: internal/app/run.go and cmd/sysc-notify/main.go.  The
      configuration, the life of the parts, the exit of the process, and the
      fan-out of events.
    - [Desktop]: the whole program while it runs, the presenter side of [System]
      and the D-Bus side of [BusName] behind the fan-out of [App].
    - [Shutdown]: the whole program while it stops: [shutdown] over the parts of
      [Serving], [BusName], [OwnerCalls] and [Persist], through the class
      [Stoppable].
    - [TestBus]: internal/dbustest/bus.go, the buses of the tests.
    - [Examples], [Scenarios]: instances of the open interfaces, and concrete
      runs to which the theorems are applied.

    ** How the code is rendered

    A method is a Definition of the same name, a struct a Record whose fields
    carry a prefix, an enumeration an Inductive.  A method that runs under one
    mutex is one function on the guarded state; where goroutines interleave, a
    step relation has one rule for each critical section or blocking point
    ([step], [mstep], [lstep], [cstep], [hstep], [sstep], [rstep], [vstep],
    [pstep], [ostep], [bstep], [xstep], [sdstep], [tstep]), and theorems hold in
    every state the relation reaches.  An error is a value; a panic is [None].

    ** What the theorems show

    - The owner: an invariant of every reachable state; deltas refine snapshots
      (a presenter that applies the deltas it is handed holds what the next
      snapshot says); each command's outcome on every branch; the timer closes
      exactly what is due and is always armed; superseded presenters are
      fenced off; concurrent calls are linearizable, and every call returns.
    - The presenter side: a presenter that applies the frames on its wire holds
      a view the owner had, up to images, through overflow and
      resynchronization, and a slow one catches up; queue bounds; nobody sleeps
      on work; requests are carried out once, in order, each answered under its
      number; exactly the current connection commands the owner, vanished ones
      leave nothing behind, and a new one can always take over; a snapshot
      frame holds as many images as fit.  All of it holds of the server with
      any number of connections ([EndToEnd]); the socket is private, only
      presenters of the same user get past the handshake, and closing the server
      always ends with nothing left.
    - The D-Bus side: a call never panics and always answers; hints do not
      depend on map order; one sender's calls take effect in order and cannot
      wedge; lineages are chains of real ancestors; what the server holds on the
      bus is let go on every path, and signals leave in order.
    - The whole program: the clients on the bus are told what happened to their
      notifications, each closing once ([Desktop]); a run gives up all it took
      on every path ([App]), and its shutdown always ends ([Shutdown]).
    - The history: sizes are exact, bounds are kept, a commit is all or
      nothing, a successful [Flush] or [Close] is durable, failed commits are
      retried, and a restart gives the same entries with the same images;
      the directories are private, and no history file is ever destroyed.
    - The codecs: frames and stat lines round-trip, validation is as specified,
      strict decoding refuses exactly repeated keys and trailing values.
    - Three places where the code does less than it says are stated as
      theorems: [file_uri_icon_refused], [replies_can_overtake] and
      [long_key_reply_invalid]; [icon_data_beats_image_path] and
      [MarkSeen_outcome] contradict comments.

    ** Fuel and bounds

    [resolveLoop] has fuel for every id; [writeAllLoop] for every byte;
    [rejectDuplicateKeys] for twice the tokens and two more; each is shown to
    be enough; [splitPath] has fuel for every character, which is enough for a
    clean absolute path.  [captureLoop] and [writeImage] count down what the source
    counts: the room in a lineage, and the attempts other processes force.
    Sequence numbers, request numbers and generations are 64 bits wide; where
    a theorem needs that a counter does not wrap, it or its step relation says
    so.

    ** Parameters

    The system clock ([Clock]), the answer of a sink ([Sink]), image/png
    ([Png]), net/url ([UrlParser]), SHA-256 ([Sha256]), the decoding of
    encoding/json into Go values ([Tokenizer], [Decode], [JsonValid]), what a
    presenter decodes ([decodes] in [EndToEnd]), error texts ([ErrorText]), the
    kernel's stat structure ([Kernel]), /proc ([ProcFS]), what the system answers
    about a socket ([peerSocket]) and the bus daemon about a sender ([Bus]).
    Laws about them are classes beside them and state documented behaviour.

    ** Not modelled

    Parsing JSON text and the values of encoding/json (history/store.go,
    protocol/frame.go), which are parameters; the passing of time in the
    deadlines of sockets and in timers, of which the step relations only know
    that they may fire; the log.  They belong to the language's libraries or
    the operating system and have no state of the program's own. *)
From stdpp Require Import gmap strings list fin_maps.
From Stdlib Require Import ZArith Lia Strings.Byte.
Local Open Scope string_scope.
Local Open Scope list_scope.
Local Open Scope Z_scope.

(** ** Machine integers *)

(** A Go integer of width w is a [Z]; the wrap-around of unsigned arithmetic is
    written out where the source relies on it. *)
Definition wrap32 (z : Z) : Z := z mod 4294967296.
Definition wrap64 (z : Z) : Z := z mod 18446744073709551616.
Definition maxInt64 : Z := 9223372036854775807.
Definition minInt64 : Z := -9223372036854775808.
Definition is_u32 (z : Z) : Prop := 0 <= z < 4294967296.
Definition is_u64 (z : Z) : Prop := 0 <= z < 18446744073709551616.
Definition is_i32 (z : Z) : Prop := -2147483648 <= z < 2147483648.

Lemma wrap32_small z : is_u32 z -> wrap32 z = z.
Proof. unfold wrap32, is_u32. intros. apply Z.mod_small. lia. Qed.

Lemma wrap32_range z : is_u32 (wrap32 z).
Proof. unfold wrap32, is_u32. apply Z.mod_pos_bound. lia. Qed.

Lemma wrap64_small z : is_u64 z -> wrap64 z = z.
Proof. unfold wrap64, is_u64. intros. apply Z.mod_small. lia. Qed.

Lemma wrap64_range z : is_u64 (wrap64 z).
Proof. unfold wrap64, is_u64. apply Z.mod_pos_bound. lia. Qed.

(** [len] of a string (a byte sequence in Go) and of a slice. *)
Definition slen (s : string) : Z := Z.of_nat (String.length s).
Definition zlen {A} (l : list A) : Z := Z.of_nat (length l).

Lemma zlen_nonneg {A} (l : list A) : 0 <= zlen l.
Proof. unfold zlen. lia. Qed.

Lemma zlen_app {A} (l k : list A) : zlen (l ++ k) = zlen l + zlen k.
Proof. unfold zlen. rewrite length_app. lia. Qed.

Lemma zlen_cons {A} (x : A) l : zlen (x :: l) = 1 + zlen l.
Proof. unfold zlen. simpl. lia. Qed.

Lemma zlen_nil {A} : zlen (@nil A) = 0.
Proof. reflexivity. Qed.

Lemma slen_nonneg s : 0 <= slen s.
Proof. unfold slen. lia. Qed.

Lemma slen_app s t : slen (String.append s t) = slen s + slen t.
Proof.
  unfold slen. induction s as [|c s IH]; [done|].
  change (String.append (String c s) t) with (String c (String.append s t)).
  cbn [String.length]. lia.
Qed.

#[export] Instance byte_eq_dec : EqDecision Byte.byte := Byte.byte_eq_dec.

(** ** Errors *)

(** Go's [error] values.  [errors.New] and [fmt.Errorf] without [%w] are
    [ErrNew] with their (format) text, where one quoted argument matters
    [ErrQuoted] with the text before it and the argument of its [%q];
    [fmt.Errorf] with [%w] is [ErrWrap],
    [errors.Join] is [ErrJoin]; the sentinels the code tests with [errors.Is]
    are constructors.  A function that returns [error] returns [option error],
    with [None] for [nil]. *)
Inductive error : Type :=
  | ErrNotFound
  | ErrStale
  | ErrCanceled
  | ErrDeadlineExceeded
  | ErrNotExist
  | ErrExist
  | ErrFileTooLarge
  | ErrEOF
  | ErrShortWrite
  | ErrNew (msg : string)
  | ErrQuoted (prefix arg : string)
  | ErrWrap (fmt : string) (inner : error)
  | ErrJoin (errs : list error).

(** [errors.Is] against one of the sentinels, given as a test. *)
Fixpoint errors_Is (target : error -> bool) (e : error) : bool :=
  target e ||
  match e with
  | ErrWrap _ inner => errors_Is target inner
  | ErrJoin errs => existsb (errors_Is target) errs
  | _ => false
  end.

Definition isNotExist (e : error) : bool := match e with ErrNotExist => true | _ => false end.
Definition isExist (e : error) : bool := match e with ErrExist => true | _ => false end.
Definition isErrNotFound (e : error) : bool :=
  match e with ErrNotFound => true | _ => false end.
Definition isErrStale (e : error) : bool :=
  match e with ErrStale => true | _ => false end.
Definition isErrCanceled (e : error) : bool :=
  match e with ErrCanceled => true | _ => false end.
Definition isErrDeadlineExceeded (e : error) : bool :=
  match e with ErrDeadlineExceeded => true | _ => false end.

(** [errors.Join] of two possibly nil errors. *)
Definition errors_Join (a b : option error) : option error :=
  match a, b with
  | None, None => None
  | Some a, None => Some (ErrJoin [a])
  | None, Some b => Some (ErrJoin [b])
  | Some a, Some b => Some (ErrJoin [a; b])
  end.

(** [if cond { return errors.New(msg) }] and the sequencing of such checks. *)
Definition failIf (cond : bool) (e : error) : option error :=
  if cond then Some e else None.

Definition firstErr (a b : option error) : option error :=
  match a with Some e => Some e | None => b end.

Declare Scope go_scope.
Delimit Scope go_scope with go.
Notation "a ;;; b" := (firstErr a b) (at level 60, right associativity) : go_scope.
Open Scope go_scope.

(** [for _, x := range l { if err := f(x); err != nil { return err } }] *)
Fixpoint firstErrOf {A} (f : A -> option error) (l : list A) : option error :=
  match l with
  | [] => None
  | x :: l => f x ;;; firstErrOf f l
  end.

(** The source's loop that validates each element and refuses a repeated key,
    keeping the keys it has met in a [seen] map. *)
Fixpoint firstErrDistinct {A K} `{Countable K} (check : A -> option error)
    (key : A -> K) (dup : error) (seen : gset K) (l : list A) : option error :=
  match l with
  | [] => None
  | x :: l =>
      check x ;;;
      if decide (key x ∈ seen) then Some dup
      else firstErrDistinct check key dup ({[key x]} ∪ seen) l
  end.

Lemma failIf_None b e : failIf b e = None <-> b = false.
Proof. destruct b; cbn; intuition congruence. Qed.

Lemma firstErr_None a b : firstErr a b = None <-> a = None /\ b = None.
Proof. destruct a; cbn; intuition congruence. Qed.

Lemma firstErrOf_None {A} (f : A -> option error) l :
  firstErrOf f l = None <-> Forall (fun x => f x = None) l.
Proof.
  induction l as [|x l IH]; cbn; [by split|].
  by rewrite firstErr_None, IH, Forall_cons.
Qed.

(** Whether such a loop succeeds does not depend on the order of the elements:
    the source ranges over a map literal in several validators. *)
Lemma firstErrOf_perm {A} (f : A -> option error) l k :
  l ≡ₚ k -> firstErrOf f l = None <-> firstErrOf f k = None.
Proof. intros Hp. by rewrite !firstErrOf_None, Hp. Qed.

Lemma firstErrDistinct_None {A K} `{Countable K} (check : A -> option error)
    (key : A -> K) dup seen l :
  firstErrDistinct check key dup seen l = None <->
  Forall (fun x => check x = None) l /\ NoDup (key <$> l) /\
  Forall (fun x => key x ∉ seen) l.
Proof.
  revert seen. induction l as [|x l IH]; intros seen; cbn.
  - split; [|done]. intros _. repeat constructor.
  - rewrite firstErr_None. case_decide as Hin.
    + split; [by intros []|]. intros (_&_&Hf). by inversion Hf.
    + rewrite IH, !Forall_cons, NoDup_cons, !Forall_forall.
      rewrite list_elem_of_fmap. split.
      * intros (?&?&?&Hs). repeat split; try done.
        -- intros (y&Heq&Hy). specialize (Hs y Hy). set_solver.
        -- intros y Hy. specialize (Hs y Hy). set_solver.
      * intros ((?&?)&(Hx&?)&?&Hs). repeat split; try done.
        intros y Hy Hbad. apply elem_of_union in Hbad as [Hbad|Hbad].
        -- apply elem_of_singleton in Hbad. apply Hx. eauto.
        -- exact (Hs y Hy Hbad).
Qed.

Create Rewrite HintDb errs.
#[export] Hint Rewrite failIf_None firstErr_None @firstErrOf_None
  @firstErrDistinct_None orb_false_iff negb_false_iff andb_true_iff
  Z.eqb_eq Z.eqb_neq Z.ltb_ge Z.ltb_lt Z.leb_le Z.leb_gt bool_decide_eq_true
  bool_decide_eq_false : errs.

(** ** Slices *)

(** The source removes an id from a slice at its first occurrence. *)
Fixpoint removeFirst (id : Z) (l : list Z) : list Z :=
  match l with
  | [] => []
  | x :: l => if x =? id then l else x :: removeFirst id l
  end.

Lemma filter_all {A} (P : A -> Prop) `{!forall x, Decision (P x)} l :
  Forall P l -> filter P l = l.
Proof. induction 1; [done|]. by rewrite filter_cons_True, IHForall. Qed.

Lemma removeFirst_NoDup_eq id l :
  NoDup l -> removeFirst id l = filter (fun x => x <> id) l.
Proof.
  induction 1 as [|x l Hx _ IH]; [done|]. rewrite filter_cons. cbn [removeFirst].
  destruct (Z.eqb_spec x id) as [->|Hne]; case_decide; try done.
  - symmetry. apply filter_all. apply Forall_forall. by intros i Hi ->.
  - by rewrite IH.
Qed.

Lemma elem_of_removeFirst id l x :
  NoDup l -> x ∈ removeFirst id l <-> x ∈ l /\ x <> id.
Proof. intros. rewrite removeFirst_NoDup_eq by done. rewrite list_elem_of_filter. tauto. Qed.

Lemma NoDup_removeFirst id l : NoDup l -> NoDup (removeFirst id l).
Proof. intros. rewrite removeFirst_NoDup_eq by done. by apply NoDup_filter. Qed.

Lemma removeFirst_notin id l : id ∉ l -> removeFirst id l = l.
Proof.
  induction l as [|x l IH]; cbn; [done|]. rewrite not_elem_of_cons. intros [? ?].
  rewrite (proj2 (Z.eqb_neq x id)) by congruence. by rewrite IH.
Qed.

Lemma length_removeFirst id l : id ∈ l -> S (length (removeFirst id l)) = length l.
Proof.
  induction l as [|x l IH]; [by rewrite elem_of_nil|]. cbn.
  destruct (Z.eqb_spec x id) as [->|Hne]; [done|].
  rewrite elem_of_cons. intros [->|Hin]; [done|]. cbn. by rewrite IH.
Qed.

(** A Go map read of an absent key yields the zero value. *)
Definition lookup0 {K} `{Countable K} (m : gmap K Z) (k : K) : Z := default 0 (m !! k).

Lemma NoDup_snoc {A} (l : list A) x : NoDup (l ++ [x]) <-> NoDup l /\ x ∉ l.
Proof.
  rewrite NoDup_app. split.
  - intros (?&Hx&_). split; [done|]. intros Hin. by apply (Hx x Hin), list_elem_of_singleton.
  - intros [? ?]. split_and!; [done| |apply NoDup_singleton].
    intros y Hy ->%list_elem_of_singleton. done.
Qed.

(** ** Tactics *)

(** Turn [check = None] hypotheses and goals into the conjunction of the
    conditions they test. *)
Ltac inv_checks H := autorewrite with errs in H; cbn in H; destruct_and? H.
Ltac solve_checks := autorewrite with errs; cbn; repeat split; try lia; try done.

Ltac destruct_match :=
  match goal with
  | |- context [match ?x with _ => _ end] => destruct x eqn:?
  | H : context [match ?x with _ => _ end] |- _ => destruct x eqn:?
  end.
