(* ===== verification/GoLib.v ===== *)
(** * The parts of Go's standard library the program computes with

    [time.Time] and [time.Duration], [unicode/utf8] validity, [strconv]
    formatting, [encoding/hex], and the text [encoding/json] writes for the
    scalar values of the program's documents.  PNG coding and SHA-256 are not
    written out: the components that use them take them as parameters. *)
From stdpp Require Import gmap strings list fin_maps.
From Stdlib Require Import ZArith Lia Strings.Byte Strings.Ascii Wf_nat.
From S2P Require Import Prelude.
Local Open Scope string_scope.
Local Open Scope list_scope.
Local Open Scope Z_scope.

(** ** time *)

(** A [time.Time] is the number of nanoseconds since Go's zero time (1 January
    of year 1, UTC), so [IsZero] is equality with 0; [UTC()] changes the
    location only.  A [time.Duration] is a signed 64-bit count of
    nanoseconds. *)
Notation Time := Z (only parsing).
Notation Duration := Z (only parsing).

Definition Millisecond : Duration := 1000000.
Definition Second : Duration := 1000000000.
Definition Minute : Duration := 60 * Second.
Definition Hour : Duration := 60 * Minute.

Definition IsZero (t : Time) : bool := t =? 0.
Definition Before (t u : Time) : bool := t <? u.
Definition After (t u : Time) : bool := u <? t.
Definition AddTime (t : Time) (d : Duration) : Time := t + d.

(** [Time.Sub] saturates at the ends of the duration range. *)
Definition SubTime (t u : Time) : Duration := Z.max minInt64 (Z.min maxInt64 (t - u)).

Lemma SubTime_le t u d : 0 <= d -> t <= u + d -> SubTime t u <= d.
Proof. unfold SubTime, minInt64, maxInt64. lia. Qed.

(** Adding back the (clipped) remaining time never passes the later of the two
    instants. *)
Lemma AddTime_SubTime_le t u : AddTime u (Z.max 0 (SubTime t u)) <= Z.max t u.
Proof. unfold AddTime, SubTime, minInt64, maxInt64. lia. Qed.

(** ** unicode/utf8 *)

Definition byteVal (c : ascii) : Z := Z.of_nat (nat_of_ascii c).

Definition inRange (lo hi : Z) (c : ascii) : bool := (lo <=? byteVal c) && (byteVal c <=? hi).

Definition isCont (c : ascii) : bool := inRange 128 191 c.

(** The accepted byte sequences of [utf8.ValidString]: no overlong form, no
    surrogate, nothing above U+10FFFF. *)
Definition is2 (a b : ascii) : bool := inRange 194 223 a && isCont b.

Definition is3 (a b c : ascii) : bool :=
  ((inRange 224 224 a && inRange 160 191 b) ||
   ((inRange 225 236 a || inRange 238 239 a) && isCont b) ||
   (inRange 237 237 a && inRange 128 159 b)) && isCont c.

Definition is4 (a b c d : ascii) : bool :=
  ((inRange 240 240 a && inRange 144 191 b) ||
   (inRange 241 243 a && isCont b) ||
   (inRange 244 244 a && inRange 128 143 b)) && isCont c && isCont d.

Fixpoint ValidString (s : string) : bool :=
  match s with
  | EmptyString => true
  | String a s1 =>
      if inRange 0 127 a then ValidString s1
      else match s1 with
           | EmptyString => false
           | String b s2 =>
               if is2 a b then ValidString s2
               else match s2 with
                    | EmptyString => false
                    | String c s3 =>
                        if is3 a b c then ValidString s3
                        else match s3 with
                             | EmptyString => false
                             | String d s4 => if is4 a b c d then ValidString s4 else false
                             end
                    end
           end
  end.

(** ** strconv *)

Definition digit (n : Z) : ascii := ascii_of_nat (48 + Z.to_nat (n mod 10)).

(** [strconv.FormatUint(n, 10)]; 20 digits hold every 64-bit value. *)
Fixpoint formatUint (fuel : nat) (n : Z) (acc : string) : string :=
  match fuel with
  | O => acc
  | S fuel =>
      if n <? 10 then String (digit n) acc
      else formatUint fuel (n / 10) (String (digit n) acc)
  end.

Definition FormatUint (n : Z) : string := formatUint 20 n "".

(** [n] in exactly [w] decimal digits. *)
Fixpoint fixedDigits (w : nat) (n : Z) (acc : string) : string :=
  match w with
  | O => acc
  | S w => fixedDigits w (n / 10) (String (digit n) acc)
  end.

(** ** encoding/hex *)

Definition hexDigit (n : Z) : ascii :=
  ascii_of_nat (if n <? 10 then 48 + Z.to_nat n else 87 + Z.to_nat n).

Fixpoint hexEncode (l : list Byte.byte) : string :=
  match l with
  | [] => ""
  | b :: l =>
      let v := Z.of_N (Byte.to_N b) in
      String (hexDigit (v / 16)) (String (hexDigit (v mod 16)) (hexEncode l))
  end.

(** ** encoding/json: scalars *)

(** The double quote and the backslash, by code. *)
Definition dquote : ascii := "034"%char.
Definition backslash : ascii := "092"%char.

Definition quoted (s : string) : string :=
  String dquote (String.append s (String dquote "")).

Definition hex2 (c : ascii) : string :=
  String (hexDigit (byteVal c / 16)) (String (hexDigit (byteVal c mod 16)) "").

(** What [appendString] writes for one ASCII byte with HTML escaping on (the
    default of [json.Marshal]). *)
Definition escapeASCII (c : ascii) : string :=
  let v := byteVal c in
  if (v =? 34) || (v =? 92) then String backslash (String c "")
  else if v =? 8 then String backslash "b"
  else if v =? 12 then String backslash "f"
  else if v =? 10 then String backslash "n"
  else if v =? 13 then String backslash "r"
  else if v =? 9 then String backslash "t"
  else if (v <? 32) || (v =? 38) || (v =? 60) || (v =? 62)
       then String backslash (String.append "u00" (hex2 c))
  else String c "".

(** U+2028 and U+2029 (E2 80 A8 and E2 80 A9) are written as escapes, and a
    byte that starts no valid sequence as the replacement character's escape. *)
Definition escape3 (a b c : ascii) : string :=
  if (byteVal a =? 226) && (byteVal b =? 128) && ((byteVal c =? 168) || (byteVal c =? 169))
  then String backslash (String.append "u202" (String (hexDigit (byteVal c mod 16)) ""))
  else String a (String b (String c "")).

Definition escapeInvalid : string := String backslash "ufffd".

Fixpoint jsonEscape (s : string) : string :=
  match s with
  | EmptyString => ""
  | String a s1 =>
      if inRange 0 127 a then String.append (escapeASCII a) (jsonEscape s1)
      else match s1 with
           | EmptyString => escapeInvalid
           | String b s2 =>
               if is2 a b then String a (String b (jsonEscape s2))
               else match s2 with
                    | EmptyString => String.append escapeInvalid (jsonEscape s1)
                    | String c s3 =>
                        if is3 a b c then String.append (escape3 a b c) (jsonEscape s3)
                        else match s3 with
                             | EmptyString => String.append escapeInvalid (jsonEscape s1)
                             | String d s4 =>
                                 if is4 a b c d
                                 then String a (String b (String c (String d (jsonEscape s4))))
                                 else String.append escapeInvalid (jsonEscape s1)
                             end
                    end
           end
  end.

Definition jsonString (s : string) : string := quoted (jsonEscape s).
Definition jsonBool (b : bool) : string := if b then "true" else "false".
Definition jsonUint (n : Z) : string := FormatUint n.

(** One member of a JSON object: the key is a fixed identifier of the source,
    so it needs no escaping. *)
Definition jsonField (f : string * string) : string :=
  String.append (quoted f.1) (String ":"%char f.2).

Fixpoint joinComma (l : list string) : string :=
  match l with
  | [] => ""
  | [x] => x
  | x :: l => String.append x (String ","%char (joinComma l))
  end.

Definition jsonObject (fields : list (string * string)) : string :=
  String "{"%char (String.append (joinComma (map jsonField fields)) "}").

Definition jsonArray (items : list string) : string :=
  String "["%char (String.append (joinComma items) "]").

(** A member with the [omitempty] option. *)
Definition omitEmptyString (name value : string) : list (string * string) :=
  if String.eqb value "" then [] else [(name, jsonString value)].

(** ** encoding/json: time.Time *)

(** The civil date of a day number counted from 1 January of year 1. *)
Definition civil (days : Z) : Z * Z * Z :=
  let z := days + 306 in
  let era := z / 146097 in
  let doe := z mod 146097 in
  let yoe := (doe - doe / 1460 + doe / 36524 - doe / 146096) / 365 in
  let doy := doe - (365 * yoe + yoe / 4 - yoe / 100) in
  let mp := (5 * doy + 2) / 153 in
  let d := doy - (153 * mp + 2) / 5 + 1 in
  let m := if mp <? 10 then mp + 3 else mp - 9 in
  let y := yoe + era * 400 + (if m <=? 2 then 1 else 0) in
  (y, m, d).

(** The fraction of a second, its trailing zeros dropped. *)
Fixpoint fraction (w : nat) (n : Z) : string :=
  match w with
  | O => ""
  | S w => if n mod 10 =? 0 then fraction w (n / 10) else fixedDigits (S w) n ""
  end.

Definition secondsFraction (nanos : Z) : string :=
  if nanos =? 0 then "" else String "."%char (fraction 9 nanos).

(** [Time.MarshalJSON] of a UTC time: RFC 3339 with nanoseconds, an error for a
    year outside 0..9999. *)
Definition jsonTime (t : Time) : error + string :=
  let days := t / (24 * Hour) in
  let nanosOfDay := t mod (24 * Hour) in
  let '(y, m, d) := civil days in
  if (y <? 0) || (9999 <? y) then
    inl (ErrNew "Time.MarshalJSON: year outside of range [0,9999]")
  else
    let secs := nanosOfDay / Second in
    inr (quoted
      (fixedDigits 4 y (String "-"%char (fixedDigits 2 m (String "-"%char
      (fixedDigits 2 d (String "T"%char (fixedDigits 2 (secs / 3600) (String ":"%char
      (fixedDigits 2 (secs / 60 mod 60) (String ":"%char
      (fixedDigits 2 (secs mod 60)
        (String.append (secondsFraction (nanosOfDay mod Second)) "Z"))))))))))))).

(** ** Lengths *)

Lemma slen_cons c s : slen (String c s) = 1 + slen s.
Proof. unfold slen. cbn [String.length]. lia. Qed.

Lemma slen_nil : slen "" = 0.
Proof. reflexivity. Qed.

Create Rewrite HintDb slen.
#[export] Hint Rewrite slen_app slen_cons slen_nil : slen.

Lemma slen_quoted s : slen (quoted s) = 2 + slen s.
Proof. unfold quoted. autorewrite with slen. lia. Qed.
#[export] Hint Rewrite slen_quoted : slen.

Lemma slen_fixedDigits w n acc : slen (fixedDigits w n acc) = Z.of_nat w + slen acc.
Proof. revert n acc. induction w as [|w IHw]; intros; cbn -[slen]; rewrite ?IHw; autorewrite with slen; lia. Qed.

Lemma slen_formatUint fuel n acc :
  slen acc <= slen (formatUint fuel n acc) <= Z.of_nat fuel + slen acc.
Proof.
  revert n acc. induction fuel as [|f IH]; intros; cbn [formatUint]; [lia|].
  destruct (n <? 10); [autorewrite with slen; lia|].
  specialize (IH (n / 10) (String (digit n) acc)). autorewrite with slen in IH. lia.
Qed.

Lemma slen_FormatUint n : 0 <= slen (FormatUint n) <= 20.
Proof. pose proof (slen_formatUint 20 n "") as H. change (slen "") with 0 in H.
  unfold FormatUint. lia. Qed.

Lemma slen_fraction w n : slen (fraction w n) <= Z.of_nat w.
Proof.
  revert n. induction w as [|w IH]; intros n; [reflexivity|]. cbn [fraction].
  destruct (_ =? 0); [specialize (IH (n / 10)); lia|].
  rewrite slen_fixedDigits. change (slen "") with 0. lia.
Qed.

Lemma jsonTime_length t s : jsonTime t = inr s -> slen s <= 32.
Proof.
  unfold jsonTime. destruct (civil _) as [[y m] d]. destruct (_ || _); [done|].
  intros [= <-]. rewrite slen_quoted.
  repeat (rewrite slen_fixedDigits || rewrite slen_cons).
  rewrite slen_app. unfold secondsFraction.
  change (slen "Z") with 1. destruct (_ =? 0); [change (slen "") with 0; lia|].
  rewrite slen_cons. pose proof (slen_fraction 9 (t mod (24 * Hour) mod Second)). lia.
Qed.

Lemma slen_escapeASCII c : 1 <= slen (escapeASCII c) <= 6.
Proof. unfold escapeASCII, hex2. repeat case_match; autorewrite with slen; cbn; lia. Qed.

Lemma slen_escape3 a b c : 3 <= slen (escape3 a b c) <= 6.
Proof. unfold escape3. case_match; autorewrite with slen; cbn; lia. Qed.

(** Escaping costs at most six bytes for each byte of text. *)
Lemma slen_jsonEscape s : slen s <= slen (jsonEscape s) <= 6 * slen s.
Proof.
  induction s as [s IH] using (induction_ltof1 _ String.length). unfold ltof in IH.
  destruct s as [|a s1]; [change (jsonEscape "") with ""; rewrite slen_nil; lia|].
  cbn [String.length] in IH.
  assert (slen escapeInvalid = 6) as Hinv by reflexivity.
  pose proof (IH s1 ltac:(cbn; lia)) as H1.
  pose proof (slen_escapeASCII a).
  cbn [jsonEscape]. destruct (inRange 0 127 a); [autorewrite with slen; lia|].
  destruct s1 as [|b s2]; [autorewrite with slen; lia|].
  pose proof (IH s2 ltac:(cbn; lia)) as H2.
  destruct (is2 a b); [autorewrite with slen in *; lia|].
  destruct s2 as [|c s3]; [autorewrite with slen in *; lia|].
  pose proof (IH s3 ltac:(cbn; lia)) as H3.
  pose proof (slen_escape3 a b c).
  destruct (is3 a b c); [autorewrite with slen in *; lia|].
  destruct s3 as [|d s4]; [autorewrite with slen in *; lia|].
  pose proof (IH s4 ltac:(cbn; lia)) as H4.
  destruct (is4 a b c d); autorewrite with slen in *; lia.
Qed.

Lemma slen_jsonField f : slen (jsonField f) = 3 + slen f.1 + slen f.2.
Proof. unfold jsonField. autorewrite with slen. lia. Qed.

(** The length of a comma-separated list: the items and a comma between each
    two of them. *)
Definition sumLen (l : list string) : Z := foldr (fun s n => slen s + n) 0 l.

Lemma slen_joinComma l : slen (joinComma l) = sumLen l + Z.max 0 (zlen l - 1).
Proof.
  induction l as [|x l IH]; [reflexivity|]. destruct l as [|y l].
  - cbn. unfold zlen. cbn. lia.
  - change (joinComma (x :: y :: l)) with (String.append x (String ","%char (joinComma (y :: l)))).
    autorewrite with slen. rewrite IH. unfold zlen. cbn [sumLen foldr length]. lia.
Qed.

Lemma slen_jsonArray l : slen (jsonArray l) = 2 + sumLen l + Z.max 0 (zlen l - 1).
Proof. unfold jsonArray. autorewrite with slen. rewrite slen_joinComma. change (slen "]") with 1. lia. Qed.

Lemma slen_jsonObject l :
  slen (jsonObject l) = 2 + sumLen (map jsonField l) + Z.max 0 (zlen l - 1).
Proof.
  unfold jsonObject. autorewrite with slen. rewrite slen_joinComma. change (slen "}") with 1.
  unfold zlen. rewrite length_map. lia.
Qed.

Lemma sumLen_app l k : sumLen (l ++ k) = sumLen l + sumLen k.
Proof. induction l as [|x l IH]; cbn; [done|]. unfold sumLen in *. lia. Qed.
