(* ===== verification/Paths.v ===== *)
(** * Paths and programs over system calls

    The functions of [path/filepath] and [strings] that the program builds its
    directories with, on Unix, and a free monad of system calls: what the code
    does between two calls is Gallina, and what a call answers is left open,
    so that whatever other processes do to the file system in the meantime is
    covered.  [exec] relates a program to what it can say and return. *)
From stdpp Require Import base gmap list strings.
From Stdlib Require Import ZArith Lia Ascii.
From S2P Require Import Prelude GoLib.
Local Open Scope string_scope.
Local Open Scope list_scope.
Local Open Scope Z_scope.

(** ** path/filepath *)

Definition separator : ascii := "/"%char.

(** [strings.Split] at the separator. *)
Fixpoint splitSlash (s : string) : list string :=
  match s with
  | EmptyString => [""]
  | String c s =>
      if Ascii.eqb c separator then "" :: splitSlash s
      else match splitSlash s with x :: rest => String c x :: rest | [] => [String c ""] end
  end.

Definition IsAbs (path : string) : bool := match path with String c _ => Ascii.eqb c separator | EmptyString => false end.

(** One element of [filepath.Clean]; the result so far is in reverse. *)
Definition cleanStep (rooted : bool) (out : list string) (part : string) : list string :=
  if String.eqb part "" || String.eqb part "." then out
  else if String.eqb part ".." then
    match out with
    | x :: out' => if String.eqb x ".." then ".." :: out else out'
    | [] => if rooted then [] else [".."]
    end
  else part :: out.

Definition filepath_Clean (path : string) : string :=
  let out := String.concat "/" (rev (fold_left (cleanStep (IsAbs path)) (splitSlash path) [])) in
  if IsAbs path then String separator out else if String.eqb out "" then "." else out.

(** [filepath.Join] of two elements. *)
Definition filepath_Join (a b : string) : string :=
  if String.eqb a "" then if String.eqb b "" then "" else filepath_Clean b
  else filepath_Clean (String.append a (String separator b)).

(** [filepath.Split]: up to the last separator, and what follows it. *)
Fixpoint filepath_Split (path : string) : string * string :=
  match path with
  | EmptyString => ("", "")
  | String c path =>
      let '(dir, base) := filepath_Split path in
      if String.eqb dir "" && negb (Ascii.eqb c separator) then ("", String c base) else (String c dir, base)
  end.

(** ** Absolute clean paths *)

Fixpoint noSlash (s : string) : bool :=
  match s with EmptyString => true | String c s => negb (Ascii.eqb c separator) && noSlash s end.

(** An element that a clean path keeps. *)
Definition component (s : string) : Prop := noSlash s = true /\ s <> "" /\ s <> "." /\ s <> "..".

Definition pathOf (cs : list string) : string := String separator (String.concat "/" cs).

Lemma splitSlash_plain s : noSlash s = true -> splitSlash s = [s].
Proof.
  induction s as [|c s IH]; [done|]. cbn [noSlash splitSlash]. intros [Hc Hs]%andb_true_iff. apply negb_true_iff in Hc.
  by rewrite Hc, IH.
Qed.

Lemma splitSlash_sep s : splitSlash (String separator s) = "" :: splitSlash s.
Proof. done. Qed.

Lemma splitSlash_ne s : splitSlash s <> [].
Proof. destruct s as [|c s]; [done|]. cbn [splitSlash]. destruct (Ascii.eqb c separator); [done|]. by destruct (splitSlash s). Qed.

Lemma splitSlash_app s t : splitSlash (String.append s (String separator t)) = splitSlash s ++ splitSlash t.
Proof.
  induction s as [|c s IH]; [done|]. change (String.append (String c s) ?x) with (String c (String.append s x)). cbn [splitSlash]. destruct (Ascii.eqb c separator); [by rewrite IH|].
  rewrite IH. pose proof (splitSlash_ne s). by destruct (splitSlash s).
Qed.

Lemma component_plain cs : Forall component cs -> Forall (fun c => noSlash c = true) cs.
Proof. intros Hcs. eapply Forall_impl; [exact Hcs|]. by intros c []. Qed.

Lemma splitSlash_concat cs : cs <> [] -> Forall component cs -> splitSlash (String.concat "/" cs) = cs.
Proof.
  intros Hne Hcs. induction Hcs as [|c cs Hc Hcs IH]; [done|]. destruct cs as [|d cs]; [by apply splitSlash_plain, Hc|].
  change (String.concat "/" (c :: d :: cs)) with (String.append c (String separator (String.concat "/" (d :: cs)))).
  rewrite splitSlash_app, splitSlash_plain by apply Hc. by rewrite IH.
Qed.

Lemma cleanStep_component rooted out c : component c -> cleanStep rooted out c = c :: out.
Proof.
  intros (_&H1&H2&H3). unfold cleanStep. apply String.eqb_neq in H1, H2, H3. by rewrite H1, H2, H3.
Qed.

Lemma clean_components rooted cs out : Forall component cs -> fold_left (cleanStep rooted) cs out = rev cs ++ out.
Proof.
  intros Hcs. revert out. induction Hcs as [|c cs Hc _ IH]; intros out; [done|]. cbn [fold_left rev].
  rewrite cleanStep_component, IH by done. by rewrite <-app_assoc.
Qed.

(** What cleaning makes of the parts of a rooted path. *)
Lemma clean_pathOf cs : Forall component cs -> fold_left (cleanStep true) (splitSlash (pathOf cs)) [] = rev cs.
Proof.
  intros Hcs. unfold pathOf. rewrite splitSlash_sep. destruct (decide (cs = [])) as [->|Hne]; [done|]. cbn [fold_left]. change (cleanStep true [] "") with (@nil string).
  by rewrite splitSlash_concat, clean_components, app_nil_r.
Qed.

Lemma Clean_rooted path cs :
  IsAbs path = true -> fold_left (cleanStep true) (splitSlash path) [] = rev cs -> filepath_Clean path = pathOf cs.
Proof. intros Ha Hf. unfold filepath_Clean. by rewrite Ha, Hf, rev_involutive. Qed.

Lemma Clean_pathOf cs : Forall component cs -> filepath_Clean (pathOf cs) = pathOf cs.
Proof. intros Hcs. by apply Clean_rooted, clean_pathOf. Qed.

Lemma Join_pathOf cs c : Forall component cs -> component c -> filepath_Join (pathOf cs) c = pathOf (cs ++ [c]).
Proof.
  intros Hcs Hc. unfold filepath_Join. change (String.eqb (pathOf cs) "") with false. cbn iota.
  apply Clean_rooted; [done|]. rewrite splitSlash_app, fold_left_app, clean_pathOf, splitSlash_plain by (done || apply Hc).
  cbn [fold_left]. by rewrite cleanStep_component, rev_app_distr.
Qed.

(** Cleaning an absolute path gives an absolute clean path. *)
Lemma cleanStep_components out part :
  noSlash part = true -> Forall component out -> Forall component (cleanStep true out part).
Proof.
  intros Hn Hout. unfold cleanStep. destruct (String.eqb_spec part ""), (String.eqb_spec part "."); [done..|]. cbn [orb].
  destruct (String.eqb_spec part ".."); [|by constructor]. destruct Hout as [|x out Hx Hout]; [done|].
  destruct (String.eqb_spec x ".."); [|done]. by destruct Hx as (_&_&_&?).
Qed.

Lemma splitSlash_parts s : Forall (fun c => noSlash c = true) (splitSlash s).
Proof.
  induction s as [|c s IH]; [by repeat constructor|]. cbn [splitSlash]. destruct (Ascii.eqb c separator) eqn:Hc; [by constructor|].
  destruct IH as [|x rest Hx Hrest]; constructor; [|done| |done]; cbn [noSlash]; by rewrite Hc.
Qed.

Lemma Clean_abs path : IsAbs path = true -> exists cs, Forall component cs /\ filepath_Clean path = pathOf cs.
Proof.
  intros Ha. exists (rev (fold_left (cleanStep true) (splitSlash path) [])). split; [|by apply Clean_rooted; [|rewrite rev_involutive]].
  apply Forall_rev. pose proof (splitSlash_parts path) as Hp.
  assert (forall out, Forall component out -> Forall component (fold_left (cleanStep true) (splitSlash path) out)) as Hf; [|by apply Hf].
  induction Hp as [|x l Hx _ IH]; intros out Hout; [done|]. cbn [fold_left]. by apply IH, cleanStep_components.
Qed.

Lemma append_nil_r s : String.append s "" = s.
Proof. induction s as [|c s IH]; [done|]. change (String.append (String c s) "") with (String c (String.append s "")). by rewrite IH. Qed.

Lemma append_assoc s t u : String.append (String.append s t) u = String.append s (String.append t u).
Proof.
  induction s as [|c s IH]; [done|]. change (String.append (String c s) ?x) with (String c (String.append s x)).
  by rewrite <-IH.
Qed.

Lemma Split_append s c : noSlash c = true -> filepath_Split (String.append s (String separator c)) = (String.append s "/", c).
Proof.
  intros Hc. assert (forall c, noSlash c = true -> filepath_Split c = ("", c)) as Hplain.
  { clear. induction c as [|a c IH]; [done|]. cbn [noSlash filepath_Split]. intros [Ha Hc]%andb_true_iff. by rewrite IH, Ha. }
  induction s as [|a s IH].
  - change (String.append "" ?x) with x. cbn [filepath_Split]. rewrite Hplain by done. done.
  - change (String.append (String a s) ?x) with (String a (String.append s x)). cbn [filepath_Split]. rewrite IH.
    by destruct s.
Qed.

Lemma concat_snoc cs c : cs <> [] -> String.concat "/" (cs ++ [c]) = String.append (String.concat "/" cs) (String separator c).
Proof.
  induction cs as [|d cs IH]; [done|]. intros _. destruct cs as [|e cs]; [done|].
  change (String.concat "/" ((d :: e :: cs) ++ [c])) with (String.append d (String separator (String.concat "/" ((e :: cs) ++ [c])))).
  change (String.concat "/" (d :: e :: cs)) with (String.append d (String separator (String.concat "/" (e :: cs)))).
  rewrite IH, append_assoc by done. done.
Qed.

Lemma Split_pathOf cs c :
  component c -> filepath_Split (pathOf (cs ++ [c])) = (if decide (cs = []) then "/" else String.append (pathOf cs) "/", c).
Proof.
  intros Hc. case_decide as Hn.
  - subst. exact (Split_append "" c (proj1 Hc)).
  - unfold pathOf. rewrite concat_snoc by done. apply (Split_append (String separator (String.concat "/" cs))), Hc.
Qed.

Lemma Clean_dir cs : Forall component cs -> filepath_Clean (if decide (cs = []) then "/" else String.append (pathOf cs) "/") = pathOf cs.
Proof.
  intros Hcs. case_decide; [by subst|]. apply Clean_rooted; [done|].
  rewrite (splitSlash_app (pathOf cs) "" : splitSlash (String.append (pathOf cs) "/") = _), fold_left_app, clean_pathOf by done. done.
Qed.

Lemma pathOf_inj cs ds : Forall component cs -> Forall component ds -> pathOf cs = pathOf ds -> cs = ds.
Proof.
  intros Hcs Hds Heq. apply (f_equal splitSlash) in Heq. unfold pathOf in Heq. rewrite !splitSlash_sep in Heq. injection Heq as Heq.
  destruct (decide (cs = [])) as [->|Hc], (decide (ds = [])) as [->|Hd]; [done| | |].
  - rewrite (splitSlash_concat ds) in Heq by done. subst ds. by apply Forall_cons in Hds as [(_&?&_) _].
  - rewrite (splitSlash_concat cs) in Heq by done. subst cs. by apply Forall_cons in Hcs as [(_&?&_) _].
  - by rewrite !splitSlash_concat in Heq.
Qed.

(** ** System calls *)

(** What the program looks at in an [os.FileInfo]: the mode, and the owner. *)
Record stat := mkStat { sm_Mode : Z; sm_Uid : Z }.

Definition ModeDir : Z := Z.shiftl 1 31.
Definition ModeSymlink : Z := Z.shiftl 1 27.
Definition ModeSocket : Z := Z.shiftl 1 24.

Definition hasMode (m : Z) (i : stat) : bool := negb (Z.land (sm_Mode i) m =? 0).
Definition IsDir (i : stat) : bool := hasMode ModeDir i.
Definition Perm (i : stat) : Z := Z.land (sm_Mode i) 511.

Inductive sysop :=
  | SysGetwd
  | SysLstat (path : string)
  | SysMkdir (path : string) (mode : Z)
  | SysChmod (path : string) (mode : Z)
  | SysRemove (path : string)
  | SysDial (path : string)
  | SysListen (path : string)
  | SysCloseListener
  | SysRandom (n : Z)
  | SysRename (from to : string)
  | SysSyncDir (path : string).

Definition answer (op : sysop) : Type :=
  match op with
  | SysGetwd => error + string
  | SysLstat _ => error + stat
  | SysRandom _ => error + list Byte.byte
  | _ => option error
  end.

Inductive prog (A : Type) :=
  | Ret (a : A)
  | Sys (op : sysop) (k : answer op -> prog A).
Arguments Ret {A}.
Arguments Sys {A}.

#[global] Instance prog_ret : MRet prog := @Ret.
#[global] Instance prog_bind : MBind prog := fun A B f =>
  fix bind m := match m with Ret a => f a | Sys op k => Sys op (fun a => bind (k a)) end.

Definition sys (op : sysop) : prog (answer op) := Sys op Ret.

(** [if err := m; err != nil { return err }] *)
Definition andThen {A} (m : prog (option error)) (k : prog (error + A)) : prog (error + A) :=
  err ← m; match err with Some e => Ret (inl e) | None => k end.

(** A call with its answer. *)
Definition called : Type := { op : sysop & answer op }.
Definition said (op : sysop) (a : answer op) : called := existT op a.

(** What a program can do and return, whatever the calls answer. *)
Fixpoint exec {A} (m : prog A) (tr : list called) (r : A) : Prop :=
  match m with
  | Ret a => tr = [] /\ r = a
  | Sys op k => exists a tr', tr = said op a :: tr' /\ exec (k a) tr' r
  end.

Lemma exec_bind {A B} (m : prog A) (f : A -> prog B) tr r :
  exec (m ≫= f) tr r <-> exists tr1 tr2 a, tr = tr1 ++ tr2 /\ exec m tr1 a /\ exec (f a) tr2 r.
Proof.
  revert tr. induction m as [a|op k IH]; intros tr; cbn.
  - split; [intros Hr; by exists [], tr, a|]. by intros (tr1&tr2&b&->&[-> ->]&Hr).
  - split.
    + intros (a&tr'&->&Hr). apply (IH a) in Hr as (tr1&tr2&b&->&Hm&Hf). exists (said op a :: tr1), tr2, b. split; [done|]. eauto.
    + intros (tr1&tr2&b&->&(a&tr'&->&Hm)&Hf). exists a, (tr' ++ tr2). split; [done|]. apply (IH a). eauto 6.
Qed.

Lemma exec_sys {A} op (f : answer op -> prog A) tr r :
  exec (sys op ≫= f) tr r <-> exists a tr', tr = said op a :: tr' /\ exec (f a) tr' r.
Proof. done. Qed.

Lemma exec_andThen {A} m (k : prog (error + A)) tr r :
  exec (andThen m k) tr r <->
  (exists e, r = inl e /\ exec m tr (Some e)) \/ (exists tr1 tr2, tr = tr1 ++ tr2 /\ exec m tr1 None /\ exec k tr2 r).
Proof.
  unfold andThen. rewrite exec_bind. split.
  - intros (tr1&tr2&[e|]&->&Hm&Hk); [left|right; eauto]. destruct Hk as [-> ->]. exists e. by rewrite app_nil_r.
  - intros [(e&->&Hm)|(tr1&tr2&->&Hm&Hk)]; [exists tr, [], (Some e)|by exists tr1, tr2, None]. by rewrite app_nil_r.
Qed.

(** Every call a program can make is in [P]. *)
Fixpoint calls {A} (P : sysop -> Prop) (m : prog A) : Prop :=
  match m with Ret _ => True | Sys op k => P op /\ forall a, calls P (k a) end.

Lemma calls_bind {A B} P (m : prog A) (f : A -> prog B) : calls P m -> (forall a, calls P (f a)) -> calls P (m ≫= f).
Proof. intros Hm Hf. induction m as [a|op k IH]; [apply Hf|]. destruct Hm as [Hop Hk]. split; [done|]. intros a. by apply (IH a). Qed.

Lemma calls_andThen {A} P m (k : prog (error + A)) : calls P m -> calls P k -> calls P (andThen m k).
Proof. intros Hm Hk. apply calls_bind; [done|]. by intros [e|]. Qed.

Lemma calls_exec {A} P (m : prog A) tr r : calls P m -> exec m tr r -> Forall (fun c => P (projT1 c)) tr.
Proof.
  revert tr. induction m as [a|op k IH]; intros tr; cbn; [intros _ [-> _]; apply List.Forall_nil|].
  intros [Hop Hk] (a&tr'&->&Hr). constructor; [done|]. by apply (IH a).
Qed.

(** A run against answers that are functions of a state. *)
Fixpoint runOn {W A} (h : forall op, W -> W * answer op) (m : prog A) (w : W) : W * A :=
  match m with
  | Ret a => (w, a)
  | Sys op k => let '(w, a) := h op w in runOn h (k a) w
  end.

Lemma runOn_bind {W A B} h (m : prog A) (f : A -> prog B) (w : W) :
  runOn h (m ≫= f) w = let '(w, a) := runOn h m w in runOn h (f a) w.
Proof. revert w. induction m as [a|op k IH]; intros w; cbn; [done|]. destruct (h op w) as [w' a]. apply (IH a). Qed.

Lemma runOn_andThen {W A} h m (k : prog (error + A)) (w : W) :
  runOn h (andThen m k) w = let '(w, e) := runOn h m w in match e with Some e => (w, inl e) | None => runOn h k w end.
Proof. unfold andThen. rewrite runOn_bind. by destruct (runOn h m w) as [w' [e|]]. Qed.

(** The calls of such a run. *)
Fixpoint traceOn {W A} (h : forall op, W -> W * answer op) (m : prog A) (w : W) : list called :=
  match m with Ret _ => [] | Sys op k => said op (h op w).2 :: traceOn h (k (h op w).2) (h op w).1 end.

Lemma traceOn_exec {W A} h (m : prog A) (w : W) : exec m (traceOn h m w) (runOn h m w).2.
Proof.
  revert w. induction m as [a|op k IH]; intros w; cbn; [done|]. destruct (h op w) as [w' a]. cbn. eexists _, _. split; [done|]. apply (IH a w').
Qed.

(** ** A file system that nobody else changes *)

(** The files by their clean absolute paths, the sockets on which somebody
    answers, and the user who makes files. *)
Record disk := mkDisk { dk_files : gmap string stat; dk_live : string -> bool; dk_uid : Z; dk_wd : string }.

Definition set_files (f : gmap string stat) (d : disk) : disk := mkDisk f (dk_live d) (dk_uid d) (dk_wd d).

Definition errNoSuchFile : error := ErrWrap "%w" ErrNotExist.
Definition errFileExists : error := ErrWrap "%w" ErrExist.

Definition isDirAt (p : string) (d : disk) : bool :=
  String.eqb p "/" || match dk_files d !! p with Some i => IsDir i | None => false end.

(** A new file at a path that is free, in a directory. *)
Definition newFile (p : string) (mode : Z) (d : disk) : disk * option error :=
  match dk_files d !! p with
  | Some _ => (d, Some errFileExists)
  | None =>
      if isDirAt (filepath_Clean (filepath_Split p).1) d
      then (set_files (<[p := mkStat mode (dk_uid d)]> (dk_files d)) d, None) else (d, Some errNoSuchFile)
  end.

(** Setting the permissions leaves the kind of a file. *)
Definition chmodded (perm : Z) (i : stat) : stat := mkStat (Z.lor (Z.ldiff (sm_Mode i) 511) perm) (sm_Uid i).

Definition quietDisk (op : sysop) (d : disk) : disk * answer op :=
  match op as op return disk * answer op with
  | SysGetwd => (d, inr (dk_wd d))
  | SysLstat p => (d, match dk_files d !! p with Some i => inr i | None => inl errNoSuchFile end)
  | SysMkdir p mode => newFile p (Z.lor ModeDir mode) d
  | SysChmod p mode =>
      match dk_files d !! p with
      | Some i => (set_files (<[p := chmodded mode i]> (dk_files d)) d, None)
      | None => (d, Some errNoSuchFile)
      end
  | SysRemove p =>
      match dk_files d !! p with
      | Some _ => (set_files (delete p (dk_files d)) d, None)
      | None => (d, Some errNoSuchFile)
      end
  | SysDial p => (d, if dk_live d p then None else Some (ErrNew "connection refused"))
  | SysListen p => newFile p (Z.lor ModeSocket 493) d
  | SysCloseListener => (d, None)
  | SysRandom n => (d, inr (replicate (Z.to_nat n) Byte.x00))
  | SysRename from to =>
      match dk_files d !! from with
      | Some i => (set_files (<[to := i]> (delete from (dk_files d))) d, None)
      | None => (d, Some errNoSuchFile)
      end
  | SysSyncDir _ => (d, None)
  end.

Lemma newFile_free d cs c mode :
  Forall component cs -> component c -> dk_files d !! pathOf (cs ++ [c]) = None -> isDirAt (pathOf cs) d = true ->
  newFile (pathOf (cs ++ [c])) mode d =
    (set_files (<[pathOf (cs ++ [c]) := mkStat mode (dk_uid d)]> (dk_files d)) d, None).
Proof. intros Hcs Hc Hn Hd. unfold newFile. rewrite Hn, Split_pathOf by done. cbn [fst]. by rewrite Clean_dir, Hd. Qed.

Lemma low_bits perm n : 0 <= perm < 512 -> 9 <= n -> Z.testbit perm n = false.
Proof.
  intros Hp Hn. destruct (decide (perm = 0)) as [->|]; [apply Z.bits_0|]. apply Z.bits_above_log2; [lia|].
  enough (Z.log2 perm < 9) by lia. apply Z.log2_lt_pow2; lia.
Qed.

Lemma perm_mask n : 0 <= n -> Z.testbit 511 n = (n <? 9).
Proof. intros Hn. change 511 with (Z.ones 9). rewrite Z.testbit_ones_nonneg by lia. done. Qed.

Lemma chmodded_perm perm i : 0 <= perm < 512 -> Perm (chmodded perm i) = perm.
Proof.
  intros Hp. unfold Perm, chmodded. cbn [sm_Mode]. apply Z.bits_inj'. intros n Hn.
  rewrite Z.land_spec, Z.lor_spec, Z.ldiff_spec, !perm_mask by done. destruct (Z.ltb_spec n 9).
  - by rewrite andb_false_r, andb_true_r.
  - by rewrite andb_false_r, low_bits.
Qed.

Lemma chmodded_mode perm k i : 0 <= perm < 512 -> 9 <= k -> hasMode (Z.shiftl 1 k) (chmodded perm i) = hasMode (Z.shiftl 1 k) i.
Proof.
  intros Hp Hk. unfold hasMode, chmodded. cbn [sm_Mode]. f_equal. f_equal. apply Z.bits_inj'. intros n Hn.
  rewrite !Z.land_spec, Z.lor_spec, Z.ldiff_spec, perm_mask, Z.shiftl_1_l, Z.pow2_bits_eqb by lia.
  destruct (Z.eqb_spec k n) as [<-|]; [|by rewrite !andb_false_r]. rewrite (proj2 (Z.ltb_ge k 9)), (low_bits perm k) by lia.
  by rewrite andb_true_r, orb_false_r.
Qed.
