(* ===== verification/Protocol.v ===== *)
(** * protocol: the wire types and their validators

    The records and constants of [protocol/types.go] and every [Validate] of
    [protocol/validate.go].  A struct is a Record whose fields carry a short
    prefix (Go resolves field names by type, Rocq by name); a string-typed
    enumeration is an Inductive with one constructor for each declared constant
    and one for any other text, which the validators refuse. *)
From stdpp Require Import gmap strings list fin_maps.
From Stdlib Require Import ZArith Lia Strings.Byte.
From S2P Require Import Prelude GoLib.
Local Open Scope string_scope.
Local Open Scope list_scope.
Local Open Scope Z_scope.

(** ** Constants *)

Definition ProtocolMajor : Z := 1.
Definition ProtocolMinor : Z := 2.
Definition RolePresenter : string := "presenter".
Definition CapabilityBatteryProducer : string := "battery-producer".
Definition MaxActiveNotifications : Z := 128.
Definition MaxBodyBytes : Z := 16384.
Definition MaxActionPairs : Z := 6.
Definition MaxHints : Z := 64.
Definition MaxSourceImageDimension : Z := 4096.
Definition MaxSourceImageBytes : Z := 16777216.
Definition MaxWireImageLongEdge : Z := 512.
Definition MaxWireImageBytes : Z := 1048576.
Definition MaxLineageEntries : Z := 16.
Definition MaxHistoryEntries : Z := 100.
Definition MaxPresenterQueueMessages : Z := 256.
Definition MaxPresenterDecodedBytes : Z := 33554432.
Definition MaxProducerKeyBytes : Z := 128.
Definition HistoryRetention : Duration := 7 * 24 * Hour.

(** ** Records *)

Definition UrgencyLow : Z := 0.
Definition UrgencyNormal : Z := 1.
Definition UrgencyCritical : Z := 2.

Record Action := mkAction { a_Key : string; a_Label : string }.

Record Process := mkProcess { p_PID : Z; p_StartTime : Z }.

Record Image := mkImage {
  i_MediaType : string; i_Width : Z; i_Height : Z; i_Data : list Byte.byte }.

Record Notification := mkNotification {
  n_ID : Z;
  n_AppName : string;
  n_AppIcon : string;
  n_DesktopEntry : string;
  n_Summary : string;
  n_Body : string;
  n_Actions : list Action;
  n_Urgency : Z;
  n_Category : string;
  n_Timestamp : Time;
  n_ExpireTimeoutMS : Z;
  n_Image : option Image;
  n_Value : option Z;
  n_InlineReply : bool;
  n_ReplyPlaceholder : string;
  n_SenderLineage : list Process }.

Record HistoryEntry := mkHistoryEntry {
  h_ID : Z;
  h_Seen : bool;
  h_AppName : string;
  h_AppIcon : string;
  h_DesktopEntry : string;
  h_Summary : string;
  h_Body : string;
  h_Urgency : Z;
  h_Category : string;
  h_Timestamp : Time;
  h_Image : option Image }.

(** [CloseReason] *)
Definition CloseExpired : Z := 1.
Definition CloseDismissed : Z := 2.
Definition CloseRequestedReason : Z := 3.
Definition CloseUndefined : Z := 4.

Inductive DeltaKind :=
  | DeltaAdded | DeltaReplaced | DeltaClosed | DeltaHistoryAdded
  | DeltaHistoryRemoved | DeltaHistorySeen | DeltaHistoryCleared
  | DeltaKindOther (s : string).

Record Lifetime := mkLifetime {
  l_ID : Z; l_DurationMS : Z; l_RemainingMS : Z; l_Running : bool }.

Record Delta := mkDelta {
  d_Kind : DeltaKind;
  d_Notification : option Notification;
  d_Lifetime : option Lifetime;
  d_History : option HistoryEntry;
  d_ID : Z;
  d_IDs : list Z;
  d_CloseReason : Z }.

Inductive PresentationState :=
  | PresentationHovered | PresentationVisible | PresentationQueued
  | PresentationSuppressed | PresentationOther (s : string).

Record Presentation := mkPresentation { pr_ID : Z; pr_State : PresentationState }.

Record Snapshot := mkSnapshot {
  s_Sequence : Z;
  s_Active : list Notification;
  s_Lifetimes : list Lifetime;
  s_History : list HistoryEntry }.

Record Hello := mkHello {
  hl_Major : Z; hl_Minor : Z; hl_Role : string; hl_Capabilities : list string }.

Record ProducerRequest := mkProducerRequest {
  pq_Key : string;
  pq_AppName : string;
  pq_Summary : string;
  pq_Body : string;
  pq_Urgency : Z;
  pq_ExpireTimeoutMS : Z;
  pq_Value : option Z }.

(** The [Command] a presenter sends; [state.Command] is another type. *)
Inductive WireCommandKind :=
  | CommandPresentationRenew | CommandAction | CommandDismiss | CommandReply
  | CommandHistoryClear | CommandHistoryRemove | CommandHistoryMarkSeen
  | CommandDismissAll | CommandProducerPublish | CommandProducerClose
  | CommandOther (s : string).

Record WireCommand := mkWireCommand {
  c_Kind : WireCommandKind;
  c_ID : Z;
  c_IDs : list Z;
  c_ActionKey : string;
  c_Text : string;
  c_Presentations : list Presentation;
  c_Producer : option ProducerRequest }.

Inductive ErrorCode :=
  | ErrorInvalid | ErrorNotFound | ErrorStale | ErrorBusy | ErrorUnavailable
  | ErrorCodeOther (s : string).

Record ProtocolError := mkProtocolError { e_Code : ErrorCode; e_Message : string }.

Record Reply := mkReply {
  rp_OK : bool;
  rp_Error : option ProtocolError;
  rp_Lifetimes : list Lifetime;
  rp_ID : Z;
  rp_Replaced : bool }.

#[export] Instance PresentationState_eq_dec : EqDecision PresentationState.
Proof. solve_decision. Defined.
#[export] Instance DeltaKind_eq_dec : EqDecision DeltaKind.
Proof. solve_decision. Defined.
#[export] Instance WireCommandKind_eq_dec : EqDecision WireCommandKind.
Proof. solve_decision. Defined.
#[export] Instance Lifetime_eq_dec : EqDecision Lifetime.
Proof. solve_decision. Defined.

(** ** Validators *)

Definition Urgency_valid (u : Z) : bool := u <=? UrgencyCritical.

Definition CloseReason_valid (r : Z) : bool := (CloseExpired <=? r) && (r <=? CloseUndefined).

Definition PresentationState_valid (s : PresentationState) : bool :=
  match s with PresentationOther _ => false | _ => true end.

Definition ErrorCode_valid (c : ErrorCode) : bool :=
  match c with ErrorCodeOther _ => false | _ => true end.

Definition validateText (name value : string) (limit : Z) (emptyOK : bool) : option error :=
  failIf (negb (ValidString value)) (ErrNew "protocol: %s is not valid UTF-8") ;;;
  failIf ((negb emptyOK && String.eqb value "") || (limit <? slen value))
    (ErrNew "protocol: invalid %s length").

(** The validators range over a map literal of named texts. *)
Definition validateTexts (texts : list (string * string)) : option error :=
  firstErrOf (fun '(name, value) => validateText name value MaxBodyBytes true) texts.

Definition validateIDs (ids : list Z) (limit : Z) : option error :=
  failIf ((zlen ids =? 0) || (limit <? zlen ids)) (ErrNew "protocol: invalid ID list length") ;;;
  firstErrDistinct (fun id => failIf (id =? 0) (ErrNew "protocol: zero ID")) id
    (ErrNew "protocol: duplicate ID") ∅ ids.

Definition Lifetime_Validate (l : Lifetime) : option error :=
  failIf (l_ID l =? 0) (ErrNew "protocol: lifetime ID is zero") ;;;
  failIf (l_DurationMS l <? l_RemainingMS l) (ErrNew "protocol: lifetime remaining exceeds duration") ;;;
  failIf ((l_DurationMS l =? 0) && l_Running l) (ErrNew "protocol: persistent lifetime is running").

Definition Action_Validate (a : Action) : option error :=
  validateText "action key" (a_Key a) MaxBodyBytes false ;;;
  validateText "action label" (a_Label a) MaxBodyBytes true.

Definition Image_Validate (i : Image) : option error :=
  failIf (negb (String.eqb (i_MediaType i) "image/png"))
    (ErrNew "protocol: unsupported image media type %q") ;;;
  failIf ((i_Width i =? 0) || (i_Height i =? 0) || (MaxWireImageLongEdge <? i_Width i) ||
          (MaxWireImageLongEdge <? i_Height i))
    (ErrNew "protocol: invalid wire image dimensions") ;;;
  failIf ((zlen (i_Data i) =? 0) || (MaxWireImageBytes <? zlen (i_Data i)))
    (ErrNew "protocol: invalid wire image size").

Definition optImage_Validate (i : option Image) : option error :=
  match i with Some i => Image_Validate i | None => None end.

Definition badValue (v : option Z) : bool :=
  match v with Some v => (v <? 0) || (100 <? v) | None => false end.

Definition wrapErr (fmt : string) (e : option error) : option error :=
  match e with Some e => Some (ErrWrap fmt e) | None => None end.

Definition Notification_Validate (n : Notification) : option error :=
  failIf (n_ID n =? 0) (ErrNew "protocol: notification ID is zero") ;;;
  failIf (negb (Urgency_valid (n_Urgency n))) (ErrNew "protocol: invalid urgency %d") ;;;
  failIf (IsZero (n_Timestamp n)) (ErrNew "protocol: notification timestamp is zero") ;;;
  validateTexts
    [("app name", n_AppName n); ("app icon", n_AppIcon n); ("desktop entry", n_DesktopEntry n);
     ("summary", n_Summary n); ("body", n_Body n); ("category", n_Category n);
     ("reply placeholder", n_ReplyPlaceholder n)] ;;;
  failIf (MaxActionPairs <? zlen (n_Actions n)) (ErrNew "protocol: too many actions") ;;;
  firstErrDistinct (fun a => wrapErr "protocol: action[%d]: %w" (Action_Validate a)) a_Key
    (ErrNew "protocol: duplicate action key %q") ∅ (n_Actions n) ;;;
  optImage_Validate (n_Image n) ;;;
  failIf (badValue (n_Value n)) (ErrNew "protocol: value is outside 0..100") ;;;
  failIf (MaxLineageEntries <? zlen (n_SenderLineage n)) (ErrNew "protocol: sender lineage is too long") ;;;
  firstErrOf (fun p => failIf ((p_PID p =? 0) || (p_StartTime p =? 0))
                         (ErrNew "protocol: invalid sender process")) (n_SenderLineage n).

Definition HistoryEntry_Validate (h : HistoryEntry) : option error :=
  failIf ((h_ID h =? 0) || IsZero (h_Timestamp h) || negb (Urgency_valid (h_Urgency h)))
    (ErrNew "protocol: invalid history identity") ;;;
  validateTexts
    [("app name", h_AppName h); ("app icon", h_AppIcon h); ("desktop entry", h_DesktopEntry h);
     ("summary", h_Summary h); ("body", h_Body h); ("category", h_Category h)] ;;;
  optImage_Validate (h_Image h).

Definition ProducerRequest_Validate (p : ProducerRequest) : option error :=
  validateText "producer key" (pq_Key p) MaxProducerKeyBytes false ;;;
  validateTexts
    [("producer app name", pq_AppName p); ("producer summary", pq_Summary p);
     ("producer body", pq_Body p)] ;;;
  failIf (negb (Urgency_valid (pq_Urgency p))) (ErrNew "protocol: invalid producer urgency %d") ;;;
  failIf (pq_ExpireTimeoutMS p <? -1) (ErrNew "protocol: invalid producer expiry timeout") ;;;
  failIf (badValue (pq_Value p)) (ErrNew "protocol: producer value is outside 0..100").

Definition Delta_Validate (d : Delta) : option error :=
  match d_Kind d with
  | DeltaAdded | DeltaReplaced =>
      match d_Notification d, d_Lifetime d with
      | Some n, Some l =>
          Notification_Validate n ;;;
          Lifetime_Validate l ;;;
          failIf (negb (l_ID l =? n_ID n))
            (ErrNew "protocol: notification delta lifetime ID does not match record")
      | _, _ => Some (ErrNew "protocol: notification delta has no record lifetime")
      end
  | DeltaClosed =>
      failIf ((d_ID d =? 0) || negb (CloseReason_valid (d_CloseReason d)))
        (ErrNew "protocol: invalid closed delta")
  | DeltaHistoryAdded =>
      match d_History d with
      | Some h => HistoryEntry_Validate h
      | None => Some (ErrNew "protocol: history delta has no record")
      end
  | DeltaHistoryRemoved => failIf (d_ID d =? 0) (ErrNew "protocol: history removal ID is zero")
  | DeltaHistorySeen => validateIDs (d_IDs d) MaxHistoryEntries
  | DeltaHistoryCleared => None
  | DeltaKindOther _ => Some (ErrNew "protocol: invalid delta kind %q")
  end.

(** The second loop of [Snapshot.Validate] takes the id of every lifetime out
    of the set of active ids. *)
Fixpoint matchLifetimes (active : gset Z) (ls : list Lifetime) : error + gset Z :=
  match ls with
  | [] => inr active
  | l :: ls =>
      match Lifetime_Validate l with
      | Some e => inl (ErrWrap "protocol: lifetime[%d]: %w" e)
      | None =>
          if decide (l_ID l ∈ active) then matchLifetimes (active ∖ {[l_ID l]}) ls
          else inl (ErrNew "protocol: lifetime for unknown active ID %d")
      end
  end.

Definition Snapshot_Validate (s : Snapshot) : option error :=
  failIf ((MaxActiveNotifications <? zlen (s_Active s)) || (MaxHistoryEntries <? zlen (s_History s)))
    (ErrNew "protocol: snapshot exceeds record limit") ;;;
  failIf (negb (zlen (s_Lifetimes s) =? zlen (s_Active s)))
    (ErrNew "protocol: active lifetime count does not match records") ;;;
  firstErrDistinct (fun n => wrapErr "protocol: active[%d]: %w" (Notification_Validate n)) n_ID
    (ErrNew "protocol: duplicate active ID %d") ∅ (s_Active s) ;;;
  match matchLifetimes (list_to_set (n_ID <$> s_Active s)) (s_Lifetimes s) with
  | inl e => Some e
  | inr active => failIf (negb (bool_decide (active = ∅))) (ErrNew "protocol: active record has no lifetime")
  end ;;;
  firstErrDistinct (fun h => wrapErr "protocol: history[%d]: %w" (HistoryEntry_Validate h)) h_ID
    (ErrNew "protocol: duplicate history ID %d") ∅ (s_History s).

Definition WireCommand_Validate (c : WireCommand) : option error :=
  match c_Kind c with
  | CommandPresentationRenew =>
      failIf ((zlen (c_Presentations c) =? 0) || (MaxActiveNotifications <? zlen (c_Presentations c)))
        (ErrNew "protocol: invalid presentation renewal") ;;;
      firstErrDistinct
        (fun p => failIf ((pr_ID p =? 0) || negb (PresentationState_valid (pr_State p)))
                    (ErrNew "protocol: invalid presentation"))
        pr_ID (ErrNew "protocol: duplicate presentation ID") ∅ (c_Presentations c)
  | CommandAction =>
      failIf (c_ID c =? 0) (ErrNew "protocol: action ID is zero") ;;;
      validateText "action key" (c_ActionKey c) MaxBodyBytes false
  | CommandDismiss => failIf (c_ID c =? 0) (ErrNew "protocol: dismiss ID is zero")
  | CommandReply =>
      failIf (c_ID c =? 0) (ErrNew "protocol: reply ID is zero") ;;;
      validateText "reply text" (c_Text c) MaxBodyBytes true
  | CommandHistoryClear | CommandDismissAll => None
  | CommandHistoryRemove | CommandHistoryMarkSeen => validateIDs (c_IDs c) MaxHistoryEntries
  | CommandProducerPublish | CommandProducerClose =>
      match c_Producer c with
      | None => Some (ErrNew "protocol: producer command has no payload")
      | Some p => ProducerRequest_Validate p
      end
  | CommandOther _ => Some (ErrNew "protocol: invalid command kind %q")
  end.

Definition Reply_Validate (r : Reply) : option error :=
  failIf (Bool.eqb (rp_OK r) (match rp_Error r with Some _ => true | None => false end))
    (ErrNew "protocol: reply must contain one outcome") ;;;
  match rp_Error r with
  | Some e =>
      failIf (negb (zlen (rp_Lifetimes r) =? 0)) (ErrNew "protocol: error reply has lifetimes") ;;;
      failIf (negb (ErrorCode_valid (e_Code e))) (ErrNew "protocol: invalid error code %q") ;;;
      validateText "error message" (e_Message e) MaxBodyBytes true
  | None =>
      firstErrDistinct (fun l => wrapErr "protocol: reply lifetime[%d]: %w" (Lifetime_Validate l)) l_ID
        (ErrNew "protocol: duplicate reply lifetime") ∅ (rp_Lifetimes r)
  end.

Definition Hello_Validate (h : Hello) (role : string) : option error :=
  failIf (negb (hl_Major h =? ProtocolMajor)) (ErrNew "protocol: incompatible major %d") ;;;
  failIf (ProtocolMinor <? hl_Minor h) (ErrNew "protocol: unsupported minor %d") ;;;
  failIf (negb (String.eqb (hl_Role h) role)) (ErrNew "protocol: unexpected role %q") ;;;
  firstErrDistinct (fun c => validateText "capability" c MaxBodyBytes false) id
    (ErrNew "protocol: duplicate capability %q") ∅ (hl_Capabilities h).

Definition ValidateNextSequence (previous next : Z) : option error :=
  failIf ((previous =? 18446744073709551615) || negb (next =? wrap64 (previous + 1)))
    (ErrNew "protocol: sequence %d does not follow %d").

(** ** What the validators accept *)

Lemma wrapErr_None fmt e : wrapErr fmt e = None <-> e = None.
Proof. destruct e; cbn; intuition congruence. Qed.
#[export] Hint Rewrite wrapErr_None : errs.

Lemma validateText_None name value limit emptyOK :
  validateText name value limit emptyOK = None <->
  ValidString value = true /\ (emptyOK = true \/ value <> "") /\ slen value <= limit.
Proof.
  unfold validateText. autorewrite with errs.
  destruct emptyOK; cbn; [intuition auto with bool|].
  rewrite <-not_true_iff_false, String.eqb_eq. intuition congruence.
Qed.

Definition textOK (value : string) : Prop := ValidString value = true /\ slen value <= MaxBodyBytes.

Lemma validateTexts_None texts :
  validateTexts texts = None <-> Forall (fun '(_, value) => textOK value) texts.
Proof.
  unfold validateTexts. rewrite firstErrOf_None. apply Forall_iff. intros [name value].
  rewrite validateText_None. unfold textOK. tauto.
Qed.

Lemma Lifetime_Validate_None l :
  Lifetime_Validate l = None <->
  l_ID l <> 0 /\ l_RemainingMS l <= l_DurationMS l /\ (l_Running l = true -> l_DurationMS l <> 0).
Proof.
  unfold Lifetime_Validate. autorewrite with errs. rewrite andb_false_iff, Z.eqb_neq.
  destruct (l_Running l); intuition congruence.
Qed.

Lemma validateIDs_None ids limit :
  validateIDs ids limit = None <->
  ids <> [] /\ zlen ids <= limit /\ Forall (fun id => id <> 0) ids /\ NoDup ids.
Proof.
  unfold validateIDs. autorewrite with errs. rewrite list_fmap_id.
  setoid_rewrite failIf_None. setoid_rewrite Z.eqb_neq.
  destruct ids as [|x l]; [unfold zlen; cbn; intuition congruence|].
  pose proof (zlen_nonneg l). rewrite zlen_cons.
  split; [naive_solver|]. intros (?&?&?&?). repeat split; try done; try lia.
  apply Forall_true. intros y Hy. by apply elem_of_empty in Hy.
Qed.

Lemma Forall_notin_empty {A} (f : A -> Z) l : Forall (fun x => f x ∉ (∅ : gset Z)) l.
Proof. apply Forall_true. intros x Hx. by apply elem_of_empty in Hx. Qed.

Lemma matchLifetimes_inr active ls rest :
  matchLifetimes active ls = inr rest <->
  Forall (fun l => Lifetime_Validate l = None) ls /\ NoDup (l_ID <$> ls) /\
  Forall (fun l => l_ID l ∈ active) ls /\ rest = active ∖ list_to_set (l_ID <$> ls).
Proof.
  revert active. induction ls as [|l ls IH]; intros active; cbn.
  - split; [intros [= <-]|intros (_&_&_&->)].
    + repeat split; try constructor. set_solver.
    + f_equal. set_solver.
  - rewrite !Forall_cons, NoDup_cons. destruct (Lifetime_Validate l) as [e|] eqn:Hv.
    { split; [done|]. by intros ((?&?)&?). }
    case_decide as Hin.
    2: { split; [done|]. by intros (?&?&(?&?)&?). }
    rewrite IH, !Forall_forall, list_elem_of_fmap. split.
    + intros (?&?&Hs&->). repeat split; try done.
      * intros (y&Heq&Hy). specialize (Hs y Hy). set_solver.
      * intros y Hy. specialize (Hs y Hy). set_solver.
      * set_solver.
    + intros ((_&?)&(Hx&?)&(_&Hs)&->). repeat split; try done; [|set_solver].
      intros y Hy. apply elem_of_difference. split; [by apply Hs|].
      intros Heq%elem_of_singleton. apply Hx. eauto.
Qed.

Lemma NoDup_perm_of_set (l k : list Z) :
  NoDup l -> NoDup k -> (forall x, x ∈ l -> x ∈ k) -> (length l = length k)%nat -> l ≡ₚ k.
Proof.
  intros Hl Hk Hsub Hlen. apply submseteq_length_Permutation; [|lia].
  apply NoDup_submseteq; auto.
Qed.

(** The lifetime loop accepts exactly the lists that name each active id once. *)
Lemma matchLifetimes_complete ids ls :
  NoDup ids -> (length ls = length ids)%nat ->
  (exists rest, matchLifetimes (list_to_set ids) ls = inr rest /\ rest = ∅) <->
  Forall (fun l => Lifetime_Validate l = None) ls /\ l_ID <$> ls ≡ₚ ids.
Proof.
  intros Hnd Hlen. split.
  - intros (rest&Hm&->). apply matchLifetimes_inr in Hm as (Hv&Hd&Hin&He).
    split; [done|]. apply NoDup_perm_of_set; try done; [|by rewrite length_fmap].
    intros x (l&->&Hl)%list_elem_of_fmap. rewrite Forall_forall in Hin.
    specialize (Hin l Hl). by apply elem_of_list_to_set in Hin.
  - intros [Hv Hp]. exists ∅. split; [|done]. apply matchLifetimes_inr.
    repeat split; try done.
    + by rewrite Hp.
    + apply Forall_forall. intros l Hl. apply elem_of_list_to_set. rewrite <-Hp.
      by apply list_elem_of_fmap_2.
    + rewrite <-Hp. set_solver.
Qed.

(** The declarative meaning of a valid snapshot. *)
Record snapshot_ok (s : Snapshot) : Prop := {
  so_active_count : zlen (s_Active s) <= MaxActiveNotifications;
  so_history_count : zlen (s_History s) <= MaxHistoryEntries;
  so_active : Forall (fun n => Notification_Validate n = None) (s_Active s);
  so_active_nodup : NoDup (n_ID <$> s_Active s);
  so_lifetimes : Forall (fun l => Lifetime_Validate l = None) (s_Lifetimes s);
  so_matched : l_ID <$> s_Lifetimes s ≡ₚ n_ID <$> s_Active s;
  so_history : Forall (fun h => HistoryEntry_Validate h = None) (s_History s);
  so_history_nodup : NoDup (h_ID <$> s_History s) }.

Lemma Snapshot_Validate_None s : Snapshot_Validate s = None <-> snapshot_ok s.
Proof.
  unfold Snapshot_Validate. autorewrite with errs. setoid_rewrite wrapErr_None.
  set (lts := match matchLifetimes _ _ with inl e => Some e | inr _ => _ end).
  assert (lts = None <-> exists rest,
    matchLifetimes (list_to_set (n_ID <$> s_Active s)) (s_Lifetimes s) = inr rest /\ rest = ∅) as Hlts.
  { unfold lts. destruct (matchLifetimes _ _) as [e|rest]; [naive_solver|].
    autorewrite with errs. naive_solver. }
  rewrite Hlts. split.
  - intros ((?&?)&Hlen&(?&?&_)&Hm&?&?&_). unfold zlen in Hlen.
    apply matchLifetimes_complete in Hm as [? ?]; [|done|rewrite length_fmap; lia].
    by split.
  - intros [????? Hp ??]. pose proof (Permutation_length Hp) as Hlen.
    rewrite !length_fmap in Hlen. unfold zlen in *.
    repeat split; try done; try lia; try apply Forall_notin_empty.
    apply matchLifetimes_complete; [done|by rewrite length_fmap|done].
Qed.

(** ** Claims *)

(** [Snapshot.Validate] accepts exactly the snapshots within the record
    limits whose active notifications, lifetimes and history entries are each
    valid, whose active ids and history ids are distinct, and whose lifetimes
    are a permutation of the active notifications by id. *)
Theorem Snapshot_Validate_exact s : Snapshot_Validate s = None <-> snapshot_ok s.
Proof. apply Snapshot_Validate_None. Qed.
