(* ===== verification/Sharing.v ===== *)
(** * internal/state, internal/history: what is handed out is not shared

    The state is modelled with values, but a Go notification holds pointers and
    slices, and what the owner and the store hand out ([Delta], [Snapshot],
    [Entries]) goes to other goroutines.  Here are the copies they make,
    [cloneNotification], [cloneImage], [cloneInt32], [cloneHistoryPointer] of
    [owner.go] and [cloneEntry] of [store.go], over a heap: a copy reads like
    the original and shares no memory with it, so that no write to the one is
    seen through the other.

    A slice that is appended to a nil one is nil when it is empty.  Strings and
    times have no memory that can be written. *)
From stdpp Require Import gmap sets strings list.
From Stdlib Require Import ZArith Lia Strings.Byte.
From S2P Require Import Prelude GoLib Protocol.
Local Open Scope list_scope.

(** ** The heap *)

Abbreviation loc := positive.

(** An array, or what a pointer points to; an image points to its data. *)
Inductive cell :=
  | CBytes (data : list Byte.byte)
  | CActions (actions : list Action)
  | CProcesses (lineage : list Process)
  | CInt32 (value : Z)
  | CImage (mediaType : string) (width height : Z) (data : option loc).

Abbreviation heap := (gmap loc cell).

(** A fresh cell. *)
Definition alloc (c : cell) (h : heap) : heap * loc := (<[fresh (dom h) := c]> h, fresh (dom h)).

Class Elements (A : Type) := {
  to_cell : list A -> cell;
  of_cell : cell -> option (list A);
  of_to_cell l : of_cell (to_cell l) = Some l }.

#[export] Instance bytes_elements : Elements Byte.byte :=
  {| to_cell := CBytes; of_cell c := match c with CBytes l => Some l | _ => None end; of_to_cell _ := eq_refl |}.
#[export] Instance actions_elements : Elements Action :=
  {| to_cell := CActions; of_cell c := match c with CActions l => Some l | _ => None end; of_to_cell _ := eq_refl |}.
#[export] Instance processes_elements : Elements Process :=
  {| to_cell := CProcesses; of_cell c := match c with CProcesses l => Some l | _ => None end; of_to_cell _ := eq_refl |}.

(** ** What a value with references says, and the memory it says it with *)

Class Shared (P V : Type) := {
  read : heap -> P -> option V;
  foot : heap -> P -> gset loc }.

Definition agree (f : gset loc) (h h' : heap) : Prop := forall l, l ∈ f -> h' !! l = h !! l.

Class SharedLaws (P V : Type) `{Shared P V} := {
  read_dom h p v : read h p = Some v -> foot h p ⊆ dom h;
  read_frame h h' p v : read h p = Some v -> agree (foot h p) h h' -> read h' p = Some v /\ foot h' p = foot h p }.

(** A copy: nothing that was there changes, it reads the same, and its memory
    is new. *)
Definition copies {P V} `{Shared P V} (h : heap) (v : V) (hp : heap * P) : Prop :=
  h ⊆ hp.1 /\ read hp.1 hp.2 = Some v /\ foot hp.1 hp.2 ## dom h.

(** A slice, nil or an array. *)
Record slice (A : Type) := Slice { sl_array : option loc }.
Arguments Slice {A}.
Arguments sl_array {A}.

Definition footOf {A} (p : slice A) : gset loc := match sl_array p with Some l => {[l]} | None => ∅ end.

#[export] Instance slice_shared {A} `{Elements A} : Shared (slice A) (list A) := {
  read h p := match sl_array p with None => Some [] | Some l => h !! l ≫= of_cell end;
  foot _ := footOf }.

(** [*int32] *)
Record int32Ptr := Int32Ptr { ip_loc : option loc }.

#[export] Instance int32_shared : Shared int32Ptr (option Z) := {
  read h p := match ip_loc p with
              | None => Some None
              | Some l => match h !! l with Some (CInt32 v) => Some (Some v) | _ => None end end;
  foot _ p := match ip_loc p with Some l => {[l]} | None => ∅ end }.

(** [*Image] *)
Record imagePtr := ImagePtr { im_loc : option loc }.

#[export] Instance image_shared : Shared imagePtr (option Image) := {
  read h p := match im_loc p with
              | None => Some None
              | Some l => match h !! l with
                          | Some (CImage t w y d) => data ← read h (Slice (A := Byte.byte) d); Some (Some (mkImage t w y data))
                          | _ => None end end;
  foot h p := match im_loc p with
              | None => ∅
              | Some l => {[l]} ∪ match h !! l with Some (CImage _ _ _ d) => footOf (Slice (A := Byte.byte) d) | _ => ∅ end end }.

(** A notification: its plain fields, and the ones that are references. *)
Record goNotification := mkGoNotification {
  gn_plain : Notification;
  gn_Actions : slice Action;
  gn_Image : imagePtr;
  gn_Value : int32Ptr;
  gn_SenderLineage : slice Process }.

Definition withReferences (n : Notification) (actions : list Action) (image : option Image) (value : option Z) (lineage : list Process) : Notification :=
  mkNotification (n_ID n) (n_AppName n) (n_AppIcon n) (n_DesktopEntry n) (n_Summary n) (n_Body n) actions (n_Urgency n) (n_Category n)
    (n_Timestamp n) (n_ExpireTimeoutMS n) image value (n_InlineReply n) (n_ReplyPlaceholder n) lineage.

Definition readNotification (h : heap) (g : goNotification) : option Notification :=
  actions ← read h (gn_Actions g); image ← read h (gn_Image g); value ← read h (gn_Value g); lineage ← read h (gn_SenderLineage g);
  Some (withReferences (gn_plain g) actions image value lineage).

#[export] Instance notification_shared : Shared goNotification Notification := {
  read := readNotification;
  foot h g := foot h (gn_Actions g) ∪ foot h (gn_Image g) ∪ foot h (gn_Value g) ∪ foot h (gn_SenderLineage g) }.

(** An entry of the history. *)
Record goHistoryEntry := mkGoHistoryEntry { gh_plain : HistoryEntry; gh_Image : imagePtr }.

Definition withEntryImage (e : HistoryEntry) (image : option Image) : HistoryEntry :=
  mkHistoryEntry (h_ID e) (h_Seen e) (h_AppName e) (h_AppIcon e) (h_DesktopEntry e) (h_Summary e) (h_Body e) (h_Urgency e) (h_Category e)
    (h_Timestamp e) image.

Definition readEntry (h : heap) (g : goHistoryEntry) : option HistoryEntry := image ← read h (gh_Image g); Some (withEntryImage (gh_plain g) image).

#[export] Instance entry_shared : Shared goHistoryEntry HistoryEntry := {
  read := readEntry;
  foot h g := foot h (gh_Image g) }.

(** ** The copies *)

(** [append([]A(nil), s...)], which is also [bytes.Clone] but for the capacity
    and for an empty slice that is not nil. *)
Definition appendNil {A} `{Elements A} (h : heap) (s : slice A) : heap * slice A :=
  match read h s with
  | Some [] | None => (h, Slice None)
  | Some l => let '(h, l) := alloc (to_cell l) h in (h, Slice (Some l))
  end.

Definition cloneInt32 (h : heap) (value : int32Ptr) : heap * int32Ptr :=
  match ip_loc value with
  | None => (h, Int32Ptr None)
  | Some l => match h !! l with Some c => let '(h, l) := alloc c h in (h, Int32Ptr (Some l)) | None => (h, value) end
  end.

Definition cloneImage (h : heap) (image : imagePtr) : heap * imagePtr :=
  match im_loc image with
  | None => (h, ImagePtr None)
  | Some l =>
      match h !! l with
      | Some (CImage t w y d) =>
          let '(h, data) := appendNil h (Slice (A := Byte.byte) d) in
          let '(h, l) := alloc (CImage t w y (sl_array data)) h in (h, ImagePtr (Some l))
      | _ => (h, image)
      end
  end.

Definition cloneNotification (h : heap) (n : goNotification) : heap * goNotification :=
  let '(h, actions) := appendNil h (gn_Actions n) in
  let '(h, lineage) := appendNil h (gn_SenderLineage n) in
  let '(h, image) := cloneImage h (gn_Image n) in
  let '(h, value) := cloneInt32 h (gn_Value n) in
  (h, mkGoNotification (gn_plain n) actions image value lineage).

(** [cloneEntry] and what [cloneHistoryPointer] points to. *)
Definition cloneEntry (h : heap) (e : goHistoryEntry) : heap * goHistoryEntry :=
  let '(h, image) := cloneImage h (gh_Image e) in (h, mkGoHistoryEntry (gh_plain e) image).

(** ** Reading depends on nothing else *)

Lemma agree_sub (f g : gset loc) h h' : f ⊆ g -> agree g h h' -> agree f h h'.
Proof. intros Hs Ha l Hl. apply Ha. set_solver. Qed.

Lemma agree_mono (f : gset loc) h h' : f ⊆ dom h -> h ⊆ h' -> agree f h h'.
Proof.
  intros Hf Hs l Hl. destruct (h !! l) eqn:Hh; [by eapply lookup_weaken|]. apply not_elem_of_dom in Hh. set_solver.
Qed.

#[export] Instance slice_laws {A} `{Elements A} : SharedLaws (slice A) (list A).
Proof.
  split; cbn; unfold footOf.
  - intros h [[l|]] v; cbn; [|set_solver]. destruct (h !! l) eqn:Hl; [|done]. intros _ l'. rewrite elem_of_singleton. intros ->. by apply elem_of_dom.
  - intros h h' [[l|]] v; cbn; [|done]. intros Hr Ha. by rewrite Ha by set_solver.
Qed.

#[export] Instance int32_laws : SharedLaws int32Ptr (option Z).
Proof.
  split; cbn.
  - intros h [[l|]] v; cbn; [|set_solver]. destruct (h !! l) eqn:Hl; [|done]. intros _ l'. rewrite elem_of_singleton. intros ->. by apply elem_of_dom.
  - intros h h' [[l|]] v; cbn; [|done]. intros Hr Ha. by rewrite Ha by set_solver.
Qed.

#[export] Instance image_laws : SharedLaws imagePtr (option Image).
Proof.
  split; cbn.
  - intros h [[l|]] v; cbn; [|set_solver]. destruct (h !! l) as [[]|] eqn:Hl; try done. intros Hr.
    assert (is_Some (read h (Slice (A := Byte.byte) data))) as [bs Hb] by (cbn in *; destruct (match data with Some l0 => _ | None => _ end); [by eexists|done]).
    apply (read_dom (P := slice Byte.byte)) in Hb. change (foot h (Slice data)) with (footOf (Slice (A := Byte.byte) data)) in Hb.
    apply union_subseteq. split; [|done]. intros l'. rewrite elem_of_singleton. intros ->. by apply elem_of_dom.
  - intros h h' [[l|]] v; cbn; [|done]. intros Hr Ha. rewrite (Ha l) by set_solver. destruct (h !! l) as [[]|] eqn:Hl; try done. split; [|done].
    destruct data as [d|]; cbn in *; [|done]. by rewrite (Ha d) by set_solver.
Qed.

Lemma notification_read h g v :
  read h g = Some v <-> exists a i z p, read h (gn_Actions g) = Some a /\ read h (gn_Image g) = Some i /\ read h (gn_Value g) = Some z /\
    read h (gn_SenderLineage g) = Some p /\ v = withReferences (gn_plain g) a i z p.
Proof.
  change (read h g) with (readNotification h g). unfold readNotification. setoid_rewrite bind_Some. repeat setoid_rewrite bind_Some.
  split; [intros (a&Ha&i&Hi&z&Hz&p&Hp&[= <-]); by exists a, i, z, p|intros (a&i&z&p&Ha&Hi&Hz&Hp&->)]. do 4 (eexists; split; [done|]). done.
Qed.

Lemma entry_read h g v : read h g = Some v <-> exists i, read h (gh_Image g) = Some i /\ v = withEntryImage (gh_plain g) i.
Proof. change (read h g) with (readEntry h g). unfold readEntry. rewrite bind_Some. naive_solver. Qed.

#[export] Instance notification_laws : SharedLaws goNotification Notification.
Proof.
  split.
  - intros h g v (a&i&z&p&Ha%read_dom&Hi%read_dom&Hz%read_dom&Hp%read_dom&_)%notification_read. cbn [foot notification_shared]. set_solver.
  - intros h h' g v (a&i&z&p&Ha&Hi&Hz&Hp&->)%notification_read Hag. cbn [foot notification_shared] in *.
    destruct (read_frame h h' _ _ Ha) as [Ha' Fa]; [eapply agree_sub; [|exact Hag]; set_solver|].
    destruct (read_frame h h' _ _ Hi) as [Hi' Fi]; [eapply agree_sub; [|exact Hag]; set_solver|].
    destruct (read_frame h h' _ _ Hz) as [Hz' Fz]; [eapply agree_sub; [|exact Hag]; set_solver|].
    destruct (read_frame h h' _ _ Hp) as [Hp' Fp]; [eapply agree_sub; [|exact Hag]; set_solver|].
    split; [|by rewrite Fa, Fi, Fz, Fp]. apply notification_read. by exists a, i, z, p.
Qed.

#[export] Instance entry_laws : SharedLaws goHistoryEntry HistoryEntry.
Proof.
  split.
  - intros h g v (i&Hi%read_dom&_)%entry_read. exact Hi.
  - intros h h' g v (i&Hi&->)%entry_read Hag. destruct (read_frame h h' _ _ Hi Hag) as [Hi' Fi]. split; [|exact Fi].
    apply entry_read. by exists i.
Qed.

(** ** The copies are copies *)

Lemma alloc_spec c h : alloc c h = (<[fresh (dom h) := c]> h, fresh (dom h)) /\ h !! fresh (dom h) = None.
Proof. split; [done|]. apply not_elem_of_dom, is_fresh. Qed.

Section Copies.
Context {P V} `{SharedLaws P V}.

Lemma read_mono h h' p v : read h p = Some v -> h ⊆ h' -> read h' p = Some v /\ foot h' p = foot h p.
Proof. intros Hr Hs. apply read_frame; [done|]. apply agree_mono; [by eapply read_dom|done]. Qed.

(** A copy stays one while other cells are allocated. *)
Lemma copies_mono h h0 v hp h' : copies h v hp -> h0 ⊆ h -> hp.1 ⊆ h' -> copies h0 v (h', hp.2).
Proof.
  intros (Hs&Hr&Hf) Hs0 Hs'. destruct (read_mono _ _ _ _ Hr Hs') as [Hr' Hf']. split_and!; [by do 2 (etrans; [done|])|done|]. cbn. rewrite Hf'.
  apply subseteq_dom in Hs0. set_solver.
Qed.

End Copies.

Lemma appendNil_copies {A} `{Elements A} h (s : slice A) l : read h s = Some l -> copies h l (appendNil h s).
Proof.
  intros Hr. unfold appendNil. rewrite Hr. destruct l as [|a l]; [by split_and!|]. destruct (alloc_spec (to_cell (a :: l)) h) as [-> Hn].
  split_and!; cbn.
  - by apply insert_subseteq.
  - rewrite lookup_insert_eq. apply of_to_cell.
  - unfold footOf. cbn. apply disjoint_singleton_l. by apply not_elem_of_dom.
Qed.

Lemma cloneInt32_copies h p v : read h p = Some v -> copies h v (cloneInt32 h p).
Proof.
  destruct p as [[l|]]; [|intros [= <-]; by split_and!]. unfold cloneInt32. cbn [ip_loc read int32_shared].
  destruct (h !! l) as [c|] eqn:Hl; [|done]. intros Hr. destruct (alloc_spec c h) as [-> Hn]. split_and!; cbn.
  - by apply insert_subseteq.
  - by rewrite lookup_insert_eq.
  - apply disjoint_singleton_l. by apply not_elem_of_dom.
Qed.

Lemma image_read h l t w y d :
  h !! l = Some (CImage t w y d) ->
  read h (ImagePtr (Some l)) = (data ← read h (Slice (A := Byte.byte) d); Some (Some (mkImage t w y data))).
Proof. intros Hl. cbn [read image_shared im_loc]. by rewrite Hl. Qed.

Lemma cloneImage_copies h p v : read h p = Some v -> copies h v (cloneImage h p).
Proof.
  destruct p as [[l|]]; [|intros [= <-]; by split_and!]. unfold cloneImage. cbn [im_loc].
  destruct (h !! l) as [[| | | |t w y d]|] eqn:Hl; try (cbn [read image_shared im_loc]; by rewrite Hl).
  rewrite (image_read _ _ _ _ _ _ Hl). intros (bs&Hb&[= <-])%bind_Some.
  pose proof (appendNil_copies h (Slice (A := Byte.byte) d) bs Hb) as Hc. destruct (appendNil h (Slice d)) as [h1 data]. destruct Hc as (Hs&Hrd&Hf).
  cbn [fst snd] in Hs, Hrd, Hf. destruct (alloc_spec (CImage t w y (sl_array data)) h1) as [-> Hn]. destruct data as [data]. cbn [sl_array] in *.
  assert (h1 ⊆ <[fresh (dom h1):=CImage t w y data]> h1) as Hs1 by (by apply insert_subseteq).
  destruct (read_mono (P := slice Byte.byte) _ _ _ _ Hrd Hs1) as [Hrd' _]. split_and!; cbn [fst snd].
  - by etrans.
  - rewrite (image_read _ _ t w y data) by apply lookup_insert_eq. by rewrite Hrd'.
  - cbn [foot image_shared im_loc]. rewrite lookup_insert_eq. apply disjoint_union_l. split; [|done].
    apply disjoint_singleton_l, not_elem_of_dom. eapply lookup_weaken_None; [exact Hn|exact Hs].
Qed.

(** One copy after the other. *)
Lemma copies_next {P V Q X} `{SharedLaws P V, SharedLaws Q X} h (v : V) (hp : heap * P) (q : Q) (x : X) (c : heap -> Q -> heap * Q) :
  copies h v hp -> read h q = Some x -> (forall h, read h q = Some x -> copies h x (c h q)) ->
  copies hp.1 x (c hp.1 q) /\ copies h x (c hp.1 q) /\ copies h v ((c hp.1 q).1, hp.2).
Proof.
  intros Hc Hq Hcopy. pose proof Hc as (Hs&_&_). destruct (read_mono _ _ _ _ Hq Hs) as [Hq' _]. specialize (Hcopy _ Hq').
  split_and!; [done|by eapply copies_mono in Hcopy|eapply copies_mono; [exact Hc|done|apply Hcopy]].
Qed.

Lemma cloneNotification_copies h g n : read h g = Some n -> copies h n (cloneNotification h g).
Proof.
  intros (a&i&z&p&Ha&Hi&Hz&Hp&->)%notification_read. unfold cloneNotification.
  pose proof (appendNil_copies h _ _ Ha) as C1. destruct (appendNil h (gn_Actions g)) as [h1 actions].
  destruct (copies_next h _ _ _ _ appendNil C1 Hp (fun h => appendNil_copies h _ _)) as (D2&C2&_). cbn [fst] in *.
  destruct (appendNil h1 (gn_SenderLineage g)) as [h2 lineage].
  destruct (copies_next h _ _ _ _ cloneImage C2 Hi (fun h => cloneImage_copies h _ _)) as (D3&C3&_). cbn [fst] in *.
  destruct (cloneImage h2 (gn_Image g)) as [h3 image].
  destruct (copies_next h _ _ _ _ cloneInt32 C3 Hz (fun h => cloneInt32_copies h _ _)) as (D4&C4&_). cbn [fst] in *.
  destruct (cloneInt32 h3 (gn_Value g)) as [h4 value].
  assert (h3 ⊆ h4 /\ h2 ⊆ h3 /\ h1 ⊆ h2) as (S3&S2&S1) by (by destruct D2, D3, D4).
  assert (h2 ⊆ h4) as S2' by (by etrans). assert (h1 ⊆ h4) as S1' by (by etrans).
  destruct (copies_mono _ h _ _ h4 C1) as (_&R1&F1); [done..|]. destruct (copies_mono _ h _ _ h4 C2) as (_&R2&F2); [done..|].
  destruct (copies_mono _ h _ _ h4 C3) as (_&R3&F3); [done..|]. destruct C4 as (S4&R4&F4). cbn [fst snd] in *.
  split_and!; cbn [fst snd]; [done|apply notification_read; by exists a, i, z, p|].
  cbn [foot notification_shared gn_Actions gn_Image gn_Value gn_SenderLineage]. set_solver.
Qed.

Lemma cloneEntry_copies h g e : read h g = Some e -> copies h e (cloneEntry h g).
Proof.
  intros (i&Hi&->)%entry_read. unfold cloneEntry. pose proof (cloneImage_copies h _ _ Hi) as (S&R&F). destruct (cloneImage h (gh_Image g)) as [h1 image].
  split_and!; cbn [fst snd] in *; [done|apply entry_read; by exists i|exact F].
Qed.

(** ** What is handed out *)

(** The original and a copy do not see each other's writes: each reads the same
    in every heap that has the cells it is made of as they were when the copy
    was made. *)
Definition unshared {P V} `{Shared P V} (h : heap) (p : P) (v : V) (hp : heap * P) : Prop :=
  read hp.1 p = Some v /\ read hp.1 hp.2 = Some v /\ foot hp.1 p ## foot hp.1 hp.2 /\
  (forall h', agree (dom hp.1 ∖ foot hp.1 hp.2) hp.1 h' -> read h' p = Some v) /\
  (forall h', agree (dom hp.1 ∖ foot hp.1 p) hp.1 h' -> read h' hp.2 = Some v).

Lemma copies_unshared {P V} `{SharedLaws P V} h (p : P) (v : V) hp : read h p = Some v -> copies h v hp -> unshared h p v hp.
Proof.
  intros Hr (Hs&Hc&Hf). pose proof (read_dom _ _ _ Hr) as Hd. destruct (read_mono _ _ _ _ Hr Hs) as [Hr' Hf'].
  assert (foot hp.1 p ## foot hp.1 hp.2) as Hdisj by (rewrite Hf'; set_solver). pose proof (read_dom _ _ _ Hr'). pose proof (read_dom _ _ _ Hc).
  split_and!; [done..| |].
  - intros h' Ha. apply (read_frame hp.1 h' p v Hr'). eapply agree_sub; [|exact Ha]. set_solver.
  - intros h' Ha. apply (read_frame hp.1 h' hp.2 v Hc). eapply agree_sub; [|exact Ha]. set_solver.
Qed.

(** What leaves the owner and the store is not shared: the notification of a
    delta or a snapshot, an entry of the history and its pointer read like the
    ones that are kept, share no memory with them, and neither sees what is
    written to the memory of the other. *)
Theorem clones_unshared h :
  (forall g n, read h g = Some n -> unshared h g n (cloneNotification h g)) /\
  (forall g e, read h g = Some e -> unshared h g e (cloneEntry h g)).
Proof.
  split; intros g v Hr; (apply copies_unshared; [done|]); [by apply cloneNotification_copies|by apply cloneEntry_copies].
Qed.
