(* ===== verification/Frame.v ===== *)
(** * protocol: length-prefixed frames

    [ReadFrame], [WriteFrame] and [writeAll] of [protocol/frame.go].  A reader
    is the list of bytes it will still deliver before end of file; a writer is
    anything that meets the contract of [io.Writer], short writes included. *)
From stdpp Require Import gmap strings list fin_maps.
From Stdlib Require Import ZArith Lia Strings.Byte.
From S2P Require Import Prelude GoLib Protocol.
Local Open Scope string_scope.
Local Open Scope list_scope.
Local Open Scope Z_scope.

Definition MaxFrameSize : Z := 16777216.

Definition byteOf (z : Z) : Byte.byte := default x00 (Byte.of_N (Z.to_N (z mod 256))).
Definition byteZ (b : Byte.byte) : Z := Z.of_N (Byte.to_N b).

(** [binary.BigEndian.PutUint32] and [binary.BigEndian.Uint32]. *)
Definition PutUint32 (n : Z) : list Byte.byte :=
  [byteOf (Z.shiftr n 24); byteOf (Z.shiftr n 16); byteOf (Z.shiftr n 8); byteOf n].

Definition Uint32 (h : list Byte.byte) : Z :=
  foldl (fun acc b => Z.lor (Z.shiftl acc 8) (byteZ b)) 0 h.

(** [io.ReadFull] of [n] bytes. *)
Definition ReadFull (r : list Byte.byte) (n : Z) : (error + list Byte.byte) * list Byte.byte :=
  if zlen r <? n then
    (inl (match r with [] => ErrEOF | _ => ErrNew "unexpected EOF" end), [])
  else (inr (take (Z.to_nat n) r), drop (Z.to_nat n) r).

Definition ReadFrame (r : list Byte.byte) : (error + list Byte.byte) * list Byte.byte :=
  match ReadFull r 4 with
  | (inl e, r) => (inl (ErrWrap "protocol: read frame length: %w" e), r)
  | (inr header, r) =>
      let n := Uint32 header in
      if (n =? 0) || (MaxFrameSize <? n) then (inl (ErrNew "protocol: invalid frame length %d"), r)
      else match ReadFull r n with
           | (inl e, r) => (inl (ErrWrap "protocol: read frame payload: %w" e), r)
           | (inr payload, r) => (inr payload, r)
           end
  end.

(** ** Writers *)

Class Writer (W : Type) := Write : W -> list Byte.byte -> W * (Z * option error).

(** The documented contract of [io.Writer]: at most [len p] bytes, a prefix of
    [p], reach the stream. *)
Class WriterContract (W : Type) `{Writer W} := {
  written : W -> list Byte.byte;
  Write_prefix w p w' n err :
    Write w p = (w', (n, err)) ->
    0 <= n <= zlen p /\ written w' = written w ++ take (Z.to_nat n) p }.

(** The loop runs at most once for each byte; [writeAll] starts it with that
    much fuel, and [writeAllLoop_progress] shows it is never used up. *)
Fixpoint writeAllLoop {W} `{Writer W} (fuel : nat) (w : W) (p : list Byte.byte) : W * option error :=
  match p with
  | [] => (w, None)
  | _ =>
      match fuel with
      | O => (w, Some (ErrNew "out of fuel"))
      | S fuel =>
          let '(w, (n, err)) := Write w p in
          match err with
          | Some e => (w, Some e)
          | None => if n =? 0 then (w, Some ErrShortWrite)
                    else writeAllLoop fuel w (drop (Z.to_nat n) p)
          end
      end
  end.

Definition writeAll {W} `{Writer W} (w : W) (p : list Byte.byte) : W * option error :=
  writeAllLoop (length p) w p.

Definition WriteFrame {W} `{Writer W} (w : W) (payload : list Byte.byte) : W * option error :=
  if (zlen payload =? 0) || (MaxFrameSize <? zlen payload) then
    (w, Some (ErrNew "protocol: invalid frame length %d"))
  else
    match writeAll w (PutUint32 (wrap32 (zlen payload))) with
    | (w, Some e) => (w, Some (ErrWrap "protocol: write frame length: %w" e))
    | (w, None) =>
        match writeAll w payload with
        | (w, Some e) => (w, Some (ErrWrap "protocol: write frame payload: %w" e))
        | (w, None) => (w, None)
        end
    end.

(** ** Big-endian words *)

#[local] Ltac Zify.zify_post_hook ::= Z.div_mod_to_equations.

Lemma byteZ_range b : 0 <= byteZ b < 256.
Proof. unfold byteZ. pose proof (Byte.to_N_bounded b). lia. Qed.

Lemma byteZ_byteOf z : byteZ (byteOf z) = z mod 256.
Proof.
  unfold byteZ, byteOf. pose proof (Z.mod_pos_bound z 256 ltac:(lia)) as Hb.
  destruct (Byte.of_N (Z.to_N (z mod 256))) as [b|] eqn:E; cbn.
  - apply Byte.to_of_N in E. rewrite E. lia.
  - apply Byte.of_N_None_iff in E. lia.
Qed.

Lemma byteOf_byteZ b : byteOf (byteZ b) = b.
Proof.
  unfold byteOf. rewrite Z.mod_small by apply byteZ_range.
  unfold byteZ. rewrite N2Z.id, Byte.of_to_N. done.
Qed.

Lemma byteOf_eq z b : z mod 256 = byteZ b -> byteOf z = b.
Proof. intros Hz. rewrite <-(byteOf_byteZ b). unfold byteOf. by rewrite Hz, (Z.mod_small (byteZ b)) by apply byteZ_range. Qed.

Lemma lor_shiftl_add a b : 0 <= b < 256 -> Z.lor (Z.shiftl a 8) b = a * 256 + b.
Proof.
  intros Hb. rewrite Z.shiftl_mul_pow2 by lia. change (2 ^ 8) with 256.
  rewrite <-Z.add_lor_land.
  assert (Z.land (a * 256) b = 0) as ->; [|lia].
  apply Z.bits_inj'. intros i Hi. rewrite Z.land_spec, Z.bits_0.
  change 256 with (2 ^ 8). rewrite Z.mul_pow2_bits by lia.
  destruct (decide (i < 8)); [by rewrite Z.testbit_neg_r by lia|].
  rewrite andb_false_iff. right. destruct (decide (b = 0)) as [->|]; [apply Z.bits_0|].
  apply Z.bits_above_log2; [lia|].
  assert (Z.log2 b < 8) by (apply Z.log2_lt_pow2; lia). lia.
Qed.

Lemma Uint32_four a b c d :
  Uint32 [a; b; c; d] = ((byteZ a * 256 + byteZ b) * 256 + byteZ c) * 256 + byteZ d.
Proof.
  unfold Uint32. cbn [foldl].
  pose proof (byteZ_range a). pose proof (byteZ_range b).
  pose proof (byteZ_range c). pose proof (byteZ_range d).
  rewrite !lor_shiftl_add by done. lia.
Qed.

Lemma Uint32_PutUint32 n : is_u32 n -> Uint32 (PutUint32 n) = n.
Proof.
  unfold is_u32, PutUint32. intros Hn. rewrite Uint32_four, !byteZ_byteOf.
  rewrite !Z.shiftr_div_pow2 by lia.
  change (2 ^ 24) with 16777216. change (2 ^ 16) with 65536. change (2 ^ 8) with 256.
  lia.
Qed.

Lemma PutUint32_Uint32 a b c d : PutUint32 (Uint32 [a; b; c; d]) = [a; b; c; d].
Proof.
  rewrite Uint32_four. unfold PutUint32. rewrite !Z.shiftr_div_pow2 by lia.
  pose proof (byteZ_range a). pose proof (byteZ_range b).
  pose proof (byteZ_range c). pose proof (byteZ_range d).
  change (2 ^ 24) with 16777216. change (2 ^ 16) with 65536. change (2 ^ 8) with 256.
  repeat f_equal; apply byteOf_eq; lia.
Qed.

(** ** Frames *)

Lemma ReadFull_app p rest : ReadFull (p ++ rest) (zlen p) = (inr p, rest).
Proof.
  unfold ReadFull, zlen. rewrite length_app.
  destruct (Z.ltb_spec (Z.of_nat (length p + length rest)) (Z.of_nat (length p))); [lia|].
  rewrite Nat2Z.id, take_app_length, drop_app_length. done.
Qed.

Lemma ReadFull_inr r n p rest :
  0 <= n -> ReadFull r n = (inr p, rest) -> r = p ++ rest /\ zlen p = n.
Proof.
  unfold ReadFull. intros Hn. destruct (Z.ltb_spec (zlen r) n) as [|Hge]; [done|].
  intros [= <- <-]. rewrite take_drop. split; [done|].
  unfold zlen in *. rewrite length_take. lia.
Qed.

Definition frameOf (payload : list Byte.byte) : list Byte.byte :=
  PutUint32 (zlen payload) ++ payload.

Definition frameable (payload : list Byte.byte) : Prop := 1 <= zlen payload <= MaxFrameSize.

Lemma ReadFrame_frameOf payload rest :
  frameable payload -> ReadFrame (frameOf payload ++ rest) = (inr payload, rest).
Proof.
  unfold frameable, ReadFrame, frameOf, MaxFrameSize. intros Hp.
  rewrite <-app_assoc.
  change 4 with (zlen (PutUint32 (zlen payload))). rewrite ReadFull_app.
  rewrite Uint32_PutUint32 by (unfold is_u32; lia).
  rewrite (proj2 (Z.eqb_neq _ _)), (proj2 (Z.ltb_ge _ _)) by lia. cbn.
  by rewrite ReadFull_app.
Qed.

Lemma ReadFrame_inr r payload rest :
  ReadFrame r = (inr payload, rest) -> frameable payload /\ r = frameOf payload ++ rest.
Proof.
  unfold ReadFrame. destruct (ReadFull r 4) as [[e|h] r1] eqn:E1; [done|].
  apply ReadFull_inr in E1 as [-> Hh]; [|lia].
  destruct ((_ =? 0) || _) eqn:Hn; [done|].
  apply orb_false_iff in Hn as [Hn0%Z.eqb_neq Hnm%Z.ltb_ge].
  destruct h as [|a [|b [|c [|d [|? ?]]]]]; try (unfold zlen in Hh; cbn in Hh; lia).
  assert (0 <= Uint32 [a; b; c; d]) as Hpos.
  { rewrite Uint32_four. pose proof (byteZ_range a). pose proof (byteZ_range b).
    pose proof (byteZ_range c). pose proof (byteZ_range d). lia. }
  destruct (ReadFull r1 _) as [[e|p] r2] eqn:E2; [done|]. intros [= <- <-].
  apply ReadFull_inr in E2 as [-> Hp]; [|done].
  unfold frameable, frameOf. rewrite Hp, PutUint32_Uint32. split; [lia|]. by rewrite app_assoc.
Qed.

Section Writers.
Context {W} `{WriterContract W}.

Lemma writeAllLoop_None fuel w p w' :
  writeAllLoop fuel w p = (w', None) -> written w' = written w ++ p.
Proof.
  revert w p. induction fuel as [|fuel IH]; intros w [|b p]; cbn [writeAllLoop].
  1,3: intros [= <-]; by rewrite app_nil_r.
  1: done.
  destruct (Write w (b :: p)) as [w1 [n err]] eqn:E. apply Write_prefix in E as [Hn Hw].
  destruct err as [e|]; [done|]. destruct (n =? 0); [done|].
  intros Hl. apply IH in Hl. by rewrite Hl, Hw, <-app_assoc, take_drop.
Qed.

(** A writer that accepts at least one byte of every write takes all of
    them: the fuel is enough. *)
Lemma writeAllLoop_progress fuel w p :
  (forall w q, q <> [] -> 1 <= (Write w q).2.1 /\ (Write w q).2.2 = None) ->
  (length p <= fuel)%nat -> (writeAllLoop fuel w p).2 = None.
Proof.
  intros Hok. revert w p. induction fuel as [|fuel IH]; intros w [|b p] Hf; cbn [writeAllLoop]; try done.
  1: cbn in Hf; lia.
  destruct (Hok w (b :: p) ltac:(done)) as [Hn He].
  destruct (Write w (b :: p)) as [w1 [n err]] eqn:E. cbn in Hn, He. subst err.
  rewrite (proj2 (Z.eqb_neq _ _)) by lia. apply IH. rewrite length_drop. cbn in *. lia.
Qed.

Lemma WriteFrame_None w payload w' :
  WriteFrame w payload = (w', None) ->
  frameable payload /\ written w' = written w ++ frameOf payload.
Proof.
  unfold WriteFrame. destruct (_ || _) eqn:Hb; [done|].
  apply orb_false_iff in Hb as [Hb0%Z.eqb_neq Hbm%Z.ltb_ge].
  pose proof (zlen_nonneg payload). unfold writeAll.
  destruct (writeAllLoop _ w _) as [w1 [e|]] eqn:E1; [done|].
  destruct (writeAllLoop _ w1 _) as [w2 [e|]] eqn:E2; [done|]. intros [= <-].
  apply writeAllLoop_None in E1, E2. rewrite E2, E1. unfold frameOf.
  rewrite wrap32_small by (unfold is_u32, MaxFrameSize in *; lia).
  split; [unfold frameable; lia|]. by rewrite app_assoc.
Qed.

Lemma WriteFrame_progress w payload :
  (forall w q, q <> [] -> 1 <= (Write w q).2.1 /\ (Write w q).2.2 = None) ->
  frameable payload -> (WriteFrame w payload).2 = None.
Proof.
  intros Hok Hf. unfold WriteFrame, writeAll. unfold frameable in Hf.
  rewrite (proj2 (Z.eqb_neq _ _)), (proj2 (Z.ltb_ge _ _)) by lia. cbn [orb].
  pose proof (writeAllLoop_progress _ w (PutUint32 (wrap32 (zlen payload))) Hok (Nat.le_refl _)) as H1.
  destruct (writeAllLoop _ w _) as [w1 e1] eqn:E1. cbn in H1. subst e1.
  pose proof (writeAllLoop_progress _ w1 payload Hok (Nat.le_refl _)) as H2.
  destruct (writeAllLoop _ w1 _) as [w2 e2] eqn:E2. cbn in H2. by subst e2.
Qed.
(** ** Streams of frames *)

(** Writing the payloads one after the other, up to the first error. *)
Fixpoint writeFrames (w : W) (payloads : list (list Byte.byte)) : W * option error :=
  match payloads with
  | [] => (w, None)
  | p :: payloads =>
      match WriteFrame w p with
      | (w, Some e) => (w, Some e)
      | (w, None) => writeFrames w payloads
      end
  end.

Lemma writeFrames_None w payloads w' :
  writeFrames w payloads = (w', None) ->
  Forall frameable payloads /\ written w' = written w ++ concat (map frameOf payloads).
Proof.
  revert w. induction payloads as [|p l IH]; intros w; cbn; [intros [= <-]; by rewrite app_nil_r|].
  destruct (WriteFrame w p) as [w1 [e|]] eqn:E; [done|]. intros (Hl&->)%IH.
  apply WriteFrame_None in E as [Hp ->]. split; [by constructor|]. by rewrite <-app_assoc.
Qed.

Lemma writeFrames_progress w payloads :
  (forall w q, q <> [] -> 1 <= (Write w q).2.1 /\ (Write w q).2.2 = None) ->
  Forall frameable payloads -> (writeFrames w payloads).2 = None.
Proof.
  intros Hok Hl. revert w. induction Hl as [|p l Hp _ IH]; intros w; cbn; [done|].
  pose proof (WriteFrame_progress w p Hok Hp) as Hw. destruct (WriteFrame w p) as [w1 [e|]]; [done|]. apply IH.
Qed.

End Writers.

(** Reading [n] frames, up to the first error. *)
Fixpoint readFrames (n : nat) (r : list Byte.byte) : (error + list (list Byte.byte)) * list Byte.byte :=
  match n with
  | O => (inr [], r)
  | S n =>
      match ReadFrame r with
      | (inl e, r) => (inl e, r)
      | (inr p, r) => match readFrames n r with
                      | (inl e, r) => (inl e, r)
                      | (inr l, r) => (inr (p :: l), r)
                      end
      end
  end.

Lemma readFrames_frames payloads rest :
  Forall frameable payloads ->
  readFrames (length payloads) (concat (map frameOf payloads) ++ rest) = (inr payloads, rest).
Proof.
  induction 1 as [|p l Hp _ IH]; cbn [length readFrames map concat]; [done|]. by rewrite <-app_assoc, ReadFrame_frameOf, IH.
Qed.

(** ** Claims *)

(** C23: framing round trip: whatever sequence of payloads [WriteFrame] puts on
    a stream without an error, reading as many frames from the bytes it added
    gives the same payloads in the same order and leaves what follows. *)
Theorem frames_roundtrip {W} `{WriterContract W} (w w' : W) payloads rest :
  writeFrames w payloads = (w', None) ->
  exists bytes, written w' = written w ++ bytes /\
    readFrames (length payloads) (bytes ++ rest) = (inr payloads, rest).
Proof.
  intros [Hl Hw]%writeFrames_None. eexists. split; [exact Hw|]. by apply readFrames_frames.
Qed.

(** On a writer that takes at least a byte of each write, [WriteFrame]
    ends without an error for every payload of 1 to [MaxFrameSize] bytes, and
    refuses every other payload before it writes anything. *)
Theorem WriteFrame_total {W} `{WriterContract W} (w : W) payload :
  (forall w q, q <> [] -> 1 <= (Write w q).2.1 /\ (Write w q).2.2 = None) ->
  ((WriteFrame w payload).2 = None <-> frameable payload) /\
  (~ frameable payload -> (WriteFrame w payload).1 = w).
Proof.
  intros Hok. split; [split; [|by apply WriteFrame_progress]|].
  - destruct (WriteFrame w payload) as [w' e] eqn:E. cbn. intros ->. by apply WriteFrame_None in E as [? _].
  - unfold frameable, WriteFrame. intros Hn. pose proof (zlen_nonneg payload).
    destruct (Z.eqb_spec (zlen payload) 0); [done|]. destruct (Z.ltb_spec MaxFrameSize (zlen payload)); [done|]. lia.
Qed.

(** [ReadFrame] accepts exactly the streams that begin with a well-formed
    frame: the payload has 1 to [MaxFrameSize] bytes, the four bytes before it
    are its length, and the rest of the stream is left unread. *)
Theorem ReadFrame_sound_complete r payload rest :
  ReadFrame r = (inr payload, rest) <-> frameable payload /\ r = frameOf payload ++ rest.
Proof. split; [apply ReadFrame_inr|]. intros [Hf ->]. by apply ReadFrame_frameOf. Qed.
