(* ===== verification/Strict.v ===== *)
(** * protocol: strict decoding

    [DecodeStrict], [rejectDuplicateKeys], [scanJSONValue] and [requireEOF] of
    [protocol/frame.go].  A [json.Decoder] is the stream of tokens it will
    still deliver and the error that ends them, end of file or a syntax error;
    what it delivers for a JSON value is [tokensOf].  The tokens of a text and
    the decoding into a Go value, which [encoding/json] does by reflection, are
    the classes [Tokenizer] and [Decode]. *)
From stdpp Require Import gmap strings list.
From Stdlib Require Import ZArith Lia.
From S2P Require Import Prelude GoLib.
Local Open Scope string_scope.
Local Open Scope list_scope.

(** ** encoding/json: tokens *)

Inductive token :=
  | OpenObject | CloseObject | OpenArray | CloseArray
  | TString (s : string)
  | TScalar (text : string) (** a number, true, false or null *).

Record decoder := mkDecoder { jd_tokens : list token; jd_end : error }.

Definition Token (d : decoder) : decoder * (error + token) :=
  match jd_tokens d with
  | [] => (d, inl (jd_end d))
  | t :: rest => (mkDecoder rest (jd_end d), inr t)
  end.

(** There is another element in the current array or object. *)
Definition More (d : decoder) : bool :=
  match jd_tokens d with [] | CloseObject :: _ | CloseArray :: _ => false | _ => true end.

(** ** frame.go *)

(** [None] is out of fuel.  [scanObject] and [scanArray] are the two loops of
    [scanJSONValue]. *)
Fixpoint scanJSONValue (fuel : nat) (d : decoder) : option (decoder * option error) :=
  match fuel with
  | O => None
  | S fuel =>
      match Token d with
      | (d, inl err) => Some (d, Some err)
      | (d, inr OpenObject) => scanObject fuel ∅ d
      | (d, inr OpenArray) => scanArray fuel d
      | (d, inr (CloseObject | CloseArray)) => Some (d, Some (ErrNew "unexpected delimiter %q"))
      | (d, inr (TString _ | TScalar _)) => Some (d, None)
      end
  end
with scanObject (fuel : nat) (seen : gset string) (d : decoder) : option (decoder * option error) :=
  match fuel with
  | O => None
  | S fuel =>
      if More d then
        match Token d with
        | (d, inl err) => Some (d, Some err)
        | (d, inr (TString key)) =>
            if decide (key ∈ seen) then Some (d, Some (ErrNew "duplicate object key %q"))
            else match scanJSONValue fuel d with
                 | Some (d, None) => scanObject fuel ({[key]} ∪ seen) d
                 | r => r
                 end
        | (d, inr _) => Some (d, Some (ErrNew "object key is not a string"))
        end
      else let '(d, t) := Token d in Some (d, match t with inl err => Some err | inr _ => None end)
  end
with scanArray (fuel : nat) (d : decoder) : option (decoder * option error) :=
  match fuel with
  | O => None
  | S fuel =>
      if More d then
        match scanJSONValue fuel d with
        | Some (d, None) => scanArray fuel d
        | r => r
        end
      else let '(d, t) := Token d in Some (d, match t with inl err => Some err | inr _ => None end)
  end.

Definition isEOF (e : error) : bool := match e with ErrEOF => true | _ => false end.

Definition requireEOF (d : decoder) : option error :=
  match Token d with
  | (_, inr _) => Some (ErrNew "protocol: trailing JSON value")
  | (_, inl err) => if errors_Is isEOF err then None else Some (ErrWrap "protocol: trailing JSON: %w" err)
  end.

(** The fuel is twice the number of tokens, and two more. *)
Definition rejectDuplicateKeys (d : decoder) : option (option error) :=
  r ← scanJSONValue (2 + 2 * length (jd_tokens d)) d;
  Some (match r with
        | (_, Some err) => Some (ErrWrap "protocol: scan JSON: %w" err)
        | (d, None) => requireEOF d
        end).

(** A new decoder on a text, read token by token. *)
Class Tokenizer := json_tokens : string -> decoder.

(** [Decode] of a text into a value, unknown fields disallowed, with what the
    decoder has left. *)
Class Decode (A : Type) := json_Decode : string -> decoder * (error + A).

Definition DecodeStrict {A} `{Tokenizer, Decode A} (data : string) : option (error + A) :=
  if negb (ValidString data) then Some (inl (ErrNew "protocol: JSON is not valid UTF-8"))
  else
    rejected ← rejectDuplicateKeys (json_tokens data);
    Some (match rejected with
          | Some err => inl err
          | None =>
              match json_Decode data with
              | (_, inl err) => inl (ErrWrap "protocol: decode JSON: %w" err)
              | (dec, inr dst) => match requireEOF dec with Some err => inl err | None => inr dst end
              end
          end).

(** ** JSON values *)

Inductive json :=
  | JString (s : string) | JScalar (text : string)
  | JArray (items : list json) | JObject (members : list (string * json)).

Fixpoint tokensOf (v : json) : list token :=
  match v with
  | JString s => [TString s]
  | JScalar t => [TScalar t]
  | JArray items => OpenArray :: concat (map tokensOf items) ++ [CloseArray]
  | JObject members => OpenObject :: concat (map (fun m => TString m.1 :: tokensOf m.2) members) ++ [CloseObject]
  end.

(** No object in the value, at any depth, names a member twice. *)
Fixpoint uniqueKeys (v : json) : Prop :=
  match v with
  | JString _ | JScalar _ => True
  | JArray items => foldr (fun v P => uniqueKeys v /\ P) True items
  | JObject members => NoDup (map fst members) /\ foldr (fun m P => uniqueKeys m.2 /\ P) True members
  end.

(** ** The scan ends *)

Definition ends (n : nat) (r : option (decoder * option error)) (strict : bool) : Prop :=
  exists d err, r = Some (d, err) /\
    (err = None -> if strict then length (jd_tokens d) < n else length (jd_tokens d) <= n)%nat.

Lemma closing_ends d :
  ends (length (jd_tokens d)) (let '(d, t) := Token d in Some (d, match t with inl err => Some err | inr _ => None end)) false.
Proof. unfold Token. destruct (jd_tokens d) as [|t l] eqn:Ht; do 2 eexists; (split; [done|]); cbn; try done. intros _. lia. Qed.

Lemma scan_total fuel :
  (forall d, (2 * length (jd_tokens d) + 1 <= fuel)%nat -> ends (length (jd_tokens d)) (scanJSONValue fuel d) true) /\
  (forall seen d, (2 * length (jd_tokens d) + 2 <= fuel)%nat -> ends (length (jd_tokens d)) (scanObject fuel seen d) false) /\
  (forall d, (2 * length (jd_tokens d) + 2 <= fuel)%nat -> ends (length (jd_tokens d)) (scanArray fuel d) false).
Proof.
  induction fuel as [|fuel (IHv&IHo&IHa)]; [split_and!; intros; lia|].
  split_and!.
  - intros d Hf. cbn [scanJSONValue]. unfold Token. destruct (jd_tokens d) as [|t l] eqn:Ht; [by do 2 eexists|].
    cbn [length] in Hf. destruct t; try (do 2 eexists; split; [done|]; cbn; try done; lia).
    + destruct (IHo ∅ (mkDecoder l (jd_end d))) as (d'&err&Hr&He); [cbn; lia|]. exists d', err. split; [done|].
      intros Hn. specialize (He Hn). cbn in *. lia.
    + destruct (IHa (mkDecoder l (jd_end d))) as (d'&err&Hr&He); [cbn; lia|]. exists d', err. split; [done|].
      intros Hn. specialize (He Hn). cbn in *. lia.
  - intros seen d Hf. cbn [scanObject]. destruct (More d) eqn:Hm; [|apply closing_ends].
    unfold Token. destruct (jd_tokens d) as [|t l] eqn:Ht; [by do 2 eexists|]. cbn [length] in Hf.
    destruct t; try (do 2 eexists; split; [done|]; done). case_decide; [by do 2 eexists|].
    destruct (IHv (mkDecoder l (jd_end d))) as (d1&err1&->&He1); [cbn; lia|]. destruct err1 as [e|]; [by do 2 eexists|].
    specialize (He1 eq_refl). cbn in He1. destruct (IHo ({[s]} ∪ seen) d1) as (d'&err&->&He); [lia|].
    exists d', err. split; [done|]. intros Hn. specialize (He Hn). cbn in *. lia.
  - intros d Hf. cbn [scanArray]. destruct (More d) eqn:Hm; [|apply closing_ends].
    destruct (IHv d) as (d1&err1&->&He1); [lia|]. destruct err1 as [e|]; [by do 2 eexists|].
    specialize (He1 eq_refl). cbn in He1. destruct (IHa d1) as (d'&err&->&He); [lia|].
    exists d', err. split; [done|]. intros Hn. specialize (He Hn). cbn in *. lia.
Qed.

(** ** The scan finds exactly the duplicate keys *)

Definition verdict (P : Prop) (rest : list token) (e : error) (r : option (decoder * option error)) : Prop :=
  (P /\ r = Some (mkDecoder rest e, None)) \/ (~ P /\ exists d err, r = Some (d, Some err)).

Definition memberTokens (m : string * json) : list token := TString m.1 :: tokensOf m.2.

(** The first token of a value opens it. *)
Lemma More_value v l e : More (mkDecoder (tokensOf v ++ l) e) = true.
Proof. by destruct v. Qed.

Lemma tokensOf_nonempty v : (0 < length (tokensOf v))%nat.
Proof. destruct v; cbn; lia. Qed.

Lemma scan_exact fuel :
  (forall v rest e, (2 * length (tokensOf v ++ rest) + 1 <= fuel)%nat ->
     verdict (uniqueKeys v) rest e (scanJSONValue fuel (mkDecoder (tokensOf v ++ rest) e))) /\
  (forall members seen rest e, (2 * length (concat (map memberTokens members) ++ CloseObject :: rest) + 2 <= fuel)%nat ->
     verdict (NoDup (map fst members) /\ Forall (fun k => k ∉ seen) (map fst members) /\
              foldr (fun m P => uniqueKeys m.2 /\ P) True members) rest e
       (scanObject fuel seen (mkDecoder (concat (map memberTokens members) ++ CloseObject :: rest) e))) /\
  (forall items rest e, (2 * length (concat (map tokensOf items) ++ CloseArray :: rest) + 2 <= fuel)%nat ->
     verdict (foldr (fun v P => uniqueKeys v /\ P) True items) rest e
       (scanArray fuel (mkDecoder (concat (map tokensOf items) ++ CloseArray :: rest) e))).
Proof.
  induction fuel as [|fuel (IHv&IHo&IHa)]; [split_and!; intros; lia|]. split_and!.
  - intros v rest e Hf. cbn [scanJSONValue]. destruct v as [s|t|items|members]; cbn [tokensOf app Token jd_tokens jd_end] in *.
    + by left.
    + by left.
    + rewrite <-app_assoc in *. cbn [app length] in *. apply IHa. lia.
    + rewrite <-app_assoc in *. cbn [app length] in *. change (map (fun m => TString m.1 :: tokensOf m.2) members) with (map memberTokens members) in *.
      destruct (IHo members ∅ rest e) as [[(H1&_&H3) Hr]|[Hn Hr]]; [lia|left; by split|right]. split; [|done].
      intros [H1 H3]. apply Hn. split_and!; [done|apply Forall_forall; set_solver|done].
  - intros members seen rest e Hf. cbn [scanObject]. destruct members as [|[key v] members].
    { left. split; [|done]. split_and!; [apply NoDup_nil_2|constructor|done]. }
    cbn [map concat memberTokens app fst snd] in *. cbn [More jd_tokens Token jd_end]. cbn [length] in Hf. rewrite <-app_assoc in *.
    set (l := concat (map memberTokens members) ++ CloseObject :: rest) in *. rewrite length_app in Hf.
    case_decide as Hseen.
    { right. split; [|by do 2 eexists]. intros (_&Hk&_). by apply Forall_cons in Hk as [? _]. }
    destruct (IHv v l e) as [[Hv ->]|[Hv (d&err&->)]]; [rewrite length_app; lia| |].
    2:{ right. split; [|by do 2 eexists]. intros (_&_&Hu). cbn in Hu. tauto. }
    destruct (IHo members ({[key]} ∪ seen) rest e) as [[(H1&H2&H3) Hr]|[Hn Hr]]; [fold l; pose proof (tokensOf_nonempty v); lia|left|right]; (split; [|done]).
    + split_and!.
      * cbn [map]. apply NoDup_cons. split; [|done]. intros Hin. rewrite Forall_forall in H2. specialize (H2 key Hin). set_solver.
      * cbn [map]. constructor; [done|]. eapply Forall_impl; [exact H2|]. cbn. set_solver.
      * done.
    + intros (N1&N2&N3). cbn [map fst] in N1, N2. apply NoDup_cons in N1 as [Hnin N1]. apply Forall_cons in N2 as [_ N2]. apply Hn.
      split_and!; [done| |by cbn in N3; destruct N3]. apply Forall_forall. intros k Hk. rewrite Forall_forall in N2. specialize (N2 k Hk). set_solver.
  - intros items rest e Hf. cbn [scanArray]. destruct items as [|v items]; [by left|].
    cbn [map concat] in *. rewrite <-app_assoc in *. rewrite More_value. set (l := concat (map tokensOf items) ++ CloseArray :: rest) in *.
    destruct (IHv v l e) as [[Hv ->]|[Hv (d&err&->)]]; [lia| |].
    2:{ right. split; [|by do 2 eexists]. cbn. tauto. }
    rewrite length_app in Hf. pose proof (tokensOf_nonempty v).
    destruct (IHa items rest e) as [[H1 Hr]|[Hn Hr]]; [fold l; lia|left|right]; (split; [|done]); cbn; tauto.
Qed.

Lemma rejectDuplicateKeys_total d : is_Some (rejectDuplicateKeys d).
Proof.
  unfold rejectDuplicateKeys. destruct (proj1 (scan_total (2 + 2 * length (jd_tokens d))) d) as (d'&err&->&_); [lia|]. by eexists.
Qed.

Lemma rejectDuplicateKeys_value v rest e :
  rejectDuplicateKeys (mkDecoder (tokensOf v ++ rest) e) = Some None <-> uniqueKeys v /\ rest = [] /\ errors_Is isEOF e = true.
Proof.
  unfold rejectDuplicateKeys. cbn [jd_tokens].
  destruct (proj1 (scan_exact (2 + 2 * length (tokensOf v ++ rest))) v rest e) as [[Hu ->]|[Hu (d&err&->)]]; [lia| |]; cbn [mbind option_bind].
  - unfold requireEOF, Token. cbn [jd_tokens jd_end]. destruct rest as [|t rest]; [|naive_solver].
    destruct (errors_Is isEOF e); naive_solver.
  - naive_solver.
Qed.

Lemma DecodeStrict_total {A} `{Tokenizer, Decode A} data : is_Some (DecodeStrict data).
Proof.
  unfold DecodeStrict. destruct (negb _); [by eexists|].
  destruct (rejectDuplicateKeys_total (json_tokens data)) as [r ->]. by eexists.
Qed.

(** Strict decoding refuses exactly the documents it should: it always
    ends, and for a text whose tokens are those of a JSON value and of anything
    after it the scan reports success if and only if no object of the value
    names a member twice, at any depth, and nothing but the end of the input
    follows; what is decoded is valid UTF-8 that passed the scan. *)
Theorem duplicate_keys_refused {A} `{Tokenizer, Decode A} data :
  (exists r, DecodeStrict data = Some r /\
    forall dst, r = inr dst -> ValidString data = true /\ rejectDuplicateKeys (json_tokens data) = Some None /\
      exists dec, json_Decode data = (dec, inr dst)) /\
  (forall v rest e, rejectDuplicateKeys (mkDecoder (tokensOf v ++ rest) e) = Some None <->
     uniqueKeys v /\ rest = [] /\ errors_Is isEOF e = true).
Proof.
  split; [|intros; apply rejectDuplicateKeys_value].
  destruct (DecodeStrict_total data) as [r Hr]. exists r. split; [done|]. intros dst ->. revert Hr. unfold DecodeStrict.
  destruct (ValidString data); [|done]. cbn [negb]. destruct (rejectDuplicateKeys _) as [[e|]|]; [done| |done]. cbn.
  destruct (json_Decode data) as [dec [e|dst']]; [done|]. destruct (requireEOF dec); [done|]. intros [= <-]. split_and!; [done|done|by exists dec].
Qed.
