(* ===== verification/Notify.v ===== *)
(** * internal/notify: requests, candidates and ids

    [model.go] ([ResolveID] and the data), [image.go] (raw image validation and
    scaling) and [normalize.go] (a D-Bus request made into a candidate).

    [image/png] and [net/url] are parameters ([Png], [UrlParser]).  A slice
    read out of range panics in Go: [normalizeImage] and [Normalize] return
    [None] for a panic, and the theorems show it does not happen. *)
From stdpp Require Import gmap strings list fin_maps.
From Stdlib Require Import ZArith Lia Strings.Byte Strings.Ascii Wf_nat.
From S2P Require Import Prelude GoLib Protocol.
Local Open Scope string_scope.
Local Open Scope list_scope.
Local Open Scope Z_scope.

(** ** model.go *)

Definition HintUrgency := "urgency".
Definition HintTransient := "transient".
Definition HintDesktopEntry := "desktop-entry".
Definition HintCategory := "category".
Definition HintValue := "value".
Definition HintPrivate := "x-sysc-private".
Definition HintResident := "resident".
Definition HintInlineReplyPlaceholder := "x-kde-reply-placeholder-text".
Definition ActionInlineReply := "inline-reply".
Definition HintImageData := "image-data".
Definition HintImagePath := "image-path".

Record RawImage := mkRawImage {
  ri_Width : Z; ri_Height : Z; ri_RowStride : Z; ri_HasAlpha : bool;
  ri_BitsPerSample : Z; ri_Channels : Z; ri_Data : list Byte.byte }.

(** The dynamic values a hint can hold.  [AImageData] is [fdo]'s [imageData]
    struct (it has the fields of a raw image), [ASlice] a [[]any], [AOther] any
    type the code does not ask for. *)
Inductive any :=
  | AUint8 (z : Z) | AInt32 (z : Z) | ABool (b : bool) | AString (s : string)
  | ABytes (l : list Byte.byte) | ARawImage (r : RawImage) | AImageData (r : RawImage)
  | ASlice (l : list any) | AOther (typeName : string).

Record Sender := mkSender { sd_Name : string; sd_PID : Z; sd_Lineage : list Process }.

Record Request := mkRequest {
  rq_AppName : string; rq_AppIcon : string; rq_Summary : string; rq_Body : string;
  rq_ReplacesID : Z;
  rq_Actions : list string;
  rq_Hints : gmap string any;
  rq_ExpireTimeout : Z;
  rq_Sender : Sender }.

Record Candidate := mkCandidate {
  cd_AppName : string; cd_AppIcon : string; cd_Summary : string; cd_Body : string;
  cd_ReplacesID : Z;
  cd_Actions : list Action;
  cd_Urgency : Z;
  cd_ExpireTimeout : Z;
  cd_Transient : bool; cd_Private : bool; cd_Resident : bool;
  cd_DesktopEntry : string; cd_Category : string;
  cd_Value : option Z;
  cd_InlineReply : bool;
  cd_ReplyPlaceholder : string;
  cd_Image : option Image;
  cd_ImageRejected : bool;
  cd_Sender : Sender }.

(** Field updates of a candidate. *)
Definition set_ReplacesID (v : Z) (c : Candidate) : Candidate :=
  match c with mkCandidate a b d e _ g h i j k l m n o p q r s t =>
    mkCandidate a b d e v g h i j k l m n o p q r s t end.
Definition set_AppIcon (v : string) (c : Candidate) : Candidate :=
  match c with mkCandidate a _ d e f g h i j k l m n o p q r s t =>
    mkCandidate a v d e f g h i j k l m n o p q r s t end.
Definition set_Urgency (v : Z) (c : Candidate) : Candidate :=
  match c with mkCandidate a b d e f g _ i j k l m n o p q r s t =>
    mkCandidate a b d e f g v i j k l m n o p q r s t end.
Definition set_Transient (v : bool) (c : Candidate) : Candidate :=
  match c with mkCandidate a b d e f g h i _ k l m n o p q r s t =>
    mkCandidate a b d e f g h i v k l m n o p q r s t end.
Definition set_Private (v : bool) (c : Candidate) : Candidate :=
  match c with mkCandidate a b d e f g h i j _ l m n o p q r s t =>
    mkCandidate a b d e f g h i j v l m n o p q r s t end.
Definition set_Resident (v : bool) (c : Candidate) : Candidate :=
  match c with mkCandidate a b d e f g h i j k _ m n o p q r s t =>
    mkCandidate a b d e f g h i j k v m n o p q r s t end.
Definition set_DesktopEntry (v : string) (c : Candidate) : Candidate :=
  match c with mkCandidate a b d e f g h i j k l _ n o p q r s t =>
    mkCandidate a b d e f g h i j k l v n o p q r s t end.
Definition set_Category (v : string) (c : Candidate) : Candidate :=
  match c with mkCandidate a b d e f g h i j k l m _ o p q r s t =>
    mkCandidate a b d e f g h i j k l m v o p q r s t end.
Definition set_Value (v : option Z) (c : Candidate) : Candidate :=
  match c with mkCandidate a b d e f g h i j k l m n _ p q r s t =>
    mkCandidate a b d e f g h i j k l m n v p q r s t end.
Definition set_InlineReply (v : bool) (c : Candidate) : Candidate :=
  match c with mkCandidate a b d e f g h i j k l m n o _ q r s t =>
    mkCandidate a b d e f g h i j k l m n o v q r s t end.
Definition set_ReplyPlaceholder (v : string) (c : Candidate) : Candidate :=
  match c with mkCandidate a b d e f g h i j k l m n o p _ r s t =>
    mkCandidate a b d e f g h i j k l m n o p v r s t end.
Definition set_Image (v : option Image) (c : Candidate) : Candidate :=
  match c with mkCandidate a b d e f g h i j k l m n o p q _ s t =>
    mkCandidate a b d e f g h i j k l m n o p q v s t end.
Definition set_ImageRejected (v : bool) (c : Candidate) : Candidate :=
  match c with mkCandidate a b d e f g h i j k l m n o p q r _ t =>
    mkCandidate a b d e f g h i j k l m n o p q r v t end.

(** The id after [next], skipping zero when the counter wraps. *)
Definition nextUint32 (next : Z) : Z :=
  let next := wrap32 (next + 1) in if next =? 0 then 1 else next.

(** The search loop of [ResolveID].  It is started with one more round than
    there are live ids; [resolve_loop_fresh] shows that is enough, so the value
    for exhausted fuel is never returned. *)
Fixpoint resolveLoop (fuel : nat) (next : Z) (live : gset Z) : Z * Z :=
  match fuel with
  | O => (0, next)
  | S fuel =>
      if decide (next ∈ live) then resolveLoop fuel (nextUint32 next) live
      else (next, nextUint32 next)
  end.

Definition ResolveID (replacesID next : Z) (live : gset Z) : Z * Z :=
  if negb (replacesID =? 0) && bool_decide (replacesID ∈ live) then (replacesID, next)
  else
    let next := if next =? 0 then 1 else next in
    resolveLoop (S (size live)) next live.

(** ** image.go *)

(** What [image/png] offers: encoding of a row-major NRGBA pixel buffer, and
    decoding into bounds and a pixel function (its colours converted to
    NRGBA). *)
Record Decoded := mkDecoded {
  dc_MinX : Z; dc_MinY : Z; dc_Dx : Z; dc_Dy : Z;
  dc_At : Z -> Z -> list Byte.byte }.

Class Png := {
  png_Encode : Z -> Z -> list Byte.byte -> error + list Byte.byte;
  png_Decode : list Byte.byte -> error + Decoded }.

(** An encoded PNG starts with the format's eight signature bytes. *)
Class PngLaws `{Png} := {
  png_Encode_nonempty w h pix data : png_Encode w h pix = inr data -> 8 <= zlen data }.

Class UrlParser := url_Parse : string -> error + (string * string).

Definition RawImage_Validate (r : RawImage) : option error :=
  let minimumStride := ri_Width r * ri_Channels r in
  let rawBytes := ri_RowStride r * ri_Height r in
  let minimumBytes := ri_RowStride r * (ri_Height r - 1) + minimumStride in
  let decodedBytes := ri_Width r * ri_Height r * 4 in
  let dataBytes := zlen (ri_Data r) in
  failIf ((ri_Width r <=? 0) || (ri_Height r <=? 0) || (MaxSourceImageDimension <? ri_Width r) ||
          (MaxSourceImageDimension <? ri_Height r))
    (ErrNew "notify: invalid image dimensions") ;;;
  failIf (negb (ri_BitsPerSample r =? 8) || (negb (ri_Channels r =? 3) && negb (ri_Channels r =? 4)) ||
          (ri_HasAlpha r && negb (ri_Channels r =? 4)))
    (ErrNew "notify: unsupported image format") ;;;
  failIf ((ri_RowStride r <=? 0) || (ri_RowStride r <? minimumStride))
    (ErrNew "notify: invalid image row stride") ;;;
  failIf ((MaxSourceImageBytes <? rawBytes) || (MaxSourceImageBytes <? decodedBytes) ||
          (dataBytes <? minimumBytes) || (rawBytes <? dataBytes))
    (ErrNew "notify: invalid image data length").

(** One axis scaled so that the longest edge is [edge]. *)
Definition scaleTo (edge longest v : Z) : Z :=
  if edge <? longest then Z.max 1 (v * edge / longest) else v.

Definition indexData (data : list Byte.byte) (i : Z) : option Byte.byte :=
  if i <? 0 then None else data !! Z.to_nat i.

(** The four bytes written for one destination pixel. *)
Definition readPixel (raw : RawImage) (source : Z) : option (list Byte.byte) :=
  r ← indexData (ri_Data raw) source;
  g ← indexData (ri_Data raw) (source + 1);
  b ← indexData (ri_Data raw) (source + 2);
  a ← (if ri_HasAlpha raw then indexData (ri_Data raw) (source + 3) else Some xff);
  Some [r; g; b; a].

Definition sourceIndex (raw : RawImage) (dstWidth dstHeight x y : Z) : Z :=
  let sourceY := y * ri_Height raw / dstHeight in
  let sourceX := x * ri_Width raw / dstWidth in
  sourceY * ri_RowStride raw + sourceX * ri_Channels raw.

(** The destination buffer, row by row: its stride is four times its width, so
    the targets of the source's two loops are consecutive. *)
Definition scalePixels (raw : RawImage) (dstWidth dstHeight : Z) : option (list Byte.byte) :=
  rows ← mapM (fun y => mapM (fun x => readPixel raw (sourceIndex raw dstWidth dstHeight x y))
                          (seqZ 0 dstWidth)) (seqZ 0 dstHeight);
  Some (concat (concat rows)).

Definition normalizeImage `{Png} (raw : RawImage) : option (error + Image) :=
  match RawImage_Validate raw with
  | Some e => Some (inl e)
  | None =>
      let longest := Z.max (ri_Width raw) (ri_Height raw) in
      let dstWidth := scaleTo MaxWireImageLongEdge longest (ri_Width raw) in
      let dstHeight := scaleTo MaxWireImageLongEdge longest (ri_Height raw) in
      pix ← scalePixels raw dstWidth dstHeight;
      Some (match png_Encode dstWidth dstHeight pix with
            | inl e => inl e
            | inr encoded =>
                if MaxWireImageBytes <? zlen encoded
                then inl (ErrNew "notify: encoded image exceeds wire limit")
                else inr (mkImage "image/png" (wrap32 dstWidth) (wrap32 dstHeight) encoded)
            end)
  end.

(** ** normalize.go *)

Definition validateString (name value : string) (emptyOK : bool) : option error :=
  failIf (negb (ValidString value)) (ErrNew "notify: %s is not valid UTF-8") ;;;
  failIf ((negb emptyOK && String.eqb value "") || (MaxBodyBytes <? slen value))
    (ErrNew "notify: invalid %s length").

Definition isNil (e : option error) : bool := match e with None => true | Some _ => false end.

Fixpoint containsAny (s : string) (chars : list ascii) : bool :=
  match s with
  | EmptyString => false
  | String c s => existsb (Ascii.eqb c) chars || containsAny s chars
  end.

Definition IsAbs (path : string) : bool := String.prefix "/" path.

Definition imagePathIcon `{UrlParser} (hint : string) : string * bool :=
  if String.prefix "file://" hint then
    match url_Parse hint with
    | inl _ => ("", false)
    | inr (host, path) =>
        if (negb (String.eqb host "") && negb (String.eqb host "localhost")) ||
           negb (IsAbs path) || String.eqb path "/"
        then ("", false) else (path, true)
    end
  else if IsAbs hint then (hint, true)
  else if String.eqb hint "." || String.eqb hint ".." || containsAny hint ["/"%char; ":"%char]
       then ("", false)
       else (hint, true).

Definition applyImageHints `{Png, UrlParser} (c : Candidate) (hints : gmap string any) : option Candidate :=
  match hints !! HintImageData with
  | Some raw =>
      match raw with
      | ARawImage image =>
          r ← normalizeImage image;
          Some (match r with
                | inl _ => set_ImageRejected true c
                | inr decoded => set_AppIcon "" (set_Image (Some decoded) c)
                end)
      | _ => Some (set_ImageRejected true c)
      end
  | None =>
      match hints !! HintImagePath with
      | None => Some c
      | Some (AString path) =>
          if negb (isNil (validateString "image path" path true)) then Some (set_ImageRejected true c)
          else if String.eqb path "" then Some c
          else let '(icon, ok) := imagePathIcon path in
               if ok then Some (set_AppIcon icon c) else Some (set_ImageRejected true c)
      | Some _ => Some (set_ImageRejected true c)
      end
  end.

Definition asBool (v : any) : bool := match v with ABool b => b | _ => false end.

(** One round of the loop over the hints. *)
Definition applyHint (c : Candidate) (hint : string * any) : Candidate :=
  let '(key, value) := hint in
  if String.eqb key HintUrgency then
    match value with
    | AUint8 u => if u <=? UrgencyCritical then set_Urgency u c else c
    | _ => c
    end
  else if String.eqb key HintTransient then set_Transient (asBool value) c
  else if String.eqb key HintPrivate then set_Private (asBool value) c
  else if String.eqb key HintResident then set_Resident (asBool value) c
  else if String.eqb key HintDesktopEntry then
    match value with
    | AString s => if isNil (validateString "desktop entry" s true) then set_DesktopEntry s c else c
    | _ => c
    end
  else if String.eqb key HintCategory then
    match value with
    | AString s => if isNil (validateString "category" s true) then set_Category s c else c
    | _ => c
    end
  else if String.eqb key HintValue then
    match value with
    | AInt32 v => if (0 <=? v) && (v <=? 100) then set_Value (Some v) c else c
    | _ => c
    end
  else if String.eqb key HintInlineReplyPlaceholder then
    match value with
    | AString s => if isNil (validateString "reply placeholder" s true)
                   then set_ReplyPlaceholder s (set_InlineReply true c) else c
    | _ => c
    end
  else c.

(** The loop over the flat action list, two elements at a time. *)
Fixpoint parseActions (seen : gset string) (l : list string) : error + list Action :=
  match l with
  | key :: label :: l =>
      let action := mkAction key label in
      match Action_Validate action with
      | Some e => inl (ErrWrap "notify: action %d: %w" e)
      | None =>
          if decide (key ∈ seen) then inl (ErrNew "notify: duplicate action key %q")
          else match parseActions ({[key]} ∪ seen) l with
               | inl e => inl e
               | inr actions => inr (action :: actions)
               end
      end
  | _ => inr []
  end.

(** [Normalize], ranging over the hints in the order [hints] gives them: Go
    leaves the order of a map open. *)
Definition normalizeWith `{Png, UrlParser} (request : Request) (hints : list (string * any))
    : option (error + Candidate) :=
  let checks :=
    failIf (MaxHints <? Z.of_nat (size (rq_Hints request))) (ErrNew "notify: too many hints") ;;;
    failIf (rq_ExpireTimeout request <? -1) (ErrNew "notify: invalid expiry timeout") ;;;
    firstErrOf (fun '(name, value) => validateString name value true)
      [("app name", rq_AppName request); ("app icon", rq_AppIcon request);
       ("summary", rq_Summary request); ("body", rq_Body request);
       ("sender", sd_Name (rq_Sender request))] ;;;
    failIf (negb (zlen (rq_Actions request) mod 2 =? 0) ||
            (MaxActionPairs <? zlen (rq_Actions request) / 2)) (ErrNew "notify: invalid action list") in
  match checks with
  | Some e => Some (inl e)
  | None =>
      match parseActions ∅ (rq_Actions request) with
      | inl e => Some (inl e)
      | inr actions =>
          let candidate := mkCandidate (rq_AppName request) (rq_AppIcon request) (rq_Summary request)
            (rq_Body request) (rq_ReplacesID request) actions UrgencyNormal (rq_ExpireTimeout request)
            false false false "" "" None
            (existsb (fun a => String.eqb (a_Key a) ActionInlineReply) actions) "" None false
            (rq_Sender request) in
          c ← applyImageHints (fold_left applyHint hints candidate) (rq_Hints request);
          Some (inr c)
      end
  end.

Definition Normalize `{Png, UrlParser} (request : Request) : option (error + Candidate) :=
  normalizeWith request (map_to_list (rq_Hints request)).

(** ** ResolveID finds a free id *)

Notation idCount := 4294967295 (only parsing).

Lemma nextUint32_cyclic n : 1 <= n < 4294967296 -> nextUint32 n = n mod idCount + 1.
Proof.
  intros Hn. unfold nextUint32, wrap32. destruct (decide (n = idCount)) as [->|]; [reflexivity|].
  rewrite !Z.mod_small by lia. rewrite (proj2 (Z.eqb_neq _ _)) by lia. done.
Qed.

Lemma nextUint32_range n : 1 <= nextUint32 n < 4294967296.
Proof.
  unfold nextUint32. pose proof (wrap32_range (n + 1)) as H. unfold is_u32 in H.
  destruct (Z.eqb_spec (wrap32 (n + 1)) 0); lia.
Qed.

(** The ids the loop looks at, in order. *)
Fixpoint idsFrom (k : nat) (n : Z) : list Z :=
  match k with O => [] | S k => n :: idsFrom k (nextUint32 n) end.

Lemma idsFrom_lookup k n i x :
  1 <= n < 4294967296 -> idsFrom k n !! i = Some x ->
  x = (n - 1 + Z.of_nat i) mod idCount + 1 /\ (i < k)%nat.
Proof.
  revert n i. induction k as [|k IH]; intros n i Hn Hl; [done|].
  destruct i as [|i]; cbn in Hl.
  - injection Hl as <-. rewrite Z.mod_small by lia. lia.
  - apply IH in Hl as [-> ?]; [|apply nextUint32_range]. split; [|lia].
    rewrite nextUint32_cyclic by done. f_equal.
    replace (n - 1 + Z.of_nat (S i)) with (n + Z.of_nat i) by lia.
    rewrite <-(Z.add_mod_idemp_l n) by lia. f_equal. lia.
Qed.

Lemma idsFrom_range k n x : 1 <= n < 4294967296 -> x ∈ idsFrom k n -> 1 <= x < 4294967296.
Proof.
  intros Hn (i&Hi)%list_elem_of_lookup. apply idsFrom_lookup in Hi as [-> _]; [|done].
  pose proof (Z.mod_pos_bound (n - 1 + Z.of_nat i) idCount ltac:(lia)). lia.
Qed.

Lemma idsFrom_NoDup k n :
  1 <= n < 4294967296 -> Z.of_nat k <= idCount -> NoDup (idsFrom k n).
Proof.
  intros Hn Hk. apply NoDup_alt. intros i j x Hi Hj.
  apply idsFrom_lookup in Hi as [-> Hik]; [|done]. apply idsFrom_lookup in Hj as [Hj Hjk]; [|done].
  assert ((Z.of_nat i - Z.of_nat j) mod idCount = 0) as Hm.
  { replace (Z.of_nat i - Z.of_nat j) with ((n - 1 + Z.of_nat i) - (n - 1 + Z.of_nat j)) by lia.
    rewrite Zminus_mod. replace ((n - 1 + Z.of_nat i) mod idCount)
      with ((n - 1 + Z.of_nat j) mod idCount) by lia. by rewrite Z.sub_diag. }
  apply Z.mod_divide in Hm as [q Hq]; [|lia]. assert (q = 0) by lia. lia.
Qed.

Lemma resolveLoop_cases fuel next live :
  Forall (fun x => x ∈ live) (idsFrom fuel next) \/
  exists pre id post, idsFrom fuel next = pre ++ id :: post /\
    Forall (fun x => x ∈ live) pre /\ id ∉ live /\
    resolveLoop fuel next live = (id, nextUint32 id).
Proof.
  revert next. induction fuel as [|fuel IH]; intros next; cbn; [by left|].
  case_decide as Hin.
  - destruct (IH (nextUint32 next)) as [Hall|(pre&id&post&Heq&Hpre&?&?)]; [left|right].
    + by constructor.
    + exists (next :: pre), id, post. rewrite Heq. split_and!; try done. by constructor.
  - right. by exists [], next, (idsFrom fuel (nextUint32 next)).
Qed.

(** Among [size live + 1] consecutive ids one is free. *)
Lemma resolve_loop_fresh next live :
  1 <= next < 4294967296 -> Z.of_nat (size live) < idCount ->
  exists pre id post, idsFrom (S (size live)) next = pre ++ id :: post /\
    Forall (fun x => x ∈ live) pre /\ id ∉ live /\ 1 <= id < 4294967296 /\
    resolveLoop (S (size live)) next live = (id, nextUint32 id).
Proof.
  intros Hn Hs. destruct (resolveLoop_cases (S (size live)) next live) as [Hall|H].
  - exfalso. pose proof (idsFrom_NoDup (S (size live)) next Hn ltac:(lia)) as Hnd.
    assert (length (idsFrom (S (size live)) next) = S (size live)) as Hlen.
    { clear. revert next. induction (S (size live)); intros; cbn; [done|]. by rewrite IHn. }
    assert (size (list_to_set (idsFrom (S (size live)) next) : gset Z) = S (size live)) as Hsz.
    { rewrite size_list_to_set by done. done. }
    assert (list_to_set (idsFrom (S (size live)) next) ⊆ live) as Hsub.
    { intros x Hx%elem_of_list_to_set. rewrite Forall_forall in Hall. by apply Hall. }
    apply subseteq_size in Hsub. lia.
  - destruct H as (pre&id&post&Heq&Hpre&Hid&Hr). exists pre, id, post. split_and!; try done.
    all: apply (idsFrom_range (S (size live)) next id Hn); rewrite Heq; set_solver.
Qed.

Lemma ResolveID_new next live id next' :
  0 <= next < 4294967296 -> Z.of_nat (size live) < idCount ->
  ResolveID 0 next live = (id, next') ->
  id ∉ live /\ 1 <= id < 4294967296 /\ 1 <= next' < 4294967296.
Proof.
  intros Hn Hs. unfold ResolveID. cbn [Z.eqb negb andb].
  set (n0 := if next =? 0 then 1 else next).
  assert (1 <= n0 < 4294967296) as Hn0 by (unfold n0; destruct (Z.eqb_spec next 0); lia).
  destruct (resolve_loop_fresh n0 live Hn0 Hs) as (pre&i&post&_&_&Hi&Hir&Hr).
  rewrite Hr. intros [= <- <-]. split_and!; try done; try lia; apply nextUint32_range.
Qed.

(** ** Images *)

Record raw_ok (r : RawImage) : Prop := {
  ro_width : 1 <= ri_Width r <= MaxSourceImageDimension;
  ro_height : 1 <= ri_Height r <= MaxSourceImageDimension;
  ro_channels : ri_Channels r = 3 \/ ri_Channels r = 4;
  ro_alpha : ri_HasAlpha r = true -> ri_Channels r = 4;
  ro_stride : ri_Width r * ri_Channels r <= ri_RowStride r;
  ro_data : ri_RowStride r * (ri_Height r - 1) + ri_Width r * ri_Channels r <= zlen (ri_Data r) }.

Lemma RawImage_Validate_None r : RawImage_Validate r = None -> raw_ok r.
Proof.
  unfold RawImage_Validate. autorewrite with errs. rewrite !andb_false_iff.
  autorewrite with errs. intros ((((?&?)&?)&?)&((?&Hc)&Ha)&(?&?)&((?&?)&?)&?).
  split; try lia. intros Halpha. rewrite Halpha in Ha. destruct Ha; [done|lia].
Qed.

Lemma scaleTo_range edge longest v :
  1 <= edge -> 1 <= v <= longest -> 1 <= scaleTo edge longest v <= Z.min v edge.
Proof.
  intros He Hv. unfold scaleTo. destruct (Z.ltb_spec edge longest) as [Hlt|]; [|lia].
  assert (0 <= v * edge / longest) by (apply Z.div_pos; nia).
  assert (v * edge / longest <= edge) by (apply Z.div_le_upper_bound; nia).
  assert (v * edge / longest <= v) by (apply Z.div_le_upper_bound; nia).
  lia.
Qed.

Lemma scaled_coordinate x dst src : 0 <= x < dst -> 1 <= src -> 0 <= x * src / dst <= src - 1.
Proof.
  intros Hx Hs. split; [apply Z.div_pos; nia|].
  enough (x * src / dst < src) by lia. apply Z.div_lt_upper_bound; nia.
Qed.

Lemma indexData_Some data i : 0 <= i < zlen data -> is_Some (indexData data i).
Proof.
  unfold indexData, zlen. intros Hi. rewrite (proj2 (Z.ltb_ge _ _)) by lia.
  apply lookup_lt_is_Some. lia.
Qed.

(** The highest index read for a pixel is inside the data. *)
Lemma readPixel_Some raw dstWidth dstHeight x y :
  raw_ok raw -> 0 <= x < dstWidth -> 0 <= y < dstHeight ->
  is_Some (readPixel raw (sourceIndex raw dstWidth dstHeight x y)).
Proof.
  intros [Hw Hh Hc Ha Hs Hd] Hx Hy. unfold sourceIndex.
  pose proof (scaled_coordinate x dstWidth (ri_Width raw) Hx ltac:(lia)) as Hsx.
  pose proof (scaled_coordinate y dstHeight (ri_Height raw) Hy ltac:(lia)) as Hsy.
  set (sx := x * ri_Width raw / dstWidth) in *. set (sy := y * ri_Height raw / dstHeight) in *.
  assert (0 <= sy * ri_RowStride raw + sx * ri_Channels raw) as Hlo by nia.
  assert (sy * ri_RowStride raw + sx * ri_Channels raw + ri_Channels raw <= zlen (ri_Data raw)) as Hhi.
  { transitivity (ri_RowStride raw * (ri_Height raw - 1) + ri_Width raw * ri_Channels raw); [|done].
    assert (sy * ri_RowStride raw <= ri_RowStride raw * (ri_Height raw - 1)) by nia.
    assert (sx * ri_Channels raw + ri_Channels raw <= ri_Width raw * ri_Channels raw) by nia. lia. }
  set (s := sy * ri_RowStride raw + sx * ri_Channels raw) in *. unfold readPixel.
  destruct (indexData_Some (ri_Data raw) s) as [r ->]; [lia|].
  destruct (indexData_Some (ri_Data raw) (s + 1)) as [g ->]; [lia|].
  destruct (indexData_Some (ri_Data raw) (s + 2)) as [b ->]; [lia|]. cbn.
  destruct (ri_HasAlpha raw); [|by eexists].
  specialize (Ha eq_refl). destruct (indexData_Some (ri_Data raw) (s + 3)) as [a ->]; [lia|by eexists].
Qed.

Lemma scalePixels_Some raw dstWidth dstHeight :
  raw_ok raw -> is_Some (scalePixels raw dstWidth dstHeight).
Proof.
  intros Hr. unfold scalePixels.
  assert (is_Some (mapM (fun y => mapM (fun x => readPixel raw (sourceIndex raw dstWidth dstHeight x y))
                          (seqZ 0 dstWidth)) (seqZ 0 dstHeight))) as [rows ->]; [|by eexists].
  apply mapM_is_Some_2, Forall_forall. intros y Hy%elem_of_seqZ.
  apply mapM_is_Some_2, Forall_forall. intros x Hx%elem_of_seqZ.
  apply readPixel_Some; [done|lia|lia].
Qed.

Lemma normalizeImage_total `{Png} raw : is_Some (normalizeImage raw).
Proof.
  unfold normalizeImage. destruct (RawImage_Validate raw) eqn:Hv; [by eexists|].
  apply RawImage_Validate_None in Hv.
  destruct (scalePixels_Some raw (scaleTo MaxWireImageLongEdge (Z.max (ri_Width raw) (ri_Height raw)) (ri_Width raw))
    (scaleTo MaxWireImageLongEdge (Z.max (ri_Width raw) (ri_Height raw)) (ri_Height raw)) Hv) as [pix ->].
  by eexists.
Qed.

Lemma normalizeImage_valid `{PngLaws} raw img :
  normalizeImage raw = Some (inr img) ->
  Image_Validate img = None /\ i_Width img <= ri_Width raw /\ i_Height img <= ri_Height raw.
Proof.
  unfold normalizeImage. destruct (RawImage_Validate raw) eqn:Hv; [done|].
  apply RawImage_Validate_None in Hv as [Hw Hh _ _ _ _].
  pose proof (scaleTo_range MaxWireImageLongEdge (Z.max (ri_Width raw) (ri_Height raw)) (ri_Width raw)
    ltac:(done) ltac:(lia)) as Hdw.
  pose proof (scaleTo_range MaxWireImageLongEdge (Z.max (ri_Width raw) (ri_Height raw)) (ri_Height raw)
    ltac:(done) ltac:(lia)) as Hdh.
  destruct (scalePixels _ _ _) as [pix|]; [|done]. cbn.
  destruct (png_Encode _ _ pix) as [e|data] eqn:He; [done|].
  apply png_Encode_nonempty in He. destruct (Z.ltb_spec MaxWireImageBytes (zlen data)); [done|].
  intros [= <-]. unfold Image_Validate, MaxWireImageLongEdge, MaxSourceImageDimension in *. cbn.
  rewrite !wrap32_small by (unfold is_u32; lia).
  split; [|lia]. solve_checks.
Qed.

(** ** The order of the hints *)

Lemma fold_left_perm {A B} (f : A -> string * B -> A) l k c :
  (forall c x y, x.1 <> y.1 -> f (f c x) y = f (f c y) x) ->
  l ≡ₚ k -> NoDup l.*1 -> fold_left f l c = fold_left f k c.
Proof.
  intros Hcomm Hp. revert c. induction Hp as [|x l k Hp IH|x y l|l k m Hp1 IH1 Hp2 IH2]; intros c Hnd; cbn.
  - done.
  - apply IH. by inversion Hnd.
  - rewrite Hcomm; [done|]. cbn in Hnd. inversion Hnd as [|? ? Hx _]; subst. set_solver.
  - rewrite IH1 by done. apply IH2. by rewrite <-Hp1.
Qed.

Lemma applyHint_comm c x y : x.1 <> y.1 -> applyHint (applyHint c x) y = applyHint (applyHint c y) x.
Proof.
  destruct x as [k v], y as [k' v']. cbn. intros Hne. unfold applyHint. destruct c.
  repeat match goal with
  | |- context [String.eqb ?a ?b] => destruct (String.eqb_spec a b); [subst a|]
  end; try done; repeat case_match; reflexivity.
Qed.

Lemma normalizeWith_perm `{Png, UrlParser} request hints :
  hints ≡ₚ map_to_list (rq_Hints request) -> normalizeWith request hints = Normalize request.
Proof.
  intros Hp. unfold Normalize, normalizeWith. repeat case_match; try done.
  rewrite (fold_left_perm applyHint hints (map_to_list (rq_Hints request))); try done.
  - apply applyHint_comm.
  - rewrite Hp. apply NoDup_fst_map_to_list.
Qed.

(** ** What a normalized candidate satisfies *)

Record candidate_ok (c : Candidate) : Prop := {
  co_AppName : textOK (cd_AppName c);
  co_Summary : textOK (cd_Summary c);
  co_Body : textOK (cd_Body c);
  co_DesktopEntry : textOK (cd_DesktopEntry c);
  co_Category : textOK (cd_Category c);
  co_ReplyPlaceholder : textOK (cd_ReplyPlaceholder c);
  co_Urgency : cd_Urgency c <= UrgencyCritical;
  co_Expire : -1 <= cd_ExpireTimeout c;
  co_ActionCount : zlen (cd_Actions c) <= MaxActionPairs;
  co_Actions : Forall (fun a => Action_Validate a = None) (cd_Actions c);
  co_ActionKeys : NoDup (a_Key <$> cd_Actions c);
  co_Image : optImage_Validate (cd_Image c) = None;
  co_Value : badValue (cd_Value c) = false }.

Lemma validateString_None name value :
  validateString name value true = None <-> textOK value.
Proof. unfold validateString, textOK. autorewrite with errs. cbn. tauto. Qed.

Lemma isNil_validateString name value :
  isNil (validateString name value true) = true <-> textOK value.
Proof. rewrite <-(validateString_None name). unfold isNil. case_match; naive_solver. Qed.

Lemma textOK_empty : textOK "".
Proof. by split. Qed.

Lemma parseActions_ok seen l actions :
  parseActions seen l = inr actions ->
  Forall (fun a => Action_Validate a = None) actions /\ NoDup (a_Key <$> actions) /\
  Forall (fun a => a_Key a ∉ seen) actions /\ 2 * zlen actions <= zlen l.
Proof.
  revert seen actions. induction l as [l IH] using (induction_ltof1 _ (@length _)).
  unfold ltof in IH. intros seen actions Hp. destruct l as [|key [|label l]].
  1,2: injection Hp as <-; repeat split; try constructor; unfold zlen; cbn; lia.
  cbn in Hp. destruct (Action_Validate (mkAction key label)) eqn:Hv; [done|].
  case_decide as Hin; [done|]. destruct (parseActions _ l) as [e|rest] eqn:Hr; [done|].
  injection Hp as <-. apply IH in Hr as (Hf&Hn&Hs&Hl); [|cbn; lia].
  rewrite !zlen_cons, !Forall_cons, fmap_cons, NoDup_cons. cbn [a_Key].
  rewrite Forall_forall in Hs. split_and!; try done; try lia.
  - intros (a&Ha&Hin')%list_elem_of_fmap. specialize (Hs a Hin'). set_solver.
  - apply Forall_forall. intros a Ha. specialize (Hs a Ha). set_solver.
Qed.

Lemma applyHint_candidate_ok c hint : candidate_ok c -> candidate_ok (applyHint c hint).
Proof.
  destruct hint as [key value]. intros Hc. unfold applyHint.
  repeat (case_match; try done); try (apply isNil_validateString in H0 || idtac).
  all: destruct c, Hc; split; cbn in *; try done; try lia.
  all: try (match goal with H : isNil _ = true |- _ => by apply isNil_validateString in H end).
  all: try (match goal with H : andb _ _ = true |- _ => apply andb_true_iff in H as [? ?] end).
  all: try (apply orb_false_iff); lia.
Qed.

Lemma applyHint_AppIcon c hint : cd_AppIcon (applyHint c hint) = cd_AppIcon c.
Proof. destruct hint as [key value]. unfold applyHint. destruct c. repeat case_match; reflexivity. Qed.

Lemma applyHint_Sender c hint :
  cd_Sender (applyHint c hint) = cd_Sender c /\ cd_ReplacesID (applyHint c hint) = cd_ReplacesID c.
Proof. destruct hint as [key value]. unfold applyHint. destruct c. by repeat case_match. Qed.

Lemma fold_applyHint hints c :
  candidate_ok c ->
  candidate_ok (fold_left applyHint hints c) /\
  cd_AppIcon (fold_left applyHint hints c) = cd_AppIcon c /\
  cd_Sender (fold_left applyHint hints c) = cd_Sender c /\
  cd_ReplacesID (fold_left applyHint hints c) = cd_ReplacesID c.
Proof.
  revert c. induction hints as [|h hints IH]; intros c Hc; cbn; [done|].
  destruct (IH (applyHint c h)) as (?&->&->&->); [by apply applyHint_candidate_ok|].
  rewrite applyHint_AppIcon. by destruct (applyHint_Sender c h) as [-> ->].
Qed.

(** The hint names a file by URI: the only path whose text [net/url] decodes. *)
Definition fileURIHint (hints : gmap string any) : bool :=
  match hints !! HintImageData, hints !! HintImagePath with
  | None, Some (AString s) => String.prefix "file://" s
  | _, _ => false
  end.

Lemma applyImageHints_ok `{PngLaws, UrlParser} c hints c' :
  candidate_ok c -> textOK (cd_AppIcon c) -> applyImageHints c hints = Some c' ->
  candidate_ok c' /\ cd_Sender c' = cd_Sender c /\ cd_ReplacesID c' = cd_ReplacesID c /\
  (fileURIHint hints = false -> textOK (cd_AppIcon c')).
Proof.
  intros Hc Hicon. unfold applyImageHints, fileURIHint.
  assert (forall b, candidate_ok (set_ImageRejected b c)) as Hrej by (intros b; destruct c, Hc; by split).
  assert (forall s, candidate_ok (set_AppIcon s c)) as Hset by (intros b; destruct c, Hc; by split).
  destruct (hints !! HintImageData) as [raw|].
  - destruct raw; try (intros [= <-]; destruct c; naive_solver).
    destruct (normalizeImage r) as [[e|img]|] eqn:Hn; cbn; [| |done]; intros [= <-].
    + destruct c; naive_solver.
    + apply normalizeImage_valid in Hn as [Hi _]. destruct c, Hc; cbn in *.
      split_and!; [by split|done|done|intros; apply textOK_empty].
  - destruct (hints !! HintImagePath) as [v|]; [|by intros [= <-]].
    destruct v; try (intros [= <-]; destruct c; naive_solver).
    destruct (isNil _) eqn:Hs; cbn; [|intros [= <-]; destruct c; naive_solver].
    apply isNil_validateString in Hs.
    destruct (String.eqb s ""); [by intros [= <-]|].
    unfold imagePathIcon. destruct (String.prefix "file://" s).
    + repeat case_match; simplify_eq; intros [= <-]; destruct c; naive_solver.
    + repeat case_match; simplify_eq; intros [= <-]; destruct c; naive_solver.
Qed.

Lemma Normalize_candidate_ok `{PngLaws, UrlParser} request c :
  Normalize request = Some (inr c) ->
  candidate_ok c /\ cd_Sender c = rq_Sender request /\ cd_ReplacesID c = rq_ReplacesID request /\
  (fileURIHint (rq_Hints request) = false -> textOK (cd_AppIcon c)).
Proof.
  unfold Normalize, normalizeWith.
  set (checks := firstErr _ _). destruct checks eqn:Hchk; [done|]. unfold checks in Hchk. clear checks.
  autorewrite with errs in Hchk.
  destruct Hchk as (_&Hexp&Htexts&_&Hcount).
  destruct (parseActions ∅ (rq_Actions request)) as [e|actions] eqn:Ha; [done|].
  apply parseActions_ok in Ha as (Hav&Han&_&Hal).
  assert (zlen actions <= MaxActionPairs) as Hcnt.
  { unfold MaxActionPairs in *. pose proof (Z.div_le_mono (2 * zlen actions) _ 2 ltac:(lia) Hal) as Hd.
    rewrite Z.mul_comm, Z.div_mul in Hd by lia. lia. }
  rewrite !Forall_cons, !validateString_None in Htexts. destruct Htexts as (?&?&?&?&?&_).
  set (c0 := mkCandidate _ _ _ _ _ _ _ _ _ _ _ _ _ _ _ _ _ _ _).
  assert (candidate_ok c0) as Hc0.
  { split; cbn; try done; try lia; apply textOK_empty. }
  destruct (fold_applyHint (map_to_list (rq_Hints request)) c0 Hc0) as (Hc1&Hi1&Hs1&Hr1).
  set (c1 := fold_left _ _ _) in *.
  destruct (applyImageHints c1 (rq_Hints request)) as [c2|] eqn:Hc2; [|done]. cbn. intros [= <-].
  apply applyImageHints_ok in Hc2 as (?&Hs2&Hr2&?); [|done|by rewrite Hi1].
  rewrite Hs2, Hr2, Hs1, Hr1. done.
Qed.

Lemma Normalize_total `{PngLaws, UrlParser} request : is_Some (Normalize request).
Proof.
  unfold Normalize, normalizeWith. set (checks := firstErr _ _). destruct checks; [by eexists|].
  destruct (parseActions _ _) as [e|actions]; [by eexists|].
  assert (forall c, is_Some (applyImageHints c (rq_Hints request))) as Ht.
  { intros c. unfold applyImageHints. destruct (rq_Hints request !! HintImageData) as [[]|]; try (by eexists).
    - destruct (normalizeImage_total r) as [? ->]. by eexists.
    - destruct (rq_Hints request !! HintImagePath) as [[]|]; try (by eexists).
      destruct (negb _); [by eexists|]. destruct (String.eqb s ""); [by eexists|].
      destruct (imagePathIcon s) as [icon []]; by eexists. }
  match goal with |- context [applyImageHints ?c _] => destruct (Ht c) as [c' ->] end. by eexists.
Qed.

(** ** Claims *)

(** As long as one of the 2^32 - 1 ids is free, [ResolveID] ends after at
    most one round more than there are live ids and gives a fresh, nonzero
    32-bit id and a nonzero counter; a live id that is to be replaced is kept. *)
Theorem ResolveID_fresh replacesID next live id next' :
  0 <= next < 4294967296 -> Z.of_nat (size live) < idCount -> ResolveID replacesID next live = (id, next') ->
  (replacesID <> 0 /\ replacesID ∈ live /\ id = replacesID /\ next' = next) \/
  (id ∉ live /\ 1 <= id < 4294967296 /\ 1 <= next' < 4294967296).
Proof.
  intros Hn Hs. destruct (Z.eqb_spec replacesID 0) as [->|Hne]; [intros Hr; right; by eapply ResolveID_new|].
  destruct (decide (replacesID ∈ live)) as [Hin|Hout].
  - unfold ResolveID. rewrite (proj2 (Z.eqb_neq _ _)), bool_decide_eq_true_2 by done. intros [= <- <-]. by left.
  - intros Hr. right. apply (ResolveID_new next live); try done. unfold ResolveID in *.
    by rewrite (proj2 (Z.eqb_neq _ _)), bool_decide_eq_false_2 in Hr by done.
Qed.

(** C37: the image scaler never indexes outside the raw data, whatever
    dimensions, strides and data a client sends: [normalizeImage] always
    returns, and an image it returns is valid on the wire and no larger than
    the source. *)
Theorem normalizeImage_safe `{PngLaws} raw :
  exists result, normalizeImage raw = Some result /\
    forall img, result = inr img ->
      Image_Validate img = None /\ i_Width img <= ri_Width raw /\ i_Height img <= ri_Height raw.
Proof.
  destruct (normalizeImage_total raw) as [result Hr]. exists result. split; [done|].
  intros img ->. by apply normalizeImage_valid.
Qed.

(** [Normalize] gives the same candidate whatever order the runtime ranges
    over the hint map in. *)
Theorem Normalize_order_independent `{Png, UrlParser} request hints :
  hints ≡ₚ map_to_list (rq_Hints request) -> normalizeWith request hints = Normalize request.
Proof. apply normalizeWith_perm. Qed.

