(* ===== verification/History.v ===== *)
(** * internal/history: the retained history in memory

    [store.go] and [schema.go]: the entries, the document they are written as,
    its size, and the mutations [Add], [AddPrepared], [Sweep], [Remove],
    [MarkSeen] and [Clear]; [image.go]'s [PrepareImage].  Every mutation runs
    under the store's mutex, so each is one atomic function on the store.

    SHA-256 is a parameter ([Sha256]) beside the PNG codec of [Notify]. *)
From stdpp Require Import gmap strings list fin_maps.
From Stdlib Require Import ZArith Lia Strings.Byte.
From S2P Require Import Prelude GoLib Protocol Notify.
Local Open Scope string_scope.
Local Open Scope list_scope.
Local Open Scope Z_scope.

Class Sha256 := sha256_Sum256 : list Byte.byte -> list Byte.byte.
Class Sha256Laws `{Sha256} := { sha256_length data : zlen (sha256_Sum256 data) = 32 }.

Definition maxHistoryJSONBytes : Z := 8388608.
Definition maxHistoryWriteBytes : Z := maxHistoryJSONBytes - 256.
Definition historyImageLongEdge : Z := 96.
Definition schemaVersion : Z := 1.

(** ** image.go *)

(** What [os.FileInfo] is asked for: the identity [os.SameFile] compares, the
    size, the modification time and the change time. *)
Record FileInfo := mkFileInfo {
  fi_File : Z; fi_Size : Z; fi_ModTime : Z; fi_Ctim : Z }.

Record imageMeta := mkImageMeta {
  im_digest : string; im_width : Z; im_height : Z; im_fileInfo : option FileInfo }.

Record PreparedImage := mkPreparedImage {
  pi_image : option Image; pi_meta : option imageMeta }.

Definition newImageMeta `{Sha256} (source : Image) : imageMeta :=
  mkImageMeta (hexEncode (sha256_Sum256 (i_Data source))) (i_Width source) (i_Height source) None.

(** [normalizeHistoryImage] of a non-nil image. *)
Definition normalizeHistoryImage `{Png} (source : Image) : error + Image :=
  match Image_Validate source with
  | Some e => inl e
  | None =>
      match png_Decode (i_Data source) with
      | inl e => inl (ErrWrap "history: decode image: %w" e)
      | inr decoded =>
          if negb (dc_Dx decoded =? i_Width source) || negb (dc_Dy decoded =? i_Height source)
          then inl (ErrNew "history: image dimensions do not match PNG")
          else
            let longest := Z.max (dc_Dx decoded) (dc_Dy decoded) in
            let width := scaleTo historyImageLongEdge longest (dc_Dx decoded) in
            let height := scaleTo historyImageLongEdge longest (dc_Dy decoded) in
            let pix := concat (map (fun y => concat (map (fun x =>
                dc_At decoded (dc_MinX decoded + x * dc_Dx decoded / width)
                              (dc_MinY decoded + y * dc_Dy decoded / height))
              (seqZ 0 width))) (seqZ 0 height)) in
            match png_Encode width height pix with
            | inl e => inl (ErrWrap "history: encode image: %w" e)
            | inr encoded => inr (mkImage "image/png" (wrap32 width) (wrap32 height) encoded)
            end
      end
  end.

Definition PrepareImage `{Png, Sha256} (source : option Image) : error + PreparedImage :=
  match source with
  | None => inr (mkPreparedImage None None)
  | Some source =>
      match normalizeHistoryImage source with
      | inl e => inl e
      | inr image => inr (mkPreparedImage (Some image) (Some (newImageMeta image)))
      end
  end.

(** ** schema.go *)

Record diskImage := mkDiskImage { di_SHA256 : string; di_Width : Z; di_Height : Z }.

Record diskEntry := mkDiskEntry {
  de_ID : Z; de_Seen : bool; de_AppName : string; de_AppIcon : string;
  de_DesktopEntry : string; de_Summary : string; de_Body : string; de_Urgency : Z;
  de_Category : string; de_Timestamp : Time; de_Image : option diskImage }.

Record document := mkDocument { dc_Version : Z; dc_Entries : list diskEntry }.

Record retained := mkRetained {
  re_entry : HistoryEntry; re_meta : option imageMeta; re_size : Z }.

Definition imageReference (meta : option imageMeta) : option diskImage :=
  match meta with
  | None => None
  | Some m => Some (mkDiskImage (im_digest m) (im_width m) (im_height m))
  end.

Definition diskEntryOf (entry : HistoryEntry) (meta : option imageMeta) : diskEntry :=
  mkDiskEntry (h_ID entry) (h_Seen entry) (h_AppName entry) (h_AppIcon entry)
    (h_DesktopEntry entry) (h_Summary entry) (h_Body entry) (h_Urgency entry)
    (h_Category entry) (h_Timestamp entry) (imageReference meta).

Definition encodeDocument (entries : list retained) : document :=
  mkDocument schemaVersion (map (fun e => diskEntryOf (re_entry e) (re_meta e)) entries).

(** ** json.Marshal of the document *)

Definition diskImage_json (d : diskImage) : string :=
  jsonObject [("sha256", jsonString (di_SHA256 d)); ("width", jsonUint (di_Width d));
              ("height", jsonUint (di_Height d))].

(** The members of an entry, in the order of the struct and with its
    [omitempty] options, given the encoded time. *)
Definition diskEntry_fields (e : diskEntry) (timestamp : string) : list (string * string) :=
  [("id", jsonUint (de_ID e)); ("seen", jsonBool (de_Seen e))] ++
  omitEmptyString "app_name" (de_AppName e) ++
  omitEmptyString "app_icon" (de_AppIcon e) ++
  omitEmptyString "desktop_entry" (de_DesktopEntry e) ++
  [("summary", jsonString (de_Summary e))] ++
  omitEmptyString "body" (de_Body e) ++
  [("urgency", jsonUint (de_Urgency e))] ++
  omitEmptyString "category" (de_Category e) ++
  [("timestamp", timestamp)] ++
  match de_Image e with Some d => [("image", diskImage_json d)] | None => [] end.

Definition diskEntry_json (e : diskEntry) : error + string :=
  match jsonTime (de_Timestamp e) with
  | inl err => inl err
  | inr timestamp => inr (jsonObject (diskEntry_fields e timestamp))
  end.

Fixpoint diskEntries_json (l : list diskEntry) : error + list string :=
  match l with
  | [] => inr []
  | e :: l =>
      match diskEntry_json e with
      | inl err => inl err
      | inr s => match diskEntries_json l with inl err => inl err | inr l => inr (s :: l) end
      end
  end.

Definition document_json (d : document) : error + string :=
  match diskEntries_json (dc_Entries d) with
  | inl err => inl err
  | inr items => inr (jsonObject [("version", jsonUint (dc_Version d)); ("entries", jsonArray items)])
  end.

(** ** store.go: entries and their sizes *)

Definition newRetained (entry : HistoryEntry) (meta : option imageMeta) : error + retained :=
  match diskEntry_json (diskEntryOf entry meta) with
  | inl e => inl (ErrWrap "history: measure entry %d: %w" e)
  | inr encoded => inr (mkRetained entry meta (slen encoded))
  end.

Definition documentOverhead : Z :=
  match document_json (mkDocument schemaVersion []) with
  | inl _ => 0
  | inr empty => slen empty + 1
  end.

Definition documentBytes (entries : list retained) : Z :=
  if zlen entries =? 0 then documentOverhead
  else documentOverhead + zlen entries - 1 + foldr (fun e n => re_size e + n) 0 entries.

(** ** store.go: the store *)

Record Store := mkStore {
  st_entries : list retained;
  st_dirty : bool;
  st_writeGen : Z;
  st_workerGen : Z;
  st_closed : bool;
  st_lastErr : option error;
  st_wake : bool }.

Definition entryID (e : retained) : Z := h_ID (re_entry e).

(** [s.entries = next; s.schedule()]: the wake channel holds one token. *)
Definition install (s : Store) (next : list retained) : Store :=
  mkStore next true (st_writeGen s + 1) (st_workerGen s) (st_closed s) (st_lastErr s) true.

Definition Entries (s : Store) : list HistoryEntry := map re_entry (st_entries s).
Definition IDs (s : Store) : list Z := map entryID (st_entries s).

(** The loop that drops the oldest entry while [over] holds of what is left. *)
Fixpoint dropOldestWhile (over : list retained -> bool) (l : list retained) : list retained * list Z :=
  match l with
  | [] => ([], [])
  | e :: l' =>
      if over l then let '(kept, removed) := dropOldestWhile over l' in (kept, entryID e :: removed)
      else (l, [])
  end.

Definition trimToBudget (entries : list retained) : list retained * list Z :=
  dropOldestWhile (fun l => negb (documentBytes l <=? maxHistoryWriteBytes)) entries.

(** The first loop of [AddPrepared]: entries with the new entry's id, and
    entries past their retention, go. *)
Fixpoint dropStale (id : Z) (cutoff : Time) (l : list retained) : list retained * list Z :=
  match l with
  | [] => ([], [])
  | e :: l =>
      let '(kept, removed) := dropStale id cutoff l in
      if (entryID e =? id) || Before (h_Timestamp (re_entry e)) cutoff
      then (kept, entryID e :: removed) else (e :: kept, removed)
  end.

Definition zeroEntry : HistoryEntry := mkHistoryEntry 0 false "" "" "" "" "" 0 "" 0 None.

Definition withImage (entry : HistoryEntry) (image : option Image) : HistoryEntry :=
  mkHistoryEntry (h_ID entry) (h_Seen entry) (h_AppName entry) (h_AppIcon entry) (h_DesktopEntry entry)
    (h_Summary entry) (h_Body entry) (h_Urgency entry) (h_Category entry) (h_Timestamp entry) image.

Definition AddPrepared (s : Store) (entry : HistoryEntry) (image : PreparedImage) (now : Time)
    : Store * (error + HistoryEntry * list Z) :=
  let entry := withImage entry (pi_image image) in
  let cutoff := AddTime now (- HistoryRetention) in
  match HistoryEntry_Validate entry with
  | Some e => (s, inl e)
  | None =>
      if Before (h_Timestamp entry) cutoff then (s, inr (zeroEntry, []))
      else
        let '(next, removed) := dropStale (h_ID entry) cutoff (st_entries s) in
        match newRetained entry (pi_meta image) with
        | inl e => (s, inl e)
        | inr added =>
            let '(next, countRemoved) :=
              dropOldestWhile (fun l => MaxHistoryEntries <? zlen l) (next ++ [added]) in
            let '(next, budgetRemoved) := trimToBudget next in
            (install s next, inr (entry, removed ++ countRemoved ++ budgetRemoved))
        end
  end.

Definition Store_Add `{Png, Sha256} (s : Store) (entry : HistoryEntry) (now : Time)
    : Store * (error + HistoryEntry * list Z) :=
  match PrepareImage (h_Image entry) with
  | inl e => (s, inl e)
  | inr image => AddPrepared s entry image now
  end.

(** The loops of [Sweep] and [Remove]: entries that match [drop] leave. *)
Definition dropEntries (drop : retained -> bool) (s : Store) : Store * list Z :=
  let next := List.filter (fun e => negb (drop e)) (st_entries s) in
  let removed := map entryID (List.filter drop (st_entries s)) in
  if zlen removed =? 0 then (s, []) else (install s next, removed).

Definition Sweep (s : Store) (now : Time) : Store * (error + list Z) :=
  let cutoff := AddTime now (- HistoryRetention) in
  let '(s, removed) := dropEntries (fun e => Before (h_Timestamp (re_entry e)) cutoff) s in
  (s, inr removed).

Definition Remove (s : Store) (ids : list Z) : Store * (error + list Z) :=
  if zlen ids =? 0 then (s, inr [])
  else
    let '(s, removed) := dropEntries (fun e => bool_decide (entryID e ∈ (list_to_set ids : gset Z))) s in
    (s, inr removed).

Definition withSeen (entry : HistoryEntry) : HistoryEntry :=
  mkHistoryEntry (h_ID entry) true (h_AppName entry) (h_AppIcon entry) (h_DesktopEntry entry)
    (h_Summary entry) (h_Body entry) (h_Urgency entry) (h_Category entry) (h_Timestamp entry)
    (h_Image entry).

Fixpoint markLoop (wanted : gset Z) (l : list retained) : error + (list retained * list Z) :=
  match l with
  | [] => inr ([], [])
  | e :: l =>
      if bool_decide (entryID e ∈ wanted) && negb (h_Seen (re_entry e)) then
        match newRetained (withSeen (re_entry e)) (re_meta e) with
        | inl err => inl err
        | inr measured =>
            match markLoop wanted l with
            | inl err => inl err
            | inr (next, changed) => inr (measured :: next, entryID e :: changed)
            end
        end
      else
        match markLoop wanted l with
        | inl err => inl err
        | inr (next, changed) => inr (e :: next, changed)
        end
  end.

Definition MarkSeen (s : Store) (ids : list Z) : Store * (error + list Z) :=
  match markLoop (list_to_set ids) (st_entries s) with
  | inl e => (s, inl e)
  | inr (next, changed) =>
      if zlen changed =? 0 then (s, inr []) else (install s next, inr changed)
  end.

Definition Clear (s : Store) : Store * (error + list Z) :=
  if zlen (st_entries s) =? 0 then (s, inr [])
  else (install s [], inr (map entryID (st_entries s))).

(** [retain], used when the store is opened. *)
Definition retain (entries : list retained) (now : Time) : list retained :=
  let cutoff := AddTime now (- HistoryRetention) in
  List.filter (fun e => negb (Before (h_Timestamp (re_entry e)) cutoff)) entries.

(** ** The size of the document *)

(** An entry that carries the size of its own encoding. *)
Definition measured (e : retained) : Prop := newRetained (re_entry e) (re_meta e) = inr e.

Lemma measured_json e :
  measured e -> exists s, diskEntry_json (diskEntryOf (re_entry e) (re_meta e)) = inr s /\ re_size e = slen s.
Proof.
  unfold measured, newRetained. destruct (diskEntry_json _) as [|s]; [done|].
  intros Heq. exists s. split; [done|]. destruct e; cbn in *. congruence.
Qed.

Lemma newRetained_measured entry meta e :
  newRetained entry meta = inr e -> measured e /\ re_entry e = entry /\ re_meta e = meta.
Proof.
  unfold measured, newRetained. destruct (diskEntry_json _) eqn:Hj; [done|].
  intros [= <-]. cbn. by rewrite Hj.
Qed.

Lemma diskEntries_json_measured l :
  Forall measured l ->
  exists items, diskEntries_json (map (fun e => diskEntryOf (re_entry e) (re_meta e)) l) = inr items /\
    zlen items = zlen l /\ sumLen items = foldr (fun e n => re_size e + n) 0 l.
Proof.
  induction 1 as [|e l He _ IH]; cbn; [by exists []|].
  apply measured_json in He as (s&->&Hs). destruct IH as (items&->&Hl&Hsum).
  exists (s :: items). rewrite !zlen_cons. split_and!; [done|lia|].
  cbn. unfold sumLen in Hsum. lia.
Qed.

Lemma documentBytes_encode entries :
  Forall measured entries ->
  exists s, document_json (encodeDocument entries) = inr s /\ slen s + 1 = documentBytes entries.
Proof.
  intros Hm. unfold document_json, encodeDocument. cbn [dc_Entries dc_Version].
  destruct (diskEntries_json_measured entries Hm) as (items&->&Hl&Hsum).
  eexists. split; [done|]. unfold documentBytes, documentOverhead. cbn [document_json dc_Entries diskEntries_json dc_Version].
  rewrite !slen_jsonObject. cbn [map sumLen foldr]. rewrite !slen_jsonField. cbn [fst snd].
  rewrite !slen_jsonArray. rewrite Hl. rewrite Hsum. unfold zlen in *. cbn [length sumLen foldr].
  pose proof (zlen_nonneg entries).
  destruct (Z.eqb_spec (Z.of_nat (length entries)) 0) as [Hz|]; [|lia].
  destruct entries; [cbn; lia|cbn in Hz; lia].
Qed.

Lemma re_size_nonneg e : measured e -> 0 <= re_size e.
Proof. intros (s&_&->)%measured_json. apply slen_nonneg. Qed.

Lemma documentOverhead_eq : documentOverhead = 27.
Proof. reflexivity. Qed.

Lemma documentBytes_filter (f : retained -> bool) entries :
  Forall measured entries -> documentBytes (List.filter f entries) <= documentBytes entries.
Proof.
  intros Hm. unfold documentBytes.
  assert (0 <= foldr (fun e n => re_size e + n) 0 (List.filter f entries) <=
          foldr (fun e n => re_size e + n) 0 entries /\ zlen (List.filter f entries) <= zlen entries) as [Hs Hl].
  { induction Hm as [|e l He _ IH]; cbn; [done|]. apply re_size_nonneg in He.
    destruct (f e); cbn; rewrite ?zlen_cons; lia. }
  pose proof (zlen_nonneg (List.filter f entries)).
  destruct (Z.eqb_spec (zlen (List.filter f entries)) 0), (Z.eqb_spec (zlen entries) 0); lia.
Qed.

(** ** One entry always fits the write budget *)

Definition metaOK (meta : option imageMeta) : Prop :=
  match meta with Some m => slen (im_digest m) <= 64 | None => True end.

Lemma sumLen_map_app l k : sumLen (map jsonField (l ++ k)) = sumLen (map jsonField l) + sumLen (map jsonField k).
Proof. by rewrite map_app, sumLen_app. Qed.

Lemma slen_omitEmpty name value :
  textOK value ->
  sumLen (map jsonField (omitEmptyString name value)) <= 5 + slen name + 6 * MaxBodyBytes /\
  zlen (omitEmptyString name value) <= 1.
Proof.
  intros [_ Hv]. unfold omitEmptyString. destruct (String.eqb _ _).
  - pose proof (slen_nonneg name). unfold MaxBodyBytes. cbn. unfold zlen; cbn. lia.
  - cbn [map sumLen foldr]. rewrite slen_jsonField. cbn [fst snd]. unfold jsonString.
    rewrite slen_quoted. pose proof (slen_jsonEscape value). unfold zlen; cbn. lia.
Qed.

Definition imageFields (d : option diskImage) : list (string * string) :=
  match d with Some d => [("image", diskImage_json d)] | None => [] end.

Lemma imageFields_bound meta :
  metaOK meta ->
  sumLen (map jsonField (imageFields (imageReference meta))) <= 600 /\
  zlen (imageFields (imageReference meta)) <= 1.
Proof.
  intros Hm. destruct meta as [m|]; [|cbn; unfold zlen; cbn; lia].
  split; [|unfold zlen; cbn; lia]. cbn [imageFields imageReference map sumLen foldr].
  rewrite slen_jsonField. cbn [fst snd]. unfold diskImage_json. rewrite slen_jsonObject.
  cbn [map sumLen foldr di_SHA256 di_Width di_Height]. rewrite !slen_jsonField. cbn [fst snd].
  unfold jsonString, jsonUint. rewrite slen_quoted. cbn in Hm.
  pose proof (slen_jsonEscape (im_digest m)). pose proof (slen_FormatUint (im_width m)).
  pose proof (slen_FormatUint (im_height m)). unfold zlen, slen in *. cbn in *. lia.
Qed.

(** Six texts of at most 16 KiB, each byte escaped to at most six. *)
Lemma diskEntry_json_bound entry meta s :
  HistoryEntry_Validate entry = None -> metaOK meta ->
  diskEntry_json (diskEntryOf entry meta) = inr s -> slen s <= 600000.
Proof.
  unfold HistoryEntry_Validate. rewrite !firstErr_None, validateTexts_None, !Forall_cons.
  intros (_&(Ha&Hi&Hd&[_ Hs]&Hb&Hc&_)&_) Hm. unfold diskEntry_json, diskEntryOf.
  cbn [de_Timestamp]. destruct (jsonTime _) as [|t] eqn:Ht; [done|]. intros [= <-].
  apply jsonTime_length in Ht. rewrite slen_jsonObject. unfold diskEntry_fields.
  rewrite !sumLen_map_app, !zlen_app. cbn [de_AppName de_AppIcon de_DesktopEntry de_Summary de_Body
    de_Category de_ID de_Seen de_Urgency de_Image]. fold (imageFields (imageReference meta)).
  pose proof (slen_omitEmpty "app_name" _ Ha). pose proof (slen_omitEmpty "app_icon" _ Hi).
  pose proof (slen_omitEmpty "desktop_entry" _ Hd). pose proof (slen_omitEmpty "body" _ Hb).
  pose proof (slen_omitEmpty "category" _ Hc). pose proof (imageFields_bound meta Hm).
  cbn [map sumLen foldr]. rewrite !slen_jsonField. cbn [fst snd]. unfold jsonUint, jsonString, jsonBool.
  rewrite slen_quoted. pose proof (slen_jsonEscape (h_Summary entry)).
  pose proof (slen_FormatUint (h_ID entry)). pose proof (slen_FormatUint (h_Urgency entry)).
  assert (slen (if h_Seen entry then "true" else "false") <= 5) by (destruct (h_Seen entry); done).
  unfold MaxBodyBytes in *.
  change (slen "id") with 2. change (slen "seen") with 4. change (slen "summary") with 7.
  change (slen "urgency") with 7. change (slen "timestamp") with 9.
  change (slen "app_name") with 8 in *. change (slen "app_icon") with 8 in *.
  change (slen "desktop_entry") with 13 in *. change (slen "body") with 4 in *. change (slen "category") with 8 in *.
  change (zlen [_; _]) with 2. change (zlen [_]) with 1. lia.
Qed.

Lemma entry_fits entry meta e :
  HistoryEntry_Validate entry = None -> metaOK meta -> newRetained entry meta = inr e ->
  documentBytes [e] <= maxHistoryWriteBytes.
Proof.
  intros Hv Hm. unfold newRetained. destruct (diskEntry_json _) as [|s] eqn:Hj; [done|].
  intros [= <-]. apply diskEntry_json_bound in Hj; try done.
  unfold documentBytes. change (zlen [_]) with 1. change (1 =? 0) with false. cbv iota.
  rewrite documentOverhead_eq. cbn [foldr re_size].
  unfold maxHistoryWriteBytes, maxHistoryJSONBytes. lia.
Qed.

(** ** The removal loops *)

Lemma dropOldestWhile_spec over l kept removed :
  dropOldestWhile over l = (kept, removed) ->
  exists pre, l = pre ++ kept /\ removed = map entryID pre /\
    (kept = [] \/ over kept = false) /\
    (forall p q, pre = p ++ q -> q <> [] -> over (q ++ kept) = true).
Proof.
  revert kept removed. induction l as [|e l IH]; intros kept removed; cbn.
  - intros [= <- <-]. exists []. split_and!; try done; [by left|].
    intros p q Heq Hq. symmetry in Heq. by apply app_nil in Heq as [_ ->].
  - destruct (over (e :: l)) eqn:Ho.
    + destruct (dropOldestWhile over l) as [k r] eqn:Hd. intros [= <- <-].
      destruct (IH _ _ eq_refl) as (pre&->&->&Hk&Hm). exists (e :: pre). split_and!; try done.
      intros [|e' p] q Heq Hq; cbn in Heq.
      * by subst q.
      * injection Heq as _ Heq. by apply (Hm p q).
    + intros [= <- <-]. exists []. split_and!; try done; [by right|].
      intros p q Heq Hq. symmetry in Heq. by apply app_nil in Heq as [_ ->].
Qed.

(** When the newest entry alone is not over the limit, it stays. *)
Lemma dropOldestWhile_last over l e kept removed :
  over [e] = false -> dropOldestWhile over (l ++ [e]) = (kept, removed) ->
  exists pre l', l = pre ++ l' /\ kept = l' ++ [e] /\ removed = map entryID pre /\ over kept = false.
Proof.
  intros He Hd. apply dropOldestWhile_spec in Hd as (pre&Heq&->&Hk&Hm).
  destruct kept as [|x kept'] using rev_ind.
  - exfalso. rewrite app_nil_r in Heq. subst pre. specialize (Hm l [e] eq_refl ltac:(done)).
    rewrite app_nil_r in Hm. congruence.
  - rewrite app_assoc in Heq. apply app_inj_tail in Heq as [-> ->].
    exists pre, kept'. split_and!; try done. destruct Hk as [Hk|]; [|done]. by destruct kept'.
Qed.

Definition stale (id : Z) (cutoff : Time) (e : retained) : bool :=
  (entryID e =? id) || Before (h_Timestamp (re_entry e)) cutoff.

Lemma dropStale_eq id cutoff l :
  dropStale id cutoff l =
  (List.filter (fun e => negb (stale id cutoff e)) l, map entryID (List.filter (stale id cutoff) l)).
Proof.
  induction l as [|e l IH]; cbn; [done|]. rewrite IH. fold (stale id cutoff e).
  by destruct (stale id cutoff e).
Qed.

(** ** Entries without the removed ids *)

Definition without (removed : list Z) (l : list retained) : list retained :=
  List.filter (fun e => negb (bool_decide (entryID e ∈ removed))) l.

Lemma filter_sublist {A} (p : A -> bool) l : List.filter p l `sublist_of` l.
Proof. induction l as [|x l IH]; cbn; [done|]. destruct (p x); by constructor. Qed.

Lemma sublist_ids (k l : list retained) : k `sublist_of` l -> map entryID k `sublist_of` map entryID l.
Proof. induction 1; cbn; by constructor. Qed.

Lemma Forall_sublist {A} (P : A -> Prop) k l : k `sublist_of` l -> Forall P l -> Forall P k.
Proof. induction 1; rewrite ?Forall_cons; naive_solver. Qed.

Lemma filter_ext_in_bool {A} (p q : A -> bool) l :
  (forall x, x ∈ l -> p x = q x) -> List.filter p l = List.filter q l.
Proof. intros H. apply List.filter_ext_in. intros x Hx. apply H. by apply list_elem_of_In. Qed.

Lemma elem_of_list_filter_bool {A} (p : A -> bool) l x : x ∈ List.filter p l <-> x ∈ l /\ p x = true.
Proof. rewrite !list_elem_of_In. apply List.filter_In. Qed.

Lemma elem_of_map {A B} (f : A -> B) l y : y ∈ map f l <-> exists x, y = f x /\ x ∈ l.
Proof. apply list_elem_of_fmap. Qed.

Lemma without_nil l : without [] l = l.
Proof. unfold without. induction l as [|e l IH]; cbn; [done|]. by rewrite IH. Qed.

Lemma without_app a b l : without (a ++ b) l = without b (without a l).
Proof.
  unfold without. induction l as [|e l IH]; cbn; [done|]. rewrite IH.
  destruct (decide (entryID e ∈ a)) as [Ha|Ha], (decide (entryID e ∈ b)) as [Hb|Hb];
    repeat (rewrite ?(bool_decide_eq_true_2 (entryID e ∈ a)), ?(bool_decide_eq_false_2 (entryID e ∈ a)),
      ?(bool_decide_eq_true_2 (entryID e ∈ b)), ?(bool_decide_eq_false_2 (entryID e ∈ b)) by done);
    cbn; rewrite ?(bool_decide_eq_true_2 (entryID e ∈ b)), ?(bool_decide_eq_false_2 (entryID e ∈ b)) by done; cbn.
  all: first [rewrite bool_decide_eq_true_2 by set_solver | rewrite bool_decide_eq_false_2 by set_solver]; done.
Qed.

Lemma id_inj (l : list retained) e e' :
  NoDup (map entryID l) -> e ∈ l -> e' ∈ l -> entryID e = entryID e' -> e = e'.
Proof.
  induction l as [|x l IH]; cbn; [by rewrite elem_of_nil|]. rewrite NoDup_cons, !elem_of_cons, elem_of_map.
  intros [Hx Hnd] [->|He] [->|He'] Heq; try done; try naive_solver.
Qed.

Lemma without_filter p l :
  NoDup (map entryID l) ->
  without (map entryID (List.filter p l)) l = List.filter (fun e => negb (p e)) l.
Proof.
  intros Hnd. unfold without. apply filter_ext_in_bool. intros e He. f_equal.
  destruct (p e) eqn:Hp.
  - apply bool_decide_eq_true_2, elem_of_map. exists e. by rewrite elem_of_list_filter_bool.
  - apply bool_decide_eq_false_2. rewrite elem_of_map. intros (e'&Heq&[He' Hp']%elem_of_list_filter_bool).
    rewrite (id_inj l e e') in Hp; try done. congruence.
Qed.

Lemma without_prefix pre k :
  NoDup (map entryID (pre ++ k)) -> without (map entryID pre) (pre ++ k) = k.
Proof.
  rewrite map_app, NoDup_app. intros (_&Hd&_). unfold without. rewrite List.filter_app.
  rewrite (filter_ext_in_bool _ (fun _ => false) pre).
  - rewrite (filter_ext_in_bool _ (fun _ => true) k).
    + assert (List.filter (fun _ => false) pre = []) as -> by (clear; by induction pre).
      rewrite app_nil_l. clear. induction k; cbn; congruence.
    + intros e He. rewrite bool_decide_eq_false_2; [done|]. intros Hbad.
      apply (Hd _ Hbad), elem_of_map. eauto.
  - intros e He. rewrite bool_decide_eq_true_2; [done|]. apply elem_of_map. eauto.
Qed.

(** ** The invariant of the store *)

Record store_wf (s : Store) : Prop := {
  sw_nodup : NoDup (IDs s);
  sw_count : zlen (st_entries s) <= MaxHistoryEntries;
  sw_valid : Forall (fun e => HistoryEntry_Validate (re_entry e) = None) (st_entries s);
  sw_measured : Forall measured (st_entries s);
  sw_ids : Forall is_u32 (IDs s) }.

Definition within_budget (s : Store) : Prop := documentBytes (st_entries s) <= maxHistoryWriteBytes.

Lemma store_wf_sub s l :
  store_wf s -> l `sublist_of` st_entries s -> store_wf (install s l).
Proof.
  intros [Hn Hc Hv Hm Hi] Hl. unfold IDs in *. split; unfold IDs; cbn.
  - eapply sublist_NoDup; [done|by apply sublist_ids].
  - apply sublist_length in Hl. unfold zlen in *. lia.
  - by eapply Forall_sublist.
  - by eapply Forall_sublist.
  - eapply Forall_sublist; [by apply sublist_ids|done].
Qed.

Lemma valid_id_nonzero entry : HistoryEntry_Validate entry = None -> h_ID entry <> 0.
Proof. unfold HistoryEntry_Validate. rewrite firstErr_None, failIf_None, !orb_false_iff, Z.eqb_neq. tauto. Qed.

Lemma store_ids_nonzero s id : store_wf s -> id ∈ IDs s -> id <> 0.
Proof.
  intros Hs (e&->&He)%elem_of_map. apply valid_id_nonzero.
  pose proof (sw_valid s Hs) as Hv. rewrite Forall_forall in Hv. by apply Hv.
Qed.

(** ** AddPrepared *)

(** What a successful, unexpired [AddPrepared] leaves. *)
Record added_to (s : Store) (entry : HistoryEntry) (now : Time) (s' : Store) (removed : list Z) : Prop := {
  at_entries : exists added, st_entries s' = without removed (st_entries s) ++ [added] /\ re_entry added = entry;
  at_install : s' = install s (st_entries s');
  at_removed : forall id, id ∈ removed -> id ∈ IDs s;
  at_removed_nodup : NoDup removed;
  at_replaced : h_ID entry ∈ IDs s -> h_ID entry ∈ removed;
  at_fresh : Forall (fun e => Before (h_Timestamp (re_entry e)) (AddTime now (- HistoryRetention)) = false)
               (st_entries s');
  at_wf : store_wf s';
  at_budget : within_budget s' }.

(** The three removal loops together: what is left is a suffix of the entries
    that are not stale, followed by the new one. *)
Lemma add_loops_spec s id cutoff added kept1 removed1 kept2 removed2 :
  NoDup (IDs s) -> documentBytes [added] <= maxHistoryWriteBytes ->
  let live := List.filter (fun e => negb (stale id cutoff e)) (st_entries s) in
  let removed := map entryID (List.filter (stale id cutoff) (st_entries s)) in
  dropOldestWhile (fun l => MaxHistoryEntries <? zlen l) (live ++ [added]) = (kept1, removed1) ->
  trimToBudget kept1 = (kept2, removed2) ->
  exists pre l2, live = pre ++ l2 /\ kept2 = l2 ++ [added] /\ removed1 ++ removed2 = map entryID pre /\
    without (removed ++ removed1 ++ removed2) (st_entries s) = l2 /\
    NoDup (removed ++ removed1 ++ removed2) /\
    zlen kept2 <= MaxHistoryEntries /\ documentBytes kept2 <= maxHistoryWriteBytes.
Proof.
  intros Hnd Hfit live removed H1 H2. unfold IDs in Hnd.
  apply dropOldestWhile_last in H1 as (pre1&l1&Hl1&->&->&Hc1); [|done].
  apply dropOldestWhile_last in H2 as (pre2&l2&->&->&->&Hc2); [|by apply negb_false_iff, Z.leb_le].
  apply negb_false_iff, Z.leb_le in Hc2. apply Z.ltb_ge in Hc1.
  assert (NoDup (map entryID live)) as Hndf
    by (apply (sublist_NoDup _ _ Hnd), sublist_ids, filter_sublist).
  rewrite Hl1, app_assoc in *. rewrite <-map_app in *. exists (pre1 ++ pre2), l2.
  split_and!; try done.
  - unfold removed. rewrite without_app, without_filter by done. fold live. rewrite Hl1.
    by apply without_prefix.
  - unfold removed. rewrite NoDup_app. split_and!.
    + apply (sublist_NoDup _ _ Hnd), sublist_ids, filter_sublist.
    + intros i (e&->&[He Hs]%elem_of_list_filter_bool)%elem_of_map (e'&Heq&He')%elem_of_map.
      assert (e' ∈ live) as Hf by (rewrite Hl1; set_solver).
      apply elem_of_list_filter_bool in Hf as [Hl' Hs'%negb_true_iff].
      rewrite (id_inj (st_entries s) e e') in Hs; try done. congruence.
    + rewrite map_app in Hndf. by apply NoDup_app in Hndf as (?&_&_).
  - unfold zlen in *. rewrite !length_app in *. lia.
Qed.

Lemma AddPrepared_core s entry image now added kept1 removed1 kept2 removed2 :
  store_wf s -> is_u32 (h_ID entry) -> metaOK (pi_meta image) ->
  HistoryEntry_Validate entry = None ->
  Before (h_Timestamp entry) (AddTime now (- HistoryRetention)) = false ->
  newRetained entry (pi_meta image) = inr added ->
  let st := stale (h_ID entry) (AddTime now (- HistoryRetention)) in
  let removed := map entryID (List.filter st (st_entries s)) in
  dropOldestWhile (fun l => MaxHistoryEntries <? zlen l)
    (List.filter (fun e => negb (st e)) (st_entries s) ++ [added]) = (kept1, removed1) ->
  trimToBudget kept1 = (kept2, removed2) ->
  added_to s entry now (install s kept2) (removed ++ removed1 ++ removed2).
Proof.
  intros Hwf Hu Hmeta Hv Hb Hnew st removed H1 H2.
  pose proof (entry_fits _ _ _ Hv Hmeta Hnew) as Hfit.
  apply newRetained_measured in Hnew as (Hmeas&Hentry&_).
  destruct (add_loops_spec s _ _ _ _ _ _ _ (sw_nodup s Hwf) Hfit H1 H2)
    as (pre&l2&Hlive&->&Hrem&Hw&Hndr&Hc&Hbud). fold st removed in Hlive, Hw, Hndr.
  assert (forall e, e ∈ pre ++ l2 -> e ∈ st_entries s /\ st e = false) as Hin.
  { intros e He. rewrite <-Hlive in He. by apply elem_of_list_filter_bool in He as [? ?%negb_true_iff]. }
  assert (l2 `sublist_of` st_entries s) as Hsub by (rewrite <-Hw; apply filter_sublist).
  assert (h_ID entry ∉ map entryID l2) as Hnotin.
  { rewrite elem_of_map. intros (e&Heq&He). destruct (Hin e) as [_ Hst]; [set_solver|].
    unfold st, stale in Hst. apply orb_false_iff in Hst as [Hst%Z.eqb_neq _]. congruence. }
  assert (entryID added = h_ID entry) as Hid by (unfold entryID; by rewrite Hentry).
  destruct (store_wf_sub s l2 Hwf Hsub) as [Hn2 _ Hv2 Hm2 Hi2]. unfold IDs in Hn2, Hi2. cbn in *.
  split; [| | | | | | |done].
  - exists added. cbn. by rewrite Hw.
  - done.
  - intros id. rewrite Hrem, elem_of_app. unfold removed, IDs. rewrite !elem_of_map.
    intros [(e&->&[He _]%elem_of_list_filter_bool)|(e&->&He)]; exists e; (split; [done|]); [done|].
    apply Hin. set_solver.
  - done.
  - unfold IDs. rewrite elem_of_map. intros (e&Heq&He). apply elem_of_app. left.
    apply elem_of_map. exists e. split; [done|]. apply elem_of_list_filter_bool. split; [done|].
    unfold st, stale. by rewrite <-Heq, Z.eqb_refl.
  - cbn. apply Forall_app. split; [|by rewrite Forall_singleton, Hentry].
    apply Forall_forall. intros e He. destruct (Hin e) as [_ Hst]; [set_solver|].
    unfold st, stale in Hst. by apply orb_false_iff in Hst as [_ Hst].
  - split; unfold IDs; cbn; rewrite ?map_app, ?Forall_app; cbn;
      rewrite ?Forall_singleton, ?Hid, ?Hentry; try done. by apply NoDup_snoc.
Qed.

(** The outcomes of [AddPrepared]: an error or an entry past its retention
    leaves the store as it was. *)
Lemma AddPrepared_cases s entry image now s' r :
  store_wf s -> is_u32 (h_ID entry) -> metaOK (pi_meta image) ->
  AddPrepared s entry image now = (s', r) ->
  (s' = s /\ exists e, r = inl e) \/
  (s' = s /\ r = inr (zeroEntry, []) /\
     Before (h_Timestamp entry) (AddTime now (- HistoryRetention)) = true) \/
  (exists removed, r = inr (withImage entry (pi_image image), removed) /\
     HistoryEntry_Validate (withImage entry (pi_image image)) = None /\
     added_to s (withImage entry (pi_image image)) now s' removed).
Proof.
  intros Hwf Hu Hmeta. unfold AddPrepared.
  destruct (HistoryEntry_Validate _) eqn:Hv; [intros [= <- <-]; left; eauto|].
  change (h_Timestamp (withImage entry (pi_image image))) with (h_Timestamp entry).
  destruct (Before _ _) eqn:Hb; [intros [= <- <-]; right; left; done|].
  rewrite dropStale_eq. destruct (newRetained _ _) as [e|added] eqn:Hn.
  { intros [= <- <-]. left. eauto. }
  destruct (dropOldestWhile _ _) as [kept1 removed1] eqn:H1.
  destruct (trimToBudget kept1) as [kept2 removed2] eqn:H2.
  intros [= <- <-]. right. right. eexists. split_and!; [done|done|].
  eapply (AddPrepared_core s (withImage entry (pi_image image)) image); done.
Qed.

(** ** Add *)

Lemma slen_hexEncode l : slen (hexEncode l) = 2 * zlen l.
Proof. induction l as [|b l IH]; [done|]. cbn [hexEncode]. rewrite !slen_cons, IH, zlen_cons. lia. Qed.

Lemma PrepareImage_metaOK `{Png, Sha256Laws} source p :
  PrepareImage source = inr p -> metaOK (pi_meta p).
Proof.
  unfold PrepareImage. destruct source as [source|]; [|by intros [= <-]].
  destruct (normalizeHistoryImage source) as [|image]; [done|]. intros [= <-]. cbn.
  rewrite slen_hexEncode, sha256_length. lia.
Qed.

(** ** Sweep, Remove and Clear *)

(** A removal either finds nothing and leaves the store alone, or takes exactly
    the reported ids out. *)
Definition shrunk (s s' : Store) (removed : list Z) : Prop :=
  (forall id, id ∈ removed -> id ∈ IDs s) /\ NoDup removed /\
  ((removed = [] /\ s' = s) \/ (removed <> [] /\ s' = install s (without removed (st_entries s)))).

Lemma shrunk_entries s s' removed :
  shrunk s s' removed -> st_entries s' = without removed (st_entries s).
Proof. intros (_&_&[[-> ->]|[_ ->]]); [by rewrite without_nil|done]. Qed.

Lemma shrunk_wf s s' removed : store_wf s -> shrunk s s' removed -> store_wf s'.
Proof.
  intros Hwf (_&_&[[_ ->]|[_ ->]]); [done|]. apply store_wf_sub; [done|]. apply filter_sublist.
Qed.

Lemma shrunk_budget s s' removed :
  store_wf s -> within_budget s -> shrunk s s' removed -> within_budget s'.
Proof.
  unfold within_budget. intros Hwf Hb Hs. rewrite (shrunk_entries _ _ _ Hs).
  transitivity (documentBytes (st_entries s)); [|done]. apply documentBytes_filter, Hwf.
Qed.

Lemma dropEntries_spec drop s s' removed :
  store_wf s -> dropEntries drop s = (s', removed) ->
  shrunk s s' removed /\ removed = map entryID (List.filter drop (st_entries s)) /\
  st_entries s' = List.filter (fun e => negb (drop e)) (st_entries s).
Proof.
  intros Hwf. unfold dropEntries.
  pose proof (without_filter drop (st_entries s) (sw_nodup s Hwf)) as Hw.
  set (rm := map entryID (List.filter drop (st_entries s))) in *.
  assert ((forall id, id ∈ rm -> id ∈ IDs s) /\ NoDup rm) as [Hsub Hnd].
  { split.
    - intros id (e&->&[He _]%elem_of_list_filter_bool)%elem_of_map. apply elem_of_map. eauto.
    - apply (sublist_NoDup _ _ (sw_nodup s Hwf)), sublist_ids, filter_sublist. }
  destruct (Z.eqb_spec (zlen rm) 0) as [Hz|Hz]; intros [= <- <-].
  - assert (rm = []) as Hrm by (destruct rm; [done|unfold zlen in Hz; cbn in Hz; lia]).
    rewrite Hrm, without_nil in Hw. split_and!; [|done|done].
    split_and!; [by intros id ?%elem_of_nil|constructor|by left].
  - split_and!; [|done|done]. split_and!; [done|done|]. right.
    split; [by intros ->|]. by rewrite Hw.
Qed.

Lemma Sweep_spec s now s' r :
  store_wf s -> Sweep s now = (s', r) ->
  exists removed, r = inr removed /\ shrunk s s' removed /\
    Forall (fun e => Before (h_Timestamp (re_entry e)) (AddTime now (- HistoryRetention)) = false) (st_entries s') /\
    (forall e, e ∈ st_entries s -> entryID e ∈ removed ->
       Before (h_Timestamp (re_entry e)) (AddTime now (- HistoryRetention)) = true).
Proof.
  intros Hwf. unfold Sweep. destruct (dropEntries _ s) as [s1 removed] eqn:Hd. intros [= <- <-].
  apply dropEntries_spec in Hd as (Hs&->&He); [|done]. eexists. split_and!; try done.
  - rewrite He. apply Forall_forall. intros e [_ Hn%negb_true_iff]%elem_of_list_filter_bool. done.
  - intros e Hin (e'&Heq&[He' Hp]%elem_of_list_filter_bool)%elem_of_map.
    by rewrite (id_inj _ e e' (sw_nodup s Hwf)).
Qed.

Lemma Remove_spec s ids s' r :
  store_wf s -> Remove s ids = (s', r) ->
  exists removed, r = inr removed /\ shrunk s s' removed /\
    (forall id, id ∈ removed <-> id ∈ ids /\ id ∈ IDs s).
Proof.
  intros Hwf. unfold Remove. destruct (Z.eqb_spec (zlen ids) 0) as [Hz|Hz].
  - intros [= <- <-]. exists []. assert (ids = []) as -> by (destruct ids; [done|unfold zlen in Hz; cbn in Hz; lia]).
    split_and!; [done| |set_solver]. split_and!; [set_solver|constructor|by left].
  - destruct (dropEntries _ s) as [s1 removed] eqn:Hd. intros [= <- <-].
    apply dropEntries_spec in Hd as (Hs&->&He); [|done]. eexists. split_and!; try done.
    intros id. rewrite elem_of_map. unfold IDs. rewrite elem_of_map. split.
    + intros (e&->&[He' Hp]%elem_of_list_filter_bool). apply bool_decide_eq_true, elem_of_list_to_set in Hp. eauto.
    + intros (Hid&e&->&He'). exists e. split; [done|]. apply elem_of_list_filter_bool. split; [done|].
      by apply bool_decide_eq_true, elem_of_list_to_set.
Qed.

Lemma without_all l : without (map entryID l) l = [].
Proof.
  unfold without. rewrite (filter_ext_in_bool _ (fun _ => false)); [by induction l|].
  intros e He. rewrite bool_decide_eq_true_2; [done|]. apply elem_of_map. eauto.
Qed.

Lemma Clear_spec s s' r :
  store_wf s -> Clear s = (s', r) ->
  exists removed, r = inr removed /\ shrunk s s' removed /\ removed = IDs s /\ st_entries s' = [].
Proof.
  intros Hwf. unfold Clear, IDs. destruct (Z.eqb_spec (zlen (st_entries s)) 0) as [Hz|Hz]; intros [= <- <-].
  - assert (st_entries s = []) as Hn by (destruct (st_entries s); [done|unfold zlen in Hz; cbn in Hz; lia]).
    exists []. rewrite Hn. split_and!; try done. split_and!; [set_solver|constructor|by left].
  - eexists. split_and!; try done. split_and!; [done|apply Hwf|]. right. rewrite without_all.
    split; [|done]. destruct (st_entries s); [done|]. done.
Qed.

(** ** MarkSeen *)

Definition marks (wanted : gset Z) (e : retained) : bool :=
  bool_decide (entryID e ∈ wanted) && negb (h_Seen (re_entry e)).

(** The seen flag makes the encoded entry one byte shorter. *)
Lemma newRetained_withSeen entry meta e :
  newRetained entry meta = inr e -> h_Seen entry = false ->
  exists e', newRetained (withSeen entry) meta = inr e' /\ re_size e' = re_size e - 1.
Proof.
  unfold newRetained, diskEntry_json. cbn [de_Timestamp diskEntryOf withSeen h_Timestamp].
  destruct (jsonTime _) as [|t]; [done|]. intros [= <-] Hs. eexists. split; [done|]. cbn [re_size].
  rewrite !slen_jsonObject. unfold diskEntry_fields.
  rewrite !sumLen_map_app, !zlen_app. cbn [de_ID de_Seen de_AppName de_AppIcon de_DesktopEntry
    de_Summary de_Body de_Urgency de_Category de_Image diskEntryOf withSeen h_ID h_Seen h_AppName
    h_AppIcon h_DesktopEntry h_Summary h_Body h_Urgency h_Category map sumLen foldr].
  rewrite Hs, !slen_jsonField. cbn [fst snd jsonBool].
  change (slen "true") with 4. change (slen "false") with 5. change (zlen [_; _]) with 2. lia.
Qed.

Lemma withSeen_valid entry : HistoryEntry_Validate (withSeen entry) = HistoryEntry_Validate entry.
Proof. by destruct entry. Qed.

Record marked (wanted : gset Z) (l next : list retained) (changed : list Z) : Prop := {
  mk_changed : changed = map entryID (List.filter (marks wanted) l);
  mk_entries : map re_entry next =
    map (fun e => if marks wanted e then withSeen (re_entry e) else re_entry e) l;
  mk_measured : Forall measured next;
  mk_size : foldr (fun e n => re_size e + n) 0 next <= foldr (fun e n => re_size e + n) 0 l }.

Lemma markLoop_spec wanted l :
  Forall measured l -> exists next changed, markLoop wanted l = inr (next, changed) /\ marked wanted l next changed.
Proof.
  induction 1 as [|e l He Hl (next&changed&Heq&[Hc Hent Hm Hsz])]; cbn.
  { exists [], []. split; [done|]. by split. }
  fold (marks wanted e). rewrite Heq. destruct (marks wanted e) eqn:Hmk.
  - pose proof Hmk as [_ Hseen%negb_true_iff]%andb_true_iff.
    destruct (newRetained_withSeen _ _ _ He Hseen) as (e'&Hnew&Hsize). rewrite Hnew.
    apply newRetained_measured in Hnew as (Hm'&Hent'&_).
    exists (e' :: next), (entryID e :: changed). split; [done|].
    split; cbn; rewrite ?Hmk; cbn; rewrite ?Hc, ?Hent, ?Hent'; try done; [by constructor|lia].
  - exists (e :: next), changed. split; [done|].
    split; cbn; rewrite ?Hmk; cbn; rewrite ?Hc, ?Hent; try done; [by constructor|lia].
Qed.

Lemma marked_ids wanted l next changed : marked wanted l next changed -> map entryID next = map entryID l.
Proof.
  intros [_ Hent _ _]. change entryID with (fun e => h_ID (re_entry e)).
  rewrite <-(map_map re_entry h_ID next), Hent, map_map. apply map_ext. intros e. by case_match.
Qed.

Lemma marked_valid wanted l next changed :
  marked wanted l next changed ->
  Forall (fun e => HistoryEntry_Validate (re_entry e) = None) l ->
  Forall (fun e => HistoryEntry_Validate (re_entry e) = None) next.
Proof.
  intros [_ Hent _ _] Hv.
  assert (Forall (fun h => HistoryEntry_Validate h = None) (map re_entry next)) as Hn.
  { rewrite Hent. apply List.Forall_map. eapply Forall_impl; [exact Hv|]. cbn. intros e He.
    case_match; [by rewrite withSeen_valid|done]. }
  by apply List.Forall_map in Hn.
Qed.

(** [MarkSeen] always succeeds on a well-formed store. *)
Lemma MarkSeen_spec s ids s' r :
  store_wf s -> MarkSeen s ids = (s', r) ->
  exists changed, r = inr changed /\
    changed = map entryID (List.filter (marks (list_to_set ids)) (st_entries s)) /\
    Entries s' = map (fun e => if marks (list_to_set ids) e then withSeen (re_entry e) else re_entry e)
                   (st_entries s) /\
    IDs s' = IDs s /\ store_wf s' /\ (within_budget s -> within_budget s').
Proof.
  intros Hwf. unfold MarkSeen.
  destruct (markLoop_spec (list_to_set ids) _ (sw_measured s Hwf)) as (next&changed&->&Hmk).
  pose proof Hmk as [Hc Hent Hm Hsz]. pose proof (marked_ids _ _ _ _ Hmk) as Hids.
  destruct (Z.eqb_spec (zlen changed) 0) as [Hz|Hz]; intros [= <- <-].
  - assert (changed = []) as Hnil by (destruct changed; [done|unfold zlen in Hz; cbn in Hz; lia]).
    exists []. split_and!; try done; [congruence|]. unfold Entries. rewrite Hnil in Hc.
    apply map_ext_in. intros e He. destruct (marks _ e) eqn:Hmark; [|done].
    exfalso. assert (e ∈ List.filter (marks (list_to_set ids)) (st_entries s)) as Hin
      by (apply elem_of_list_filter_bool; split; [by apply list_elem_of_In|done]).
    destruct (List.filter _ _); [by apply elem_of_nil in Hin|done].
  - exists changed. assert (length next = length (st_entries s)) as Hlen
      by (rewrite <-(length_map entryID next), Hids; apply length_map).
    split_and!; try done.
    + destruct Hwf as [Hn Hcnt Hv _ Hi]. split; cbn; try done; try (unfold IDs; cbn; by rewrite Hids).
      * unfold zlen in *. by rewrite Hlen.
      * by apply (marked_valid _ _ _ _ Hmk).
    + unfold within_budget, documentBytes, zlen. cbn. rewrite Hlen. case_match; lia.
Qed.

Lemma Store_Add_cases `{Png, Sha256Laws} s entry now s' r :
  store_wf s -> is_u32 (h_ID entry) -> Store_Add s entry now = (s', r) ->
  (s' = s /\ exists e, r = inl e) \/
  (s' = s /\ r = inr (zeroEntry, []) /\
     Before (h_Timestamp entry) (AddTime now (- HistoryRetention)) = true) \/
  (exists removed image, r = inr (withImage entry image, removed) /\
     HistoryEntry_Validate (withImage entry image) = None /\
     added_to s (withImage entry image) now s' removed).
Proof.
  intros Hwf Hu. unfold Store_Add. destruct (PrepareImage _) as [e|p] eqn:Hp.
  { intros [= <- <-]. left. eauto. }
  apply PrepareImage_metaOK in Hp. intros [?|[?|(removed&?)]]%AddPrepared_cases; try done; naive_solver.
Qed.

(** ** Claims *)

(** C20: [documentBytes], the running sum the store keeps, is the exact size of
    the file a commit of those entries writes (the marshalled document and its
    newline), and marshalling does not fail. *)
Theorem documentBytes_exact s :
  store_wf s ->
  exists json, document_json (encodeDocument (st_entries s)) = inr json /\
    slen json + 1 = documentBytes (st_entries s).
Proof. intros Hs. apply documentBytes_encode, Hs. Qed.

(** C22: an [Add] that fails, or whose entry is past its retention, leaves the
    store as it was; otherwise the new entry is the last one, the entries
    reported as removed and only they are gone, an older entry under the same
    id is among them, nothing past its retention is left, and the store is
    well formed, within 100 entries and within the size the read path takes. *)
Theorem Add_outcome `{Png, Sha256Laws} s entry now s' r :
  store_wf s -> is_u32 (h_ID entry) -> Store_Add s entry now = (s', r) ->
  (s' = s /\ exists e, r = inl e) \/
  (s' = s /\ r = inr (zeroEntry, []) /\
     Before (h_Timestamp entry) (AddTime now (- HistoryRetention)) = true) \/
  (exists removed image, r = inr (withImage entry image, removed) /\
     HistoryEntry_Validate (withImage entry image) = None /\
     added_to s (withImage entry image) now s' removed).
Proof. apply Store_Add_cases. Qed.

(** The store only drops old entries to stay within the budget when it has
    to: what [trimToBudget] keeps is the longest suffix of the entries whose
    document is within the budget, and what it reports is the rest, in order. *)
Theorem trimToBudget_longest entries kept removed :
  trimToBudget entries = (kept, removed) ->
  exists dropped, entries = dropped ++ kept /\ removed = map entryID dropped /\
    (kept = [] \/ documentBytes kept <= maxHistoryWriteBytes) /\
    (forall pre suf, dropped = pre ++ suf -> suf <> [] -> maxHistoryWriteBytes < documentBytes (suf ++ kept)).
Proof.
  unfold trimToBudget. revert kept removed. induction entries as [|e l IH]; intros kept removed; cbn.
  - intros [= <- <-]. exists []. split_and!; auto. by intros [|? ?] suf [= <-].
  - destruct (Z.leb_spec (documentBytes (e :: l)) maxHistoryWriteBytes) as [Hle|Hgt]; cbn.
    + intros [= <- <-]. exists []. split_and!; auto. by intros [|? ?] suf [= <-].
    + destruct (dropOldestWhile _ l) as [k rm]. destruct (IH k rm eq_refl) as (dropped&->&->&Hk&Hall).
      intros [= <- <-]. exists (e :: dropped). split_and!; try done.
      intros [|x pre] suf; cbn; [by intros <-|]. intros [= _ Heq]. by apply (Hall pre).
Qed.

(** [Remove] takes out exactly the entries with the given ids and [Sweep]
    exactly those past their retention, each reports what it took, and a call
    that finds nothing changes nothing, not even the pending write. *)
Theorem Remove_Sweep_outcome s ids now s1 r1 s2 r2 :
  store_wf s -> Remove s ids = (s1, r1) -> Sweep s now = (s2, r2) ->
  (exists removed, r1 = inr removed /\ shrunk s s1 removed /\ store_wf s1 /\
     (forall id, id ∈ removed <-> id ∈ ids /\ id ∈ IDs s)) /\
  (exists removed, r2 = inr removed /\ shrunk s s2 removed /\ store_wf s2 /\
     Forall (fun e => Before (h_Timestamp (re_entry e)) (AddTime now (- HistoryRetention)) = false) (st_entries s2) /\
     (forall e, e ∈ st_entries s -> entryID e ∈ removed ->
        Before (h_Timestamp (re_entry e)) (AddTime now (- HistoryRetention)) = true)).
Proof.
  intros Hs (rm1&->&Hsh1&Hin)%Remove_spec (rm2&->&Hsh2&?&?)%Sweep_spec; try done.
  split; eexists; split_and!; try done; by eapply shrunk_wf.
Qed.

(** [MarkSeen] sets the flag of exactly the entries that are named and not
    seen yet, reports their ids in order, changes nothing else of any entry,
    and never makes the document longer: a store within its budget stays so. *)
Theorem MarkSeen_outcome s ids s' r :
  store_wf s -> MarkSeen s ids = (s', r) ->
  exists changed, r = inr changed /\
    changed = map entryID (List.filter (marks (list_to_set ids)) (st_entries s)) /\
    Entries s' = map (fun e => if marks (list_to_set ids) e then withSeen (re_entry e) else re_entry e)
                   (st_entries s) /\
    IDs s' = IDs s /\ store_wf s' /\ (within_budget s -> within_budget s').
Proof. apply MarkSeen_spec. Qed.

