(* ===== verification/Owner.v ===== *)
(** * internal/state: the state owner

    [owner.go] and [expiry.go].  One goroutine owns the state; its loop takes a
    command, a snapshot request or a timer tick at a time, so every operation
    is a function from [ownerState] to [ownerState], and the loop is the step
    relation [step].

    The [Clock] and [Sink] interfaces are classes.  A clock is the sequence of
    its readings, and the state counts how many were taken; a sink is the log
    of the events it was given and, for each, the answer of [Publish] as a
    function of the log before it.  [s_sink = None] is a nil sink. *)
From stdpp Require Import gmap strings list fin_maps.
From Stdlib Require Import ZArith Lia Strings.Byte.
From S2P Require Import Prelude GoLib Protocol Notify History.
Local Open Scope string_scope.
Local Open Scope list_scope.
Local Open Scope Z_scope.

(** ** Constants, events and commands *)

Definition DefaultTimeout : Duration := 5 * Second.
Definition PresentationLease : Duration := 6 * Second.
Definition HistorySweep : Duration := Minute.
Definition notificationBurstWindow : Duration := 5 * Second.

Record ActionEvent := mkActionEvent { ae_ID : Z; ae_Key : string }.
Record ReplyEvent := mkReplyEvent { rv_ID : Z; rv_Text : string }.

Record Event := mkEvent {
  ev_Sequence : Z;
  ev_Delta : option Delta;
  ev_Action : option ActionEvent;
  ev_Reply : option ReplyEvent;
  ev_Snapshot : option Snapshot;
  ev_Generation : Z }.

Inductive CommandKind :=
  | Add | CloseRequested | Dismiss | InvokeAction | SubmitReply | PresentationRenew
  | PresenterLost | DismissAll | HistoryClear | HistoryRemove | HistoryMarkSeen
  | ProducerPublish | ProducerClose | PresenterResync | CommandKindOther (k : Z).

#[export] Instance CommandKind_eq_dec : EqDecision CommandKind.
Proof. solve_decision. Defined.

Record Command := mkCommand {
  cm_Kind : CommandKind;
  cm_Candidate : Candidate;
  cm_PreparedHistoryImage : option PreparedImage;
  cm_Producer : option ProducerRequest;
  cm_ID : Z;
  cm_ActionKey : string;
  cm_ReplyText : string;
  cm_Generation : Z;
  cm_NextGeneration : Z;
  cm_IDs : list Z;
  cm_Presentations : list Presentation }.

Record Result := mkResult { res_ID : Z; res_Replaced : bool; res_Lifetimes : list Lifetime }.
Definition zeroResult : Result := mkResult 0 false [].

Class Clock := Now : nat -> Time.
(** Readings do not go back ([time.Now] carries a monotonic reading) and are
    after the zero time. *)
Class MonotonicClock `{Clock} := {
  Now_mono i j : (i <= j)%nat -> Now i <= Now j;
  Now_pos i : 0 < Now i }.
Class Sink := Publish : list Event -> Event -> bool.

(** ** State *)

Record record := mkRecord {
  r_notification : Notification;
  r_candidate : Candidate;
  r_historyImage : option PreparedImage;
  r_producerKey : string;
  r_duration : Duration;
  r_state : PresentationState;
  r_displayed : bool;
  r_remaining : Duration;
  r_deadline : Time;
  r_hasDeadline : bool;
  r_lastReceived : Time }.

Record ownerState := mkOwnerState {
  s_ticks : nat;
  s_sink : option (list Event);
  s_history : option Store;
  s_records : gmap Z record;
  s_producerIDs : gmap string Z;
  s_order : list Z;
  s_nextID : Z;
  s_sequence : Z;
  s_presenterGeneration : Z;
  s_acceptedGeneration : Z;
  s_presenterRetired : bool;
  s_leaseDeadline : Time;
  s_timer : option Duration;
  s_nextHistorySweep : Time }.

Definition set_ticks v s := match s with mkOwnerState _ b c d e f g h i j k l m n => mkOwnerState v b c d e f g h i j k l m n end.
Definition set_sink v s := match s with mkOwnerState a _ c d e f g h i j k l m n => mkOwnerState a v c d e f g h i j k l m n end.
Definition set_history v s := match s with mkOwnerState a b _ d e f g h i j k l m n => mkOwnerState a b v d e f g h i j k l m n end.
Definition set_records v s := match s with mkOwnerState a b c _ e f g h i j k l m n => mkOwnerState a b c v e f g h i j k l m n end.
Definition set_producerIDs v s := match s with mkOwnerState a b c d _ f g h i j k l m n => mkOwnerState a b c d v f g h i j k l m n end.
Definition set_order v s := match s with mkOwnerState a b c d e _ g h i j k l m n => mkOwnerState a b c d e v g h i j k l m n end.
Definition set_nextID v s := match s with mkOwnerState a b c d e f _ h i j k l m n => mkOwnerState a b c d e f v h i j k l m n end.
Definition set_sequence v s := match s with mkOwnerState a b c d e f g _ i j k l m n => mkOwnerState a b c d e f g v i j k l m n end.
Definition set_presenterGeneration v s := match s with mkOwnerState a b c d e f g h _ j k l m n => mkOwnerState a b c d e f g h v j k l m n end.
Definition set_acceptedGeneration v s := match s with mkOwnerState a b c d e f g h i _ k l m n => mkOwnerState a b c d e f g h i v k l m n end.
Definition set_presenterRetired v s := match s with mkOwnerState a b c d e f g h i j _ l m n => mkOwnerState a b c d e f g h i j v l m n end.
Definition set_leaseDeadline v s := match s with mkOwnerState a b c d e f g h i j k _ m n => mkOwnerState a b c d e f g h i j k v m n end.
Definition set_timer v s := match s with mkOwnerState a b c d e f g h i j k l _ n => mkOwnerState a b c d e f g h i j k l v n end.
Definition set_nextHistorySweep v s := match s with mkOwnerState a b c d e f g h i j k l m _ => mkOwnerState a b c d e f g h i j k l m v end.

Definition setPresentationFields (r : record) (st : PresentationState) (displayed : bool)
    (remaining : Duration) (deadline : Time) (hasDeadline : bool) : record :=
  mkRecord (r_notification r) (r_candidate r) (r_historyImage r) (r_producerKey r) (r_duration r)
    st displayed remaining deadline hasDeadline (r_lastReceived r).

Section Owner.
Context `{Clock, Sink, Png, Sha256}.

(** [s.clock.Now()] *)
Definition clockNow (s : ownerState) : Time * ownerState :=
  (Now (s_ticks s), set_ticks (S (s_ticks s)) s).

Definition publish (e : Event) (s : ownerState) : ownerState * bool :=
  match s_sink s with
  | None => (s, true)
  | Some log => (set_sink (Some (log ++ [e])) s, Publish log e)
  end.

Definition publishDelta (d : Delta) (s : ownerState) : ownerState :=
  let s := set_sequence (wrap64 (s_sequence s + 1)) s in
  (publish (mkEvent (s_sequence s) (Some d) None None None 0) s).1.

(** ** Deltas *)

Definition closedDelta (id reason : Z) : Delta := mkDelta DeltaClosed None None None id [] reason.
Definition historyRemovedDelta (id : Z) : Delta := mkDelta DeltaHistoryRemoved None None None id [] 0.
Definition historyAddedDelta (e : HistoryEntry) : Delta := mkDelta DeltaHistoryAdded None None (Some e) 0 [] 0.
Definition historyClearedDelta : Delta := mkDelta DeltaHistoryCleared None None None 0 [] 0.
Definition historySeenDelta (ids : list Z) : Delta := mkDelta DeltaHistorySeen None None None 0 ids 0.
Definition notificationDelta (k : DeltaKind) (n : Notification) (l : Lifetime) : Delta :=
  mkDelta k (Some n) (Some l) None 0 [] 0.

Definition publishRemoved (removed : list Z) (s : ownerState) : ownerState :=
  fold_left (fun s id => publishDelta (historyRemovedDelta id) s) removed s.

(** ** Candidates and lifetimes *)

Definition notificationFromCandidate (id : Z) (c : Candidate) (now : Time) : Notification :=
  mkNotification id (cd_AppName c) (cd_AppIcon c) (cd_DesktopEntry c) (cd_Summary c) (cd_Body c)
    (cd_Actions c) (cd_Urgency c) (cd_Category c) now (cd_ExpireTimeout c) (cd_Image c) (cd_Value c)
    (cd_InlineReply c) (cd_ReplyPlaceholder c) (sd_Lineage (cd_Sender c)).

Definition validateCandidate (c : Candidate) (now : Time) : option error :=
  failIf (cd_ExpireTimeout c <? -1) (ErrNew "state: invalid expiry timeout") ;;;
  Notification_Validate (notificationFromCandidate 1 c now).

Definition candidateDuration (c : Candidate) : Duration :=
  if cd_ExpireTimeout c =? -1 then
    if cd_Urgency c =? UrgencyCritical then 0 else DefaultTimeout
  else if cd_ExpireTimeout c =? 0 then 0
  else cd_ExpireTimeout c * Millisecond.

Definition durationMilliseconds (d : Duration) : Z :=
  if d <=? 0 then 0 else wrap32 ((d + Millisecond - 1) / Millisecond).

Definition lifetime (r : record) (now : Time) : Lifetime :=
  let remaining := if r_hasDeadline r then Z.max 0 (SubTime (r_deadline r) now) else r_remaining r in
  mkLifetime (n_ID (r_notification r)) (durationMilliseconds (r_duration r))
    (durationMilliseconds remaining) (r_hasDeadline r && (0 <? r_duration r)).

(** The records in display order.  A missing record would be a nil dereference
    in Go; [wf_order] excludes it. *)
Definition orderedRecords (s : ownerState) : list record :=
  omap (fun id => s_records s !! id) (s_order s).

Definition lifetimes (s : ownerState) (now : Time) : list Lifetime :=
  map (fun r => lifetime r now) (orderedRecords s).

Definition snapshot (s : ownerState) : Snapshot * ownerState :=
  let sequence := s_sequence s in
  let '(now, s) := clockNow s in
  (mkSnapshot sequence (map r_notification (orderedRecords s)) (lifetimes s now)
     (match s_history s with Some st => Entries st | None => [] end), s).

(** ** Closing *)

Definition historyEntry (n : Notification) (closedAt : Time) (image : option Image) : HistoryEntry :=
  mkHistoryEntry (n_ID n) false (n_AppName n) (n_AppIcon n) (n_DesktopEntry n) (n_Summary n) (n_Body n)
    (n_Urgency n) (n_Category n) closedAt image.

(** The part of [close] that hands the closed notification to the history. *)
Definition recordHistory (r : record) (st : Store) (s : ownerState) : ownerState :=
  let '(now, s) := clockNow s in
  let image := match r_historyImage r with Some _ => None | None => n_Image (r_notification r) end in
  let entry := historyEntry (r_notification r) now image in
  let '(st, outcome) :=
    match r_historyImage r with
    | Some prepared => AddPrepared st entry prepared now
    | None => Store_Add st entry now
    end in
  let s := set_history (Some st) s in
  match outcome with
  | inl _ => s
  | inr (entry, removed) =>
      let s := publishRemoved removed s in
      if h_ID entry =? 0 then s else publishDelta (historyAddedDelta entry) s
  end.

(** [delete(s.producerIDs, key)] when the key still names the id. *)
Definition dropProducerKey (key : string) (id : Z) (s : ownerState) : ownerState :=
  if negb (String.eqb key "") && (lookup0 (s_producerIDs s) key =? id)
  then set_producerIDs (delete key (s_producerIDs s)) s else s.

Definition close (id reason : Z) (s : ownerState) : ownerState * option error :=
  match s_records s !! id with
  | None => (s, Some ErrNotFound)
  | Some r =>
      let s := set_records (delete id (s_records s)) s in
      let s := dropProducerKey (r_producerKey r) id s in
      let s := set_order (removeFirst id (s_order s)) s in
      let s := publishDelta (closedDelta id reason) s in
      match s_history s with
      | Some st =>
          if cd_Transient (r_candidate r) || cd_Private (r_candidate r) then (s, None)
          else (recordHistory r st s, None)
      | None => (s, None)
      end
  end.

(** The loop of [DismissAll] over a copy of the order. *)
Fixpoint closeAll (ids : list Z) (reason : Z) (s : ownerState) (err : option error) : ownerState * option error :=
  match ids with
  | [] => (s, err)
  | id :: ids => let '(s, e) := close id reason s in closeAll ids reason s (errors_Join err e)
  end.

(** ** Adding *)

Definition sameBurstKey (a b : Candidate) : bool :=
  String.eqb (cd_AppName a) (cd_AppName b) && String.eqb (cd_Summary a) (cd_Summary b) &&
  String.eqb (cd_Body a) (cd_Body b) && (cd_Urgency a =? cd_Urgency b).

Definition burstMatch (c : Candidate) (now : Time) (r : record) : bool :=
  String.eqb (r_producerKey r) "" && sameBurstKey (r_candidate r) c &&
  (let age := SubTime now (r_lastReceived r) in (0 <=? age) && (age <=? notificationBurstWindow)).

(** One round of the loop, which runs from the newest record to the oldest. *)
Definition burstStep (c : Candidate) (now : Time) (s : ownerState) (duplicate : option record) (id : Z)
    : option record :=
  match s_records s !! id with
  | None => duplicate
  | Some existing =>
      if burstMatch c now existing then
        match duplicate with
        | None => Some existing
        | Some d => if After (r_lastReceived existing) (r_lastReceived d) then Some existing else duplicate
        end
      else duplicate
  end.

Definition burstDuplicate (c : Candidate) (now : Time) (s : ownerState) : Z :=
  match fold_left (burstStep c now s) (reverse (s_order s)) None with
  | None => 0
  | Some d => n_ID (r_notification d)
  end.

Definition takenIDs (s : ownerState) : gset Z :=
  dom (s_records s) ∪ match s_history s with Some st => list_to_set (IDs st) | None => ∅ end.

(** The first id in display order whose record matches; 0 for none. *)
Fixpoint choose (match_ : record -> bool) (records : gmap Z record) (order : list Z) : Z :=
  match order with
  | [] => 0
  | id :: order =>
      match records !! id with
      | Some r => if match_ r then id else choose match_ records order
      | None => choose match_ records order
      end
  end.

Definition notCritical (r : record) : bool := negb (n_Urgency (r_notification r) =? UrgencyCritical).
Definition notCriticalExpiring (r : record) : bool := notCritical r && (0 <? r_duration r).

Definition capacityVictim (s : ownerState) : Z :=
  let victim := choose notCriticalExpiring (s_records s) (s_order s) in
  let victim := if victim =? 0 then choose notCritical (s_records s) (s_order s) else victim in
  if victim =? 0 then match s_order s with id :: _ => id | [] => 0 end else victim.

Definition evictCapacityVictim (s : ownerState) : ownerState :=
  let victim := capacityVictim s in
  if victim =? 0 then s else (close victim CloseUndefined s).1.

Definition newRecord (id : Z) (c : Candidate) (prepared : option PreparedImage) (producerKey : string)
    (now : Time) : record :=
  let duration := candidateDuration c in
  mkRecord (notificationFromCandidate id c now) c prepared producerKey duration PresentationSuppressed
    false duration 0 false now.

(** A replacement keeps what the presenter reported for the record; a paused
    presentation gets no deadline. *)
Definition replaceRecord (r existing : record) (now : Time) : record :=
  let runs := (0 <? r_duration r) &&
    match r_state existing with PresentationQueued | PresentationHovered => false | _ => true end in
  if runs then setPresentationFields r (r_state existing) (r_displayed existing) (r_remaining r)
                 (AddTime now (r_duration r)) true
  else setPresentationFields r (r_state existing) (r_displayed existing) (r_remaining r)
         (r_deadline r) (r_hasDeadline r).

Definition startRecord (r : record) (now : Time) : record :=
  if 0 <? r_duration r then
    setPresentationFields r (r_state r) (r_displayed r) (r_remaining r) (AddTime now (r_duration r)) true
  else r.

Definition addWithProducerKey (c : Candidate) (producerKey : string) (prepared : option PreparedImage)
    (now : Time) (s : ownerState) : ownerState * Result * option error :=
  match validateCandidate c now with
  | Some e => (s, zeroResult, Some e)
  | None =>
      match s_records s !! cd_ReplacesID c with
      | Some existing =>
          let id := cd_ReplacesID c in
          let s := if negb (String.eqb (r_producerKey existing) "") &&
                      negb (String.eqb (r_producerKey existing) producerKey) &&
                      (lookup0 (s_producerIDs s) (r_producerKey existing) =? id)
                   then set_producerIDs (delete (r_producerKey existing) (s_producerIDs s)) s else s in
          let r := replaceRecord (newRecord id c prepared producerKey now) existing now in
          let s := set_records (<[id := r]> (s_records s)) s in
          (publishDelta (notificationDelta DeltaReplaced (r_notification r) (lifetime r now)) s,
           mkResult id true [], None)
      | None =>
          let s := if Z.of_nat (size (s_records s)) =? MaxActiveNotifications
                   then evictCapacityVictim s else s in
          let '(id, nextID) := ResolveID 0 (s_nextID s) (takenIDs s) in
          let s := set_nextID nextID s in
          let r := startRecord (newRecord id c prepared producerKey now) now in
          let s := set_records (<[id := r]> (s_records s)) s in
          let s := set_order (s_order s ++ [id]) s in
          (publishDelta (notificationDelta DeltaAdded (r_notification r) (lifetime r now)) s,
           mkResult id false [], None)
      end
  end.

Definition add (c : Candidate) (prepared : option PreparedImage) (now : Time) (s : ownerState)
    : ownerState * Result * option error :=
  let c := if cd_ReplacesID c =? 0 then set_ReplacesID (burstDuplicate c now s) c else c in
  addWithProducerKey c "" prepared now s.

(** ** Producers *)

Definition zeroSender : Sender := mkSender "" 0 [].

Definition zeroCandidate : Candidate :=
  mkCandidate "" "" "" "" 0 [] 0 0 false false false "" "" None false "" None false zeroSender.

Definition producerCandidate (p : ProducerRequest) (replacesID : Z) : Candidate :=
  mkCandidate (pq_AppName p) "" (pq_Summary p) (pq_Body p) replacesID [] (pq_Urgency p)
    (pq_ExpireTimeoutMS p) true false false "" "" (pq_Value p) false "" None false zeroSender.

Definition publishProducer (request : option ProducerRequest) (now : Time) (s : ownerState)
    : ownerState * Result * option error :=
  match request with
  | None => (s, zeroResult, Some (ErrNew "state: missing producer request"))
  | Some p =>
      match ProducerRequest_Validate p with
      | Some e => (s, zeroResult, Some e)
      | None =>
          let replacesID := lookup0 (s_producerIDs s) (pq_Key p) in
          let gone := negb (replacesID =? 0) &&
            match s_records s !! replacesID with None => true | Some _ => false end in
          let s := if gone then set_producerIDs (delete (pq_Key p) (s_producerIDs s)) s else s in
          let replacesID := if gone then 0 else replacesID in
          match addWithProducerKey (producerCandidate p replacesID) (pq_Key p) None now s with
          | (s, _, Some e) => (s, zeroResult, Some e)
          | (s, result, None) =>
              (set_producerIDs (<[pq_Key p := res_ID result]> (s_producerIDs s)) s, result, None)
          end
      end
  end.

Definition closeProducer (request : option ProducerRequest) (s : ownerState)
    : ownerState * Result * option error :=
  match request with
  | None => (s, zeroResult, Some (ErrNew "state: missing producer request"))
  | Some p =>
      match ProducerRequest_Validate p with
      | Some e => (s, zeroResult, Some e)
      | None =>
          let id := lookup0 (s_producerIDs s) (pq_Key p) in
          if id =? 0 then (s, zeroResult, None)
          else match s_records s !! id with
               | None => (set_producerIDs (delete (pq_Key p) (s_producerIDs s)) s, zeroResult, None)
               | Some _ => let '(s, err) := close id CloseRequestedReason s in
                           (s, mkResult id false [], err)
               end
      end
  end.

(** ** History commands *)

Definition errNoHistory : error := ErrNew "state: history unavailable".

Definition clearHistory (s : ownerState) : ownerState * option error :=
  match s_history s with
  | None => (s, Some errNoHistory)
  | Some st =>
      let '(st, outcome) := Clear st in
      let s := set_history (Some st) s in
      match outcome with
      | inl e => (s, Some e)
      | inr removed => if zlen removed =? 0 then (s, None) else (publishDelta historyClearedDelta s, None)
      end
  end.

Definition removeHistory (ids : list Z) (s : ownerState) : ownerState * option error :=
  match s_history s with
  | None => (s, Some errNoHistory)
  | Some st =>
      let '(st, outcome) := Remove st ids in
      let s := set_history (Some st) s in
      match outcome with
      | inl e => (s, Some e)
      | inr removed => (publishRemoved removed s, None)
      end
  end.

Definition markHistorySeen (ids : list Z) (s : ownerState) : ownerState * option error :=
  match s_history s with
  | None => (s, Some errNoHistory)
  | Some st =>
      let '(st, outcome) := MarkSeen st ids in
      let s := set_history (Some st) s in
      match outcome with
      | inl e => (s, Some e)
      | inr changed => if zlen changed =? 0 then (s, None) else (publishDelta (historySeenDelta changed) s, None)
      end
  end.

(** ** Actions and replies *)

Definition invokeAction (id : Z) (key : string) (s : ownerState) : ownerState * option error :=
  match s_records s !! id with
  | None => (s, Some ErrNotFound)
  | Some r =>
      if existsb (fun a => String.eqb (a_Key a) key) (n_Actions (r_notification r)) then
        let s := (publish (mkEvent 0 None (Some (mkActionEvent id key)) None None 0) s).1 in
        if cd_Resident (r_candidate r) then (s, None) else close id CloseDismissed s
      else (s, Some (ErrQuoted "state: unknown action " key))
  end.

Definition submitReply (id : Z) (text : string) (s : ownerState) : ownerState * option error :=
  match WireCommand_Validate (mkWireCommand CommandReply id [] "" text [] None) with
  | Some e => (s, Some e)
  | None =>
      match s_records s !! id with
      | None => (s, Some ErrNotFound)
      | Some r =>
          if cd_InlineReply (r_candidate r) then
            let s := (publish (mkEvent 0 None None (Some (mkReplyEvent id text)) None 0) s).1 in
            if cd_Resident (r_candidate r) then (s, None) else close id CloseDismissed s
          else (s, Some (ErrNew "state: notification has no inline reply"))
      end
  end.

(** ** expiry.go *)

Definition setPresentation (next : PresentationState) (now : Time) (r : record) : record :=
  if decide (r_state r = next) then r
  else
    let remaining := if r_hasDeadline r then Z.max 0 (SubTime (r_deadline r) now) else r_remaining r in
    let previous := r_state r in
    if r_duration r =? 0 then
      setPresentationFields r next (r_displayed r) remaining (r_deadline r) false
    else
      match next with
      | PresentationQueued =>
          let remaining := if r_displayed r then remaining else r_duration r in
          setPresentationFields r next (r_displayed r) remaining (r_deadline r) false
      | PresentationHovered => setPresentationFields r next true remaining (r_deadline r) false
      | PresentationVisible =>
          let remaining :=
            if negb (r_displayed r) && bool_decide (previous = PresentationQueued)
            then r_duration r else remaining in
          setPresentationFields r next true remaining (AddTime now remaining) true
      | PresentationSuppressed =>
          setPresentationFields r next (r_displayed r) remaining (AddTime now remaining) true
      | PresentationOther _ => setPresentationFields r next (r_displayed r) remaining (r_deadline r) false
      end.

(** [s.setPresentation(s.records[id], f(id), now)] for every id of the order. *)
Definition presentAll (f : Z -> PresentationState) (now : Time) (s : ownerState) : ownerState :=
  set_records
    (fold_left (fun m id => alter (setPresentation (f id) now) id m) (s_order s) (s_records s)) s.

Definition clearPresentation (now : Time) (s : ownerState) : ownerState :=
  let s := presentAll (fun _ => PresentationSuppressed) now s in
  set_leaseDeadline 0 (set_presenterGeneration 0 s).

Definition reportedStates (l : list Presentation) : gmap Z PresentationState :=
  fold_left (fun m p => <[pr_ID p := pr_State p]> m) l ∅.

Definition renew (generation : Z) (presentations : list Presentation) (now : Time) (s : ownerState)
    : ownerState * option error :=
  if generation =? 0 then (s, Some (ErrNew "state: presenter generation is zero"))
  else match WireCommand_Validate (mkWireCommand CommandPresentationRenew 0 [] "" "" presentations None) with
  | Some e => (s, Some e)
  | None =>
      if negb (s_acceptedGeneration s =? 0) && (generation <? s_acceptedGeneration s) then (s, Some ErrStale)
      else if s_presenterRetired s && (generation =? s_acceptedGeneration s) then (s, Some ErrStale)
      else
        let s := if negb (s_presenterGeneration s =? 0) && negb (generation =? s_presenterGeneration s)
                 then clearPresentation now s else s in
        let s := set_leaseDeadline (AddTime now PresentationLease)
                   (set_presenterGeneration generation
                   (set_presenterRetired false (set_acceptedGeneration generation s))) in
        let states := reportedStates presentations in
        (presentAll (fun id => default PresentationSuppressed (states !! id)) now s, None)
  end.

(** The last loop of [handleTimer], over a copy of the order. *)
Definition expireOne (now : Time) (s : ownerState) (id : Z) : ownerState :=
  match s_records s !! id with
  | Some r => if r_hasDeadline r && negb (After (r_deadline r) now) then (close id CloseExpired s).1 else s
  | None => s
  end.

(** Without a history no sweep is ever scheduled. *)
Definition sweepDue (now : Time) (s : ownerState) : ownerState :=
  if negb (IsZero (s_nextHistorySweep s)) && negb (After (s_nextHistorySweep s) now) then
    let s :=
      match s_history s with
      | Some st =>
          let '(st, outcome) := Sweep st now in
          let s := set_history (Some st) s in
          match outcome with inl _ => s | inr removed => publishRemoved removed s end
      | None => s
      end in
    set_nextHistorySweep (AddTime now HistorySweep) s
  else s.

Definition leaseDue (now : Time) (s : ownerState) : ownerState :=
  if negb (IsZero (s_leaseDeadline s)) && negb (After (s_leaseDeadline s) now)
  then clearPresentation (s_leaseDeadline s) s else s.

Definition handleTimer (s : ownerState) : ownerState :=
  let '(now, s) := clockNow s in
  let s := sweepDue now s in
  let s := leaseDue now s in
  fold_left (expireOne now) (s_order s) s.

(** The earliest of the times the timer has to wake for; 0 for none. *)
Definition earlier (candidate next : Time) : Time :=
  if IsZero next || Before candidate next then candidate else next.

Definition nextWake (s : ownerState) : Time :=
  let next := if IsZero (s_nextHistorySweep s) then 0 else s_nextHistorySweep s in
  let next := if IsZero (s_leaseDeadline s) then next else earlier (s_leaseDeadline s) next in
  fold_left (fun next r => if r_hasDeadline r then earlier (r_deadline r) next else next)
    (orderedRecords s) next.

Definition resetTimer (s : ownerState) : ownerState :=
  let s := set_timer None s in
  let next := nextWake s in
  if IsZero next then s
  else
    let '(now, s) := clockNow s in
    set_timer (Some (Z.max 0 (SubTime next now))) s.

(** ** The command handler and the loop *)

Definition requirePresenter (generation : Z) (s : ownerState) : option error :=
  if generation =? 0 then None
  else if s_presenterRetired s || negb (generation =? s_acceptedGeneration s) then Some ErrStale
  else None.

Definition gatePresenter (c : Command) (s : ownerState) : option error :=
  match cm_Kind c with
  | Dismiss | InvokeAction | SubmitReply | DismissAll | HistoryClear | HistoryRemove
  | HistoryMarkSeen | ProducerPublish | ProducerClose => requirePresenter (cm_Generation c) s
  | _ => None
  end.

Definition presenterLost (generation nextGeneration : Z) (now : Time) (s : ownerState) : ownerState :=
  let s := if negb (generation =? 0) && (generation =? s_presenterGeneration s)
           then clearPresentation now s else s in
  if s_acceptedGeneration s <? nextGeneration then
    set_presenterRetired false (set_acceptedGeneration nextGeneration s)
  else if negb (generation =? 0) && (generation =? s_acceptedGeneration s) && (nextGeneration =? 0)
       then set_presenterRetired true s else s.

Definition withZeroResult (r : ownerState * option error) : ownerState * Result * option error :=
  (r.1, zeroResult, r.2).

Definition do_ (c : Command) (s : ownerState) : ownerState * Result * option error :=
  match gatePresenter c s with
  | Some e => (s, zeroResult, Some e)
  | None =>
      let '(now, s) := clockNow s in
      match cm_Kind c with
      | Add => add (cm_Candidate c) (cm_PreparedHistoryImage c) now s
      | ProducerPublish => publishProducer (cm_Producer c) now s
      | ProducerClose => closeProducer (cm_Producer c) s
      | CloseRequested => withZeroResult (close (cm_ID c) CloseRequestedReason s)
      | Dismiss => withZeroResult (close (cm_ID c) CloseDismissed s)
      | InvokeAction => withZeroResult (invokeAction (cm_ID c) (cm_ActionKey c) s)
      | SubmitReply => withZeroResult (submitReply (cm_ID c) (cm_ReplyText c) s)
      | PresentationRenew =>
          match renew (cm_Generation c) (cm_Presentations c) now s with
          | (s, Some e) => (s, zeroResult, Some e)
          | (s, None) => (s, mkResult 0 false (lifetimes s now), None)
          end
      | PresenterLost => (presenterLost (cm_Generation c) (cm_NextGeneration c) now s, zeroResult, None)
      | DismissAll => withZeroResult (closeAll (s_order s) CloseDismissed s None)
      | HistoryClear => withZeroResult (clearHistory s)
      | HistoryRemove => withZeroResult (removeHistory (cm_IDs c) s)
      | HistoryMarkSeen => withZeroResult (markHistorySeen (cm_IDs c) s)
      | PresenterResync =>
          let '(snap, s) := snapshot s in
          let '(s, ok) := publish (mkEvent (s_Sequence snap) None None None (Some snap) (cm_Generation c)) s in
          (s, zeroResult, failIf (negb ok) (ErrNew "state: presenter resync snapshot was not published"))
      | CommandKindOther _ => (s, zeroResult, Some (ErrNew "state: unknown command"))
      end
  end.

(** [Owner.Do] of a command the owner receives and answers: one round of the
    loop. *)
Definition Do (c : Command) (s : ownerState) : ownerState * (error + Result) :=
  let '(s, result, err) := do_ c s in
  (resetTimer s, match err with Some e => inl e | None => inr result end).

(** The state [run] starts its loop with. *)
Definition start (sink : option (list Event)) (store : option Store) : ownerState :=
  let s := mkOwnerState 0 sink store ∅ ∅ [] 1 0 0 0 false 0 None 0 in
  let s :=
    match store with
    | None => s
    | Some st =>
        let '(now, s) := clockNow s in
        let s := set_nextHistorySweep (AddTime now HistorySweep) s in
        set_nextID (fold_left (fun next id => Z.max next (wrap32 (id + 1))) (IDs st) (s_nextID s)) s
    end in
  resetTimer s.

(** What the loop does in one round. *)
Inductive label :=
  | LDo (c : Command) (r : Result) (err : option error)
  | LSnapshot (snap : Snapshot)
  | LTimer.

Inductive step : ownerState -> label -> ownerState -> Prop :=
  | step_do s c s' r err :
      do_ c s = (s', r, err) -> step s (LDo c r err) (resetTimer s')
  | step_snapshot s snap s' :
      snapshot s = (snap, s') -> step s (LSnapshot snap) s'
  | step_timer s d :
      s_timer s = Some d -> step s LTimer (resetTimer (handleTimer s)).

End Owner.
