(* ===== verification/OwnerInv.v ===== *)
(** * internal/state: the invariant of the owner and the shape of a step

    [wf] is the invariant of [ownerState].  [sim s s' evs] says what a piece of
    the owner does: it hands the sink exactly [evs], numbers their deltas from
    the sequence it started with, every event is one the protocol accepts, and
    applying the deltas to the presenter's view of [s] gives the view of [s'].
    [sim] composes, so each operation is a chain of small simulations. *)
From stdpp Require Import gmap strings list fin_maps.
From Stdlib Require Import ZArith Lia Strings.Byte.
From S2P Require Import Prelude GoLib Protocol Notify History Owner.
Local Open Scope string_scope.
Local Open Scope list_scope.
Local Open Scope Z_scope.

(** ** The invariant *)

(** A record's clock against a reading [now]: a running record is due at most
    its duration from now, a paused one has at most its duration left. *)
Definition paused (r : record) : bool :=
  match r_state r with PresentationQueued | PresentationHovered => true | _ => false end.

Record timed (now : Time) (r : record) : Prop := {
  tm_duration : 0 <= r_duration r <= 2147483647 * Millisecond;
  tm_running : r_hasDeadline r = (0 <? r_duration r) && negb (paused r);
  tm_deadline : r_hasDeadline r = true -> 0 < r_deadline r <= now + r_duration r;
  tm_remaining : r_hasDeadline r = false -> 0 <= r_remaining r <= r_duration r }.

Record record_ok (now : Time) (id : Z) (r : record) : Prop := {
  ro_id : n_ID (r_notification r) = id;
  ro_range : 1 <= id < 4294967296;
  ro_valid : Notification_Validate (r_notification r) = None;
  ro_state : PresentationState_valid (r_state r) = true;
  ro_timed : timed now r;
  ro_meta : match r_historyImage r with Some p => metaOK (pi_meta p) | None => True end }.

Record wf `{Clock} (s : ownerState) : Prop := {
  wf_nodup : NoDup (s_order s);
  wf_order : forall id, id ∈ s_order s <-> is_Some (s_records s !! id);
  wf_records : forall id r, s_records s !! id = Some r -> record_ok (Now (s_ticks s)) id r;
  wf_size : Z.of_nat (size (s_records s)) <= MaxActiveNotifications;
  wf_nextID : 1 <= s_nextID s < 4294967296;
  wf_sequence : is_u64 (s_sequence s);
  wf_history : match s_history s with
               | Some st => store_wf st /\ forall id, id ∈ IDs st -> s_records s !! id = None
               | None => True
               end;
  wf_lease : 0 <= s_leaseDeadline s;
  wf_suppressed : s_leaseDeadline s = 0 ->
    forall id r, s_records s !! id = Some r -> r_state r = PresentationSuppressed }.

(** Producer keys and records name each other. *)
Record producers_ok (s : ownerState) : Prop := {
  po_key : forall k id, s_producerIDs s !! k = Some id ->
    k <> "" /\ exists r, s_records s !! id = Some r /\ r_producerKey r = k;
  po_record : forall id r, s_records s !! id = Some r -> r_producerKey r <> "" ->
    s_producerIDs s !! r_producerKey r = Some id }.

(** ** The presenter's view *)

(** What a presenter knows after a snapshot: the active notifications in display
    order and the history, oldest first. *)
Record View := mkView { v_active : list Notification; v_history : list HistoryEntry }.

Definition historyOf (s : ownerState) : list HistoryEntry :=
  match s_history s with Some st => Entries st | None => [] end.

Definition view (s : ownerState) : View :=
  mkView (map r_notification (orderedRecords s)) (historyOf s).

(** The meaning of a delta to a presenter. *)
Definition applyDelta (d : Delta) (v : View) : View :=
  match d_Kind d with
  | DeltaAdded =>
      match d_Notification d with Some n => mkView (v_active v ++ [n]) (v_history v) | None => v end
  | DeltaReplaced =>
      match d_Notification d with
      | Some n => mkView (map (fun m => if n_ID m =? n_ID n then n else m) (v_active v)) (v_history v)
      | None => v
      end
  | DeltaClosed => mkView (List.filter (fun m => negb (n_ID m =? d_ID d)) (v_active v)) (v_history v)
  | DeltaHistoryAdded =>
      match d_History d with Some h => mkView (v_active v) (v_history v ++ [h]) | None => v end
  | DeltaHistoryRemoved =>
      mkView (v_active v) (List.filter (fun h => negb (h_ID h =? d_ID d)) (v_history v))
  | DeltaHistorySeen =>
      mkView (v_active v)
        (map (fun h => if bool_decide (h_ID h ∈ d_IDs d) then withSeen h else h) (v_history v))
  | DeltaHistoryCleared => mkView (v_active v) []
  | DeltaKindOther _ => v
  end.

Definition applyEvent (v : View) (e : Event) : View :=
  match ev_Delta e with Some d => applyDelta d v | None => v end.

(** ** Simulations *)

(** The deltas among the events carry consecutive sequence numbers. *)
Fixpoint numbered (seq : Z) (evs : list Event) (seq' : Z) : Prop :=
  match evs with
  | [] => seq' = seq
  | e :: evs =>
      match ev_Delta e with
      | Some _ => ev_Sequence e = wrap64 (seq + 1) /\ numbered (wrap64 (seq + 1)) evs seq'
      | None => numbered seq evs seq'
      end
  end.

Definition event_ok (e : Event) : Prop :=
  match ev_Delta e with Some d => Delta_Validate d = None | None => True end /\
  match ev_Snapshot e with Some sn => snapshot_ok sn /\ s_Sequence sn = ev_Sequence e | None => True end.

(** What a presenter takes from a snapshot. *)
Definition snapshotView (sn : Snapshot) : View := mkView (s_Active sn) (s_History sn).

Definition sequenceAfter (seq : Z) (e : Event) : Z := match ev_Delta e with Some _ => wrap64 (seq + 1) | None => seq end.

(** A snapshot among the events says what the view is where it stands. *)
Fixpoint announced (seq : Z) (v : View) (evs : list Event) : Prop :=
  match evs with
  | [] => True
  | e :: evs =>
      match ev_Snapshot e with Some sn => s_Sequence sn = seq /\ snapshotView sn = v /\ ev_Delta e = None | None => True end /\
      announced (sequenceAfter seq e) (applyEvent v e) evs
  end.

(** What is said of a notification or an entry is said of one the presenter
    holds, and what is new is new to it. *)
Definition activeIDs (v : View) : list Z := map n_ID (v_active v).
Definition historyIDs (v : View) : list Z := map h_ID (v_history v).

Definition deltaFits (v : View) (d : Delta) : Prop :=
  match d_Kind d with
  | DeltaAdded => match d_Notification d with Some n => n_ID n ∉ activeIDs v | None => False end
  | DeltaReplaced => match d_Notification d with Some n => n_ID n ∈ activeIDs v | None => False end
  | DeltaClosed => d_ID d ∈ activeIDs v
  | DeltaHistoryAdded => match d_History d with Some h => h_ID h ∉ historyIDs v | None => False end
  | DeltaHistoryRemoved => d_ID d ∈ historyIDs v
  | DeltaHistorySeen => d_IDs d ⊆ historyIDs v
  | DeltaHistoryCleared => historyIDs v <> []
  | DeltaKindOther _ => False
  end.

Definition eventFits (v : View) (e : Event) : Prop :=
  match ev_Delta e with Some d => deltaFits v d | None => True end /\
  match ev_Action e with Some a => ae_ID a ∈ activeIDs v | None => True end /\
  match ev_Reply e with Some r => rv_ID r ∈ activeIDs v | None => True end.

Fixpoint fits (v : View) (evs : list Event) : Prop :=
  match evs with [] => True | e :: evs => eventFits v e /\ fits (applyEvent v e) evs end.

Fixpoint deltasFit (v : View) (ds : list Delta) : Prop :=
  match ds with [] => True | d :: ds => deltaFits v d /\ deltasFit (applyDelta d v) ds end.

Record sim (s s' : ownerState) (evs : list Event) : Prop := {
  sim_sink : s_sink s' = (fun log => log ++ evs) <$> s_sink s;
  sim_numbered : numbered (s_sequence s) evs (s_sequence s');
  sim_ok : Forall event_ok evs;
  sim_view : view s' = fold_left applyEvent evs (view s);
  sim_announced : announced (s_sequence s) (view s) evs;
  sim_fits : fits (view s) evs }.

Lemma numbered_app seq evs seq1 evs' seq2 :
  numbered seq evs seq1 -> numbered seq1 evs' seq2 -> numbered seq (evs ++ evs') seq2.
Proof.
  revert seq. induction evs as [|e evs IH]; intros seq; cbn; [by intros ->|].
  destruct (ev_Delta e); naive_solver.
Qed.

Lemma announced_app seq v evs seq1 evs' :
  announced seq v evs -> numbered seq evs seq1 -> announced seq1 (fold_left applyEvent evs v) evs' -> announced seq v (evs ++ evs').
Proof.
  revert seq v. induction evs as [|e evs IH]; intros seq v; cbn; [by intros _ ->|].
  unfold sequenceAfter. destruct (ev_Delta e); naive_solver.
Qed.

Lemma fits_app v evs evs' : fits v (evs ++ evs') <-> fits v evs /\ fits (fold_left applyEvent evs v) evs'.
Proof. revert v. induction evs as [|e evs IH]; intros v; cbn; [tauto|]. rewrite IH. tauto. Qed.

Lemma deltasFit_app v ds ds' : deltasFit v (ds ++ ds') <-> deltasFit v ds /\ deltasFit (fold_left (fun v d => applyDelta d v) ds v) ds'.
Proof. revert v. induction ds as [|d ds IH]; intros v; cbn; [tauto|]. rewrite IH. tauto. Qed.

Lemma sim_trans s1 s2 s3 evs evs' : sim s1 s2 evs -> sim s2 s3 evs' -> sim s1 s3 (evs ++ evs').
Proof.
  intros [Hs1 Hn1 Ho1 Hv1 Ha1 Hf1] [Hs2 Hn2 Ho2 Hv2 Ha2 Hf2]. split.
  - rewrite Hs2, Hs1. destruct (s_sink s1); cbn; [|done]. by rewrite app_assoc.
  - by eapply numbered_app.
  - by apply Forall_app.
  - by rewrite Hv2, Hv1, fold_left_app.
  - eapply announced_app; [done|done|by rewrite <-Hv1].
  - apply fits_app. by rewrite <-Hv1.
Qed.

Lemma sim_quiet s s' :
  s_sink s' = s_sink s -> s_sequence s' = s_sequence s -> view s' = view s -> sim s s' [].
Proof.
  intros Hs Hq Hv. split; try done. rewrite Hs. destruct (s_sink s); cbn; [|done]. by rewrite app_nil_r.
Qed.

Lemma sim_refl s : sim s s [].
Proof. by apply sim_quiet. Qed.

(** ** Single updates *)

Lemma publish_eq `{Sink} e s : (publish e s).1 = set_sink ((fun log => log ++ [e]) <$> s_sink s) s.
Proof. unfold publish. destruct s as [? [log|]]; reflexivity. Qed.

Definition deltaEvent (seq : Z) (d : Delta) : Event := mkEvent seq (Some d) None None None 0.

Lemma publishDelta_eq `{Sink} d s :
  publishDelta d s =
  set_sink ((fun log => log ++ [deltaEvent (wrap64 (s_sequence s + 1)) d]) <$> s_sink s)
    (set_sequence (wrap64 (s_sequence s + 1)) s).
Proof. unfold publishDelta. rewrite publish_eq. by destruct s. Qed.

(** A run of deltas. *)
Definition publishDeltas `{Sink} (ds : list Delta) (s : ownerState) : ownerState :=
  fold_left (fun s d => publishDelta d s) ds s.

Fixpoint deltaEvents (seq : Z) (ds : list Delta) : list Event :=
  match ds with
  | [] => []
  | d :: ds => deltaEvent (wrap64 (seq + 1)) d :: deltaEvents (wrap64 (seq + 1)) ds
  end.

Fixpoint seqAfter (seq : Z) (ds : list Delta) : Z :=
  match ds with [] => seq | _ :: ds => seqAfter (wrap64 (seq + 1)) ds end.

Lemma publishDeltas_eq `{Sink} ds s :
  publishDeltas ds s =
  set_sink ((fun log => log ++ deltaEvents (s_sequence s) ds) <$> s_sink s)
    (set_sequence (seqAfter (s_sequence s) ds) s).
Proof.
  unfold publishDeltas. revert s. induction ds as [|d ds IH]; intros s; cbn.
  - destruct s as [? [log|]]; cbn; [|done]. by rewrite app_nil_r.
  - rewrite IH, publishDelta_eq. destruct s as [? [log|]]; cbn; [|done]. by rewrite <-app_assoc.
Qed.

Lemma publishRemoved_eq `{Sink} removed s :
  publishRemoved removed s = publishDeltas (map historyRemovedDelta removed) s.
Proof.
  unfold publishRemoved, publishDeltas. revert s. induction removed as [|id l IH]; intros s; cbn; [done|]. apply IH.
Qed.

Lemma publishDelta_deltas `{Sink} d s : publishDelta d s = publishDeltas [d] s.
Proof. done. Qed.

Lemma publishDeltas_app `{Sink} ds ds' s : publishDeltas ds' (publishDeltas ds s) = publishDeltas (ds ++ ds') s.
Proof. unfold publishDeltas. by rewrite fold_left_app. Qed.

Lemma seqAfter_range seq ds : is_u64 seq -> is_u64 (seqAfter seq ds).
Proof. revert seq. induction ds as [|d ds IH]; intros seq Hs; cbn; [done|]. apply IH, wrap64_range. Qed.

(** A change of the state that a run of deltas announces. *)
Lemma sim_deltas `{Sink} s s1 ds :
  s_sink s1 = s_sink s -> s_sequence s1 = s_sequence s -> Forall (fun d => Delta_Validate d = None) ds ->
  view s1 = fold_left (fun v d => applyDelta d v) ds (view s) -> deltasFit (view s) ds ->
  sim s (publishDeltas ds s1) (deltaEvents (s_sequence s) ds).
Proof.
  intros Hsink Hseq Hd Hv Hfit. rewrite publishDeltas_eq, Hsink, Hseq. split.
  - by destruct s1.
  - destruct s1; cbn. clear. generalize (s_sequence s). induction ds; intros; cbn; [done|]. by split.
  - clear -Hd. generalize (s_sequence s). induction Hd; intros; cbn; constructor; [by split|done].
  - transitivity (view s1); [by destruct s1|]. rewrite Hv. clear. generalize (s_sequence s), (view s).
    induction ds as [|d ds IH]; intros z v; cbn; [done|]. by rewrite <-IH.
  - clear. generalize (s_sequence s), (view s). induction ds as [|d ds IH]; intros z v; cbn; [done|]. split; [done|apply IH].
  - revert Hfit. clear. generalize (s_sequence s), (view s). induction ds as [|d ds IH]; intros z v; cbn; [done|]. intros [Hd Hds].
    split; [by split|]. by apply IH.
Qed.

(** ** Frames *)

(** The fields that commands about notifications and history leave alone. *)
Definition ctl (s : ownerState) :=
  (s_presenterGeneration s, s_acceptedGeneration s, s_presenterRetired s, s_leaseDeadline s,
   s_timer s, s_nextHistorySweep s).

Section Frames.
Context `{MonotonicClock, Sink}.

Lemma timed_mono now now' r : now <= now' -> timed now r -> timed now' r.
Proof. intros Hle [? ? Hd ?]. split; try done. intros Hh. specialize (Hd Hh). lia. Qed.

Lemma record_ok_mono now now' id r : now <= now' -> record_ok now id r -> record_ok now' id r.
Proof. intros Hle [? ? ? ? ? ?]. split; try done. by eapply timed_mono. Qed.

Lemma wf_frame s s' :
  wf s -> s_order s' = s_order s -> s_records s' = s_records s -> s_nextID s' = s_nextID s ->
  s_history s' = s_history s -> s_leaseDeadline s' = s_leaseDeadline s ->
  (s_ticks s <= s_ticks s')%nat -> is_u64 (s_sequence s') -> wf s'.
Proof.
  intros [Hnd Ho Hr Hsz Hn Hq Hh Hl Hsup] Hord Hrec Hni Hhist Hlease Ht Hq'.
  split; rewrite ?Hord, ?Hrec, ?Hni, ?Hhist, ?Hlease; try done.
  intros id r Hid. eapply record_ok_mono; [|by apply Hr]. by apply Now_mono.
Qed.

Lemma wf_publishDeltas ds s : wf s -> wf (publishDeltas ds s).
Proof.
  intros Hwf. rewrite publishDeltas_eq. apply (wf_frame s); try done; try (by destruct s).
  destruct s; cbn. apply seqAfter_range, Hwf.
Qed.

Lemma wf_publish e s : wf s -> wf (publish e s).1.
Proof. intros Hwf. rewrite publish_eq. apply (wf_frame s); try done; try (by destruct s). destruct s; apply Hwf. Qed.

Lemma wf_tick s : wf s -> wf (clockNow s).2.
Proof.
  intros Hwf. apply (wf_frame s); try done; try (by destruct s); [destruct s; cbn; lia|].
  destruct s; apply Hwf.
Qed.

Lemma publishDeltas_frame ds s :
  let s' := publishDeltas ds s in
  s_records s' = s_records s /\ s_order s' = s_order s /\ s_producerIDs s' = s_producerIDs s /\
  s_nextID s' = s_nextID s /\ s_history s' = s_history s /\ s_ticks s' = s_ticks s /\ ctl s' = ctl s.
Proof. cbn zeta. rewrite publishDeltas_eq. by destruct s. Qed.

Lemma producers_frame s s' :
  producers_ok s -> s_records s' = s_records s -> s_producerIDs s' = s_producerIDs s -> producers_ok s'.
Proof. intros [? ?] Hr Hp. split; rewrite Hr, Hp; done. Qed.

End Frames.

(** ** The active list *)

Definition ids_match (m : gmap Z record) : Prop :=
  forall id r, m !! id = Some r -> n_ID (r_notification r) = id.

Definition activeOf (m : gmap Z record) (order : list Z) : list Notification :=
  map r_notification (omap (fun id => m !! id) order).

Lemma activeOf_cons m id order :
  activeOf m (id :: order) =
  match m !! id with Some r => r_notification r :: activeOf m order | None => activeOf m order end.
Proof. unfold activeOf. cbn. by destruct (m !! id). Qed.

Lemma activeOf_app m l k : activeOf m (l ++ k) = activeOf m l ++ activeOf m k.
Proof. induction l as [|id l IH]; [done|]. rewrite <-app_comm_cons, !activeOf_cons, IH. by destruct (m !! id). Qed.

Lemma activeOf_ext m m' order :
  (forall id, id ∈ order -> r_notification <$> m !! id = r_notification <$> m' !! id) ->
  activeOf m order = activeOf m' order.
Proof.
  induction order as [|id l IH]; intros Hext; [done|]. rewrite !activeOf_cons.
  pose proof (Hext id ltac:(set_solver)) as Hid. rewrite IH by set_solver.
  destruct (m !! id), (m' !! id); cbn in Hid; congruence.
Qed.

Lemma activeOf_delete m id order :
  ids_match m -> NoDup order ->
  activeOf (delete id m) (removeFirst id order) = List.filter (fun n => negb (n_ID n =? id)) (activeOf m order).
Proof.
  intros Hm Hnd. rewrite removeFirst_NoDup_eq by done. clear Hnd.
  induction order as [|i l IH]; [done|]. rewrite filter_cons, activeOf_cons. case_decide as Hi.
  - rewrite activeOf_cons, lookup_delete_ne, IH by done. destruct (m !! i) as [r|] eqn:Hr; [|done].
    cbn. apply Hm in Hr. by rewrite (proj2 (Z.eqb_neq _ _)) by congruence.
  - rewrite IH. destruct (m !! i) as [r|] eqn:Hr; [|done]. cbn. apply Hm in Hr.
    rewrite Hr, (proj2 (Z.eqb_eq _ _)) by (by destruct (decide (i = id)); [|exfalso]). done.
Qed.

Lemma activeOf_insert m id r order :
  ids_match m -> n_ID (r_notification r) = id -> is_Some (m !! id) ->
  activeOf (<[id := r]> m) order =
  map (fun n => if n_ID n =? id then r_notification r else n) (activeOf m order).
Proof.
  intros Hm Hr [r0 Hr0]. induction order as [|i l IH]; [done|]. rewrite !activeOf_cons, IH.
  destruct (decide (i = id)) as [->|Hne].
  - rewrite lookup_insert_eq, Hr0. cbn. by rewrite (Hm _ _ Hr0), Z.eqb_refl.
  - rewrite lookup_insert_ne by done. destruct (m !! i) as [r1|] eqn:Hr1; [|done]. cbn.
    by rewrite (Hm _ _ Hr1), (proj2 (Z.eqb_neq _ _)).
Qed.

Lemma activeOf_append m id r order :
  id ∉ order -> activeOf (<[id := r]> m) (order ++ [id]) = activeOf m order ++ [r_notification r].
Proof.
  intros Hid. rewrite activeOf_app. f_equal.
  - apply activeOf_ext. intros i Hi. by rewrite lookup_insert_ne by (intros ->; done).
  - unfold activeOf. cbn. by rewrite lookup_insert_eq.
Qed.

Lemma activeOf_ids m order :
  ids_match m -> (forall id, id ∈ order -> is_Some (m !! id)) -> n_ID <$> activeOf m order = order.
Proof.
  intros Hm. induction order as [|id l IH]; intros Ho; [done|]. rewrite activeOf_cons.
  destruct (Ho id ltac:(set_solver)) as [r Hr]. rewrite Hr. cbn. rewrite (Hm _ _ Hr). f_equal.
  apply IH. set_solver.
Qed.

Lemma wf_ids_match `{Clock} s : wf s -> ids_match (s_records s).
Proof. intros Hwf id r Hr. by apply (wf_records s Hwf) in Hr as []. Qed.

(** The active ids of the view are the order. *)
Lemma activeIDs_order `{Clock} s : wf s -> activeIDs (view s) = s_order s.
Proof.
  intros Hwf. unfold activeIDs. change (v_active (view s)) with (activeOf (s_records s) (s_order s)).
  apply activeOf_ids; [by apply wf_ids_match|]. intros id. apply (wf_order s Hwf).
Qed.

Lemma activeIDs_record `{Clock} s id : wf s -> id ∈ activeIDs (view s) <-> is_Some (s_records s !! id).
Proof. intros Hwf. rewrite activeIDs_order by done. apply (wf_order s Hwf). Qed.

(** The number of records is the length of the order. *)
Lemma wf_length `{Clock} s : wf s -> size (s_records s) = length (s_order s).
Proof.
  intros Hwf. rewrite <-size_dom.
  assert (dom (s_records s) = list_to_set (s_order s)) as ->.
  { apply set_eq. intros id. by rewrite elem_of_dom, elem_of_list_to_set, (wf_order s Hwf). }
  apply size_list_to_set, Hwf.
Qed.
