(* ===== verification/OwnerOps.v ===== *)
(** * internal/state: every operation keeps the invariant and announces itself

    For each operation of [Owner]: from a well-formed state it is a simulation
    ([sim]) into a well-formed state, and what it does to the records. *)
From stdpp Require Import gmap strings list fin_maps.
From Stdlib Require Import ZArith Lia Strings.Byte.
From S2P Require Import Prelude GoLib Protocol Notify History Owner OwnerInv.
Local Open Scope string_scope.
Local Open Scope list_scope.
Local Open Scope Z_scope.

(** The parts of the state an operation on the history does not touch. *)
Record keeps (s s' : ownerState) : Prop := {
  kp_records : s_records s' = s_records s;
  kp_order : s_order s' = s_order s;
  kp_producers : s_producerIDs s' = s_producerIDs s;
  kp_nextID : s_nextID s' = s_nextID s;
  kp_ctl : ctl s' = ctl s;
  kp_ticks : (s_ticks s <= s_ticks s')%nat }.

Lemma keeps_publishDeltas `{Sink} ds s s1 : keeps s s1 -> keeps s (publishDeltas ds s1).
Proof. intros [? ? ? ? ? ?]. rewrite publishDeltas_eq. by destruct s1. Qed.

(** ** The history side of the view *)

Lemma applyRemoved removed v :
  fold_left (fun v d => applyDelta d v) (map historyRemovedDelta removed) v =
  mkView (v_active v) (List.filter (fun h => negb (bool_decide (h_ID h ∈ removed))) (v_history v)).
Proof.
  revert v. induction removed as [|id l IH]; intros [a h]; cbn.
  - f_equal. induction h; cbn; [done|]. by rewrite <-IHh.
  - rewrite IH. cbn. f_equal. induction h as [|e h IHh]; cbn; [done|].
    destruct (Z.eqb_spec (h_ID e) id) as [Heq|Hne]; cbn.
    + rewrite bool_decide_eq_true_2 by set_solver. cbn. apply IHh.
    + rewrite IHh. destruct (decide (h_ID e ∈ l)).
      * rewrite !bool_decide_eq_true_2 by set_solver. done.
      * rewrite !bool_decide_eq_false_2 by set_solver. done.
Qed.

Lemma Entries_without removed l :
  map re_entry (without removed l) =
  List.filter (fun h => negb (bool_decide (h_ID h ∈ removed))) (map re_entry l).
Proof.
  unfold without. induction l as [|e l IH]; cbn; [done|]. unfold entryID at 1.
  destruct (bool_decide _); cbn; by rewrite IH.
Qed.

Lemma removed_deltas_valid st removed :
  store_wf st -> (forall id, id ∈ removed -> id ∈ IDs st) ->
  Forall (fun d => Delta_Validate d = None) (map historyRemovedDelta removed).
Proof.
  intros Hst Hsub. apply List.Forall_map, Forall_forall. intros id Hid. cbn.
  apply failIf_None, Z.eqb_neq. eapply store_ids_nonzero; eauto.
Qed.

Lemma view_history s st :
  view (set_history (Some st) s) = mkView (v_active (view s)) (Entries st).
Proof. by destruct s. Qed.

Lemma historyOf_Some s st : s_history s = Some st -> v_history (view s) = Entries st.
Proof. cbn. unfold historyOf. by intros ->. Qed.

(** The ids of the view are the owner's. *)
Lemma historyIDs_store s st : s_history s = Some st -> historyIDs (view s) = IDs st.
Proof. intros Hs. unfold historyIDs. rewrite (historyOf_Some s st Hs). unfold Entries, IDs, entryID. by rewrite map_map. Qed.

Lemma removed_fit removed v :
  NoDup removed -> (forall id, id ∈ removed -> id ∈ historyIDs v) -> deltasFit v (map historyRemovedDelta removed).
Proof.
  intros Hn. revert v. induction Hn as [|id removed Hid Hn IH]; intros v Hsub; cbn; [done|].
  split; [apply Hsub; left|]. apply IH. intros i Hi. unfold historyIDs. cbn.
  specialize (Hsub i (list_elem_of_further _ _ _ Hi)). apply elem_of_map in Hsub as (h&->&Hh). apply elem_of_map. exists h. split; [done|].
  apply elem_of_list_filter_bool. split; [done|]. apply negb_true_iff, Z.eqb_neq. congruence.
Qed.

Section Ops.
Context `{MonotonicClock, Sink, PngLaws, Sha256Laws}.

Lemma wf_set_history s st st' :
  wf s -> s_history s = Some st -> store_wf st' ->
  (forall id, id ∈ IDs st' -> id ∈ IDs st \/ s_records s !! id = None) -> wf (set_history (Some st') s).
Proof.
  intros [Hnd Ho Hr Hsz Hn Hq Hh Hl Hsup] Hs Hwf' Hids. rewrite Hs in Hh. destruct Hh as [Hst Hd].
  destruct s; cbn in *. split; cbn; try done. split; [done|].
  intros id Hid. destruct (Hids id Hid) as [|]; auto.
Qed.

(** A store operation that removes ids, and the deltas that say so. *)
Lemma shrink_sim s st st' removed :
  wf s -> s_history s = Some st -> shrunk st st' removed ->
  let s' := publishRemoved removed (set_history (Some st') s) in
  (exists evs, sim s s' evs) /\ wf s' /\ keeps s s'.
Proof.
  intros Hwf Hs Hshr. pose proof (wf_history s Hwf) as Hh. rewrite Hs in Hh. destruct Hh as [Hst Hd].
  pose proof (shrunk_entries _ _ _ Hshr) as Hent. cbn zeta. rewrite publishRemoved_eq. split_and!.
  - eexists. apply sim_deltas; try (by destruct s).
    + eapply removed_deltas_valid; [exact Hst|apply Hshr].
    + rewrite applyRemoved, view_history, (historyOf_Some s st Hs). unfold Entries.
      by rewrite Hent, Entries_without.
    + destruct Hshr as (Hsub&Hn&_). by apply removed_fit; rewrite ?(historyIDs_store s st Hs).
  - apply wf_publishDeltas. eapply wf_set_history; eauto; [by eapply shrunk_wf|].
    intros id Hid. left. unfold IDs in *. rewrite Hent in Hid.
    apply elem_of_map in Hid as (e&->&[He _]%elem_of_list_filter_bool). apply elem_of_map. eauto.
  - apply keeps_publishDeltas. by destruct s.
Qed.

(** ** close *)

Lemma close_outcome r st now id st' outcome :
  store_wf st -> n_ID (r_notification r) = id -> 1 <= id < 4294967296 ->
  match r_historyImage r with Some p => metaOK (pi_meta p) | None => True end ->
  match r_historyImage r with
  | Some prepared => AddPrepared st (historyEntry (r_notification r) now
      (match r_historyImage r with Some _ => None | None => n_Image (r_notification r) end)) prepared now
  | None => Store_Add st (historyEntry (r_notification r) now
      (match r_historyImage r with Some _ => None | None => n_Image (r_notification r) end)) now
  end = (st', outcome) ->
  (st' = st /\ ((exists e, outcome = inl e) \/ outcome = inr (zeroEntry, []))) \/
  (exists image removed,
     let entry := withImage (historyEntry (r_notification r) now None) image in
     outcome = inr (entry, removed) /\ HistoryEntry_Validate entry = None /\ added_to st entry now st' removed).
Proof.
  intros Hst Hid Hr Hm. destruct (r_historyImage r) as [p|].
  - intros [[-> He]|[(->&->&_)|(removed&->&?&?)]]%AddPrepared_cases; try done.
    + left. eauto.
    + left. eauto.
    + right. exists (pi_image p), removed. done.
    + cbn. rewrite Hid. unfold is_u32. lia.
  - intros [[-> He]|[(->&->&_)|(removed&image&->&?&?)]]%Store_Add_cases; try done.
    + left. eauto.
    + left. eauto.
    + right. exists image, removed. done.
    + cbn. rewrite Hid. unfold is_u32. lia.
Qed.

Lemma added_sim s st st' entry now removed :
  wf s -> s_history s = Some st -> added_to st entry now st' removed ->
  HistoryEntry_Validate entry = None -> s_records s !! h_ID entry = None ->
  let s' := publishDelta (historyAddedDelta entry) (publishRemoved removed (set_history (Some st') s)) in
  (exists evs, sim s s' evs) /\ wf s' /\ keeps s s'.
Proof.
  intros Hwf Hs [(added&Hent&Hadd) _ Hsub Hnd Hrep _ Hwf' _] Hv Hnone.
  pose proof (wf_history s Hwf) as Hh. rewrite Hs in Hh. destruct Hh as [Hst Hd].
  cbn zeta. rewrite publishRemoved_eq, publishDelta_deltas, publishDeltas_app. split_and!.
  - eexists. apply sim_deltas; try (by destruct s).
    + apply Forall_app. split; [by eapply removed_deltas_valid|]. by repeat constructor.
    + rewrite fold_left_app, applyRemoved, view_history, (historyOf_Some s st Hs). cbn. unfold Entries.
      rewrite Hent, map_app, Entries_without. cbn. by rewrite Hadd.
    + pose proof (historyIDs_store s st Hs) as Hids. apply deltasFit_app. split; [by apply removed_fit; rewrite ?Hids|].
      rewrite applyRemoved. split; [|done]. cbn. unfold historyIDs. cbn. intros (h&Hh&[Hin Hk]%elem_of_list_filter_bool)%elem_of_map.
      apply negb_true_iff, bool_decide_eq_false in Hk. apply Hk. rewrite <-Hh. apply Hrep. rewrite <-Hids, Hh. apply elem_of_map. eauto.
  - apply wf_publishDeltas. eapply wf_set_history; eauto.
    intros id. unfold IDs. rewrite Hent, map_app, elem_of_app. cbn. unfold entryID at 2. rewrite Hadd.
    intros [(e&->&[He _]%elem_of_list_filter_bool)%elem_of_map| ->%list_elem_of_singleton]; [|by right].
    left. apply elem_of_map. eauto.
  - apply keeps_publishDeltas. by destruct s.
Qed.

Lemma recordHistory_spec r st s id :
  wf s -> s_history s = Some st -> n_ID (r_notification r) = id -> 1 <= id < 4294967296 ->
  match r_historyImage r with Some p => metaOK (pi_meta p) | None => True end ->
  s_records s !! id = None ->
  (exists evs, sim s (recordHistory r st s) evs) /\ wf (recordHistory r st s) /\ keeps s (recordHistory r st s).
Proof.
  intros Hwf Hs Hid Hrange Hm Hnone. unfold recordHistory.
  pose proof (wf_tick s Hwf) as Hwf1. unfold clockNow in *. cbn [fst snd] in *.
  set (s1 := set_ticks (S (s_ticks s)) s) in *.
  assert (s_history s1 = Some st) as Hs1 by (by destruct s).
  assert (keeps s s1) as Hk1 by (destruct s; split; cbn; try done; lia).
  assert (sim s s1 []) as Hsim1 by (apply sim_quiet; by destruct s).
  pose proof (wf_history s Hwf) as Hh. rewrite Hs in Hh. destruct Hh as [Hst Hd].
  destruct (match r_historyImage r with Some _ => _ | None => _ end) as [st' outcome] eqn:Ho.
  apply (close_outcome r st _ id) in Ho; try done.
  destruct Ho as [[-> Hout]|(image&removed&->&Hv&Hadd)].
  - assert (set_history (Some st) s1 = s1) as -> by (unfold s1; destruct s; cbn in *; congruence).
    destruct Hout as [[e ->]| ->]; cbn; split_and!; eauto.
  - cbn [h_ID withImage historyEntry]. rewrite Hid, (proj2 (Z.eqb_neq id 0)) by lia.
    destruct (added_sim s1 st st' _ _ removed Hwf1 Hs1 Hadd Hv) as ((evs&Hsim)&Hwf2&Hk2).
    { cbn. rewrite Hid. by destruct s. }
    split_and!; [|done|].
    + exists ([] ++ evs). by eapply sim_trans.
    + destruct Hk1, Hk2. split; try congruence. lia.
Qed.

(** Taking a record out of the table and of the order. *)
Lemma wf_remove id s :
  wf s -> wf (set_order (removeFirst id (s_order s)) (set_records (delete id (s_records s)) s)).
Proof.
  intros [Hnd Ho Hr Hsz Hn Hq Hh Hl Hsup]. destruct s; cbn in *. split; cbn; try done.
  - by apply NoDup_removeFirst.
  - intros i. rewrite elem_of_removeFirst, Ho by done. rewrite lookup_delete.
    case_decide; [|naive_solver]. split; [naive_solver|]. by intros [].
  - intros i r [_ Hi]%lookup_delete_Some. by apply Hr.
  - rewrite map_size_delete. etrans; [|exact Hsz]. apply Nat2Z.inj_le. destruct (s_records !! id); [apply Nat.le_pred_l|done].
  - destruct s_history as [st|]; [|done]. destruct Hh as [? Hd]. split; [done|].
    intros i Hi. rewrite lookup_delete. case_decide; [done|]. by apply Hd.
  - intros Hz i r [_ Hi]%lookup_delete_Some. by eapply Hsup.
Qed.

Lemma view_remove id s :
  wf s -> view (set_order (removeFirst id (s_order s)) (set_records (delete id (s_records s)) s)) =
  mkView (List.filter (fun n => negb (n_ID n =? id)) (v_active (view s))) (v_history (view s)).
Proof.
  intros Hwf. pose proof (activeOf_delete (s_records s) id (s_order s) (wf_ids_match s Hwf) (wf_nodup s Hwf)).
  unfold activeOf in *. destruct s. unfold view, orderedRecords, historyOf. cbn in *. by f_equal.
Qed.

(** What a close leaves, whatever the history did with the notification. *)
Record closed_to (id reason : Z) (s s' : ownerState) : Prop := {
  ct_sim : exists evs, sim s s' (deltaEvent (wrap64 (s_sequence s + 1)) (closedDelta id reason) :: evs);
  ct_wf : wf s';
  ct_records : s_records s' = delete id (s_records s);
  ct_order : s_order s' = removeFirst id (s_order s);
  ct_producers : forall r, s_records s !! id = Some r ->
    s_producerIDs s' = s_producerIDs (dropProducerKey (r_producerKey r) id s);
  ct_nextID : s_nextID s' = s_nextID s;
  ct_ctl : ctl s' = ctl s;
  ct_ticks : (s_ticks s <= s_ticks s')%nat }.

Lemma close_spec id reason s :
  wf s -> CloseReason_valid reason = true -> is_Some (s_records s !! id) ->
  exists s', close id reason s = (s', None) /\ closed_to id reason s s'.
Proof.
  intros Hwf Hreason [r Hr]. unfold close. rewrite Hr.
  pose proof (wf_records s Hwf id r Hr) as [Hid Hrange _ _ _ Hmeta].
  set (s1 := set_order _ _).
  assert (s1 = set_producerIDs (s_producerIDs (dropProducerKey (r_producerKey r) id s))
    (set_order (removeFirst id (s_order s)) (set_records (delete id (s_records s)) s))) as Hs1.
  { unfold s1, dropProducerKey. destruct s; cbn. by destruct (negb _ && _). }
  assert (wf s1) as Hwf1.
  { rewrite Hs1. eapply wf_frame; [by apply (wf_remove id)|..]; try (by destruct s). destruct s; apply Hwf. }
  assert (sim s (publishDelta (closedDelta id reason) s1)
    [deltaEvent (wrap64 (s_sequence s + 1)) (closedDelta id reason)]) as Hsim.
  { rewrite publishDelta_deltas.
    apply (sim_deltas s s1 [closedDelta id reason]); try (rewrite Hs1; by destruct s).
    - repeat constructor. cbn. rewrite Hreason, (proj2 (Z.eqb_neq id 0)) by lia. done.
    - transitivity (view (set_order (removeFirst id (s_order s)) (set_records (delete id (s_records s)) s))).
      + rewrite Hs1. by destruct s.
      + by rewrite view_remove.
    - split; [|done]. apply (activeIDs_record s id Hwf). by eexists. }
  set (s2 := publishDelta (closedDelta id reason) s1) in *.
  assert (wf s2) as Hwf2 by (by apply (wf_publishDeltas [_])).
  assert (s_records s2 = delete id (s_records s) /\ s_order s2 = removeFirst id (s_order s) /\
    s_producerIDs s2 = s_producerIDs (dropProducerKey (r_producerKey r) id s) /\
    s_nextID s2 = s_nextID s /\ ctl s2 = ctl s /\ s_ticks s2 = s_ticks s) as (Er&Eo&Ep&En&Ec&Et).
  { unfold s2. rewrite publishDelta_eq, Hs1. by destruct s. }
  assert (closed_to id reason s s2) as Hdone.
  { split; try done; [by exists []|congruence|lia]. }
  destruct (s_history s2) as [st|] eqn:Hst; [|by exists s2].
  destruct (_ || _); [by exists s2|]. eexists. split; [done|].
  destruct (recordHistory_spec r st s2 id) as ((evs&Hsim2)&Hwf3&[Kr Ko Kp Kn Kc Kt]); try done.
  { by rewrite Er, lookup_delete_eq. }
  split; try congruence; try done; try lia. exists evs.
  by apply (sim_trans _ _ _ _ _ Hsim).
Qed.

Lemma producers_close id reason s s' :
  wf s -> producers_ok s -> is_Some (s_records s !! id) -> closed_to id reason s s' -> producers_ok s'.
Proof.
  intros Hwf [Hk Hrec] [r Hr] [_ _ Er _ Ep _ _ _]. specialize (Ep r Hr).
  assert (s_producerIDs s' = delete (r_producerKey r) (s_producerIDs s)) as Ep'.
  { rewrite Ep. unfold dropProducerKey. destruct (String.eqb_spec (r_producerKey r) "") as [He|Hne]; cbn.
    - symmetry. apply delete_id. destruct (s_producerIDs s !! r_producerKey r) eqn:Hl; [|done].
      apply Hk in Hl as [? _]. done.
    - unfold lookup0. rewrite (Hrec id r Hr Hne). cbn. rewrite Z.eqb_refl. by destruct s. }
  split; rewrite Er, Ep'.
  - intros k i [Hkne Hl]%lookup_delete_Some. apply Hk in Hl as [? (r'&Hr'&Hkey)]. split; [done|].
    exists r'. split; [|done]. rewrite lookup_delete_ne; [done|]. intros ->. congruence.
  - intros i r' [Hi Hr']%lookup_delete_Some Hne. pose proof (Hrec i r' Hr' Hne) as Hl.
    rewrite lookup_delete_ne; [done|]. intros Heq. rewrite <-Heq, (Hrec id r Hr) in Hl; congruence.
Qed.

End Ops.
