(* ===== verification/OwnerAdd.v ===== *)
(** * internal/state: adding, replacing and producers

    [add], [addWithProducerKey], [publishProducer] and [evictCapacityVictim]
    keep the invariant and announce what they do; which record is merged,
    evicted or replaced. *)
From stdpp Require Import gmap strings list fin_maps.
From Stdlib Require Import ZArith Lia Strings.Byte.
From S2P Require Import Prelude GoLib Protocol Notify History Owner OwnerInv OwnerOps.
Local Open Scope string_scope.
Local Open Scope list_scope.
Local Open Scope Z_scope.

#[local] Ltac Zify.zify_post_hook ::= Z.div_mod_to_equations.

(** ** Lifetimes *)

Definition maxDuration : Duration := 2147483647 * Millisecond.

(** The duration in milliseconds, rounded up; it fits 32 bits. *)
Lemma durationMilliseconds_spec d :
  0 <= d <= maxDuration ->
  d <= durationMilliseconds d * Millisecond < d + Millisecond /\ 0 <= durationMilliseconds d <= 2147483647.
Proof.
  unfold durationMilliseconds, maxDuration, Millisecond, wrap32. intros Hd.
  destruct (Z.leb_spec d 0); [lia|]. rewrite Z.mod_small; lia.
Qed.

Lemma durationMilliseconds_mono d d' :
  d <= d' -> 0 <= d' <= maxDuration -> durationMilliseconds d <= durationMilliseconds d'.
Proof.
  intros Hle Hd. destruct (Z.leb_spec d 0).
  - unfold durationMilliseconds at 1. rewrite (proj2 (Z.leb_le d 0)) by done.
    apply durationMilliseconds_spec in Hd. lia.
  - pose proof (durationMilliseconds_spec d ltac:(lia)). pose proof (durationMilliseconds_spec d' Hd).
    unfold Millisecond in *. lia.
Qed.

Lemma lifetime_valid now r :
  timed now r -> n_ID (r_notification r) <> 0 -> Lifetime_Validate (lifetime r now) = None.
Proof.
  intros [Hd Hrun Hdl Hrem] Hid. apply Lifetime_Validate_None. unfold lifetime. cbn. split_and!; [done| |].
  - apply durationMilliseconds_mono; [|done]. destruct (r_hasDeadline r) eqn:Hh; [|by apply Hrem].
    specialize (Hdl eq_refl). apply Z.max_lub; [lia|]. apply SubTime_le; lia.
  - intros [Hh Hpos%Z.ltb_lt]%andb_true_iff.
    destruct (durationMilliseconds_spec (r_duration r) Hd) as [Hms _]. unfold Millisecond in Hms. lia.
Qed.

(** ** New records *)

Definition candidate_typed (c : Candidate) : Prop := is_i32 (cd_ExpireTimeout c).

Lemma candidateDuration_range c :
  candidate_typed c -> -1 <= cd_ExpireTimeout c -> 0 <= candidateDuration c <= maxDuration.
Proof.
  unfold candidate_typed, is_i32, candidateDuration, maxDuration, DefaultTimeout, Second, Millisecond.
  intros Ht Hlo. repeat case_match; lia.
Qed.

Lemma Notification_Validate_id id id' c now :
  id <> 0 -> Notification_Validate (notificationFromCandidate id' c now) = None ->
  Notification_Validate (notificationFromCandidate id c now) = None.
Proof.
  unfold Notification_Validate, notificationFromCandidate. cbn [n_ID n_Urgency n_Timestamp n_AppName n_AppIcon
    n_DesktopEntry n_Summary n_Body n_Category n_ReplyPlaceholder n_Actions n_Image n_Value n_SenderLineage].
  intros Hid. rewrite !(firstErr_None (failIf (_ =? 0) _)), !failIf_None, !Z.eqb_neq. tauto.
Qed.

Lemma validateCandidate_None c now :
  validateCandidate c now = None ->
  -1 <= cd_ExpireTimeout c /\ now <> 0 /\
  forall id, id <> 0 -> Notification_Validate (notificationFromCandidate id c now) = None.
Proof.
  unfold validateCandidate. rewrite firstErr_None, failIf_None, Z.ltb_ge. intros [He Hv]. split_and!.
  - lia.
  - unfold Notification_Validate in Hv. rewrite !firstErr_None, !failIf_None in Hv.
    destruct Hv as (_&_&Hz&_). unfold IsZero in Hz. cbn in Hz. by apply Z.eqb_neq.
  - intros id Hid. by eapply Notification_Validate_id.
Qed.

Lemma timed_startRecord id c prepared key now :
  candidate_typed c -> -1 <= cd_ExpireTimeout c -> 0 < now ->
  timed now (startRecord (newRecord id c prepared key now) now).
Proof.
  intros Ht He Hn. pose proof (candidateDuration_range c Ht He) as Hd.
  unfold startRecord, newRecord. cbn. destruct (Z.ltb_spec 0 (candidateDuration c)) as [Hp|Hp]; cbn.
  - split; cbn; try done; unfold AddTime; lia.
  - split; cbn; try done; lia.
Qed.

Lemma timed_replaceRecord id c prepared key existing now :
  candidate_typed c -> -1 <= cd_ExpireTimeout c -> 0 < now ->
  timed now (replaceRecord (newRecord id c prepared key now) existing now).
Proof.
  intros Ht He Hn. pose proof (candidateDuration_range c Ht He) as Hd.
  unfold replaceRecord, newRecord. cbn. destruct (Z.ltb_spec 0 (candidateDuration c)) as [Hp|Hp]; cbn.
  - destruct (r_state existing) eqn:Hst; cbn; split; cbn; try done; unfold AddTime, paused; cbn; try lia;
      rewrite ?Hst, ?(proj2 (Z.ltb_lt _ _)) by done; done.
  - split; cbn; try done; lia.
Qed.

Section Add.
Context `{MonotonicClock, Sink, PngLaws, Sha256Laws}.

(** ** Putting a record in the table *)

Definition typed_prepared (prepared : option PreparedImage) : Prop :=
  match prepared with Some p => metaOK (pi_meta p) | None => True end.

Lemma record_ok_start s id c prepared key now :
  candidate_typed c -> typed_prepared prepared -> validateCandidate c now = None -> 0 < now ->
  now <= Now (s_ticks s) -> 1 <= id < 4294967296 ->
  record_ok (Now (s_ticks s)) id (startRecord (newRecord id c prepared key now) now).
Proof.
  intros Ht Hp Hv Hpos Hnow Hid. apply validateCandidate_None in Hv as (He&_&Hval).
  pose proof (timed_startRecord id c prepared key now Ht He Hpos) as Htm.
  split; [| | | |by eapply timed_mono|]; unfold startRecord in *; cbn in *;
    destruct (0 <? candidateDuration c); cbn; try done; apply Hval; lia.
Qed.

Lemma record_ok_replace s id c prepared key existing now :
  candidate_typed c -> typed_prepared prepared -> validateCandidate c now = None -> 0 < now ->
  now <= Now (s_ticks s) -> record_ok (Now (s_ticks s)) id existing ->
  record_ok (Now (s_ticks s)) id (replaceRecord (newRecord id c prepared key now) existing now).
Proof.
  intros Ht Hp Hv Hpos Hnow [_ Hid _ Hst _ _]. apply validateCandidate_None in Hv as (He&_&Hval).
  pose proof (timed_replaceRecord id c prepared key existing now Ht He Hpos) as Htm.
  split; [|done| | |by eapply timed_mono|]; unfold replaceRecord in *; cbn in *;
    destruct (_ && _); cbn; try done; apply Hval; lia.
Qed.

Lemma wf_insert_new id r s nextID :
  wf s -> record_ok (Now (s_ticks s)) id r -> r_state r = PresentationSuppressed ->
  id ∉ takenIDs s -> Z.of_nat (size (s_records s)) < MaxActiveNotifications -> 1 <= nextID < 4294967296 ->
  wf (set_order (s_order s ++ [id]) (set_records (<[id := r]> (s_records s)) (set_nextID nextID s))).
Proof.
  intros [Hnd Ho Hr Hsz Hn Hq Hh Hl Hsup] Hok Hst Hfree Hlt Hnext.
  assert (s_records s !! id = None) as Hnone.
  { apply not_elem_of_dom. intros Hin. apply Hfree. unfold takenIDs. set_solver. }
  assert (forall st, s_history s = Some st -> id ∉ IDs st) as Hfreeh.
  { intros st Hs Hin. apply Hfree. unfold takenIDs. rewrite Hs. apply elem_of_union_r.
    by apply elem_of_list_to_set. }
  destruct s; cbn in *. split; cbn; try done.
  - apply NoDup_snoc. split; [done|]. rewrite Ho, Hnone. by intros [].
  - intros i. rewrite elem_of_app, list_elem_of_singleton, Ho, lookup_insert. case_decide; naive_solver.
  - intros i r' [[<- <-]|[_ Hi]]%lookup_insert_Some; [done|]. by apply Hr.
  - rewrite map_size_insert_None by done. lia.
  - destruct s_history as [st|]; [|done]. destruct Hh as [? Hd]. split; [done|].
    intros i Hi. rewrite lookup_insert_ne; [by apply Hd|]. intros ->. by apply (Hfreeh st).
  - intros Hz i r' [[<- <-]|[_ Hi]]%lookup_insert_Some; [done|]. by eapply Hsup.
Qed.

Lemma wf_insert_replace id r existing s :
  wf s -> s_records s !! id = Some existing -> record_ok (Now (s_ticks s)) id r ->
  r_state r = r_state existing -> wf (set_records (<[id := r]> (s_records s)) s).
Proof.
  intros [Hnd Ho Hr Hsz Hn Hq Hh Hl Hsup] Hex Hok Hst. destruct s; cbn in *. split; cbn; try done.
  - intros i. rewrite Ho, lookup_insert. case_decide as Hi; [|done]. subst. rewrite Hex. naive_solver.
  - intros i r' [[<- <-]|[_ Hi]]%lookup_insert_Some; [done|]. by apply Hr.
  - rewrite (map_size_insert_Some (M := gmap Z)) by (by eexists). done.
  - destruct s_history as [st|]; [|done]. destruct Hh as [? Hd]. split; [done|].
    intros i Hi. rewrite lookup_insert_ne; [by apply Hd|]. intros ->. rewrite Hd in Hex; done.
  - intros Hz i r' [[<- <-]|[_ Hi]]%lookup_insert_Some; [rewrite Hst|]; by eapply Hsup.
Qed.

(** ** Making room *)

Lemma choose_spec p m order :
  (forall id, id ∈ order -> is_Some (m !! id) /\ id <> 0) ->
  (choose p m order = 0 /\ forall id r, id ∈ order -> m !! id = Some r -> p r = false) \/
  (exists pre post r, order = pre ++ choose p m order :: post /\ m !! choose p m order = Some r /\ p r = true /\
     forall id r, id ∈ pre -> m !! id = Some r -> p r = false).
Proof.
  induction order as [|id order IH]; intros Hin; cbn; [left; split; [done|by intros ? ? ?%elem_of_nil]|].
  destruct (Hin id ltac:(set_solver)) as [[r Hr] Hnz]. rewrite Hr. destruct (p r) eqn:Hp.
  { right. exists [], order, r. split_and!; try done. by intros ? ? ?%elem_of_nil. }
  destruct IH as [[-> Hnone]|(pre&post&r'&Heq&Hr'&Hp'&Hpre)]; [set_solver|left|right].
  - split; [done|]. intros i r' [->|Hi]%elem_of_cons Hr'; [congruence|]. by eapply Hnone.
  - exists (id :: pre), post, r'. split_and!; try done; [by rewrite Heq at 1|].
    intros i r'' [->|Hi]%elem_of_cons Hr''; [congruence|]. by eapply Hpre.
Qed.

Lemma order_present s id : wf s -> id ∈ s_order s -> is_Some (s_records s !! id) /\ id <> 0.
Proof.
  intros Hwf Hid. apply (wf_order s Hwf) in Hid as [r Hr]. split; [by eexists|].
  apply (wf_records s Hwf) in Hr as [_ ? _ _ _ _]. lia.
Qed.

Lemma choose_in p m order :
  (forall id, id ∈ order -> is_Some (m !! id) /\ id <> 0) -> choose p m order = 0 \/ choose p m order ∈ order.
Proof.
  intros Hin. destruct (choose_spec p m order Hin) as [[? _]|(pre&post&r&Heq&_)]; [by left|right].
  generalize dependent (choose p m order). intros c ->. set_solver.
Qed.

Lemma capacityVictim_in s : wf s -> s_order s <> [] -> capacityVictim s ∈ s_order s /\ capacityVictim s <> 0.
Proof.
  intros Hwf Hne. pose proof (fun id => order_present s id Hwf) as Hin.
  assert (capacityVictim s ∈ s_order s) as Hv; [|split; [done|by apply Hin]].
  pose proof (choose_in notCriticalExpiring _ _ Hin) as Hc1. pose proof (choose_in notCritical _ _ Hin) as Hc2.
  unfold capacityVictim.
  destruct (Z.eqb_spec (choose notCriticalExpiring (s_records s) (s_order s)) 0) as [_|Hz]; cbn.
  - destruct (Z.eqb_spec (choose notCritical (s_records s) (s_order s)) 0) as [_|Hz2]; [|by destruct Hc2].
    destruct (s_order s); [done|]. set_solver.
  - rewrite (proj2 (Z.eqb_neq _ _)) by done. by destruct Hc1.
Qed.

(** The state [addWithProducerKey] puts a new record in. *)
Definition makeRoom (s : ownerState) : ownerState :=
  if Z.of_nat (size (s_records s)) =? MaxActiveNotifications then evictCapacityVictim s else s.

(** What an operation that announces itself guarantees. *)
Record advances (s s' : ownerState) : Prop := {
  ad_sim : exists evs, sim s s' evs;
  ad_wf : wf s';
  ad_ticks : (s_ticks s <= s_ticks s')%nat }.

Lemma advances_refl s : wf s -> advances s s.
Proof. split; [|done..]. exists []. apply sim_refl. Qed.

Lemma advances_trans s1 s2 s3 : advances s1 s2 -> advances s2 s3 -> advances s1 s3.
Proof.
  intros [[e1 He1] _ ?] [[e2 He2] ? ?]. split; [|done|lia]. exists (e1 ++ e2). by eapply sim_trans.
Qed.

Lemma closed_advances id reason s s' : closed_to id reason s s' -> advances s s'.
Proof. intros [(evs&?) ? _ _ _ _ _ ?]. split; [by eexists|done..]. Qed.

Lemma evict_closes s :
  wf s -> Z.of_nat (size (s_records s)) = MaxActiveNotifications ->
  is_Some (s_records s !! capacityVictim s) /\ closed_to (capacityVictim s) CloseUndefined s (evictCapacityVictim s).
Proof.
  intros Hwf Hfull.
  assert (s_order s <> []) as Hne.
  { intros Hnil. rewrite (wf_length s Hwf), Hnil in Hfull. done. }
  destruct (capacityVictim_in s Hwf Hne) as [Hv Hvz]. unfold evictCapacityVictim.
  rewrite (proj2 (Z.eqb_neq _ _)) by done.
  pose proof (proj1 (wf_order s Hwf _) Hv) as Hsome. split; [done|].
  destruct (close_spec (capacityVictim s) CloseUndefined s Hwf eq_refl Hsome) as (s'&Heq&Hc).
  by rewrite Heq.
Qed.

(** The owner after room was made: unchanged, or one victim closed. *)
Lemma makeRoom_spec s :
  wf s ->
  advances s (makeRoom s) /\ (producers_ok s -> producers_ok (makeRoom s)) /\
  s_records (makeRoom s) ⊆ s_records s /\
  Z.of_nat (size (s_records (makeRoom s))) < MaxActiveNotifications /\ ctl (makeRoom s) = ctl s.
Proof.
  intros Hwf. pose proof (wf_size s Hwf) as Hsz. unfold makeRoom.
  destruct (Z.eqb_spec (Z.of_nat (size (s_records s))) MaxActiveNotifications) as [Hfull|Hroom].
  2: { split_and!; try done; [by apply advances_refl|lia]. }
  destruct (evict_closes s Hwf Hfull) as [Hsome Hc]. pose proof Hc as [_ _ Hr _ _ _ Hctl _]. split_and!; try done.
  - by eapply closed_advances.
  - intros Hprod. by eapply producers_close.
  - rewrite Hr. apply delete_subseteq.
  - rewrite Hr, map_size_delete. destruct Hsome as [r ->]. rewrite Nat2Z.inj_pred; [lia|].
    unfold MaxActiveNotifications in Hfull. lia.
Qed.

Lemma takenIDs_size s : wf s -> Z.of_nat (size (takenIDs s)) < idCount.
Proof.
  intros Hwf. pose proof (wf_size s Hwf) as Hsz. pose proof (wf_history s Hwf) as Hh. unfold takenIDs.
  assert (Z.of_nat (size (match s_history s with Some st => list_to_set (IDs st) | None => ∅ end : gset Z))
    <= MaxHistoryEntries) as Hhist.
  { destruct (s_history s) as [st|]; [|by rewrite size_empty]. destruct Hh as [Hst _].
    unfold IDs. rewrite size_list_to_set by apply Hst. rewrite length_map. apply Hst. }
  rewrite <-size_dom in Hsz. rewrite size_union_alt.
  pose proof (subseteq_size (match s_history s with Some st => list_to_set (IDs st) | None => ∅ end ∖ dom (s_records s))
    _ (subseteq_difference_l _ _ _ (reflexivity _))).
  unfold MaxActiveNotifications, MaxHistoryEntries in *. lia.
Qed.

(** ** addWithProducerKey *)

Lemma view_insert_replace id r existing s :
  wf s -> s_records s !! id = Some existing -> n_ID (r_notification r) = id ->
  view (set_records (<[id := r]> (s_records s)) s) =
  mkView (map (fun n => if n_ID n =? id then r_notification r else n) (v_active (view s))) (v_history (view s)).
Proof.
  intros Hwf Hex Hid. pose proof (activeOf_insert (s_records s) id r (s_order s) (wf_ids_match s Hwf) Hid) as Ha.
  unfold activeOf in *. destruct s. unfold view, orderedRecords, historyOf. cbn in *. f_equal. apply Ha. by eexists.
Qed.

Lemma view_insert_new id r s nextID :
  id ∉ s_order s ->
  view (set_order (s_order s ++ [id]) (set_records (<[id := r]> (s_records s)) (set_nextID nextID s))) =
  mkView (v_active (view s) ++ [r_notification r]) (v_history (view s)).
Proof.
  intros Hid. pose proof (activeOf_append (s_records s) id r (s_order s) Hid) as Ha.
  unfold activeOf in *. destruct s. unfold view, orderedRecords, historyOf. cbn in *. f_equal. apply Ha.
Qed.

(** The delta of an added or replaced record is valid. *)
Lemma notificationDelta_valid kind id r now s :
  kind = DeltaAdded \/ kind = DeltaReplaced ->
  record_ok (Now (s_ticks s)) id r -> timed now r ->
  Delta_Validate (notificationDelta kind (r_notification r) (lifetime r now)) = None.
Proof.
  intros Hk [Hid Hrange Hv _ _ _] Ht.
  assert (Notification_Validate (r_notification r) ;;; Lifetime_Validate (lifetime r now) ;;;
    failIf (negb (n_ID (r_notification r) =? n_ID (r_notification r)))
            (ErrNew "protocol: notification delta lifetime ID does not match record") = None) as Hall.
  { rewrite Hv, lifetime_valid by (done || lia). cbn. by rewrite Z.eqb_refl. }
  by destruct Hk as [-> | ->].
Qed.

(** Putting the record of a replacement in, and announcing it. *)
Lemma replace_announced id r existing ids now s :
  wf s -> s_records s !! id = Some existing -> record_ok (Now (s_ticks s)) id r ->
  r_state r = r_state existing -> timed now r ->
  let s1 := set_producerIDs ids s in
  let s' := publishDelta (notificationDelta DeltaReplaced (r_notification r) (lifetime r now))
              (set_records (<[id := r]> (s_records s1)) s1) in
  advances s s' /\ ctl s' = ctl s /\ s_records s' = <[id := r]> (s_records s) /\ s_order s' = s_order s /\
  s_history s' = s_history s /\ s_nextID s' = s_nextID s /\ s_producerIDs s' = ids.
Proof.
  intros Hwf Hex Hrok Hst Ht. cbn zeta. rewrite publishDelta_deltas.
  set (s2 := set_records _ _).
  assert (wf s2) as Hwf2.
  { eapply wf_frame; [eapply (wf_insert_replace _ r existing s)|..]; try done; try (by destruct s).
    destruct s; apply Hwf. }
  pose proof (publishDeltas_frame [notificationDelta DeltaReplaced (r_notification r) (lifetime r now)] s2)
    as (Er&Eo&Ep&En&Eh&Et&Ec).
  rewrite Er, Eo, Ep, En, Eh, Ec. split_and!; try (by destruct s).
  split; [eexists; apply (sim_deltas s)|by apply wf_publishDeltas|rewrite Et; by destruct s]; try (by destruct s).
  - repeat constructor. eapply notificationDelta_valid; eauto.
  - transitivity (view (set_records (<[id := r]> (s_records s)) s)); [by destruct s|].
    rewrite (view_insert_replace _ r existing s Hwf Hex (ro_id _ _ _ Hrok)). cbn.
    by rewrite (ro_id _ _ _ Hrok).
  - split; [|done]. apply (activeIDs_record s _ Hwf). rewrite (ro_id _ _ _ Hrok). by eexists.
Qed.

(** Putting a new record behind the others, and announcing it. *)
Lemma new_announced id r nextID now s :
  wf s -> record_ok (Now (s_ticks s)) id r -> r_state r = PresentationSuppressed -> timed now r ->
  id ∉ takenIDs s -> Z.of_nat (size (s_records s)) < MaxActiveNotifications -> 1 <= nextID < 4294967296 ->
  let s1 := set_nextID nextID s in
  let s2 := set_records (<[id := r]> (s_records s1)) s1 in
  let s' := publishDelta (notificationDelta DeltaAdded (r_notification r) (lifetime r now))
              (set_order (s_order s2 ++ [id]) s2) in
  advances s s' /\ ctl s' = ctl s /\ s_records s' = <[id := r]> (s_records s) /\ s_order s' = s_order s ++ [id] /\
  s_history s' = s_history s /\ s_producerIDs s' = s_producerIDs s.
Proof.
  intros Hwf Hrok Hst Ht Hfree Hlt Hnext. cbn zeta. rewrite publishDelta_deltas.
  set (s2 := set_order _ _).
  assert (s2 = set_order (s_order s ++ [id]) (set_records (<[id := r]> (s_records s)) (set_nextID nextID s))) as Hs2
    by (by destruct s).
  assert (wf s2) as Hwf2 by (rewrite Hs2; by apply wf_insert_new).
  assert (id ∉ s_order s) as Hno.
  { rewrite (wf_order s Hwf). intros Hin%elem_of_dom. apply Hfree. unfold takenIDs. set_solver. }
  pose proof (publishDeltas_frame [notificationDelta DeltaAdded (r_notification r) (lifetime r now)] s2)
    as (Er&Eo&Ep&En&Eh&Et&Ec).
  rewrite Er, Eo, Ep, Eh, Ec. split_and!; try (by destruct s).
  split; [eexists; apply (sim_deltas s)|by apply wf_publishDeltas|rewrite Et; by destruct s]; try (by destruct s).
  - repeat constructor. eapply notificationDelta_valid; eauto.
  - rewrite Hs2. by apply (view_insert_new id r s nextID).
  - split; [|done]. intros Hin%(activeIDs_record s _ Hwf). rewrite (ro_id _ _ _ Hrok) in Hin. by apply Hno, (wf_order s Hwf).
Qed.

(** The key a replaced record held is given up, unless the replacement has it. *)
Lemma replaced_key existing key id s :
  producers_ok s -> s_records s !! id = Some existing ->
  (if negb (String.eqb (r_producerKey existing) "") && negb (String.eqb (r_producerKey existing) key) &&
      (lookup0 (s_producerIDs s) (r_producerKey existing) =? id)
   then set_producerIDs (delete (r_producerKey existing) (s_producerIDs s)) s else s) =
  set_producerIDs (if bool_decide (r_producerKey existing = key) then s_producerIDs s
                   else delete (r_producerKey existing) (s_producerIDs s)) s.
Proof.
  intros [Hk Hr] Hex.
  destruct (String.eqb_spec (r_producerKey existing) "") as [He|Hne]; cbn.
  - rewrite delete_id; [by destruct s; case_bool_decide|].
    destruct (s_producerIDs s !! r_producerKey existing) eqn:Hl; [|done]. by apply Hk in Hl as [? _].
  - unfold lookup0. rewrite (Hr id existing Hex Hne). cbn. rewrite Z.eqb_refl.
    destruct (String.eqb_spec (r_producerKey existing) key); cbn;
      [rewrite bool_decide_eq_true_2 by done|rewrite bool_decide_eq_false_2 by done]; by destruct s.
Qed.

(** What [addWithProducerKey] did: nothing, replaced a record, or put a new one
    behind the others. *)
Inductive added_record (c : Candidate) (key : string) (prepared : option PreparedImage) (now : Time)
    (s s' : ownerState) : Result -> option error -> Prop :=
  | added_refused e : validateCandidate c now = Some e -> s' = s -> added_record c key prepared now s s' zeroResult (Some e)
  | added_replaced existing :
      validateCandidate c now = None -> s_records s !! cd_ReplacesID c = Some existing ->
      s_records s' = <[cd_ReplacesID c := replaceRecord (newRecord (cd_ReplacesID c) c prepared key now) existing now]>
                       (s_records s) ->
      s_order s' = s_order s -> s_history s' = s_history s -> s_nextID s' = s_nextID s ->
      s_producerIDs s' = (if bool_decide (r_producerKey existing = key) then s_producerIDs s
                          else delete (r_producerKey existing) (s_producerIDs s)) ->
      added_record c key prepared now s s' (mkResult (cd_ReplacesID c) true []) None
  | added_new id :
      validateCandidate c now = None -> s_records s !! cd_ReplacesID c = None ->
      id ∉ takenIDs (makeRoom s) -> 1 <= id < 4294967296 ->
      s_records s' = <[id := startRecord (newRecord id c prepared key now) now]> (s_records (makeRoom s)) ->
      s_order s' = s_order (makeRoom s) ++ [id] -> s_history s' = s_history (makeRoom s) ->
      s_producerIDs s' = s_producerIDs (makeRoom s) ->
      added_record c key prepared now s s' (mkResult id false []) None.

Lemma addWithProducerKey_spec c key prepared now s s' r err :
  wf s -> producers_ok s -> candidate_typed c -> typed_prepared prepared -> 0 < now -> now <= Now (s_ticks s) ->
  addWithProducerKey c key prepared now s = (s', r, err) ->
  advances s s' /\ ctl s' = ctl s /\ added_record c key prepared now s s' r err.
Proof.
  intros Hwf Hprod Ht Hp Hpos Hnow. unfold addWithProducerKey.
  destruct (validateCandidate c now) as [e|] eqn:Hv.
  { intros [= <- <- <-]. split_and!; [by apply advances_refl|done|by constructor]. }
  pose proof (validateCandidate_None c now Hv) as (He&_&_).
  destruct (s_records s !! cd_ReplacesID c) as [existing|] eqn:Hex.
  - rewrite (replaced_key existing key (cd_ReplacesID c) s Hprod Hex). intros [= <- <- <-].
    pose proof (wf_records s Hwf _ _ Hex) as Hexok.
    match goal with |- context [set_records (<[_ := ?r]> _)] =>
      destruct (replace_announced (cd_ReplacesID c) r existing
        (if bool_decide (r_producerKey existing = key) then s_producerIDs s
         else delete (r_producerKey existing) (s_producerIDs s)) now s Hwf Hex) as (Hadv&Hctl&?&?&?&?&?) end.
    + by apply record_ok_replace.
    + unfold replaceRecord. by destruct (_ && _).
    + by apply timed_replaceRecord.
    + split_and!; [done|done|]. by apply (added_replaced _ _ _ _ _ _ existing).
  - change (if Z.of_nat (size (s_records s)) =? MaxActiveNotifications then evictCapacityVictim s else s) with (makeRoom s).
    destruct (makeRoom_spec s Hwf) as (Hadv&_&_&Hlt&Hctl). pose proof (ad_wf _ _ Hadv) as Hwf1.
    pose proof (Now_mono _ _ (ad_ticks _ _ Hadv)) as Hticks.
    destruct (ResolveID 0 (s_nextID (makeRoom s)) (takenIDs (makeRoom s))) as [id nextID] eqn:Hres.
    apply ResolveID_new in Hres as (Hfree&Hid&Hnext); [|pose proof (wf_nextID _ Hwf1); lia|by apply takenIDs_size].
    intros [= <- <- <-].
    destruct (new_announced id (startRecord (newRecord id c prepared key now) now) nextID now (makeRoom s) Hwf1)
      as (Hadv2&Hctl2&?&?&?&?); try done.
    + apply record_ok_start; try done. lia.
    + unfold startRecord. by destruct (0 <? _).
    + by apply timed_startRecord.
    + split_and!; [by eapply advances_trans|by rewrite Hctl2|]. by eapply added_new.
Qed.

(** ** Producer keys *)

(** [publishProducer] names the key's record after the record is in. *)
Definition settle (key : string) (id : Z) (s : ownerState) : ownerState :=
  if String.eqb key "" then s else set_producerIDs (<[key := id]> (s_producerIDs s)) s.

Lemma settle_frame key id s :
  s_records (settle key id s) = s_records s /\ s_order (settle key id s) = s_order s /\
  s_history (settle key id s) = s_history s /\ ctl (settle key id s) = ctl s /\
  s_ticks (settle key id s) = s_ticks s.
Proof. unfold settle. destruct (String.eqb key ""); [done|]. by destruct s. Qed.

(** Replacing the record at [id] by one with key [key]. *)
Lemma producers_replace id existing r key s s' :
  producers_ok s -> s_records s !! id = Some existing -> r_producerKey r = key ->
  (forall i, s_producerIDs s !! key = Some i -> i = id) ->
  s_records s' = <[id := r]> (s_records s) ->
  s_producerIDs s' = (if bool_decide (r_producerKey existing = key) then s_producerIDs s
                      else delete (r_producerKey existing) (s_producerIDs s)) ->
  producers_ok (settle key id s').
Proof.
  intros [Hk Hr] Hex Hkey Hkeyid Er Ep.
  assert (forall k, s_producerIDs (settle key id s') !! k =
    if bool_decide (k = key) then if String.eqb key "" then None else Some id
    else if bool_decide (k = r_producerKey existing) then None else s_producerIDs s !! k) as Hlook.
  { intros k. assert (s_producerIDs s !! "" = None) as Hempty.
    { destruct (s_producerIDs s !! "") eqn:Hl; [|done]. by apply Hk in Hl as [? _]. }
    transitivity ((if String.eqb key "" then s_producerIDs s' else <[key := id]> (s_producerIDs s')) !! k).
    { unfold settle. destruct (String.eqb key ""); [done|]. by destruct s'. }
    rewrite Ep. destruct (String.eqb_spec key "") as [->|Hne]; repeat case_bool_decide; subst;
      rewrite ?lookup_insert_eq, ?lookup_insert_ne, ?lookup_delete_eq, ?lookup_delete_ne by congruence; congruence. }
  destruct (settle_frame key id s') as (Er'&_). split; rewrite Er', Er.
  - intros k i. rewrite Hlook. destruct (bool_decide_reflect (k = key)) as [Hkk|Hkk];
      [|destruct (bool_decide_reflect (k = r_producerKey existing)) as [Hkk'|Hkk']; [by intros ?|]].
    + subst k. destruct (String.eqb_spec key "") as [|Hne]; [by intros ?|]. intros [= <-]. split; [done|].
      exists r. by rewrite lookup_insert_eq.
    + intros Hl. apply Hk in Hl as [? (r'&Hr'&Hkey')]. split; [done|]. exists r'. split; [|done].
      rewrite lookup_insert_ne; [done|]. intros ->. congruence.
  - intros i r' [[<- <-]|[Hi Hr']]%lookup_insert_Some Hne; rewrite Hlook.
    + rewrite bool_decide_eq_true_2 by done. subst key. by rewrite (proj2 (String.eqb_neq _ _)).
    + pose proof (Hr i r' Hr' Hne) as Hl. rewrite !bool_decide_eq_false_2; [done|..].
      * intros Heq. rewrite Heq in Hl, Hne. rewrite (Hr id existing Hex Hne) in Hl. congruence.
      * intros Heq. rewrite Heq in Hl. apply Hkeyid in Hl. congruence.
Qed.

(** A new record with key [key], which named nothing. *)
Lemma producers_new id r key s s' :
  producers_ok s -> s_records s !! id = None -> r_producerKey r = key -> s_producerIDs s !! key = None ->
  s_records s' = <[id := r]> (s_records s) -> s_producerIDs s' = s_producerIDs s ->
  producers_ok (settle key id s').
Proof.
  intros [Hk Hr] Hid Hkey Hnone Er Ep. destruct (settle_frame key id s') as (Er'&_).
  assert (forall k, s_producerIDs (settle key id s') !! k =
    if bool_decide (k = key) then if String.eqb key "" then None else Some id else s_producerIDs s !! k) as Hlook.
  { intros k. transitivity ((if String.eqb key "" then s_producerIDs s' else <[key := id]> (s_producerIDs s')) !! k).
    { unfold settle. destruct (String.eqb key ""); [done|]. by destruct s'. }
    rewrite Ep. destruct (String.eqb_spec key "") as [Hke|Hne]; case_bool_decide; subst;
      rewrite ?lookup_insert_eq, ?lookup_insert_ne by congruence; congruence. }
  split; rewrite Er', Er.
  - intros k i. rewrite Hlook. destruct (bool_decide_reflect (k = key)) as [Hkk|Hkk].
    + subst k. destruct (String.eqb_spec key "") as [|Hne]; [by intros ?|]. intros [= <-]. split; [done|].
      exists r. by rewrite lookup_insert_eq.
    + intros Hl. apply Hk in Hl as [? (r'&Hr'&Hkey')]. split; [done|]. exists r'. split; [|done].
      rewrite lookup_insert_ne; [done|]. intros ->. congruence.
  - intros i r' [[<- <-]|[Hi Hr']]%lookup_insert_Some Hne; rewrite Hlook.
    + rewrite bool_decide_eq_true_2 by done. subst key. by rewrite (proj2 (String.eqb_neq _ _)).
    + pose proof (Hr i r' Hr' Hne) as Hl. rewrite bool_decide_eq_false_2; [done|]. congruence.
Qed.

Lemma producers_added c key prepared now s s' r :
  wf s -> producers_ok s ->
  (forall i, s_producerIDs s !! key = Some i -> i = cd_ReplacesID c) ->
  added_record c key prepared now s s' r None -> producers_ok (settle key (res_ID r) s').
Proof.
  intros Hwf Hprod Hkey. inversion 1 as [|existing _ Hex Er _ _ _ Ep|id _ Hex Hfree Hid Er _ _ Ep]; subst; cbn.
  - eapply producers_replace; eauto. unfold replaceRecord. by destruct (_ && _).
  - destruct (makeRoom_spec s Hwf) as (_&Hprod1&Hsub&_&_). specialize (Hprod1 Hprod).
    eapply producers_new; eauto.
    + apply not_elem_of_dom. intros Hin. apply Hfree. unfold takenIDs. set_solver.
    + unfold startRecord. by destruct (0 <? _).
    + destruct (s_producerIDs (makeRoom s) !! key) as [i|] eqn:Hl; [|done].
      apply Hprod1 in Hl as [Hne (r'&Hr'&Hkr)]. pose proof (lookup_weaken _ _ _ _ Hr' Hsub) as Hr0.
      pose proof (po_record s Hprod i r' Hr0) as Hl. rewrite Hkr in Hl. specialize (Hl Hne).
      rewrite (Hkey i Hl) in Hr0. congruence.
Qed.

End Add.
