(* ===== verification/OwnerCmd.v ===== *)
(** * internal/state: every command and every step keeps the invariant

    The cases of [do_] put together: whatever the command, the step is a
    simulation into a well-formed state. *)
From stdpp Require Import gmap strings list fin_maps.
From Stdlib Require Import ZArith Lia Strings.Byte.
From S2P Require Import Prelude GoLib Protocol Notify History Owner OwnerInv OwnerOps OwnerAdd.
Local Open Scope string_scope.
Local Open Scope list_scope.
Local Open Scope Z_scope.

(** The machine-width fields of a command. *)
Record command_typed (c : Command) : Prop := {
  ct_candidate : candidate_typed (cm_Candidate c);
  ct_prepared : typed_prepared (cm_PreparedHistoryImage c);
  ct_producer : match cm_Producer c with Some p => is_i32 (pq_ExpireTimeoutMS p) | None => True end;
  ct_generation : is_u64 (cm_Generation c) }.

Section Commands.
Context `{MonotonicClock, Sink, PngLaws, Sha256Laws}.

(** An operation that announces itself and keeps both invariants. *)
Record keeps_all (s s' : ownerState) : Prop := {
  ka_advances : advances s s';
  ka_producers : producers_ok s' }.

Lemma keeps_all_refl s : wf s -> producers_ok s -> keeps_all s s.
Proof. split; [by apply advances_refl|done]. Qed.

Lemma keeps_all_trans s1 s2 s3 : keeps_all s1 s2 -> keeps_all s2 s3 -> keeps_all s1 s3.
Proof. intros [? _] [? ?]. split; [by eapply advances_trans|done]. Qed.

(** An operation on the history alone. *)
Lemma keeps_all_keeps s s' evs : producers_ok s -> sim s s' evs -> wf s' -> keeps s s' -> keeps_all s s'.
Proof.
  intros Hp Hsim Hwf [Kr _ Kp _ _ Kt]. split; [split; [by eexists|done..]|]. by eapply producers_frame.
Qed.

Lemma keeps_all_close id reason s :
  wf s -> producers_ok s -> CloseReason_valid reason = true -> is_Some (s_records s !! id) ->
  keeps_all s (close id reason s).1.
Proof.
  intros Hwf Hp Hr Hs. destruct (close_spec id reason s Hwf Hr Hs) as (s'&->&Hc). cbn.
  split; [by eapply closed_advances|]. by eapply producers_close.
Qed.

Lemma close_ok id reason s :
  wf s -> producers_ok s -> CloseReason_valid reason = true -> keeps_all s (close id reason s).1.
Proof.
  intros Hwf Hp Hr. destruct (s_records s !! id) as [r|] eqn:Hs.
  - apply keeps_all_close; eauto.
  - unfold close. rewrite Hs. by apply keeps_all_refl.
Qed.

Lemma closeAll_ok ids reason s err :
  wf s -> producers_ok s -> CloseReason_valid reason = true -> keeps_all s (closeAll ids reason s err).1.
Proof.
  intros Hwf Hp Hr. revert s err Hwf Hp. induction ids as [|id ids IH]; intros s err Hwf Hp; cbn.
  - by apply keeps_all_refl.
  - pose proof (close_ok id reason s Hwf Hp Hr) as Hc. destruct (close id reason s) as [s1 e]. cbn in Hc.
    eapply keeps_all_trans; [done|]. destruct Hc as [[_ ? _] ?]. by apply IH.
Qed.

(** ** add and the producers *)

Lemma added_ok c key prepared now s s' r err :
  wf s -> producers_ok s -> candidate_typed c -> typed_prepared prepared -> 0 < now -> now <= Now (s_ticks s) ->
  (forall i, s_producerIDs s !! key = Some i -> i = cd_ReplacesID c) ->
  addWithProducerKey c key prepared now s = (s', r, err) ->
  keeps_all s (match err with None => settle key (res_ID r) s' | Some _ => s' end).
Proof.
  intros Hwf Hp Ht Hpr Hpos Hnow Hkey Heq.
  destruct (addWithProducerKey_spec c key prepared now s s' r err) as ([[evs [Hs1 Hs2 Hs3 Hs4]] Hwf' Hticks]&_&Hadd); try done.
  destruct err as [e|].
  - inversion Hadd; subst. by apply keeps_all_refl.
  - pose proof (settle_frame key (res_ID r) s') as (Er&Eo&Eh&Ec&Et). split; [|by apply (producers_added c key prepared now s)].
    assert (s_sink (settle key (res_ID r) s') = s_sink s' /\ s_sequence (settle key (res_ID r) s') = s_sequence s' /\
      s_nextID (settle key (res_ID r) s') = s_nextID s') as (Ek&Eq&En)
      by (unfold settle; destruct (String.eqb key ""); [done|]; by destruct s').
    assert (s_leaseDeadline (settle key (res_ID r) s') = s_leaseDeadline s') as El by (unfold ctl in Ec; congruence).
    split; [|eapply (wf_frame s'); try done; [by rewrite Et|rewrite Eq; apply Hwf']|lia].
    exists evs. split; rewrite ?Ek, ?Eq; try done. rewrite <-Hs4. unfold view, orderedRecords, historyOf.
    by rewrite Er, Eo, Eh.
Qed.

Lemma add_ok c prepared now s :
  wf s -> producers_ok s -> candidate_typed c -> typed_prepared prepared -> 0 < now -> now <= Now (s_ticks s) ->
  keeps_all s (add c prepared now s).1.1.
Proof.
  intros Hwf Hp Ht Hpr Hpos Hnow. unfold add. set (c' := if cd_ReplacesID c =? 0 then _ else c).
  assert (candidate_typed c') as Ht' by (unfold c'; destruct (_ =? 0); by destruct c).
  destruct (addWithProducerKey c' "" prepared now s) as [[s' r] err] eqn:Heq.
  apply added_ok in Heq; try done; [by destruct err|].
  intros i Hi. by apply (po_key s Hp) in Hi as [? _].
Qed.

Lemma producer_replaces s key :
  wf s -> producers_ok s ->
  negb (lookup0 (s_producerIDs s) key =? 0) &&
    match s_records s !! lookup0 (s_producerIDs s) key with None => true | Some _ => false end = false.
Proof.
  intros Hwf Hp. unfold lookup0. destruct (s_producerIDs s !! key) as [id|] eqn:Hl; cbn; [|done].
  apply (po_key s Hp) in Hl as [_ (r&Hr&_)]. rewrite Hr. apply andb_false_r.
Qed.

Lemma publishProducer_ok p now s :
  wf s -> producers_ok s -> match p with Some p => is_i32 (pq_ExpireTimeoutMS p) | None => True end ->
  0 < now -> now <= Now (s_ticks s) -> keeps_all s (publishProducer p now s).1.1.
Proof.
  intros Hwf Hp Ht Hpos Hnow. unfold publishProducer. destruct p as [p|]; [|by apply keeps_all_refl].
  destruct (ProducerRequest_Validate p) as [e|] eqn:Hv; [by apply keeps_all_refl|].
  rewrite producer_replaces by done.
  destruct (addWithProducerKey _ _ _ _ _) as [[s' r] err] eqn:Heq.
  assert (pq_Key p <> "") as Hkey.
  { unfold ProducerRequest_Validate in Hv. rewrite firstErr_None, validateText_None in Hv. intros He.
    rewrite He in Hv. naive_solver. }
  apply added_ok in Heq; try done.
  - unfold settle in Heq. destruct err; [done|]. by rewrite (proj2 (String.eqb_neq _ _)) in Heq.
  - intros i Hi. cbn. unfold lookup0. by rewrite Hi.
Qed.

Lemma closeProducer_ok p s : wf s -> producers_ok s -> keeps_all s (closeProducer p s).1.1.
Proof.
  intros Hwf Hp. unfold closeProducer. destruct p as [p|]; [|by apply keeps_all_refl].
  destruct (ProducerRequest_Validate p); [by apply keeps_all_refl|].
  pose proof (producer_replaces s (pq_Key p) Hwf Hp) as Hr.
  destruct (lookup0 (s_producerIDs s) (pq_Key p) =? 0); [by apply keeps_all_refl|].
  destruct (s_records s !! lookup0 (s_producerIDs s) (pq_Key p)) as [r|] eqn:Hl; [|done].
  pose proof (close_ok (lookup0 (s_producerIDs s) (pq_Key p)) CloseRequestedReason s Hwf Hp eq_refl) as Hc.
  by destruct (close _ _ s).
Qed.

(** ** History commands *)

Lemma wf_store s st : wf s -> s_history s = Some st -> store_wf st.
Proof. intros Hwf Hs. pose proof (wf_history s Hwf) as Hh. rewrite Hs in Hh. apply Hh. Qed.

Lemma shrink_ok s st st' removed :
  wf s -> producers_ok s -> s_history s = Some st -> shrunk st st' removed ->
  keeps_all s (publishRemoved removed (set_history (Some st') s)).
Proof.
  intros Hwf Hp Hs Hsh. destruct (shrink_sim s st st' removed Hwf Hs Hsh) as ((evs&?)&?&?).
  by eapply keeps_all_keeps.
Qed.

Lemma removeHistory_ok ids s : wf s -> producers_ok s -> keeps_all s (removeHistory ids s).1.
Proof.
  intros Hwf Hp. unfold removeHistory. destruct (s_history s) as [st|] eqn:Hs; [|by apply keeps_all_refl].
  destruct (Remove st ids) as [st' r] eqn:Hr.
  apply Remove_spec in Hr as (removed&->&Hsh&_); [|by eapply wf_store]. by eapply shrink_ok.
Qed.

(** The delta of a clear stands for the removal of every entry. *)
Lemma clearHistory_ok s : wf s -> producers_ok s -> keeps_all s (clearHistory s).1.
Proof.
  intros Hwf Hp. unfold clearHistory. destruct (s_history s) as [st|] eqn:Hs; [|by apply keeps_all_refl].
  destruct (Clear st) as [st' r] eqn:Hr.
  apply Clear_spec in Hr as (removed&->&Hsh&_&Hnil); [|by eapply wf_store].
  destruct (Z.eqb_spec (zlen removed) 0) as [Hz|Hz].
  - assert (removed = []) as -> by (destruct removed; [done|unfold zlen in Hz; cbn in Hz; lia]).
    by apply (shrink_ok s st st' []).
  - cbn [fst]. rewrite publishDelta_deltas. eapply keeps_all_keeps; [done|eapply (sim_deltas s)|..].
    1,2: by destruct s.
    + by repeat constructor.
    + rewrite view_history. cbn. unfold Entries. by rewrite Hnil.
    + split; [|done]. intros Hempty. destruct Hsh as (Hsub&_&_). change (historyIDs (view s) = []) in Hempty.
      rewrite (historyIDs_store s st Hs) in Hempty. destruct removed as [|id removed]; [done|].
      specialize (Hsub id ltac:(left)). rewrite Hempty in Hsub. by apply elem_of_nil in Hsub.
    + apply wf_publishDeltas. eapply wf_set_history; eauto; [eapply shrunk_wf; eauto; by eapply wf_store|].
      unfold IDs. rewrite Hnil. by intros id ?%elem_of_nil.
    + apply keeps_publishDeltas. by destruct s.
Qed.

Lemma withSeen_id e : h_Seen e = true -> withSeen e = e.
Proof. destruct e; cbn. by intros ->. Qed.

(** Marking the changed entries is marking the wanted ones: the others were seen. *)
Lemma seen_view st wanted :
  store_wf st ->
  map (fun e => if marks wanted e then withSeen (re_entry e) else re_entry e) (st_entries st) =
  map (fun h => if bool_decide (h_ID h ∈ map entryID (List.filter (marks wanted) (st_entries st)))
                then withSeen h else h) (Entries st).
Proof.
  intros Hst. unfold Entries. rewrite map_map. apply map_ext_in. intros e He%list_elem_of_In.
  destruct (marks wanted e) eqn:Hm.
  - rewrite bool_decide_eq_true_2; [done|]. apply elem_of_map. exists e. split; [done|].
    by apply elem_of_list_filter_bool.
  - rewrite bool_decide_eq_false_2; [done|]. intros (e'&Heq&[He' Hm']%elem_of_list_filter_bool)%elem_of_map.
    rewrite (id_inj _ e e' (sw_nodup st Hst)) in Hm by done. congruence.
Qed.

Lemma markHistorySeen_ok ids s : wf s -> producers_ok s -> keeps_all s (markHistorySeen ids s).1.
Proof.
  intros Hwf Hp. unfold markHistorySeen. destruct (s_history s) as [st|] eqn:Hs; [|by apply keeps_all_refl].
  pose proof (wf_store s st Hwf Hs) as Hst. destruct (MarkSeen st ids) as [st' r] eqn:Hr.
  apply MarkSeen_spec in Hr as (changed&->&Hch&Hent&Hids&Hst'&_); [|done].
  assert (wf (set_history (Some st') s)) as Hwf'.
  { eapply wf_set_history; eauto. intros id. rewrite Hids. by left. }
  rewrite (seen_view st (list_to_set ids) Hst), <-Hch in Hent.
  assert (view (set_history (Some st') s) = applyDelta (historySeenDelta changed) (view s)) as Hv.
  { rewrite view_history, Hent. cbn. by rewrite <-(historyOf_Some s st Hs). }
  destruct (Z.eqb_spec (zlen changed) 0) as [Hz|Hz]; cbn [fst].
  - assert (changed = []) as -> by (destruct changed; [done|unfold zlen in Hz; cbn in Hz; lia]).
    eapply keeps_all_keeps; [done|apply sim_quiet; try (by destruct s)|done|by destruct s].
    rewrite Hv. cbn. unfold view. f_equal. apply List.map_id.
  - rewrite publishDelta_deltas. eapply keeps_all_keeps; [done|eapply (sim_deltas s)|..].
    1,2: by destruct s.
    + constructor; [|done]. cbn. apply validateIDs_None.
      assert (changed `sublist_of` IDs st) as Hsub.
      { rewrite Hch. apply sublist_ids, filter_sublist. }
      split_and!; [by intros ->| | |by eapply sublist_NoDup; [apply Hst|]].
      * apply sublist_length in Hsub. pose proof (sw_count st Hst). unfold zlen, IDs in *. rewrite length_map in Hsub. lia.
      * apply Forall_forall. intros id Hid. apply (store_ids_nonzero st id Hst). by eapply elem_of_submseteq, sublist_submseteq.
    + done.
    + split; [|done]. intros id Hid. change (id ∈ historyIDs (view s)). rewrite (historyIDs_store s st Hs). rewrite Hch in Hid.
      by apply elem_of_map in Hid as (e&->&[He _]%elem_of_list_filter_bool); apply elem_of_map; exists e.
    + by apply wf_publishDeltas.
    + apply keeps_publishDeltas. by destruct s.
Qed.

(** ** Actions and replies *)

Lemma publish_ok e s :
  wf s -> producers_ok s -> ev_Delta e = None -> eventFits (view s) e ->
  match ev_Snapshot e with
  | Some sn => snapshot_ok sn /\ s_Sequence sn = ev_Sequence e /\ s_Sequence sn = s_sequence s /\ snapshotView sn = view s
  | None => True
  end ->
  keeps_all s (publish e s).1.
Proof.
  intros Hwf Hp Hd Hfit Hsn. pose proof (wf_publish e s Hwf) as Hwf'. rewrite publish_eq in *.
  split; [|by eapply producers_frame; [done|by destruct s..]]. split; [|done|by destruct s].
  exists [e]. split; try (by destruct s).
  - cbn. rewrite Hd. by destruct s.
  - constructor; [|done]. split; [by rewrite Hd|]. destruct (ev_Snapshot e); [tauto|done].
  - cbn. unfold applyEvent. rewrite Hd. by destruct s.
  - cbn. split; [|done]. destruct (ev_Snapshot e); [tauto|done].
Qed.

(** Hand an event to the sink and close the notification unless it is resident. *)
Lemma publish_close_ok e r id s :
  wf s -> producers_ok s -> ev_Delta e = None -> eventFits (view s) e -> ev_Snapshot e = None ->
  keeps_all s (if cd_Resident (r_candidate r) then ((publish e s).1, None)
               else close id CloseDismissed (publish e s).1).1.
Proof.
  intros Hwf Hp Hd Hfit Hsn. assert (keeps_all s (publish e s).1) as Hk by (apply publish_ok; by rewrite ?Hsn).
  destruct (cd_Resident _); [done|]. eapply keeps_all_trans; [done|]. destruct Hk as [[_ ? _] ?]. by apply close_ok.
Qed.

Lemma invokeAction_ok id key s : wf s -> producers_ok s -> keeps_all s (invokeAction id key s).1.
Proof.
  intros Hwf Hp. unfold invokeAction. destruct (s_records s !! id) as [r|] eqn:Hr; [|by apply keeps_all_refl].
  destruct (existsb _ _); [|by apply keeps_all_refl]. apply publish_close_ok; try done. split_and!; [done| |done]. by apply activeIDs_record.
Qed.

Lemma submitReply_ok id text s : wf s -> producers_ok s -> keeps_all s (submitReply id text s).1.
Proof.
  intros Hwf Hp. unfold submitReply. destruct (WireCommand_Validate _); [by apply keeps_all_refl|].
  destruct (s_records s !! id) as [r|] eqn:Hr; [|by apply keeps_all_refl].
  destruct (cd_InlineReply _); [|by apply keeps_all_refl]. apply publish_close_ok; try done. split_and!; [done..|]. by apply activeIDs_record.
Qed.

End Commands.
