(* ===== verification/OwnerTime.v ===== *)
(** * internal/state: presentation, leases and the timer

    [renew], [clearPresentation], [setPresentation], [handleTimer] and
    [resetTimer]: clocks pause and run as the presentation states say, and each
    keeps the invariant. *)
From stdpp Require Import gmap strings list fin_maps.
From Stdlib Require Import ZArith Lia Strings.Byte.
From S2P Require Import Prelude GoLib Protocol Notify History Owner OwnerInv OwnerOps OwnerAdd OwnerCmd.
Local Open Scope string_scope.
Local Open Scope list_scope.
Local Open Scope Z_scope.

(** ** One record *)

(** The time a record has left at [now]. *)
Definition left_at (r : record) (now : Time) : Duration :=
  if r_hasDeadline r then Z.max 0 (SubTime (r_deadline r) now) else r_remaining r.

Lemma setPresentation_keeps next now r :
  let r' := setPresentation next now r in
  r_notification r' = r_notification r /\ r_candidate r' = r_candidate r /\
  r_historyImage r' = r_historyImage r /\ r_producerKey r' = r_producerKey r /\
  r_duration r' = r_duration r /\ r_lastReceived r' = r_lastReceived r /\ r_state r' = next.
Proof.
  cbn zeta. unfold setPresentation. case_decide; [by subst|]. destruct (r_duration r =? 0); [done|].
  by destruct next.
Qed.

Lemma left_at_range base now r :
  timed base r -> 0 < now <= base -> 0 <= left_at r now.
Proof. intros [? ? ? Hrem] Hnow. unfold left_at. destruct (r_hasDeadline r); [lia|]. by apply Hrem. Qed.

Lemma left_at_now now r : timed now r -> 0 < now -> 0 <= left_at r now <= r_duration r.
Proof.
  intros [? ? Hdl Hrem] Hnow. unfold left_at. destruct (r_hasDeadline r); [|by apply Hrem].
  specialize (Hdl eq_refl). split; [lia|]. apply Z.max_lub; [lia|]. apply SubTime_le; lia.
Qed.

(** A change of state at the current reading, or a fall back to suppressed at an
    earlier instant, keeps the record's clock right. *)
Lemma timed_setPresentation base t next r :
  timed base r -> 0 < t <= base -> PresentationState_valid next = true ->
  (t = base \/ next = PresentationSuppressed) -> timed base (setPresentation next t r).
Proof.
  intros Ht Hpos Hv Hwhen. pose proof Ht as [Hd Hrun Hdl Hrem].
  unfold setPresentation. case_decide as Hst; [done|]. fold (left_at r t).
  pose proof (left_at_range base t r Ht Hpos) as Hleft.
  assert (AddTime t (left_at r t) <= base + r_duration r) as Hadd.
  { unfold left_at. destruct (r_hasDeadline r).
    - specialize (Hdl eq_refl). etrans; [apply AddTime_SubTime_le|]. lia.
    - specialize (Hrem eq_refl). unfold AddTime. lia. }
  destruct (Z.eqb_spec (r_duration r) 0) as [Hz|Hz].
  { assert (r_hasDeadline r = false) as Hh.
    { rewrite Hrun. by rewrite (proj2 (Z.ltb_ge _ _)) by lia. }
    split; cbn; try done.
    - by rewrite (proj2 (Z.ltb_ge _ _)) by lia.
    - unfold left_at. rewrite Hh. auto. }
  assert (0 <? r_duration r = true) as Hlt by (apply Z.ltb_lt; lia).
  assert (next <> PresentationSuppressed -> 0 <= left_at r t <= r_duration r) as Hnow.
  { intros Hne. destruct Hwhen as [->|]; [|done]. apply left_at_now; [done|lia]. }
  destruct next; try done; split; cbn; unfold paused; cbn; rewrite ?Hlt; try done;
    intros _; unfold AddTime in *; repeat case_match; try lia; try (by apply Hnow).
Qed.

Lemma record_ok_setPresentation base t next id r :
  record_ok base id r -> 0 < t <= base -> PresentationState_valid next = true ->
  (t = base \/ next = PresentationSuppressed) -> record_ok base id (setPresentation next t r).
Proof.
  intros [Hid Hrange Hval Hst Ht Hm] Hpos Hv Hwhen.
  pose proof (setPresentation_keeps next t r) as (En&Ec&Eh&Ek&Ed&El&Es). cbn zeta in *.
  split; rewrite ?En, ?Eh, ?Es; try done. by apply timed_setPresentation.
Qed.

(** ** All records *)

Lemma fold_alter_lookup {A} (f : Z -> A -> A) order (m : gmap Z A) i :
  NoDup order ->
  fold_left (fun m id => alter (f id) id m) order m !! i =
  if bool_decide (i ∈ order) then f i <$> m !! i else m !! i.
Proof.
  revert m. induction order as [|id order IH]; intros m Hnd; cbn; [done|].
  apply NoDup_cons in Hnd as [Hid Hnd]. rewrite IH by done.
  destruct (decide (i = id)) as [->|Hne].
  - rewrite bool_decide_eq_false_2, bool_decide_eq_true_2 by set_solver. by rewrite lookup_alter_eq.
  - rewrite lookup_alter_ne by done. destruct (decide (i ∈ order)).
    + rewrite !bool_decide_eq_true_2 by set_solver. done.
    + rewrite !bool_decide_eq_false_2 by set_solver. done.
Qed.

Section Timer.
Context `{MonotonicClock, Sink, PngLaws, Sha256Laws}.

Lemma presentAll_lookup f now s id :
  wf s -> s_records (presentAll f now s) !! id = setPresentation (f id) now <$> s_records s !! id.
Proof.
  intros Hwf. unfold presentAll. transitivity (fold_left (fun m id => alter (setPresentation (f id) now) id m)
    (s_order s) (s_records s) !! id); [by destruct s|].
  rewrite (fold_alter_lookup (fun id => setPresentation (f id) now)) by apply Hwf.
  case_bool_decide as Hin; [done|]. rewrite (wf_order s Hwf) in Hin. by destruct (s_records s !! id) eqn:Hr; [destruct Hin; eexists|].
Qed.

Lemma presentAll_frame f now s :
  let s' := presentAll f now s in
  s_order s' = s_order s /\ s_producerIDs s' = s_producerIDs s /\ s_nextID s' = s_nextID s /\
  s_history s' = s_history s /\ s_ticks s' = s_ticks s /\ s_sink s' = s_sink s /\ s_sequence s' = s_sequence s /\
  ctl s' = ctl s.
Proof. by destruct s. Qed.

(** What a round of [setPresentation] over the records keeps, before the lease
    is set: everything of [wf] but [wf_suppressed]. *)
Lemma presentAll_ok f now s s' :
  wf s -> producers_ok s ->
  (forall id r, s_records s !! id = Some r -> record_ok (Now (s_ticks s)) id (setPresentation (f id) now r)) ->
  s' = set_leaseDeadline (s_leaseDeadline s') (set_presenterGeneration (s_presenterGeneration s')
         (set_presenterRetired (s_presenterRetired s') (set_acceptedGeneration (s_acceptedGeneration s')
         (presentAll f now s)))) ->
  0 <= s_leaseDeadline s' ->
  (s_leaseDeadline s' = 0 -> forall id, f id = PresentationSuppressed) -> keeps_all s s'.
Proof.
  intros Hwf Hp Hok Hs' Hl Hsup. pose proof (fun id => presentAll_lookup f now s id Hwf) as Hlook.
  pose proof (presentAll_frame f now s) as (Eo&Ep&En&Eh&Et&Ek&Eq&_). cbn zeta in *.
  remember (presentAll f now s) as s1 eqn:Hs1. clear Hs1.
  assert (s_records s' = s_records s1 /\ s_order s' = s_order s /\ s_producerIDs s' = s_producerIDs s /\
    s_nextID s' = s_nextID s /\ s_history s' = s_history s /\ s_ticks s' = s_ticks s /\ s_sink s' = s_sink s /\
    s_sequence s' = s_sequence s) as (Fr&Fo&Fp&Fn&Fh&Ft&Fk&Fq).
  { rewrite <-Eo, <-Ep, <-En, <-Eh, <-Et, <-Ek, <-Eq. rewrite Hs'. by destruct s1. }
  assert (forall id, s_records s' !! id = setPresentation (f id) now <$> s_records s !! id) as Hl'
    by (intros id; by rewrite Fr).
  assert (forall id, is_Some (s_records s' !! id) <-> is_Some (s_records s !! id)) as Hsome
    by (intros id; by rewrite Hl', fmap_is_Some).
  split; [split; [exists []; apply sim_quiet; try done| |by rewrite Ft]|].
  - unfold view, orderedRecords, historyOf. rewrite Fo, Fh. f_equal.
    change (activeOf (s_records s') (s_order s) = activeOf (s_records s) (s_order s)).
    apply activeOf_ext. intros id _. rewrite Hl'. destruct (s_records s !! id) as [r|]; [|done]. cbn.
    f_equal. apply setPresentation_keeps.
  - destruct Hwf as [Hnd Ho Hr Hsz Hn Hq Hh _ _].
    assert (dom (s_records s') = dom (s_records s)) as Hdom.
    { apply set_eq. intros id. by rewrite !elem_of_dom. }
    split; rewrite ?Fo, ?Fn, ?Fq; try done.
    + intros id. by rewrite Hsome.
    + intros id r'. rewrite Hl', Ft. intros (r&Hr'& ->)%fmap_Some. by apply Hok.
    + by rewrite <-size_dom, Hdom, size_dom.
    + rewrite Fh. destruct (s_history s); [|done]. destruct Hh as [? Hd]. split; [done|].
      intros id Hid. by rewrite Hl', (Hd id Hid).
    + intros Hz id r'. rewrite Hl'. intros (r&Hr'& ->)%fmap_Some. rewrite (Hsup Hz). apply setPresentation_keeps.
  - destruct Hp as [Hk Hr]. split; rewrite Fp.
    + intros k id (Hne&r&Hr'&Hkey)%Hk. split; [done|]. eexists. rewrite Hl', Hr'. split; [done|].
      rewrite <-Hkey. apply setPresentation_keeps.
    + intros id r'. rewrite Hl'. intros (r&Hr'& ->)%fmap_Some.
      pose proof (setPresentation_keeps (f id) now r) as (_&_&_&->&_). by apply Hr.
Qed.

Lemma clearPresentation_ok t s :
  wf s -> producers_ok s -> 0 < t <= Now (s_ticks s) -> keeps_all s (clearPresentation t s).
Proof.
  intros Hwf Hp Ht. apply (presentAll_ok (fun _ => PresentationSuppressed) t s); try done.
  - intros id r Hr. apply record_ok_setPresentation; try done; [|by right]. by apply (wf_records s Hwf).
  - unfold clearPresentation. by destruct s.
  - unfold clearPresentation. by destruct s.
Qed.

(** The states a valid renewal reports. *)
Lemma reportedStates_valid l id :
  Forall (fun p => PresentationState_valid (pr_State p) = true) l ->
  PresentationState_valid (default PresentationSuppressed (reportedStates l !! id)) = true.
Proof.
  intros Hl. unfold reportedStates.
  assert (forall m : gmap Z PresentationState, (forall i st, m !! i = Some st -> PresentationState_valid st = true) ->
    forall st, fold_left (fun m p => <[pr_ID p := pr_State p]> m) l m !! id = Some st -> PresentationState_valid st = true)
    as Hgen.
  { induction Hl as [|p l Hp _ IH]; cbn; [naive_solver|]. intros m Hm. apply IH.
    intros i st [[_ <-]|[_ Hi]]%lookup_insert_Some; [done|by eapply Hm]. }
  destruct (_ !! id) as [st|] eqn:Hst; [|done]. by apply (Hgen ∅) in Hst.
Qed.

Lemma renewal_valid l :
  WireCommand_Validate (mkWireCommand CommandPresentationRenew 0 [] "" "" l None) = None ->
  l <> [] /\ zlen l <= MaxActiveNotifications /\ NoDup (pr_ID <$> l) /\
  Forall (fun p => PresentationState_valid (pr_State p) = true) l.
Proof.
  unfold WireCommand_Validate. cbn. autorewrite with errs. intros ([Hz Hc]&Hall&Hnd&_). split_and!; try done.
  - by intros ->.
  - eapply Forall_impl; [exact Hall|]. intros p. cbn. rewrite failIf_None, orb_false_iff, negb_false_iff. tauto.
Qed.

(** A generation change first drops what the older presenter reported. *)
Lemma renew_ok generation presentations now s :
  wf s -> producers_ok s -> 0 < now <= Now (s_ticks s) ->
  (forall id r, s_records s !! id = Some r -> timed now r) ->
  keeps_all s (renew generation presentations now s).1.
Proof.
  intros Hwf Hp Hnow Htimed. unfold renew. destruct (generation =? 0); [by apply keeps_all_refl|].
  destruct (WireCommand_Validate _) as [e|] eqn:Hv; [by apply keeps_all_refl|].
  apply renewal_valid in Hv as (_&_&_&Hstates).
  destruct (_ && _); [by apply keeps_all_refl|]. destruct (_ && _); [by apply keeps_all_refl|].
  set (s1 := if negb _ && _ then clearPresentation now s else s). cbn [fst].
  assert (keeps_all s s1 /\ s_ticks s1 = s_ticks s /\ forall id r, s_records s1 !! id = Some r -> timed now r)
    as (Hk1&Eticks&Htimed1).
  { unfold s1. destruct (negb _ && _); [|split_and!; try done; by apply keeps_all_refl].
    split_and!; [by apply clearPresentation_ok|by destruct s|]. intros id r.
    assert (s_records (clearPresentation now s) = s_records (presentAll (fun _ => PresentationSuppressed) now s)) as ->
      by (by destruct s).
    rewrite presentAll_lookup by done. intros (r0&Hr0& ->)%fmap_Some.
    apply timed_setPresentation; [by eapply Htimed|lia|done|by left]. }
  eapply keeps_all_trans; [done|]. destruct Hk1 as [[_ Hwf1 _] Hp1].
  apply (presentAll_ok (fun id => default PresentationSuppressed (reportedStates presentations !! id)) now s1);
    try done.
  - intros id r Hr. rewrite Eticks. pose proof (wf_records s1 Hwf1 id r Hr) as [Hid Hrange Hval Hst _ Hm].
    pose proof (setPresentation_keeps (default PresentationSuppressed (reportedStates presentations !! id)) now r)
      as (En&Ec&Eh&Ek&Ed&El&Es). cbn zeta in *.
    pose proof (reportedStates_valid presentations id Hstates) as Hsv.
    split; rewrite ?En, ?Eh, ?Es; try done. apply (timed_mono now); [lia|].
    apply timed_setPresentation; [by eapply Htimed1|lia|done|by left].
  - by destruct s1.
  - destruct s1; cbn. unfold AddTime, PresentationLease, Second. lia.
  - destruct s1; cbn. unfold AddTime, PresentationLease, Second. lia.
Qed.

(** Fields of the presenter alone. *)
Lemma control_ok s s' :
  wf s -> producers_ok s ->
  s' = set_presenterRetired (s_presenterRetired s') (set_acceptedGeneration (s_acceptedGeneration s')
         (set_timer (s_timer s') (set_nextHistorySweep (s_nextHistorySweep s') (set_ticks (s_ticks s') s)))) ->
  (s_ticks s <= s_ticks s')%nat -> keeps_all s s'.
Proof.
  intros Hwf Hp Hs' Ht. assert (sim s s' []) as Hsim by (apply sim_quiet; rewrite Hs'; by destruct s).
  split; [split; [by eexists| |done]|by eapply producers_frame; [done|rewrite Hs'; by destruct s..]].
  eapply (wf_frame s); try done; try (rewrite Hs'; by destruct s). rewrite Hs'. destruct s; apply Hwf.
Qed.

Lemma presenterLost_ok generation nextGeneration now s :
  wf s -> producers_ok s -> 0 < now <= Now (s_ticks s) ->
  keeps_all s (presenterLost generation nextGeneration now s).
Proof.
  intros Hwf Hp Hnow. unfold presenterLost. set (s1 := if negb _ && _ then clearPresentation now s else s).
  assert (keeps_all s s1) as Hk1.
  { unfold s1. destruct (negb _ && _); [by apply clearPresentation_ok|by apply keeps_all_refl]. }
  eapply keeps_all_trans; [done|]. destruct Hk1 as [[_ Hwf1 _] Hp1]. clearbody s1.
  destruct (_ <? _); [|destruct (_ && _)]; apply control_ok; try done; by destruct s1.
Qed.

(** ** The timer *)

Lemma sweepDue_ok now s : wf s -> producers_ok s -> keeps_all s (sweepDue now s).
Proof.
  intros Hwf Hp. unfold sweepDue. destruct (negb _ && _); [|by apply keeps_all_refl].
  set (s1 := match s_history s with Some _ => _ | None => _ end).
  assert (keeps_all s s1) as Hk1.
  { unfold s1. destruct (s_history s) as [st|] eqn:Hs; [|by apply keeps_all_refl].
    destruct (Sweep st now) as [st' r] eqn:Hr.
    apply Sweep_spec in Hr as (removed&->&Hsh&_); [|by eapply wf_store]. by eapply shrink_ok. }
  eapply keeps_all_trans; [done|]. destruct Hk1 as [[_ Hwf1 _] Hp1]. clearbody s1.
  apply control_ok; try done; by destruct s1.
Qed.

Lemma leaseDue_ok now s : wf s -> producers_ok s -> now <= Now (s_ticks s) -> keeps_all s (leaseDue now s).
Proof.
  intros Hwf Hp Hnow. unfold leaseDue. pose proof (wf_lease s Hwf) as Hl.
  destruct (_ && _) eqn:Hc; [|by apply keeps_all_refl].
  apply andb_true_iff in Hc as [Hz%negb_true_iff%Z.eqb_neq Hd%negb_true_iff%Z.ltb_ge].
  apply clearPresentation_ok; [done..|]. lia.
Qed.

Lemma expireOne_ok now s id : wf s -> producers_ok s -> keeps_all s (expireOne now s id).
Proof.
  intros Hwf Hp. unfold expireOne. destruct (s_records s !! id); [|by apply keeps_all_refl].
  destruct (_ && _); [by apply close_ok|by apply keeps_all_refl].
Qed.

Lemma expireAll_ok now ids s : wf s -> producers_ok s -> keeps_all s (fold_left (expireOne now) ids s).
Proof.
  revert s. induction ids as [|id ids IH]; intros s Hwf Hp; cbn; [by apply keeps_all_refl|].
  pose proof (expireOne_ok now s id Hwf Hp) as Hk. eapply keeps_all_trans; [done|].
  destruct Hk as [[_ ? _] ?]. by apply IH.
Qed.

Lemma tick_ok s : wf s -> producers_ok s -> keeps_all s (clockNow s).2.
Proof. intros Hwf Hp. apply control_ok; try done; destruct s; cbn; [done|lia]. Qed.

Lemma handleTimer_ok s : wf s -> producers_ok s -> keeps_all s (handleTimer s).
Proof.
  intros Hwf Hp. unfold handleTimer.
  pose proof (tick_ok s Hwf Hp) as Hk0. pose proof Hk0 as [[_ Hwf0 _] Hp0]. unfold clockNow in *. cbn [snd] in *.
  pose proof (sweepDue_ok (Now (s_ticks s)) _ Hwf0 Hp0) as Hk1. pose proof Hk1 as [[_ Hwf1 Ht1] Hp1].
  assert (Now (s_ticks s) <= Now (s_ticks (sweepDue (Now (s_ticks s)) (set_ticks (S (s_ticks s)) s)))) as Hnow.
  { apply Now_mono. etrans; [|exact Ht1]. destruct s; cbn; lia. }
  pose proof (leaseDue_ok _ _ Hwf1 Hp1 Hnow) as Hk2. pose proof Hk2 as [[_ Hwf2 _] Hp2].
  eapply keeps_all_trans; [done|]. eapply keeps_all_trans; [done|]. eapply keeps_all_trans; [done|].
  by apply expireAll_ok.
Qed.

Lemma resetTimer_ok s : wf s -> producers_ok s -> keeps_all s (resetTimer s).
Proof.
  intros Hwf Hp. unfold resetTimer. destruct (IsZero _); apply control_ok; try done; destruct s; cbn; try done; lia.
Qed.

(** ** Snapshots *)

Lemma orderedRecords_ok s :
  wf s -> Forall (fun r => exists id, s_records s !! id = Some r) (orderedRecords s).
Proof.
  intros Hwf. apply Forall_forall. intros r (id&_&Hr)%list_elem_of_omap. eauto.
Qed.

Lemma snapshot_valid s : wf s -> snapshot_ok (snapshot s).1 /\ s_Sequence (snapshot s).1 = s_sequence s.
Proof.
  intros Hwf. split; [|done].
  assert (orderedRecords (clockNow s).2 = orderedRecords s) as Ho by (by destruct s).
  assert (s_history (clockNow s).2 = s_history s) as Hh by (by destruct s).
  unfold snapshot. unfold clockNow in *. cbn [fst snd] in *. unfold lifetimes. rewrite Ho, Hh.
  pose proof (orderedRecords_ok s Hwf) as Hall.
  pose proof (activeOf_ids (s_records s) (s_order s) (wf_ids_match s Hwf)
    (fun id => proj1 (wf_order s Hwf id))) as Hids. unfold activeOf in Hids.
  assert (length (orderedRecords s) = length (s_order s)) as Hlen.
  { rewrite <-Hids, length_fmap, length_map. done. }
  pose proof (wf_history s Hwf) as Hst.
  split; cbn [s_Active s_Lifetimes s_History].
  - unfold zlen. rewrite length_map, Hlen, <-(wf_length s Hwf). apply Hwf.
  - destruct (s_history s) as [st|]; [|done]. unfold Entries, zlen. rewrite length_map. apply Hst.
  - apply List.Forall_map. eapply Forall_impl; [exact Hall|]. intros r (id&Hr). by eapply (wf_records s Hwf).
  - unfold orderedRecords. rewrite Hids. apply Hwf.
  - apply List.Forall_map. eapply Forall_impl; [exact Hall|]. intros r (id&Hr).
    apply (wf_records s Hwf) in Hr as [Hid Hrange _ _ Ht _]. apply lifetime_valid; [done|lia].
  - rewrite <-!list_fmap_compose. by apply reflexivity.
  - destruct (s_history s) as [st|]; [|done]. unfold Entries. apply List.Forall_map. apply Hst.
  - destruct (s_history s) as [st|]; [|constructor]. unfold Entries. destruct Hst as [[Hnd _ _ _ _] _].
    unfold IDs in Hnd. rewrite <-list_fmap_compose. exact Hnd.
Qed.

End Timer.
