(* ===== verification/OwnerRun.v ===== *)
(** * internal/state: runs of the owner's loop

    The command handler, the loop and its start keep the invariants, so they
    hold in every reachable state; the generation gate and the timer are
    invariants of runs as well. *)
From stdpp Require Import gmap strings list fin_maps.
From Stdlib Require Import ZArith Lia Strings.Byte.
From S2P Require Import Prelude GoLib Protocol Notify History Owner OwnerInv OwnerOps OwnerAdd OwnerCmd OwnerTime.
Local Open Scope string_scope.
Local Open Scope list_scope.
Local Open Scope Z_scope.

Definition label_typed (l : label) : Prop :=
  match l with LDo c _ _ => command_typed c | _ => True end.

Section Run.
Context `{MonotonicClock, Sink, PngLaws, Sha256Laws}.

(** ** One round *)

Lemma snapshot_tick s : (snapshot s).2 = (clockNow s).2.
Proof. by destruct s. Qed.

Lemma snapshot_view s sn s' : snapshot s = (sn, s') -> snapshotView sn = view s /\ s_Sequence sn = s_sequence s.
Proof. unfold snapshot, clockNow. intros [= <- <-]. by destruct s. Qed.

Lemma resync_ok generation s :
  wf s -> producers_ok s ->
  keeps_all s (let '(snap, s) := snapshot s in
    (publish (mkEvent (s_Sequence snap) None None None (Some snap) generation) s).1).
Proof.
  intros Hwf Hp. pose proof (snapshot_valid s Hwf) as [Hsn Hseq]. pose proof (snapshot_tick s) as Ht.
  pose proof (tick_ok s Hwf Hp) as Hk. destruct (snapshot s) as [snap s1] eqn:He. destruct (snapshot_view _ _ _ He) as [Hv Hq]. cbn in *. subst s1.
  eapply keeps_all_trans; [done|]. destruct Hk as [[_ ? _] ?]. apply publish_ok; try done. cbn.
  split_and!; try done; [by destruct s|]. rewrite Hv. by destruct s.
Qed.

Lemma do_ok c s : wf s -> producers_ok s -> command_typed c -> keeps_all s (do_ c s).1.1.
Proof.
  intros Hwf Hp Ht. unfold do_. destruct (gatePresenter c s); [by apply keeps_all_refl|].
  pose proof (tick_ok s Hwf Hp) as Hk. destruct (clockNow s) as [now s1] eqn:Hcn.
  injection Hcn as Hnow Hs1. cbn [snd] in Hk. pose proof Hk as [[_ Hwf1 _] Hp1].
  assert (0 < now <= Now (s_ticks s1)) as Hr.
  { subst now s1. split; [apply Now_pos|]. apply Now_mono. destruct s; cbn. lia. }
  assert (forall id r, s_records s1 !! id = Some r -> timed now r) as Htimed.
  { intros id r Hid. subst now. apply (wf_records s Hwf id). subst s1. by destruct s. }
  clear Hs1. eapply keeps_all_trans; [exact Hk|]. destruct Ht as [Ht1 Ht2 Ht3 _].
  destruct (cm_Kind c); cbn [fst withZeroResult].
  - apply add_ok; try done; lia.
  - by apply close_ok.
  - by apply close_ok.
  - by apply invokeAction_ok.
  - by apply submitReply_ok.
  - pose proof (renew_ok (cm_Generation c) (cm_Presentations c) now s1 Hwf1 Hp1 Hr Htimed) as Hn.
    by destruct (renew _ _ _ _) as [s2 [e|]].
  - by apply presenterLost_ok.
  - by apply closeAll_ok.
  - by apply clearHistory_ok.
  - by apply removeHistory_ok.
  - by apply markHistorySeen_ok.
  - apply publishProducer_ok; try done; lia.
  - by apply closeProducer_ok.
  - pose proof (resync_ok (cm_Generation c) s1 Hwf1 Hp1) as Hn.
    destruct (snapshot s1) as [snap s2]. by destruct (publish _ s2).
  - by apply keeps_all_refl.
Qed.

Lemma step_ok s l s' : wf s -> producers_ok s -> label_typed l -> step s l s' -> keeps_all s s'.
Proof.
  intros Hwf Hp Hl. destruct 1 as [s c s' r err Hdo|s snap s' Hsn|s d Ht].
  - pose proof (do_ok c s Hwf Hp Hl) as Hk. rewrite Hdo in Hk. cbn in Hk. eapply keeps_all_trans; [done|].
    destruct Hk as [[_ ? _] ?]. by apply resetTimer_ok.
  - assert (s' = (clockNow s).2) as -> by (by rewrite <-snapshot_tick, Hsn). by apply tick_ok.
  - pose proof (handleTimer_ok s Hwf Hp) as Hk. eapply keeps_all_trans; [done|].
    destruct Hk as [[_ ? _] ?]. by apply resetTimer_ok.
Qed.

(** ** The start *)

Lemma start_nextID ids next :
  Forall is_u32 ids -> 1 <= next < 4294967296 ->
  1 <= fold_left (fun next id => Z.max next (wrap32 (id + 1))) ids next < 4294967296.
Proof.
  intros Hids. revert next. induction Hids as [|id ids Hid _ IH]; intros next Hn; cbn; [done|].
  apply IH. pose proof (wrap32_range (id + 1)) as Hw. unfold is_u32 in Hw. lia.
Qed.

(** [start] before the timer is set. *)
Definition boot (sink : option (list Event)) (store : option Store) : ownerState :=
  let s := mkOwnerState 0 sink store ∅ ∅ [] 1 0 0 0 false 0 None 0 in
  match store with
  | None => s
  | Some st =>
      let '(now, s) := clockNow s in
      let s := set_nextHistorySweep (AddTime now HistorySweep) s in
      set_nextID (fold_left (fun next id => Z.max next (wrap32 (id + 1))) (IDs st) (s_nextID s)) s
  end.

Lemma boot_ok sink store :
  match store with Some st => store_wf st | None => True end ->
  wf (boot sink store) /\ producers_ok (boot sink store) /\
  s_sink (boot sink store) = sink /\ s_sequence (boot sink store) = 0 /\
  view (boot sink store) = mkView [] (match store with Some st => Entries st | None => [] end).
Proof.
  intros Hst. assert (forall id : Z, id ∈ @nil Z <-> is_Some ((∅ : gmap Z record) !! id)) as Hempty.
  { intros id. rewrite lookup_empty. split; [by intros ?%elem_of_nil|by intros []]. }
  unfold boot. destruct store as [st|]; cbn; split_and!; try done.
  - split; cbn; try done; try (intros; set_solver); [apply NoDup_nil_2|].
    apply start_nextID; [apply Hst|done].
  - split; cbn; try done; try (intros; set_solver). apply NoDup_nil_2.
Qed.

Lemma start_ok sink store :
  match store with Some st => store_wf st | None => True end ->
  wf (start sink store) /\ producers_ok (start sink store) /\
  s_sink (start sink store) = sink /\ s_sequence (start sink store) = 0 /\
  view (start sink store) = mkView [] (match store with Some st => Entries st | None => [] end).
Proof.
  intros (Hwf&Hp&Hk&Hq&Hv)%(boot_ok sink). change (start sink store) with (resetTimer (boot sink store)).
  pose proof (resetTimer_ok _ Hwf Hp) as [[_ Hwf' _] Hp'].
  assert (forall s, s_sink (resetTimer s) = s_sink s /\ s_sequence (resetTimer s) = s_sequence s /\
    view (resetTimer s) = view s) as Hr.
  { intros s. unfold resetTimer. destruct (IsZero _); by destruct s. }
  destruct (Hr (boot sink store)) as (Ek&Eq&Ev). split_and!; try done; congruence.
Qed.

(** ** Runs *)

Inductive steps : ownerState -> list label -> ownerState -> Prop :=
  | steps_nil s : steps s [] s
  | steps_cons s l s1 ls s2 : step s l s1 -> steps s1 ls s2 -> steps s (l :: ls) s2.

Lemma steps_ok s ls s' : wf s -> producers_ok s -> Forall label_typed ls -> steps s ls s' -> keeps_all s s'.
Proof.
  intros Hwf Hp Hls Hs. revert Hwf Hp Hls. induction Hs as [s|s l s1 ls s2 Hstep _ IH]; intros Hwf Hp Hls.
  - by apply keeps_all_refl.
  - apply Forall_cons in Hls as [Hl Hls]. pose proof (step_ok s l s1 Hwf Hp Hl Hstep) as Hk.
    eapply keeps_all_trans; [done|]. destruct Hk as [[_ ? _] ?]. by apply IH.
Qed.

Definition reachable (sink : option (list Event)) (store : option Store) (s : ownerState) : Prop :=
  exists ls, Forall label_typed ls /\ steps (start sink store) ls s.

Definition start_store_ok (store : option Store) : Prop :=
  match store with Some st => store_wf st | None => True end.

Lemma reachable_ok sink store s :
  start_store_ok store -> reachable sink store s -> wf s /\ producers_ok s.
Proof.
  intros Hst (ls&Hls&Hs). destruct (start_ok sink store Hst) as (Hwf&Hp&_).
  destruct (steps_ok _ _ _ Hwf Hp Hls Hs) as [[_ ? _] ?]. done.
Qed.

Lemma reachable_step sink store s l s' :
  reachable sink store s -> label_typed l -> step s l s' -> reachable sink store s'.
Proof.
  intros (ls&Hls&Hs) Hl Hstep. exists (ls ++ [l]). split; [apply Forall_app; split; [done|by apply Forall_singleton]|].
  clear Hls. induction Hs as [s|s k s1 ls s2 Hk _ IH]; cbn [app]; [by eapply steps_cons, steps_nil|].
  eapply steps_cons; [exact Hk|]. by apply IH.
Qed.

Lemma reachable_do sink store s c s' r err :
  reachable sink store s -> command_typed c -> do_ c s = (s', r, err) -> reachable sink store (resetTimer s').
Proof.
  intros (ls&Hls&Hs) Ht Hd. exists (ls ++ [LDo c r err]). split; [apply Forall_app; split; [done|by apply Forall_singleton]|].
  clear Hls. induction Hs as [s|s l s1 ls s2 Hstep _ IH]; cbn [app].
  - eapply steps_cons; [|apply steps_nil]. by constructor.
  - eapply steps_cons; [exact Hstep|]. by apply IH.
Qed.

Lemma resetTimer_frame s :
  s_records (resetTimer s) = s_records s /\ s_order (resetTimer s) = s_order s /\ s_sink (resetTimer s) = s_sink s.
Proof. unfold resetTimer. destruct (IsZero _); by destruct s. Qed.

(** ** What leaves the presenter's fields alone *)

Lemma ctl_publishDelta d s : ctl (publishDelta d s) = ctl s.
Proof. rewrite publishDelta_eq. by destruct s. Qed.

Lemma ctl_publishRemoved removed s : ctl (publishRemoved removed s) = ctl s.
Proof. rewrite publishRemoved_eq. by apply publishDeltas_frame. Qed.

Lemma ctl_publish e s : ctl (publish e s).1 = ctl s.
Proof. rewrite publish_eq. by destruct s. Qed.

Lemma ctl_set_history st s : ctl (set_history st s) = ctl s.
Proof. by destruct s. Qed.

Lemma ctl_recordHistory r st s : ctl (recordHistory r st s) = ctl s.
Proof.
  unfold recordHistory, clockNow. destruct (match r_historyImage r with Some _ => _ | None => _ end) as [st' [e|[en removed]]].
  - by destruct s.
  - destruct (h_ID en =? 0); rewrite ?ctl_publishDelta, ctl_publishRemoved; by destruct s.
Qed.

Lemma ctl_close id reason s : ctl (close id reason s).1 = ctl s.
Proof.
  unfold close. destruct (s_records s !! id) as [r|]; [|done].
  set (s1 := publishDelta _ _).
  assert (ctl s1 = ctl s) as Hs1.
  { unfold s1. rewrite ctl_publishDelta. unfold dropProducerKey. destruct s; cbn. by destruct (negb _ && _). }
  destruct (s_history s1); [|done]. destruct (_ || _); [done|]. cbn [fst]. by rewrite ctl_recordHistory.
Qed.

Lemma ctl_closeAll ids reason s err : ctl (closeAll ids reason s err).1 = ctl s.
Proof.
  revert s err. induction ids as [|id ids IH]; intros s err; cbn; [done|].
  pose proof (ctl_close id reason s) as Hc. destruct (close id reason s) as [s1 e]. by rewrite IH.
Qed.

Lemma ctl_add c key prepared now s : ctl (addWithProducerKey c key prepared now s).1.1 = ctl s.
Proof.
  unfold addWithProducerKey. destruct (validateCandidate c now); [done|].
  destruct (s_records s !! cd_ReplacesID c) as [existing|].
  - cbn [fst]. rewrite ctl_publishDelta. destruct s; cbn. by destruct (_ && _).
  - set (s1 := if _ =? MaxActiveNotifications then _ else _).
    assert (ctl s1 = ctl s) as <-.
    { unfold s1. destruct (_ =? _); [|done]. unfold evictCapacityVictim. destruct (_ =? 0); [done|]. apply ctl_close. }
    destruct (ResolveID _ _ _) as [id nextID]. cbn [fst]. rewrite ctl_publishDelta. by destruct s1.
Qed.

Lemma ctl_history_commands :
  (forall s, ctl (clearHistory s).1 = ctl s) /\ (forall ids s, ctl (removeHistory ids s).1 = ctl s) /\
  (forall ids s, ctl (markHistorySeen ids s).1 = ctl s).
Proof.
  split_and!.
  - intros s. unfold clearHistory. destruct (s_history s) as [st|]; [|done]. destruct (Clear st) as [st' [e|removed]];
      [apply ctl_set_history|]. destruct (_ =? 0); cbn [fst]; rewrite ?ctl_publishDelta; apply ctl_set_history.
  - intros ids s. unfold removeHistory. destruct (s_history s) as [st|]; [|done].
    destruct (Remove st ids) as [st' [e|removed]]; cbn [fst]; rewrite ?ctl_publishRemoved; apply ctl_set_history.
  - intros ids s. unfold markHistorySeen. destruct (s_history s) as [st|]; [|done].
    destruct (MarkSeen st ids) as [st' [e|changed]]; [apply ctl_set_history|].
    destruct (_ =? 0); cbn [fst]; rewrite ?ctl_publishDelta; apply ctl_set_history.
Qed.

Lemma ctl_producers now s :
  (forall p, ctl (publishProducer p now s).1.1 = ctl s) /\ (forall p, ctl (closeProducer p s).1.1 = ctl s).
Proof.
  split; intros [p|]; try done.
  - unfold publishProducer. destruct (ProducerRequest_Validate p); [done|].
    set (gone := negb _ && _).
    set (s1 := if gone then set_producerIDs _ _ else s).
    assert (ctl s1 = ctl s) as <- by (unfold s1; destruct gone; by destruct s).
    pose proof (ctl_add (producerCandidate p (if gone then 0 else lookup0 (s_producerIDs s) (pq_Key p)))
      (pq_Key p) None now s1) as Ha.
    destruct (addWithProducerKey _ _ _ _ _) as [[s2 r] [e|]]; cbn in *; [done|]. by destruct s2.
  - unfold closeProducer. destruct (ProducerRequest_Validate p); [done|].
    destruct (_ =? 0); [done|]. destruct (_ !! _); [|by destruct s].
    pose proof (ctl_close (lookup0 (s_producerIDs s) (pq_Key p)) CloseRequestedReason s) as Hc.
    by destruct (close _ _ s).
Qed.

Lemma ctl_actions s :
  (forall id key, ctl (invokeAction id key s).1 = ctl s) /\ (forall id text, ctl (submitReply id text s).1 = ctl s).
Proof.
  split.
  - intros id key. unfold invokeAction. destruct (s_records s !! id) as [r|]; [|done].
    destruct (existsb _ _); [|done]. destruct (cd_Resident _); [apply ctl_publish|]. by rewrite ctl_close, ctl_publish.
  - intros id text. unfold submitReply. destruct (WireCommand_Validate _); [done|].
    destruct (s_records s !! id) as [r|]; [|done].
    destruct (cd_InlineReply _); [|done]. destruct (cd_Resident _); [apply ctl_publish|]. by rewrite ctl_close, ctl_publish.
Qed.

(** A command other than a renewal and the loss of a presenter. *)
Lemma ctl_do c s :
  cm_Kind c <> PresentationRenew -> cm_Kind c <> PresenterLost -> ctl (do_ c s).1.1 = ctl s.
Proof.
  intros Hnr Hnl. unfold do_. destruct (gatePresenter c s); [done|].
  destruct (clockNow s) as [now s1] eqn:Hcn.
  assert (ctl s1 = ctl s) as <- by (injection Hcn as _ <-; by destruct s).
  destruct ctl_history_commands as (?&?&?).
  destruct (cm_Kind c); cbn [fst withZeroResult]; try done; rewrite ?ctl_close, ?ctl_closeAll; auto.
  - apply ctl_add.
  - apply ctl_actions.
  - apply ctl_actions.
  - by apply ctl_producers.
  - by apply (ctl_producers now).
  - assert (ctl (snapshot s1).2 = ctl s1) as Hsn by (by destruct s1). destruct (snapshot s1) as [snap s2].
    pose proof (ctl_publish (mkEvent (s_Sequence snap) None None None (Some snap) (cm_Generation c)) s2) as Hpb.
    destruct (publish _ s2). cbn in *. congruence.
Qed.

End Run.
