(* ===== verification/OwnerGen.v ===== *)
(** * internal/state: presenter generations

    A presenter connection carries a generation.  The owner accepts one
    generation at a time; one that was superseded or retired is refused from
    then on, whatever arrives later. *)
From stdpp Require Import gmap strings list fin_maps.
From Stdlib Require Import ZArith Lia Strings.Byte.
From S2P Require Import Prelude GoLib Protocol Notify History Owner OwnerInv OwnerOps OwnerAdd OwnerCmd OwnerTime OwnerRun.
Local Open Scope string_scope.
Local Open Scope list_scope.
Local Open Scope Z_scope.

(** A generation that lost the right to issue commands. *)
Definition dead (g : Z) (s : ownerState) : Prop :=
  g < s_acceptedGeneration s \/ (g = s_acceptedGeneration s /\ s_presenterRetired s = true).

Definition gens (s : ownerState) := (s_acceptedGeneration s, s_presenterRetired s).

Lemma dead_gens g s s' : gens s' = gens s -> dead g s -> dead g s'.
Proof. unfold gens, dead. intros [= -> ->]. done. Qed.

Lemma ctl_gens s s' : ctl s' = ctl s -> gens s' = gens s.
Proof. unfold ctl, gens. congruence. Qed.

(** The commands a presenter connection issues. *)
Definition presenterKind (k : CommandKind) : bool :=
  match k with
  | Dismiss | InvokeAction | SubmitReply | DismissAll | HistoryClear | HistoryRemove
  | HistoryMarkSeen | ProducerPublish | ProducerClose => true
  | _ => false
  end.

Section Generations.
Context `{MonotonicClock, Sink, PngLaws, Sha256Laws}.

Lemma gens_clearPresentation t s : gens (clearPresentation t s) = gens s.
Proof. by destruct s. Qed.

Lemma gens_resetTimer s : gens (resetTimer s) = gens s.
Proof. unfold resetTimer. destruct (IsZero _); by destruct s. Qed.

Lemma gens_expireAll now ids s : ctl (fold_left (expireOne now) ids s) = ctl s.
Proof.
  revert s. induction ids as [|id ids IH]; intros s; cbn; [done|]. rewrite IH. unfold expireOne.
  destruct (s_records s !! id); [|done]. destruct (_ && _); [|done]. apply ctl_close.
Qed.

Lemma gens_sweepDue now s : gens (sweepDue now s) = gens s.
Proof.
  unfold sweepDue. destruct (_ && _); [|done]. set (s1 := match s_history s with Some _ => _ | None => _ end).
  assert (gens s1 = gens s) as <-.
  { unfold s1. destruct (s_history s) as [st|]; [|done]. destruct (Sweep st now) as [st' [e|removed]].
    - by destruct s.
    - apply ctl_gens. rewrite ctl_publishRemoved. by destruct s. }
  by destruct s1.
Qed.

Lemma gens_handleTimer s : gens (handleTimer s) = gens s.
Proof.
  unfold handleTimer, clockNow. rewrite (ctl_gens _ _ (gens_expireAll _ _ _)).
  transitivity (gens (sweepDue (Now (s_ticks s)) (set_ticks (S (s_ticks s)) s))).
  - unfold leaseDue. destruct (_ && _); [apply gens_clearPresentation|done].
  - rewrite gens_sweepDue. by destruct s.
Qed.

(** A renewal is accepted from the newest generation that was not retired, and
    makes its generation the accepted one. *)
Lemma renew_gens generation presentations now s s' err :
  renew generation presentations now s = (s', err) ->
  (exists e, err = Some e /\ s' = s) \/
  (err = None /\ generation <> 0 /\ (s_acceptedGeneration s = 0 \/ s_acceptedGeneration s <= generation) /\
   (s_acceptedGeneration s = generation -> s_presenterRetired s = false) /\
   s_acceptedGeneration s' = generation /\ s_presenterRetired s' = false /\
   s_presenterGeneration s' = generation /\ s_leaseDeadline s' = AddTime now PresentationLease).
Proof.
  unfold renew. destruct (Z.eqb_spec generation 0) as [|Hg]; [intros [= <- <-]; eauto|].
  destruct (WireCommand_Validate _); [intros [= <- <-]; eauto|].
  destruct (negb (s_acceptedGeneration s =? 0) && _) eqn:Hold; [intros [= <- <-]; eauto|].
  destruct (s_presenterRetired s && _) eqn:Hret; [intros [= <- <-]; eauto|].
  set (s1 := if negb _ && _ then _ else _). intros [= <- <-]. right.
  assert (forall f n, let s2 := presentAll f n (set_leaseDeadline (AddTime now PresentationLease)
    (set_presenterGeneration generation (set_presenterRetired false (set_acceptedGeneration generation s1)))) in
    s_acceptedGeneration s2 = generation /\ s_presenterRetired s2 = false /\
    s_presenterGeneration s2 = generation /\ s_leaseDeadline s2 = AddTime now PresentationLease) as Hf
    by (intros f n; clearbody s1; by destruct s1).
  split_and!; try done; try apply Hf.
  - apply andb_false_iff in Hold as [Hz%negb_false_iff%Z.eqb_eq|Hlt%Z.ltb_ge]; auto.
  - intros Heq. apply andb_false_iff in Hret as [?|Hne%Z.eqb_neq]; [done|congruence].
Qed.

Lemma presenterLost_gens generation nextGeneration now s :
  let s' := presenterLost generation nextGeneration now s in
  (s_acceptedGeneration s < nextGeneration /\ s_acceptedGeneration s' = nextGeneration /\ s_presenterRetired s' = false) \/
  (nextGeneration <= s_acceptedGeneration s /\ s_acceptedGeneration s' = s_acceptedGeneration s /\
   (s_presenterRetired s' = s_presenterRetired s \/ s_presenterRetired s' = true)).
Proof.
  cbn zeta. unfold presenterLost. set (s1 := if negb _ && _ then _ else _).
  assert (gens s1 = gens s) as [= Ea Er] by (unfold s1; destruct (negb _ && _); [apply gens_clearPresentation|done]).
  rewrite <-Ea, <-Er. clearbody s1. clear Ea Er.
  destruct (Z.ltb_spec (s_acceptedGeneration s1) nextGeneration); [left; by destruct s1|right].
  destruct (_ && _); destruct s1; cbn; auto.
Qed.

Lemma do_gens c s :
  0 <= s_acceptedGeneration s -> 0 <= cm_Generation c ->
  let s' := (do_ c s).1.1 in
  gens s' = gens s \/ s_acceptedGeneration s < s_acceptedGeneration s' \/
  (s_acceptedGeneration s' = s_acceptedGeneration s /\ (s_presenterRetired s = true -> s_presenterRetired s' = true)).
Proof.
  intros Hpos Hcg. cbn zeta. destruct (decide (cm_Kind c = PresentationRenew)) as [Hk|Hn1]; [|destruct (decide (cm_Kind c = PresenterLost)) as [Hk|Hn2]].
  - unfold do_, gatePresenter. rewrite Hk. destruct (clockNow s) as [now s1] eqn:Hcn.
    assert (gens s1 = gens s) as [= Ea Er] by (injection Hcn as _ <-; by destruct s). unfold gens. rewrite <-Ea, <-Er in *.
    destruct (renew _ _ _ _) as [s2 err] eqn:Hr. destruct (renew_gens _ _ _ _ _ _ Hr)
      as [(e&->&->)|(->&Hg&Hle&Hret&Ha&Hr2&_)]; cbn [fst]; [by left|]. right. rewrite Ha, Hr2.
    destruct (decide (s_acceptedGeneration s1 = cm_Generation c)) as [Heq|Hne].
    + right. split; [done|]. rewrite (Hret Heq). done.
    + left. lia.
  - unfold do_, gatePresenter. rewrite Hk. destruct (clockNow s) as [now s1] eqn:Hcn.
    assert (gens s1 = gens s) as [= <- <-] by (injection Hcn as _ <-; by destruct s). cbn [fst].
    destruct (presenterLost_gens (cm_Generation c) (cm_NextGeneration c) now s1) as [(?&?&?)|(?&?&Hr)]; right.
    + left. lia.
    + right. split; [done|]. intros Ht. destruct Hr as [->| ->]; done.
  - left. by apply ctl_gens, ctl_do.
Qed.

(** Every round of the loop moves the accepted generation forward, and keeps a
    retired one retired until it is superseded. *)
Lemma step_gens s l s' :
  0 <= s_acceptedGeneration s -> step s l s' -> label_typed l ->
  s_acceptedGeneration s <= s_acceptedGeneration s' /\ forall g, 0 < g -> dead g s -> dead g s'.
Proof.
  intros Hpos Hstep Hl. assert (gens s' = gens s -> s_acceptedGeneration s <= s_acceptedGeneration s' /\
    forall g, 0 < g -> dead g s -> dead g s') as Hsame.
  { intros Hg. split; [unfold gens in Hg; assert (s_acceptedGeneration s' = s_acceptedGeneration s) by congruence; lia|].
    intros g _. by apply dead_gens. }
  destruct Hstep as [s c s' r err Hdo|s snap s' Hsn|s d Ht].
  - pose proof (do_gens c s Hpos (proj1 (ct_generation c Hl))) as Hd. rewrite Hdo in Hd. cbn [fst] in Hd.
    pose proof (gens_resetTimer s') as [= Ea Er].
    destruct Hd as [Hg|[Hlt|[Heq Hret]]].
    + apply Hsame. by rewrite <-Hg, <-(gens_resetTimer s').
    + rewrite Ea. split; [lia|]. intros g _ [|[-> _]]; left; lia.
    + rewrite Ea. split; [lia|]. intros g _ [Hlt|[-> Hr]]; [left; lia|right]. split; [congruence|]. rewrite Er. auto.
  - apply Hsame. assert (s' = (clockNow s).2) as -> by (by rewrite <-snapshot_tick, Hsn). by destruct s.
  - apply Hsame. by rewrite gens_resetTimer, gens_handleTimer.
Qed.

Lemma steps_gens s ls s' :
  0 <= s_acceptedGeneration s -> Forall label_typed ls -> steps s ls s' ->
  s_acceptedGeneration s <= s_acceptedGeneration s' /\ forall g, 0 < g -> dead g s -> dead g s'.
Proof.
  intros Hpos Hls Hs. revert Hpos Hls. induction Hs as [s|s l s1 ls s2 Hstep _ IH]; intros Hpos Hls; [done|].
  apply Forall_cons in Hls as [Hl Hls]. destruct (step_gens s l s1 Hpos Hstep Hl) as [Hle Hd].
  destruct IH as [Hle' Hd']; [lia|done|]. split; [lia|]. auto.
Qed.

(** A dead generation is refused: nothing but a reading of the clock happens. *)
Lemma dead_refused c s :
  0 < cm_Generation c -> dead (cm_Generation c) s ->
  (presenterKind (cm_Kind c) = true -> do_ c s = (s, zeroResult, Some ErrStale)) /\
  (cm_Kind c = PresentationRenew -> exists e, do_ c s = ((clockNow s).2, zeroResult, Some e)).
Proof.
  intros Hg Hd. split.
  - intros Hk. unfold do_. assert (gatePresenter c s = requirePresenter (cm_Generation c) s) as ->.
    { unfold gatePresenter. by destruct (cm_Kind c). }
    unfold requirePresenter. rewrite (proj2 (Z.eqb_neq _ _)) by lia.
    assert (s_presenterRetired s || negb (cm_Generation c =? s_acceptedGeneration s) = true) as ->; [|done].
    destruct Hd as [Hlt|[_ ->]]; [|done]. rewrite (proj2 (Z.eqb_neq _ _)) by lia. apply orb_true_r.
  - intros Hk. unfold do_, gatePresenter. rewrite Hk. destruct (clockNow s) as [now s1] eqn:Hcn.
    assert (gens s1 = gens s) as Hgs by (injection Hcn as _ <-; by destruct s). cbn [snd].
    apply (dead_gens _ _ _ Hgs) in Hd. destruct (renew _ _ _ _) as [s2 err] eqn:Hr.
    destruct (renew_gens _ _ _ _ _ _ Hr) as [(e&->&->)|(->&_&Hle&Hret&_)]; [by exists e|].
    exfalso. destruct Hd as [Hlt|[Heq Ht]]; [lia|]. rewrite Hret in Ht by done. done.
Qed.

(** ** Claims *)

(** C8: once a generation is superseded by a newer one, or retired by the loss
    of its connection, every later command of that generation is refused, in
    every state the loop can reach: the commands a presenter issues answer
    [ErrStale] and leave the state as it is, and a renewal answers an error and
    only reads the clock. *)
Theorem generation_fenced s ls s' c :
  0 <= s_acceptedGeneration s -> Forall label_typed ls -> steps s ls s' ->
  0 < cm_Generation c -> dead (cm_Generation c) s ->
  (presenterKind (cm_Kind c) = true -> do_ c s' = (s', zeroResult, Some ErrStale)) /\
  (cm_Kind c = PresentationRenew -> exists e, do_ c s' = ((clockNow s').2, zeroResult, Some e)).
Proof.
  intros Hpos Hls Hs Hg Hd. apply dead_refused; [done|]. by apply (steps_gens s ls s' Hpos Hls Hs).
Qed.

(** The accepted generation never goes back along a run of the loop. *)
Theorem accepted_generation_monotone s ls s' :
  0 <= s_acceptedGeneration s -> Forall label_typed ls -> steps s ls s' ->
  s_acceptedGeneration s <= s_acceptedGeneration s'.
Proof. intros Hpos Hls Hs. by apply (steps_gens s ls s' Hpos Hls Hs). Qed.

(** The loss of the accepted generation with no successor retires it, and
    the loss of any generation with a newer successor hands over to the
    successor; in both cases the lost generation is dead from then on. *)
Theorem presenterLost_fences generation nextGeneration now s :
  0 < generation -> generation = s_acceptedGeneration s -> nextGeneration = 0 \/ generation < nextGeneration ->
  dead generation (presenterLost generation nextGeneration now s).
Proof.
  intros Hg Heq Hnext. unfold presenterLost. set (s1 := if negb _ && _ then _ else _).
  assert (gens s1 = gens s) as [= Ea Er] by (unfold s1; destruct (negb _ && _); [apply gens_clearPresentation|done]).
  clearbody s1. rewrite Ea. destruct Hnext as [->|Hlt].
  - rewrite (proj2 (Z.ltb_ge _ _)) by lia. rewrite <-Heq, Z.eqb_refl, (proj2 (Z.eqb_neq _ _)) by lia.
    right. destruct s1; cbn in *. by rewrite Ea.
  - rewrite (proj2 (Z.ltb_lt _ _)) by lia. left. by destruct s1.
Qed.

End Generations.
