(* ===== verification/OwnerExpiry.v ===== *)
(** * internal/state: expiry

    The timer closes exactly the records that are due, it is always armed early
    enough, and pausing a record costs it no time. *)
From stdpp Require Import gmap strings list fin_maps.
From Stdlib Require Import ZArith Lia Strings.Byte.
From S2P Require Import Prelude GoLib Protocol Notify History Owner OwnerInv OwnerOps OwnerAdd OwnerCmd OwnerTime OwnerRun.
Local Open Scope string_scope.
Local Open Scope list_scope.
Local Open Scope Z_scope.

(** ** What the timer closes *)

Definition due (now : Time) (r : record) : bool := r_hasDeadline r && negb (After (r_deadline r) now).

Definition leaseOver (now : Time) (s : ownerState) : bool :=
  negb (IsZero (s_leaseDeadline s)) && negb (After (s_leaseDeadline s) now).

(** A record at the reading [now], after a lease that is over was given up. *)
Definition atReading (now : Time) (s : ownerState) (r : record) : record :=
  if leaseOver now s then setPresentation PresentationSuppressed (s_leaseDeadline s) r else r.

Section Expiry.
Context `{MonotonicClock, Sink, PngLaws, Sha256Laws}.

Lemma expireAll_lookup now ids s id :
  wf s -> producers_ok s -> NoDup ids ->
  s_records (fold_left (expireOne now) ids s) !! id =
  if bool_decide (id ∈ ids)
  then match s_records s !! id with Some r => if due now r then None else Some r | None => None end
  else s_records s !! id.
Proof.
  revert s. induction ids as [|i ids IH]; intros s Hwf Hp Hnd; cbn; [done|].
  apply NoDup_cons in Hnd as [Hi Hnd].
  destruct (expireOne_ok now s i Hwf Hp) as [[_ Hwf1 _] Hp1]. rewrite IH by done.
  assert (forall j, s_records (expireOne now s i) !! j =
    if bool_decide (j = i) then match s_records s !! j with Some r => if due now r then None else Some r | None => None end
    else s_records s !! j) as Hone.
  { intros j. unfold expireOne. destruct (s_records s !! i) as [r|] eqn:Hr.
    - fold (due now r). destruct (due now r) eqn:Hd.
      + destruct (close_spec i CloseExpired s Hwf eq_refl (mk_is_Some _ _ Hr)) as (s'&->&Hc). cbn.
        rewrite (ct_records _ _ _ _ Hc), lookup_delete. destruct (bool_decide_reflect (j = i)) as [->|Hj].
        * by rewrite decide_True, Hr, Hd.
        * by rewrite decide_False by congruence.
      + destruct (bool_decide_reflect (j = i)) as [->|]; [|done]. by rewrite Hr, Hd.
    - destruct (bool_decide_reflect (j = i)) as [->|]; [|done]. by rewrite Hr. }
  rewrite Hone. destruct (decide (id = i)) as [->|Hne].
  - rewrite (bool_decide_eq_false_2 (i ∈ ids)), !bool_decide_eq_true_2 by set_solver. done.
  - rewrite (bool_decide_eq_false_2 (id = i)) by done. destruct (decide (id ∈ ids)).
    + rewrite !bool_decide_eq_true_2 by set_solver. done.
    + rewrite !bool_decide_eq_false_2 by set_solver. done.
Qed.

Lemma sweepDue_frame now s :
  let s' := sweepDue now s in
  s_records s' = s_records s /\ s_order s' = s_order s /\ s_leaseDeadline s' = s_leaseDeadline s.
Proof.
  cbn zeta. unfold sweepDue. destruct (_ && _); [|done]. destruct (s_history s) as [st|]; [|by destruct s].
  destruct (Sweep st now) as [st' [e|removed]]; [by destruct s|]. rewrite publishRemoved_eq, publishDeltas_eq.
  by destruct s.
Qed.

Lemma leaseDue_lookup now s id :
  wf s -> s_records (leaseDue now s) !! id = atReading now s <$> s_records s !! id.
Proof.
  intros Hwf. unfold leaseDue, atReading. fold (leaseOver now s). destruct (leaseOver now s).
  - assert (s_records (clearPresentation (s_leaseDeadline s) s) =
      s_records (presentAll (fun _ => PresentationSuppressed) (s_leaseDeadline s) s)) as -> by (by destruct s).
    by rewrite presentAll_lookup.
  - by destruct (s_records s !! id).
Qed.

Lemma handleTimer_lookup s id :
  wf s -> producers_ok s ->
  s_records (handleTimer s) !! id =
  match s_records s !! id with
  | Some r => let now := Now (s_ticks s) in
              if due now (atReading now s r) then None else Some (atReading now s r)
  | None => None
  end.
Proof.
  intros Hwf Hp. unfold handleTimer.
  pose proof (tick_ok s Hwf Hp) as Hk0. pose proof Hk0 as [[_ Hwf0 _] Hp0]. unfold clockNow in *. cbn [snd] in *.
  set (s0 := set_ticks (S (s_ticks s)) s) in *. set (now := Now (s_ticks s)).
  pose proof (sweepDue_ok now _ Hwf0 Hp0) as [[_ Hwf1 Ht1] Hp1].
  assert (now <= Now (s_ticks (sweepDue now s0))) as Hnow.
  { apply Now_mono. etrans; [|exact Ht1]. unfold s0. destruct s; cbn; lia. }
  pose proof (leaseDue_ok _ _ Hwf1 Hp1 Hnow) as [[_ Hwf2 _] Hp2].
  destruct (sweepDue_frame now s0) as (Er&_&El). rewrite expireAll_lookup by (try done; apply Hwf2).
  assert (s_records s0 = s_records s /\ s_leaseDeadline s0 = s_leaseDeadline s) as [Er0 El0] by (by destruct s).
  assert (forall r, atReading now (sweepDue now s0) r = atReading now s r) as Hat.
  { intros r. unfold atReading, leaseOver. by rewrite El, El0. }
  pose proof (leaseDue_lookup now _ id Hwf1) as Hl. rewrite Er, Er0 in Hl.
  case_bool_decide as Hin; [rewrite Hl|]; destruct (s_records s !! id) as [r|]; cbn in *; rewrite ?Hat in *; try done.
  exfalso. apply Hin, (wf_order _ Hwf2). by rewrite Hl.
Qed.

(** ** The timer *)

(** The instants the owner has to wake for. *)
Definition deadlines (s : ownerState) : list Time :=
  (if IsZero (s_nextHistorySweep s) then [] else [s_nextHistorySweep s]) ++
  (if IsZero (s_leaseDeadline s) then [] else [s_leaseDeadline s]) ++
  map r_deadline (List.filter r_hasDeadline (orderedRecords s)).

(** [next] is the earliest of [ds], or 0 when there is none. *)
Definition earliest (next : Time) (ds : list Time) : Prop :=
  (ds = [] /\ next = 0) \/ (next ∈ ds /\ next <> 0 /\ forall d, d ∈ ds -> next <= d).

Lemma earliest_earlier next ds d :
  earliest next ds -> d <> 0 -> earliest (earlier d next) (ds ++ [d]).
Proof.
  intros He Hd. right. unfold earlier, IsZero, Before. destruct He as [[-> ->]|(Hin&Hn&Hall)].
  - cbn. split_and!; [set_solver|done|]. intros d' ->%list_elem_of_singleton. lia.
  - rewrite (proj2 (Z.eqb_neq next 0)) by done. cbn. destruct (Z.ltb_spec d next); split_and!; try set_solver;
      intros d' [Hd'| ->%list_elem_of_singleton]%elem_of_app; try lia; specialize (Hall d' Hd'); lia.
Qed.

Lemma nextWake_fold rs next ds :
  earliest next ds -> Forall (fun r => r_hasDeadline r = true -> r_deadline r <> 0) rs ->
  earliest (fold_left (fun next r => if r_hasDeadline r then earlier (r_deadline r) next else next) rs next)
    (ds ++ map r_deadline (List.filter r_hasDeadline rs)).
Proof.
  intros He Hrs. revert next ds He. induction Hrs as [|r rs Hr _ IH]; intros next ds He; cbn; [by rewrite app_nil_r|].
  destruct (r_hasDeadline r); cbn; [|by apply IH]. rewrite cons_middle, app_assoc. apply IH, earliest_earlier; auto.
Qed.

Lemma nextWake_earliest s : wf s -> earliest (nextWake s) (deadlines s).
Proof.
  intros Hwf. unfold nextWake, deadlines. rewrite app_assoc. apply nextWake_fold.
  - destruct (IsZero (s_nextHistorySweep s)) eqn:Hs, (IsZero (s_leaseDeadline s)) eqn:Hl; unfold IsZero in *;
      rewrite ?Z.eqb_neq, ?Z.eqb_eq in *; cbn.
    + by left.
    + apply (earliest_earlier 0 []); [by left|done].
    + right. rewrite ?app_nil_r. split_and!; [set_solver|done|]. intros d ->%list_elem_of_singleton. lia.
    + apply (earliest_earlier _ [_]); [|done]. right. split_and!; [set_solver|done|].
      intros d ->%list_elem_of_singleton. lia.
  - eapply Forall_impl; [by apply orderedRecords_ok|]. intros r (id&Hr) Hd.
    apply (wf_records s Hwf) in Hr as [_ _ _ _ [_ _ Hdl _] _]. specialize (Hdl Hd). lia.
Qed.

(** The timer, set at some reading taken so far, goes off by every deadline; it
    is off only when there is none. *)
Definition armed (s : ownerState) : Prop :=
  match s_timer s with
  | None => deadlines s = []
  | Some d => 0 <= d /\ exists k, (k < s_ticks s)%nat /\ forall t, t ∈ deadlines s -> AddTime (Now k) d <= Z.max t (Now k)
  end.

Lemma resetTimer_armed s : wf s -> armed (resetTimer s).
Proof.
  intros Hwf. unfold resetTimer.
  assert (wf (set_timer None s)) as Hwf' by (eapply (wf_frame s); try done; try (by destruct s); destruct s; apply Hwf).
  pose proof (nextWake_earliest _ Hwf') as He. set (s1 := set_timer None s) in *.
  assert (s_timer s1 = None) as Ht by (by destruct s). unfold IsZero.
  destruct (Z.eqb_spec (nextWake s1) 0) as [Hz|Hz].
  - unfold armed. rewrite Ht. destruct He as [[Hd _]|(_&Hn&_)]; [done|congruence].
  - destruct He as [[_ Hn]|(_&_&Hmin)]; [congruence|]. cbn [clockNow]. set (d := Z.max 0 _).
    assert (forall n t, deadlines (set_timer t (set_ticks n s1)) = deadlines s1 /\ s_ticks (set_timer t (set_ticks n s1)) = n /\
      s_timer (set_timer t (set_ticks n s1)) = t) as Hf by (intros n t; clearbody s1; by destruct s1).
    unfold armed, clockNow. destruct (Hf (S (s_ticks s1)) (Some d)) as (->&->&->). split; [unfold d; lia|].
    exists (s_ticks s1). split; [lia|]. intros t Hin. specialize (Hmin t Hin).
    pose proof (AddTime_SubTime_le (nextWake s1) (Now (s_ticks s1))) as Ha. unfold d. lia.
Qed.

Lemma step_armed s l s' :
  wf s -> producers_ok s -> label_typed l -> armed s -> step s l s' -> armed s'.
Proof.
  intros Hwf Hp Hl Ha Hstep. destruct Hstep as [s c s' r err Hdo|s snap s' Hsn|s d Ht].
  - apply resetTimer_armed. pose proof (do_ok c s Hwf Hp Hl) as [[_ Hw _] _]. by rewrite Hdo in Hw.
  - assert (s' = (clockNow s).2) as -> by (by rewrite <-snapshot_tick, Hsn).
    unfold armed in *. destruct s; cbn in *. destruct s_timer; [|done]. destruct Ha as (?&k&?&?).
    split; [done|]. exists k. split; [lia|done].
  - apply resetTimer_armed. by destruct (handleTimer_ok s Hwf Hp) as [[_ ? _] _].
Qed.

Lemma start_armed sink store : start_store_ok store -> armed (start sink store).
Proof.
  intros Hst. apply resetTimer_armed. by apply boot_ok.
Qed.

Lemma steps_armed s ls s' :
  wf s -> producers_ok s -> Forall label_typed ls -> armed s -> steps s ls s' -> armed s'.
Proof.
  intros Hwf Hp Hls Ha Hs. revert Hwf Hp Hls Ha. induction Hs as [s|s l s1 ls s2 Hstep _ IH]; intros Hwf Hp Hls Ha; [done|].
  apply Forall_cons in Hls as [Hl Hls]. destruct (step_ok s l s1 Hwf Hp Hl Hstep) as [[_ ? _] ?].
  apply IH; try done. exact (step_armed s l s1 Hwf Hp Hl Ha Hstep).
Qed.

Lemma reachable_armed sink store s : start_store_ok store -> reachable sink store s -> armed s.
Proof.
  intros Hst (ls&Hls&Hs). destruct (start_ok sink store Hst) as (Hwf&Hp&_).
  exact (steps_armed _ _ _ Hwf Hp Hls (start_armed sink store Hst) Hs).
Qed.

(** A paused record after its lease is over. *)
Lemma released r lease now base :
  timed base r -> paused r = true -> 0 < r_duration r ->
  let r' := setPresentation PresentationSuppressed lease r in
  r_hasDeadline r' = true /\ r_deadline r' = AddTime lease (r_remaining r) /\
  due now r' = (AddTime lease (r_remaining r) <=? now).
Proof.
  intros [_ Hrun _ _] Hp Hd. cbn zeta. assert (r_hasDeadline r = false) as Hh by (by rewrite Hrun, Hp, andb_false_r).
  unfold due, setPresentation. rewrite decide_False by (unfold paused in Hp; by destruct (r_state r)).
  rewrite Hh, (proj2 (Z.eqb_neq _ _)) by lia. cbn. split_and!; try done. unfold After.
  by rewrite Z.leb_antisym.
Qed.

(** ** Claims *)

(** C5: in every reachable state, a tick of the timer at the reading [now]
    closes exactly the records whose deadline is not after [now] and keeps
    every other record, where a presenter lease that ran out by [now] is first
    given up as of the instant it ran out. *)
Theorem timer_closes_exactly_due sink store s id :
  start_store_ok store -> reachable sink store s ->
  s_records (handleTimer s) !! id =
  match s_records s !! id with
  | Some r => let now := Now (s_ticks s) in
              if due now (atReading now s r) then None else Some (atReading now s r)
  | None => None
  end.
Proof. intros Hst Hr. destruct (reachable_ok sink store s Hst Hr). by apply handleTimer_lookup. Qed.

(** C13: in every reachable state the timer is armed when a record, the
    presenter lease or the history sweep has a deadline, and goes off no later
    than the earliest of them; it is off only when nothing is pending. *)
Theorem timer_always_armed sink store s :
  start_store_ok store -> reachable sink store s -> armed s.
Proof. apply reachable_armed. Qed.

(** A presenter that stops renewing cannot hold a notification: a record
    paused by the presenter exists only under a lease, the timer is armed for
    the end of the lease, and the tick after it starts the record's clock again
    with the time it had left, as of the end of the lease. *)
Theorem lost_presenter_releases sink store s id r :
  start_store_ok store -> reachable sink store s ->
  s_records s !! id = Some r -> paused r = true -> 0 < r_duration r ->
  0 < s_leaseDeadline s /\
  (exists d k, s_timer s = Some d /\ (k < s_ticks s)%nat /\ AddTime (Now k) d <= Z.max (s_leaseDeadline s) (Now k)) /\
  (s_leaseDeadline s <= Now (s_ticks s) ->
   s_records (handleTimer s) !! id =
   let r' := setPresentation PresentationSuppressed (s_leaseDeadline s) r in
   if AddTime (s_leaseDeadline s) (r_remaining r) <=? Now (s_ticks s) then None else Some r').
Proof.
  intros Hst Hr Hid Hp Hd. destruct (reachable_ok sink store s Hst Hr) as [Hwf Hpo].
  pose proof (reachable_armed sink store s Hst Hr) as Ha. pose proof (wf_lease s Hwf) as Hl.
  assert (s_leaseDeadline s <> 0) as Hnz.
  { intros Hz. pose proof (wf_suppressed s Hwf Hz id r Hid) as Hs. unfold paused in Hp. by rewrite Hs in Hp. }
  assert (s_leaseDeadline s ∈ deadlines s) as Hin.
  { unfold deadlines, IsZero. rewrite (proj2 (Z.eqb_neq (s_leaseDeadline s) 0)) by done. set_solver. }
  split_and!; [lia| |].
  - unfold armed in Ha. destruct (s_timer s) as [d|]; [|rewrite Ha in Hin; by apply elem_of_nil in Hin].
    destruct Ha as (_&k&Hk&Hall). exists d, k. auto.
  - intros Hover. rewrite handleTimer_lookup, Hid by done. cbn zeta. unfold atReading, leaseOver, IsZero, After.
    rewrite (proj2 (Z.eqb_neq (s_leaseDeadline s) 0)), (proj2 (Z.ltb_ge _ _)) by lia. cbn [negb andb].
    destruct (released r (s_leaseDeadline s) (Now (s_ticks s)) _ (ro_timed _ _ _ (wf_records s Hwf id r Hid)) Hp Hd)
      as (_&_&->). done.
Qed.

(** Hovering stops a record's clock: the time left when the pointer enters
    is the time left at any later instant, and is what the record gets when it
    is shown again. *)
Theorem hover_stops_clock now later again r :
  timed now r -> 0 < now -> 0 < r_duration r -> paused r = false ->
  let hovered := setPresentation PresentationHovered now r in
  let shown := setPresentation PresentationVisible again hovered in
  r_hasDeadline hovered = false /\ left_at hovered later = left_at r now /\
  0 <= left_at r now <= r_duration r /\
  r_hasDeadline shown = true /\ r_deadline shown = AddTime again (left_at r now).
Proof.
  intros Ht Hpos Hd Hp. cbn zeta. pose proof (left_at_now now r Ht Hpos) as Hrange.
  assert (setPresentation PresentationHovered now r =
    setPresentationFields r PresentationHovered true (left_at r now) (r_deadline r) false) as ->.
  { unfold setPresentation. rewrite decide_False by (unfold paused in Hp; by destruct (r_state r)).
    rewrite (proj2 (Z.eqb_neq _ _)) by lia. done. }
  unfold setPresentation. rewrite decide_False by done. cbn. rewrite (proj2 (Z.eqb_neq _ _)) by lia. done.
Qed.

(** A record that waits in the presenter's queue before it was ever shown
    gets its whole duration when it is shown; one that was shown before goes on
    with the time it had left. *)
Theorem queue_keeps_duration now again r :
  timed now r -> 0 < now -> 0 < r_duration r -> paused r = false ->
  let queued := setPresentation PresentationQueued now r in
  let shown := setPresentation PresentationVisible again queued in
  r_hasDeadline queued = false /\ r_hasDeadline shown = true /\
  r_deadline shown = AddTime again (if r_displayed r then left_at r now else r_duration r).
Proof.
  intros Ht Hpos Hd Hp. cbn zeta.
  assert (setPresentation PresentationQueued now r =
    setPresentationFields r PresentationQueued (r_displayed r)
      (if r_displayed r then left_at r now else r_duration r) (r_deadline r) false) as ->.
  { unfold setPresentation. rewrite decide_False by (unfold paused in Hp; by destruct (r_state r)).
    rewrite (proj2 (Z.eqb_neq _ _)) by lia. done. }
  unfold setPresentation. rewrite decide_False by done. cbn. rewrite (proj2 (Z.eqb_neq _ _)) by lia. cbn.
  by destruct (r_displayed r).
Qed.

End Expiry.
