(* ===== verification/OwnerClaims.v ===== *)
(** * internal/state: what the owner promises

    The claims about whole runs (invariant, refinement of the presenter's view,
    snapshots) and about single commands (adding, bursts, capacity, producers,
    closing, privacy). *)
From stdpp Require Import gmap strings list fin_maps.
From Stdlib Require Import ZArith Lia Ascii Strings.Byte.
From S2P Require Import Prelude GoLib Protocol Notify History Owner OwnerInv OwnerOps OwnerAdd OwnerCmd OwnerTime OwnerRun.
Local Open Scope string_scope.
Local Open Scope list_scope.
Local Open Scope Z_scope.

(** The events the sink was handed between two states. *)
Definition handed (s : ownerState) (evs : list Event) (s' : ownerState) : Prop :=
  s_sink s' = (fun log => log ++ evs) <$> s_sink s.

Section Claims.
Context `{MonotonicClock, Sink, PngLaws, Sha256Laws}.

(** ** Bursts *)

(** The newest match, scanning from the back of the order. *)
Lemma burst_fold c now s ids best :
  let res := fold_left (burstStep c now s) ids best in
  (res = best /\ (best = None -> forall id r, id ∈ ids -> s_records s !! id = Some r -> burstMatch c now r = false) \/
   exists id r, res = Some r /\ id ∈ ids /\ s_records s !! id = Some r /\ burstMatch c now r = true) /\
  (forall b, best = Some b -> exists r, res = Some r /\ r_lastReceived b <= r_lastReceived r) /\
  (forall id r, id ∈ ids -> s_records s !! id = Some r -> burstMatch c now r = true ->
     exists r', res = Some r' /\ r_lastReceived r <= r_lastReceived r').
Proof.
  cbn zeta. revert best. induction ids as [|i ids IH]; intros best; cbn.
  { split_and!; [left; split; [done|]|intros b ->; eauto with lia|]; intros; set_solver. }
  destruct (IH (burstStep c now s best i)) as (Hin&Hbest&Hall).
  remember (fold_left (burstStep c now s) ids (burstStep c now s best i)) as res eqn:Hres. clear Hres IH.
  unfold burstStep in Hin, Hbest. destruct (s_records s !! i) as [e|] eqn:He.
  2: { split_and!; [|done|].
    - destruct Hin as [[-> Hno]|(id&r&?&?&?)]; [left|right].
      + split; [done|]. intros Hb id r [->|Hid]%elem_of_cons Hr; [congruence|]. by eapply Hno.
      + exists id, r. set_solver.
    - intros id r [->|Hid]%elem_of_cons Hr; [congruence|]. by eapply Hall. }
  destruct (burstMatch c now e) eqn:Hm.
  2: { split_and!; [|done|].
    - destruct Hin as [[-> Hno]|(id&r&?&?&?)]; [left|right].
      + split; [done|]. intros Hb id r [->|Hid]%elem_of_cons Hr; [congruence|]. by eapply Hno.
      + exists id, r. set_solver.
    - intros id r [->|Hid]%elem_of_cons Hr Hmr; [congruence|]. by eapply Hall. }
  set (best' := match best with None => Some e | Some d => _ end) in *.
  assert (exists b, best' = Some b /\ r_lastReceived e <= r_lastReceived b /\
    (forall d, best = Some d -> r_lastReceived d <= r_lastReceived b) /\ (b = e \/ best = Some b)) as (b&Hb&Hle&Hge&Hor).
  { unfold best', After. destruct best as [d|].
    - destruct (Z.ltb_spec (r_lastReceived d) (r_lastReceived e)); eexists; split_and!; eauto; try lia; intros ? [= <-]; lia.
    - exists e. split_and!; auto; [lia|done]. }
  clearbody best'. subst best'. destruct (Hbest b eq_refl) as (rb&Hrb&Hlb). split_and!.
  - destruct Hin as [[Hr _]|(id&r&?&?&?)]; [|right; exists id, r; set_solver].
    destruct Hor as [->|Hor]; [right; exists i, e; split_and!; try done; set_solver|].
    left. split; [congruence|]. intros Hn. congruence.
  - intros d Hd. exists rb. split; [done|]. specialize (Hge d Hd). lia.
  - intros id r [->|Hid]%elem_of_cons Hr Hmr.
    + exists rb. split; [done|]. assert (r = e) as -> by congruence. lia.
    + by eapply Hall.
Qed.

(** [burstDuplicate] is the most recently received match, or 0. *)
Lemma burstDuplicate_spec c now s :
  wf s ->
  (burstDuplicate c now s = 0 /\ forall id r, s_records s !! id = Some r -> burstMatch c now r = false) \/
  (exists r, s_records s !! burstDuplicate c now s = Some r /\ burstMatch c now r = true /\
     forall id r', s_records s !! id = Some r' -> burstMatch c now r' = true -> r_lastReceived r' <= r_lastReceived r).
Proof.
  intros Hwf. destruct (burst_fold c now s (reverse (s_order s)) None) as (Hin&_&Hall). unfold burstDuplicate.
  assert (forall id r, s_records s !! id = Some r -> id ∈ reverse (s_order s)) as Hord.
  { intros id r Hr. rewrite elem_of_reverse. apply (wf_order s Hwf). by eexists. }
  destruct Hin as [[-> Hno]|(id&r&Hres&_&Hr&Hm)].
  - left. split; [done|]. intros id r Hr. by eapply Hno; eauto.
  - right. rewrite Hres in *. exists r. rewrite (ro_id _ _ _ (wf_records s Hwf id r Hr)). split_and!; try done.
    intros id' r' Hr' Hm'. destruct (Hall id' r') as (r''&[= <-]&?); eauto.
Qed.

(** ** Capacity *)

Definition none_is (p : record -> bool) (s : ownerState) (ids : list Z) : Prop :=
  forall id r, id ∈ ids -> s_records s !! id = Some r -> p r = false.

(** The first record in display order that is neither critical nor persistent;
    else the first that is not critical; else the first. *)
Definition policyVictim (s : ownerState) (v : Z) : Prop :=
  exists pre post r, s_order s = pre ++ v :: post /\ s_records s !! v = Some r /\
    ((notCriticalExpiring r = true /\ none_is notCriticalExpiring s pre) \/
     (none_is notCriticalExpiring s (s_order s) /\ notCritical r = true /\ none_is notCritical s pre) \/
     (none_is notCritical s (s_order s) /\ pre = [])).

Lemma capacityVictim_policy s : wf s -> s_order s <> [] -> policyVictim s (capacityVictim s).
Proof.
  intros Hwf Hne. pose proof (fun id => order_present s id Hwf) as Hin. unfold capacityVictim, policyVictim.
  destruct (choose_spec notCriticalExpiring (s_records s) (s_order s) Hin) as [[-> Hno1]|(pre&post&r&Ho&Hr&Hp&Hpre)].
  2: { assert (choose notCriticalExpiring (s_records s) (s_order s) <> 0) as Hnz.
    { destruct (choose_in notCriticalExpiring _ _ Hin) as [Hz|Hz]; [|by apply Hin].
      exfalso. destruct (Hin 0) as [_ Hn]; [|done]. rewrite Hz in Ho. rewrite Ho. set_solver. }
    cbn zeta. rewrite !(proj2 (Z.eqb_neq (choose notCriticalExpiring _ _) 0)) by done.
    exists pre, post, r. split_and!; try done. by left. }
  cbn [Z.eqb]. cbn zeta. destruct (choose_spec notCritical (s_records s) (s_order s) Hin) as [[-> Hno2]|(pre&post&r&Ho&Hr&Hp&Hpre)].
  - cbn [Z.eqb]. destruct (s_order s) as [|id order] eqn:Heq; [done|].
    destruct (Hin id ltac:(set_solver)) as [[r Hr] _]. exists [], order, r. split_and!; try done. right. right. done.
  - assert (choose notCritical (s_records s) (s_order s) <> 0) as Hnz.
    { destruct (choose_in notCritical _ _ Hin) as [Hz|Hz]; [|by apply Hin].
      exfalso. destruct (Hin 0) as [_ Hn]; [|done]. rewrite Hz in Ho. rewrite Ho. set_solver. }
    rewrite (proj2 (Z.eqb_neq (choose notCritical _ _) 0)) by done.
    exists pre, post, r. split_and!; try done. right. left. done.
Qed.

(** ** Dismissing everything *)

Lemma closeAll_empties ids reason s :
  wf s -> producers_ok s -> CloseReason_valid reason = true -> ids = s_order s ->
  let '(s', err) := closeAll ids reason s None in s_records s' = ∅ /\ s_order s' = [] /\ err = None.
Proof.
  revert s. induction ids as [|id ids IH]; intros s Hwf Hp Hr Hids; cbn.
  - split_and!; [|done..]. apply map_empty. intros id. pose proof (wf_order s Hwf id) as Ho. rewrite <-Hids in Ho.
    destruct (s_records s !! id) eqn:He; [|done]. exfalso. assert (id ∈ []) as []%elem_of_nil. apply Ho. by eexists.
  - assert (is_Some (s_records s !! id)) as Hs by (apply (wf_order s Hwf); rewrite <-Hids; set_solver).
    destruct (close_spec id reason s Hwf Hr Hs) as (s1&->&Hc). apply IH; [apply Hc| |done|].
    + by eapply producers_close.
    + rewrite (ct_order _ _ _ _ Hc), <-Hids. cbn. by rewrite Z.eqb_refl.
Qed.

(** ** Candidates *)

(** The lineage [sender.Capture] promises. *)
Definition lineage_ok (l : list Process) : Prop :=
  zlen l <= MaxLineageEntries /\ Forall (fun p => p_PID p <> 0 /\ p_StartTime p <> 0) l.

Lemma candidate_ok_accepted c now :
  candidate_ok c -> textOK (cd_AppIcon c) -> lineage_ok (sd_Lineage (cd_Sender c)) -> now <> 0 ->
  validateCandidate c now = None.
Proof.
  intros [] Hicon [Hlin Hprocs] Hnow. unfold validateCandidate, Notification_Validate.
  cbn [notificationFromCandidate n_ID n_Urgency n_Timestamp n_AppName n_AppIcon n_DesktopEntry n_Summary
    n_Body n_Category n_ReplyPlaceholder n_Actions n_Image n_Value n_SenderLineage].
  rewrite !firstErr_None, !failIf_None, validateTexts_None, firstErrDistinct_None, firstErrOf_None, !Forall_cons.
  unfold Urgency_valid, IsZero. rewrite !Z.ltb_ge, negb_false_iff, Z.leb_le, Z.eqb_neq. split_and!; try done.
  - by apply Z.eqb_neq.
  - eapply Forall_impl; [exact co_Actions|]. intros a Ha. cbn in Ha. by rewrite Ha.
  - apply Forall_forall. intros a _. set_solver.
  - eapply Forall_impl; [exact Hprocs|]. intros p [Hp1 Hp2]. cbn.
    by rewrite failIf_None, orb_false_iff, !Z.eqb_neq.
Qed.

(** ** Claims *)

(** C2: every state the owner's loop reaches from a well-formed store satisfies
    the invariant: the display order lists exactly the records, without
    duplicates and at most 128; every record is one the protocol accepts, under
    its own id, with a consistent clock; no id is active and in the history at
    once; the history is well formed; records are presented only under a lease;
    producer keys and records name each other. *)
Theorem owner_invariant sink store s :
  start_store_ok store -> reachable sink store s -> wf s /\ producers_ok s.
Proof. apply reachable_ok. Qed.

(** C1: a presenter that starts from a snapshot and applies the deltas it is
    handed afterwards, in order, holds exactly what the next snapshot would
    tell it, whatever commands and timer ticks the loop handled in between;
    the deltas carry consecutive sequence numbers from the first snapshot's to
    the second's, and the protocol accepts every one of them. *)
Theorem deltas_refine_snapshots sink store s sn1 s1 ls s2 sn2 s3 :
  start_store_ok store -> reachable sink store s -> Forall label_typed ls ->
  step s (LSnapshot sn1) s1 -> steps s1 ls s2 -> step s2 (LSnapshot sn2) s3 ->
  exists evs, handed s1 evs s3 /\ Forall event_ok evs /\
    numbered (s_Sequence sn1) evs (s_Sequence sn2) /\
    fold_left applyEvent evs (snapshotView sn1) = snapshotView sn2.
Proof.
  intros Hst Hr Hls Hsn1 Hs Hsn2. destruct (reachable_ok sink store s Hst Hr) as [Hwf Hp].
  destruct (step_ok s (LSnapshot sn1) s1 Hwf Hp I Hsn1) as [[_ Hwf1 _] Hp1].
  destruct (steps_ok _ _ _ Hwf1 Hp1 Hls Hs) as [[[evs [Hk Hn Hok Hv]] _ _] _].
  inversion Hsn1 as [|? ? ? Hq1|]; subst. inversion Hsn2 as [|? ? ? Hq2|]; subst.
  destruct (snapshot_view _ _ _ Hq1) as [-> ->]. destruct (snapshot_view _ _ _ Hq2) as [-> ->].
  pose proof (snapshot_tick s) as Ht1. rewrite Hq1 in Ht1. cbn [snd] in Ht1.
  pose proof (snapshot_tick s2) as Ht2. rewrite Hq2 in Ht2. cbn [snd] in Ht2. subst s1 s3.
  exists evs. unfold handed. split_and!; try done.
  - etrans; [|exact Hk]. by destruct s2.
  - etrans; [|exact Hn] || (revert Hn; by destruct s).
  - rewrite Hv. by destruct s.
Qed.

(** C14: the snapshot of every reachable state is one [Snapshot.Validate]
    accepts, and it carries the sequence number of the last delta. *)
Theorem snapshots_validate sink store s sn s' :
  start_store_ok store -> reachable sink store s -> step s (LSnapshot sn) s' ->
  Snapshot_Validate sn = None /\ s_Sequence sn = s_sequence s.
Proof.
  intros Hst Hr Hsn. destruct (reachable_ok sink store s Hst Hr) as [Hwf _]. inversion Hsn as [|? ? ? Hq|]; subst.
  rewrite Snapshot_Validate_None. pose proof (snapshot_valid s Hwf) as Hv. by rewrite Hq in Hv.
Qed.

(** C9: an [Add] is refused by validation and then only reads the clock; or it
    replaces the record it names, or the most recent duplicate of a burst, in
    its place of the display order; or it puts a new record at the end of the
    order, under an id that neither an active notification nor the history
    uses, after at most one record was closed to make room. *)
Theorem add_outcome sink store s c s' r err :
  start_store_ok store -> reachable sink store s -> command_typed c -> cm_Kind c = Add ->
  do_ c s = (s', r, err) ->
  let now := Now (s_ticks s) in
  let s1 := (clockNow s).2 in
  let target := if cd_ReplacesID (cm_Candidate c) =? 0 then burstDuplicate (cm_Candidate c) now s1
                else cd_ReplacesID (cm_Candidate c) in
  (exists e, err = Some e /\ r = zeroResult /\ s' = s1) \/
  (err = None /\
   (exists rec, s_records s' !! res_ID r = Some rec /\
      r_notification rec = notificationFromCandidate (res_ID r) (cm_Candidate c) now /\
      r_duration rec = candidateDuration (cm_Candidate c)) /\
   (if res_Replaced r
    then res_ID r = target /\ is_Some (s_records s !! target) /\ s_order s' = s_order s
    else s_records s !! target = None /\ res_ID r ∉ takenIDs (makeRoom s1) /\
         s_order s' = s_order (makeRoom s1) ++ [res_ID r])).
Proof.
  intros Hst Hr Ht Hk. destruct (reachable_ok sink store s Hst Hr) as [Hwf Hp]. cbn zeta.
  unfold do_, gatePresenter. rewrite Hk. pose proof (tick_ok s Hwf Hp) as [[_ Hwf1 _] Hp1].
  unfold clockNow in *. cbn [fst snd] in *. set (s1 := set_ticks (S (s_ticks s)) s) in *. set (now := Now (s_ticks s)).
  assert (0 < now <= Now (s_ticks s1)) as [Hpos Hnow].
  { split; [apply Now_pos|]. apply Now_mono. unfold s1. destruct s; cbn. lia. }
  assert (s_records s1 = s_records s /\ s_order s1 = s_order s) as [<- <-] by (by destruct s).
  unfold add. set (target := if _ =? 0 then burstDuplicate _ _ _ else _).
  assert ((if cd_ReplacesID (cm_Candidate c) =? 0 then set_ReplacesID (burstDuplicate (cm_Candidate c) now s1) (cm_Candidate c)
    else cm_Candidate c) = set_ReplacesID target (cm_Candidate c)) as ->.
  { unfold target. destruct (_ =? 0); [done|]. by destruct (cm_Candidate c). }
  clearbody target. destruct Ht as [Ht1 Ht2 _ _].
  intros (_&_&Ha)%addWithProducerKey_spec; try done; [|by destruct (cm_Candidate c)].
  assert (forall id, notificationFromCandidate id (set_ReplacesID target (cm_Candidate c)) now =
    notificationFromCandidate id (cm_Candidate c) now) as Hn by (intros id; by destruct (cm_Candidate c)).
  assert (candidateDuration (set_ReplacesID target (cm_Candidate c)) = candidateDuration (cm_Candidate c)) as Hd
    by (by destruct (cm_Candidate c)).
  assert (cd_ReplacesID (set_ReplacesID target (cm_Candidate c)) = target) as Htg by (by destruct (cm_Candidate c)).
  destruct Ha as [e _ ->|existing _ Hex Er Eo _ _ _|id _ Hex Hfree Hid Er Eo _ _]; [left; eauto|right|right];
    rewrite ?Htg in *; split_and!; try done; cbn [res_ID res_Replaced]; rewrite Er.
  - eexists. rewrite lookup_insert_eq. split; [done|]. rewrite <-Hn, <-Hd. unfold replaceRecord.
    by destruct (_ && _).
  - eexists. rewrite lookup_insert_eq. split; [done|]. rewrite <-Hn, <-Hd. unfold startRecord.
    by destruct (0 <? _).
Qed.

(** The burst rule: a candidate is merged into the most recently received
    active notification with the same application, summary, body and urgency
    that came within the last five seconds and belongs to no producer; with no
    such notification it is not merged. *)
Theorem burst_merges_newest sink store s c now :
  start_store_ok store -> reachable sink store s ->
  (burstDuplicate c now s = 0 /\ forall id r, s_records s !! id = Some r -> burstMatch c now r = false) \/
  (exists r, s_records s !! burstDuplicate c now s = Some r /\ burstMatch c now r = true /\
     forall id r', s_records s !! id = Some r' -> burstMatch c now r' = true -> r_lastReceived r' <= r_lastReceived r).
Proof. intros Hst Hr. apply burstDuplicate_spec. by apply (reachable_ok sink store s Hst Hr). Qed.

(** With 128 notifications active, making room for another closes exactly
    one, and never a critical one while another is there: the first in display
    order that is neither critical nor persistent, else the first that is not
    critical, else the oldest. *)
Theorem capacity_policy sink store s :
  start_store_ok store -> reachable sink store s ->
  Z.of_nat (size (s_records s)) = MaxActiveNotifications ->
  policyVictim s (capacityVictim s) /\
  s_records (evictCapacityVictim s) = delete (capacityVictim s) (s_records s) /\
  s_order (evictCapacityVictim s) = removeFirst (capacityVictim s) (s_order s).
Proof.
  intros Hst Hr Hfull. destruct (reachable_ok sink store s Hst Hr) as [Hwf Hp].
  destruct (evict_closes s Hwf Hfull) as [_ [_ _ Er Eo _ _ _ _]]. split_and!; try done.
  apply capacityVictim_policy; [done|]. intros Hnil. rewrite (wf_length s Hwf), Hnil in Hfull. done.
Qed.

(** [DismissAll] closes every active notification and answers no error. *)
Theorem dismissAll_empties sink store s c s' r err :
  start_store_ok store -> reachable sink store s -> cm_Kind c = DismissAll -> gatePresenter c s = None ->
  do_ c s = (s', r, err) -> s_records s' = ∅ /\ s_order s' = [] /\ err = None.
Proof.
  intros Hst Hr Hk Hg. destruct (reachable_ok sink store s Hst Hr) as [Hwf Hp].
  unfold do_. rewrite Hg, Hk. pose proof (tick_ok s Hwf Hp) as [[_ Hwf1 _] Hp1].
  unfold clockNow in *. cbn [fst snd] in *. set (s1 := set_ticks _ s) in *.
  pose proof (closeAll_empties (s_order s1) CloseDismissed s1 Hwf1 Hp1 eq_refl eq_refl) as Hc.
  unfold withZeroResult. destruct (closeAll _ _ s1 None) as [s2 e]. cbn. by intros [= <- <- <-].
Qed.

(** Closing a notification that is not active answers [ErrNotFound] and
    changes nothing; closing an active one hands the sink a closed delta first,
    takes the record and only it out of the table and the order, and a
    transient or private notification never reaches the history. *)
Theorem close_outcome_private sink store s id reason :
  start_store_ok store -> reachable sink store s -> CloseReason_valid reason = true ->
  match s_records s !! id with
  | None => close id reason s = (s, Some ErrNotFound)
  | Some r => exists s' evs, close id reason s = (s', None) /\
      handed s (deltaEvent (wrap64 (s_sequence s + 1)) (closedDelta id reason) :: evs) s' /\
      s_records s' = delete id (s_records s) /\ s_order s' = removeFirst id (s_order s) /\
      (cd_Transient (r_candidate r) || cd_Private (r_candidate r) = true ->
       evs = [] /\ s_history s' = s_history s)
  end.
Proof.
  intros Hst Hr Hreason. destruct (reachable_ok sink store s Hst Hr) as [Hwf Hp].
  destruct (s_records s !! id) as [r|] eqn:Hid; [|unfold close; by rewrite Hid].
  destruct (close_spec id reason s Hwf Hreason (mk_is_Some _ _ Hid)) as (s'&Heq&[(evs&[Hk _ _ _]) _ Er Eo _ _ _ _]).
  destruct (cd_Transient _ || _) eqn:Hpriv; [|exists s', evs; by split_and!].
  exists s', []. split_and!; try done; [|intros _; split; [done|]].
  all: revert Heq; unfold close; rewrite Hid, Hpriv.
  all: set (s1 := set_order _ _); assert (s_sink s1 = s_sink s /\ s_sequence s1 = s_sequence s /\ s_history s1 = s_history s)
    as (Es&Eq&Eh) by (unfold s1, dropProducerKey; destruct s; cbn; by destruct (negb _ && _)).
  all: rewrite publishDelta_eq; intros Heq.
  - unfold handed. rewrite <-Es, <-Eq. clearbody s1. destruct s1 as [? ? [st|]]; cbn in *; by injection Heq as <-.
  - rewrite <-Eh. clearbody s1. destruct s1 as [? ? [st|]]; cbn in *; by injection Heq as <-.
Qed.

(** A producer that publishes under its key again replaces its own
    notification: when the key names one, the result has that id and is a
    replacement; when it does not, a new id is taken and the key names it. *)
Theorem producer_key_stable sink store s p now s' r :
  start_store_ok store -> reachable sink store s -> is_i32 (pq_ExpireTimeoutMS p) ->
  0 < now <= Now (s_ticks s) -> publishProducer (Some p) now s = (s', r, None) ->
  s_producerIDs s' !! pq_Key p = Some (res_ID r) /\
  (exists rec, s_records s' !! res_ID r = Some rec /\ r_producerKey rec = pq_Key p) /\
  match s_producerIDs s !! pq_Key p with
  | Some id => res_ID r = id /\ res_Replaced r = true
  | None => res_Replaced r = false
  end.
Proof.
  intros Hst Hr Ht [Hpos Hnow]. destruct (reachable_ok sink store s Hst Hr) as [Hwf Hp].
  unfold publishProducer. destruct (ProducerRequest_Validate p) eqn:Hv; [done|].
  rewrite (producer_replaces s (pq_Key p) Hwf Hp).
  destruct (addWithProducerKey _ _ _ _ _) as [[s1 r1] [e|]] eqn:Heq; [done|]. intros [= <- <-].
  apply addWithProducerKey_spec in Heq as (_&_&Ha); try done.
  split; [destruct s1; cbn; by rewrite lookup_insert_eq|].
  assert (s_records (set_producerIDs (<[pq_Key p := res_ID r1]> (s_producerIDs s1)) s1) = s_records s1) as ->
    by (by destruct s1).
  inversion Ha as [|existing _ Hex Er _ _ _ _|id _ Hex _ _ Er _ _ _]; subst; cbn [res_ID res_Replaced] in *; split;
    try (eexists; rewrite Er, lookup_insert_eq; split; [done|]).
  - unfold replaceRecord. by destruct (_ && _).
  - cbn in *. unfold lookup0 in *. destruct (s_producerIDs s !! pq_Key p); [done|].
    cbn in Hex. pose proof (wf_records s Hwf _ _ Hex) as [_ Hz _ _ _ _]. lia.
  - unfold startRecord. by destruct (0 <? _).
  - cbn in Hex. unfold lookup0 in Hex. destruct (s_producerIDs s !! pq_Key p) as [i|] eqn:Hl; [|done].
    apply (po_key s Hp) in Hl as [_ (rec&Hrec&_)]. cbn in Hex. congruence.
Qed.

(** End to end, a Notify call that [Normalize] accepts is accepted by the
    owner: the candidate passes [validateCandidate], provided the captured
    sender lineage is well formed and no file:// hint supplied the icon. *)
Theorem normalized_accepted `{UrlParser} request c now :
  Normalize request = Some (inr c) -> lineage_ok (sd_Lineage (rq_Sender request)) ->
  fileURIHint (rq_Hints request) = false -> now <> 0 ->
  validateCandidate c now = None.
Proof.
  intros (Hc&Hs&_&Hi)%Normalize_candidate_ok Hlin Hf Hnow. apply candidate_ok_accepted; auto. by rewrite Hs.
Qed.

(** A file:// hint can make the owner refuse the whole call: the hint's text
    is checked before [net/url] decodes its percent escapes, so a path with a
    byte that is not UTF-8 becomes the icon of a candidate [Normalize] returns
    and [validateCandidate] refuses, while a malformed image hint is otherwise
    only dropped. *)
Theorem file_uri_icon_refused `{UrlParser} path now :
  url_Parse "file:///%ff" = inr ("", path) -> path = String "/"%char (String (Ascii.ascii_of_nat 255) "") ->
  exists c e, Normalize (mkRequest "app" "" "summary" "" 0 []
      {[ HintImagePath := AString "file:///%ff" ]} (-1) (mkSender ":1.2" 1 [])) = Some (inr c) /\
    validateCandidate c now = Some e.
Proof.
  intros Hu ->. set (icon := String "/"%char (String (ascii_of_nat 255) "")).
  assert (imagePathIcon "file:///%ff" = (icon, true)) as Hicon by (unfold imagePathIcon; rewrite Hu; reflexivity).
  set (hints := {[ HintImagePath := AString "file:///%ff" ]} : gmap string any).
  assert (forall c, applyImageHints c hints = Some (set_AppIcon icon c)) as Happ.
  { intros c. unfold applyImageHints, hints. rewrite lookup_singleton_ne, lookup_singleton_eq by done.
    change (isNil (validateString "image path" "file:///%ff" true)) with true. cbn [negb].
    by rewrite Hicon. }
  unfold Normalize, normalizeWith. cbn [rq_Hints]. unfold hints in *. rewrite map_to_list_singleton, map_size_singleton.
  match goal with |- context [match ?x with Some e => Some (inl e) | None => _ end] => change x with (@None error) end.
  cbn [parseActions rq_Actions]. rewrite Happ.
  eexists (set_AppIcon icon _). unfold validateCandidate, Notification_Validate.
  destruct (IsZero now) eqn:Hz; eexists; (split; [reflexivity|]); cbn -[IsZero validateTexts]; by rewrite Hz.
Qed.

End Claims.
