(* ===== verification/Connection.v ===== *)
(** * internal/presenter: one presenter connection

    [connection.go].  The state of a connection is guarded by one mutex, so
    every method is a function on the record [connection]; the server, the
    owner, the reader and the writer interleave, and [cstep] is the relation of
    their atomic sections over a [world]: the connection, the owner's sequence
    number, the writer's place in its loop and the bytes on the wire.

    A method that ends in [c.fail()] unlocks first and has changed nothing by
    then; as [fail] can also strike at any time ([ls_fail]), composing the two
    loses no interleaving.  For the same reason the wake-up that [enqueue] and
    [enqueueSnapshot] send after unlocking belongs to their section: nothing
    but the writer reads it.  The hello frame, which precedes everything, is
    not on the modelled wire. *)
From stdpp Require Import gmap strings list.
From Stdlib Require Import ZArith Lia Strings.Byte.
From S2P Require Import Prelude GoLib Protocol Owner OwnerInv.
Local Open Scope string_scope.
Local Open Scope list_scope.
Local Open Scope Z_scope.

(** ** State *)

(** A reply has the sequence 0. *)
Record outbound := mkOutbound { ob_data : list Byte.byte; ob_sequence : Z }.

Record connection := mkConnection {
  cn_queue : list outbound;
  cn_pending : list outbound;
  cn_queuedMessages : Z;
  cn_queuedBytes : Z;
  cn_lastSequence : Z;
  cn_active : bool;
  cn_failed : bool;
  cn_resyncNeeded : bool;
  cn_resyncScheduled : bool;
  cn_resyncFrame : option (list Byte.byte);
  cn_resyncSeq : Z;
  cn_resyncTail : list outbound;
  cn_resyncTailBytes : Z;
  cn_replyHold : option (list Byte.byte);
  cn_wake : bool }.

Definition newConnection : connection :=
  mkConnection [] [] 0 0 0 false false false false None 0 [] 0 None false.

Definition cset_queue v c := match c with mkConnection _ b d e f g h i j k l m n o p => mkConnection v b d e f g h i j k l m n o p end.
Definition cset_pending v c := match c with mkConnection a _ d e f g h i j k l m n o p => mkConnection a v d e f g h i j k l m n o p end.
Definition cset_counts v w c := match c with mkConnection a b _ _ f g h i j k l m n o p => mkConnection a b v w f g h i j k l m n o p end.
Definition cset_lastSequence v c := match c with mkConnection a b d e _ g h i j k l m n o p => mkConnection a b d e v g h i j k l m n o p end.
Definition cset_active v c := match c with mkConnection a b d e f _ h i j k l m n o p => mkConnection a b d e f v h i j k l m n o p end.
Definition cset_failed v c := match c with mkConnection a b d e f g _ i j k l m n o p => mkConnection a b d e f g v i j k l m n o p end.
Definition cset_resync v w c := match c with mkConnection a b d e f g h _ _ k l m n o p => mkConnection a b d e f g h v w k l m n o p end.
Definition cset_frame v w c := match c with mkConnection a b d e f g h i j _ _ m n o p => mkConnection a b d e f g h i j v w m n o p end.
Definition cset_tail v w c := match c with mkConnection a b d e f g h i j k l _ _ o p => mkConnection a b d e f g h i j k l v w o p end.
Definition cset_replyHold v c := match c with mkConnection a b d e f g h i j k l m n _ p => mkConnection a b d e f g h i j k l m n v p end.
Definition cset_wake v c := match c with mkConnection a b d e f g h i j k l m n o _ => mkConnection a b d e f g h i j k l m n o v end.

(** ** Methods *)

(** [None] is a refusal. *)
Definition reserve (m : outbound) (c : connection) : option connection :=
  if (MaxPresenterQueueMessages <=? cn_queuedMessages c) ||
     (MaxPresenterDecodedBytes - zlen (ob_data m) <? cn_queuedBytes c)
  then None
  else Some (cset_counts (cn_queuedMessages c + 1) (cn_queuedBytes c + zlen (ob_data m)) c).

Definition release (m : outbound) (c : connection) : connection :=
  cset_counts (cn_queuedMessages c - 1) (cn_queuedBytes c - zlen (ob_data m)) c.

Definition reserveTail (m : outbound) (c : connection) : option connection :=
  if (MaxPresenterQueueMessages <=? zlen (cn_resyncTail c)) ||
     (MaxPresenterDecodedBytes - zlen (ob_data m) <? cn_resyncTailBytes c)
  then None
  else Some (cset_tail (cn_resyncTail c) (cn_resyncTailBytes c + zlen (ob_data m)) c).

Definition fail (c : connection) : connection := cset_failed true c.

(** A send on the buffered channel [c.queue]; [None] when it is full. *)
Definition send (m : outbound) (c : connection) : option connection :=
  if zlen (cn_queue c) <? MaxPresenterQueueMessages then Some (cset_queue (cn_queue c ++ [m]) c) else None.

Definition prepare (m : outbound) (c : connection) : connection * bool :=
  if cn_failed c then (fail c, false)
  else match reserve m c with
       | None => (fail c, false)
       | Some c => (cset_pending (cn_pending c ++ [m]) c, true)
       end.

(** The loop of [activate] over the pending messages.  [inl] is the early
    return on a sequence gap; a send that would block is [None]. *)
Fixpoint activateLoop (sequence : Z) (pending : list outbound) (c : connection) : option (connection + connection) :=
  match pending with
  | [] => Some (inr c)
  | m :: pending =>
      if ob_sequence m <=? sequence then activateLoop sequence pending (release m c)
      else match ValidateNextSequence (cn_lastSequence c) (ob_sequence m) with
           | Some _ => Some (inl c)
           | None =>
               match send m (cset_lastSequence (ob_sequence m) c) with
               | None => None
               | Some c => activateLoop sequence pending c
               end
           end
  end.

Definition activate (sequence : Z) (c : connection) : option (connection * bool) :=
  if cn_failed c then Some (c, false)
  else match activateLoop sequence (cn_pending c) (cset_lastSequence sequence c) with
       | None => None
       | Some (inl c) => Some (fail c, false)
       | Some (inr c) => Some (cset_active true (cset_pending [] c), true)
       end.

Definition beginResyncLocked (c : connection) : connection * bool :=
  (cset_resync true true c, negb (cn_resyncScheduled c)).

Definition enqueueDelta (m : outbound) (c : connection) : connection * (bool * bool) :=
  if cn_failed c || negb (cn_active c) then (c, (false, false))
  else if cn_resyncNeeded c then
    match cn_resyncFrame c with
    | None => (c, (true, false))
    | Some _ =>
        let expected := wrap64 (wrap64 (cn_resyncSeq c + zlen (cn_resyncTail c)) + 1) in
        if negb (ob_sequence m =? expected) then (fail c, (false, false))
        else match reserveTail m c with
             | None => (fail c, (false, false))
             | Some c => (cset_tail (cn_resyncTail c ++ [m]) (cn_resyncTailBytes c) c, (true, false))
             end
    end
  else match ValidateNextSequence (cn_lastSequence c) (ob_sequence m) with
  | Some _ => (fail c, (false, false))
  | None =>
      match reserve m c with
      | None => let '(c, resync) := beginResyncLocked c in (c, (true, resync))
      | Some c =>
          let c := cset_lastSequence (ob_sequence m) c in
          match send m c with
          | Some c => (c, (true, false))
          | None => let '(c, resync) := beginResyncLocked (release m c) in (c, (true, resync))
          end
      end
  end.

Definition enqueueSnapshot (frame : list Byte.byte) (sequence : Z) (c : connection) : connection * bool :=
  if cn_failed c || negb (cn_active c) || negb (cn_resyncNeeded c) ||
     match cn_resyncFrame c with Some _ => true | None => false end
  then (c, false)
  else (cset_wake true (cset_frame (Some frame) sequence c), true).

(** One turn of the loop of [enqueue]; [None] waits on [replyWait]. *)
Definition enqueue (m : outbound) (c : connection) : option (connection * bool) :=
  if cn_failed c || negb (cn_active c) then Some (fail c, false)
  else match cn_replyHold c with
  | Some _ => None
  | None =>
      let sent := match reserve m c with Some c' => send m c' | None => None end in
      Some (match sent with
            | Some c => (c, true)
            | None => (cset_wake true (cset_replyHold (Some (ob_data m)) c), true)
            end)
  end.

Definition takeReply (c : connection) : connection * option (list Byte.byte) :=
  match cn_replyHold c with
  | None => (c, None)
  | Some frame => (cset_replyHold None c, Some frame)
  end.

(** The loop of [takeResync] that moves the tail over; [None] would block. *)
Fixpoint moveTail (tail : list outbound) (c : connection) : option connection :=
  match tail with
  | [] => Some c
  | m :: tail =>
      match send m c with
      | None => None
      | Some c => moveTail tail (cset_counts (cn_queuedMessages c + 1) (cn_queuedBytes c + zlen (ob_data m)) c)
      end
  end.

Definition takeResync (c : connection) : option (connection * option (list Byte.byte)) :=
  match cn_resyncFrame c with
  | None => Some (c, None)
  | Some frame =>
      if negb (zlen (cn_queue c) =? 0) then Some (c, None)
      else match moveTail (cn_resyncTail c) (cset_frame None (cn_resyncSeq c) c) with
      | None => None
      | Some c =>
          let c := cset_lastSequence (wrap64 (cn_resyncSeq c + zlen (cn_resyncTail c))) c in
          Some (cset_resync false false (cset_frame (cn_resyncFrame c) 0 (cset_tail [] 0 c)), Some frame)
      end
  end.

(** ** The world around a connection *)

(** A frame on the wire, with what it is. *)
Inductive frame :=
  | FSnapshot (data : list Byte.byte) (sequence : Z)
  | FQueued (m : outbound)
  | FReply (data : list Byte.byte).

(** The writer: before [takeReply], before [takeResync], in the [select], after
    the write of a queued message, or gone. *)
Inductive writer := WReply | WResync | WSelect | WWritten (m : outbound) | WStopped.

Record world := mkWorld {
  w_conn : connection;
  w_seq : Z;                (** the owner's sequence number *)
  w_snap : option Z;        (** the handshake's snapshot was taken at *)
  w_writer : option writer; (** [None] before the writer starts *)
  w_wire : list frame }.

(** What the server makes of the owner's stream: the payload of the delta
    numbered [n], and the payloads of the snapshots that may be taken after
    it, which need not be equal: remaining lifetimes go into a snapshot. *)
Class Encoding := { deltaBytes : Z -> list Byte.byte; isSnapshot : Z -> list Byte.byte -> Prop }.

Definition deltaMessage `{Encoding} (n : Z) : outbound := mkOutbound (deltaBytes n) n.

Definition set_conn c w := mkWorld c (w_seq w) (w_snap w) (w_writer w) (w_wire w).
Definition set_writer v w := mkWorld (w_conn w) (w_seq w) (w_snap w) (Some v) (w_wire w).
Definition write f w := mkWorld (w_conn w) (w_seq w) (w_snap w) (w_writer w) (w_wire w ++ [f]).

(** What a connection's own goroutines do: the reader, the writer, and whoever
    fails it. *)
Inductive lstep : world -> world -> Prop :=
  (* the reader hands over a reply *)
  | ls_reply w data c ok :
      enqueue (mkOutbound data 0) (w_conn w) = Some (c, ok) -> lstep w (set_conn c w)
  (* [writeLoop] *)
  | ls_take_reply w c data :
      w_writer w = Some WReply -> takeReply (w_conn w) = (c, Some data) ->
      lstep w (write (FReply data) (set_conn c w))
  | ls_no_reply w c :
      w_writer w = Some WReply -> takeReply (w_conn w) = (c, None) -> lstep w (set_writer WResync (set_conn c w))
  | ls_take_resync w c data :
      w_writer w = Some WResync -> takeResync (w_conn w) = Some (c, Some data) ->
      lstep w (set_writer WReply (write (FSnapshot data (cn_resyncSeq (w_conn w))) (set_conn c w)))
  | ls_no_resync w c :
      w_writer w = Some WResync -> takeResync (w_conn w) = Some (c, None) -> lstep w (set_writer WSelect (set_conn c w))
  | ls_wake w :
      w_writer w = Some WSelect -> cn_wake (w_conn w) = true ->
      lstep w (set_writer WReply (set_conn (cset_wake false (w_conn w)) w))
  | ls_pop w m queue :
      w_writer w = Some WSelect -> cn_queue (w_conn w) = m :: queue ->
      lstep w (set_writer (WWritten m) (write (FQueued m) (set_conn (cset_queue queue (w_conn w)) w)))
  | ls_release w m :
      w_writer w = Some (WWritten m) -> lstep w (set_writer WReply (set_conn (release m (w_conn w)) w))
  (* a failed write, a closed socket, a replaced connection *)
  | ls_fail w : lstep w (set_conn (fail (w_conn w)) w)
  | ls_stop w v : w_writer w = Some v -> cn_failed (w_conn w) = true -> lstep w (set_writer WStopped w).

(** A connection with the server and the owner around it. *)
Inductive cstep `{Encoding} : world -> world -> Prop :=
  (* the owner publishes a delta: [Server.Publish] *)
  | cs_publish_preparing w c ok :
      cn_active (w_conn w) = false -> w_seq w + 1 < 18446744073709551615 ->
      prepare (deltaMessage (w_seq w + 1)) (w_conn w) = (c, ok) ->
      cstep w (mkWorld c (w_seq w + 1) (w_snap w) (w_writer w) (w_wire w))
  | cs_publish_current w c published resync :
      cn_active (w_conn w) = true -> w_seq w + 1 < 18446744073709551615 ->
      enqueueDelta (deltaMessage (w_seq w + 1)) (w_conn w) = (c, (published, resync)) ->
      cstep w (mkWorld c (w_seq w + 1) (w_snap w) (w_writer w) (w_wire w))
  (* [Server.handle]: the snapshot, the hand-over, the first frames, the writer *)
  | cs_snapshot w :
      cn_active (w_conn w) = false -> w_snap w = None ->
      cstep w (mkWorld (w_conn w) (w_seq w) (Some (w_seq w)) (w_writer w) (w_wire w))
  | cs_activate w n c ok :
      cn_active (w_conn w) = false -> w_snap w = Some n -> activate n (w_conn w) = Some (c, ok) ->
      cstep w (set_conn c w)
  | cs_start w n data :
      cn_active (w_conn w) = true -> w_snap w = Some n -> w_writer w = None -> isSnapshot n data ->
      cstep w (mkWorld (w_conn w) (w_seq w) (w_snap w) (Some WReply) (w_wire w ++ [FSnapshot data n]))
  (* the owner answers a resync: [Server.publishSnapshot] *)
  | cs_resync w data c ok :
      isSnapshot (w_seq w) data -> enqueueSnapshot data (w_seq w) (w_conn w) = (c, ok) ->
      cstep w (set_conn c w)
  | cs_local w w' : lstep w w' -> cstep w w'.

Definition cstart (seq : Z) : world := mkWorld newConnection seq None None [].

Inductive creachable `{Encoding} (seq : Z) : world -> Prop :=
  | cr_start : creachable seq (cstart seq)
  | cr_step w w' : creachable seq w -> cstep w w' -> creachable seq w'.

(** ** Runs of sequence numbers *)

(** The deltas of a queue continue [from] without a gap and end at [to]. *)
Fixpoint runsTo (from : Z) (q : list outbound) (to : Z) : Prop :=
  match q with
  | [] => to = from
  | m :: q => if ob_sequence m =? 0 then runsTo from q to
              else ob_sequence m = from + 1 /\ runsTo (from + 1) q to
  end.

(** What a presenter relies on: a delta follows the last one, or the snapshot
    before it, by exactly one; a snapshot does not go back. *)
Fixpoint wireRuns (from : Z) (wire : list frame) (to : Z) : Prop :=
  match wire with
  | [] => to = from
  | FSnapshot _ s :: wire => from <= s /\ wireRuns s wire to
  | FQueued m :: wire => if ob_sequence m =? 0 then wireRuns from wire to
                         else ob_sequence m = from + 1 /\ wireRuns (from + 1) wire to
  | FReply _ :: wire => wireRuns from wire to
  end.

Definition bytesOf (l : list outbound) : Z := foldr (fun m n => zlen (ob_data m) + n) 0 l.

Lemma bytesOf_app l k : bytesOf (l ++ k) = bytesOf l + bytesOf k.
Proof. unfold bytesOf. induction l as [|m l IH]; cbn; [done|]. rewrite IH. lia. Qed.

#[global] Arguments bytesOf : simpl never.

Lemma bytesOf_nil : bytesOf [] = 0.
Proof. done. Qed.

Lemma bytesOf_one m : bytesOf [m] = zlen (ob_data m).
Proof. unfold bytesOf. cbn. lia. Qed.

Lemma bytesOf_nonneg l : 0 <= bytesOf l.
Proof. unfold bytesOf. induction l as [|m l IH]; cbn; [done|]. pose proof (zlen_nonneg (ob_data m)). lia. Qed.

Lemma runsTo_app from q mid q' to : runsTo from q mid -> runsTo mid q' to -> runsTo from (q ++ q') to.
Proof.
  revert from. induction q as [|m q IH]; intros from; cbn; [by intros ->|].
  destruct (_ =? 0); naive_solver.
Qed.

Lemma wireRuns_app from w mid w' to : wireRuns from w mid -> wireRuns mid w' to -> wireRuns from (w ++ w') to.
Proof.
  revert from. induction w as [|[d s|m|d] w IH]; intros from; cbn; [by intros ->|naive_solver| |apply IH].
  destruct (_ =? 0); naive_solver.
Qed.

Section Connections.
Context `{Encoding}.

(** The deltas numbered [from + 1] to [from + k]. *)
Definition deltasAfter (from k : Z) : list outbound := deltaMessage <$> seqZ (from + 1) k.

Lemma deltasAfter_snoc from k : 0 <= k -> deltasAfter from (k + 1) = deltasAfter from k ++ [deltaMessage (from + k + 1)].
Proof.
  intros Hk. unfold deltasAfter. rewrite seqZ_app, fmap_app by lia. f_equal.
  change (seqZ (from + 1 + k) 1) with [from + 1 + k]. by replace (from + 1 + k) with (from + k + 1) by lia.
Qed.

Lemma deltasAfter_split from k j : 0 <= j <= k -> deltasAfter from k = deltasAfter from j ++ deltasAfter (from + j) (k - j).
Proof.
  intros Hj. unfold deltasAfter. rewrite <-fmap_app. f_equal. replace k with (j + (k - j)) at 1 by lia.
  rewrite seqZ_app by lia. by replace (from + 1 + j) with (from + j + 1) by lia.
Qed.

Lemma deltasAfter_cons from k : 0 < k -> deltasAfter from k = deltaMessage (from + 1) :: deltasAfter (from + 1) (k - 1).
Proof. intros Hk. unfold deltasAfter. rewrite seqZ_cons by done. cbn [fmap list_fmap].
  by replace (Z.succ (from + 1)) with (from + 1 + 1) by lia. Qed.

Lemma deltasAfter_nil from : deltasAfter from 0 = [].
Proof. done. Qed.

Lemma deltasAfter_length from k : 0 <= k -> zlen (deltasAfter from k) = k.
Proof. intros Hk. unfold deltasAfter, zlen. rewrite length_fmap, length_seqZ. lia. Qed.

Lemma deltasAfter_runs from k : 0 <= from -> 0 <= k -> runsTo from (deltasAfter from k) (from + k).
Proof.
  intros Hf Hk. revert from Hf. pattern k. apply natlike_ind; [| |done]; clear k Hk.
  - intros from Hf. rewrite deltasAfter_nil. cbn [runsTo]. lia.
  - intros k Hk IH from Hf. rewrite deltasAfter_cons by lia. cbn [runsTo ob_sequence deltaMessage].
    rewrite (proj2 (Z.eqb_neq (from + 1) 0)) by lia. split; [done|].
    replace (Z.succ k - 1) with k by lia. replace (from + Z.succ k) with (from + 1 + k) by lia. apply IH. lia.
Qed.

(** ** The methods on well-formed arguments *)

Lemma ValidateNextSequence_next n : n < 18446744073709551615 -> 0 <= n -> ValidateNextSequence n (n + 1) = None.
Proof.
  intros Hlt Hn. unfold ValidateNextSequence. rewrite wrap64_small by (unfold is_u64; lia).
  by rewrite Z.eqb_refl, (proj2 (Z.eqb_neq _ _)) by lia.
Qed.

(** A list of messages fits the channel. *)
Lemma send_room m c : zlen (cn_queue c) < MaxPresenterQueueMessages -> send m c = Some (cset_queue (cn_queue c ++ [m]) c).
Proof. intros Hlt. unfold send. by rewrite (proj2 (Z.ltb_lt _ _)). Qed.

Lemma activateLoop_release sequence l rest c :
  Forall (fun m => ob_sequence m <= sequence) l ->
  activateLoop sequence (l ++ rest) c =
  activateLoop sequence rest (cset_counts (cn_queuedMessages c - zlen l) (cn_queuedBytes c - bytesOf l) c).
Proof.
  intros Hl. revert c. induction Hl as [|m l Hm _ IH]; intros c; cbn [app activateLoop].
  - unfold bytesOf, zlen; cbn. rewrite !Z.sub_0_r. by destruct c.
  - rewrite (proj2 (Z.leb_le _ _)) by done. rewrite IH. f_equal. unfold release. destruct c; cbn. f_equal.
    + rewrite zlen_cons. lia.
    + unfold bytesOf; cbn. lia.
Qed.

Lemma activateLoop_send sequence from k c :
  0 <= k -> sequence <= from -> 0 <= from -> from + k < 18446744073709551615 -> cn_lastSequence c = from ->
  zlen (cn_queue c) + k <= MaxPresenterQueueMessages ->
  activateLoop sequence (deltasAfter from k) c =
  Some (inr (cset_queue (cn_queue c ++ deltasAfter from k) (cset_lastSequence (from + k) c))).
Proof.
  intros Hk. revert from c. pattern k. apply natlike_ind; [| |done]; clear k Hk.
  - intros from c _ _ _ Hl _. rewrite deltasAfter_nil. cbn. rewrite app_nil_r, Z.add_0_r, <-Hl. by destruct c.
  - intros k Hk IH from c Hs Hf Hlt Hl Hroom. rewrite deltasAfter_cons by lia. cbn [activateLoop ob_sequence deltaMessage].
    rewrite (proj2 (Z.leb_gt _ _)), Hl, ValidateNextSequence_next by lia.
    rewrite send_room by (destruct c; cbn in *; lia). replace (Z.succ k - 1) with k by lia.
    rewrite IH; try lia; [|by destruct c|destruct c; cbn in *; rewrite zlen_app; change (zlen [_]) with 1; lia].
    destruct c; cbn [cn_queue cset_queue cset_lastSequence]. rewrite <-app_assoc.
    by replace (from + Z.succ k) with (from + 1 + k) by lia.
Qed.

Lemma moveTail_room tail c :
  zlen (cn_queue c) + zlen tail <= MaxPresenterQueueMessages ->
  moveTail tail c = Some (cset_queue (cn_queue c ++ tail)
    (cset_counts (cn_queuedMessages c + zlen tail) (cn_queuedBytes c + bytesOf tail) c)).
Proof.
  revert c. induction tail as [|m tail IH]; intros c Hroom; cbn [moveTail].
  - unfold bytesOf, zlen; cbn. rewrite !Z.add_0_r, app_nil_r. by destruct c.
  - rewrite zlen_cons in *. pose proof (zlen_nonneg tail).
    rewrite send_room by lia. rewrite IH by (destruct c; cbn in *; rewrite zlen_app; change (zlen [m]) with 1; lia).
    f_equal. destruct c; cbn. rewrite <-app_assoc. cbn. f_equal; [lia|]. unfold bytesOf; cbn. lia.
Qed.

(** ** The invariant *)

Definition genuine (m : outbound) : Prop := ob_sequence m = 0 \/ m = deltaMessage (ob_sequence m).

Definition frame_genuine (f : frame) : Prop :=
  match f with
  | FSnapshot d s => isSnapshot s d
  | FQueued m => genuine m
  | FReply _ => True
  end.

(** The message the writer has taken off the queue and not released. *)
Definition inflight_ok (v : option writer) (fl : list outbound) : Prop :=
  match v with Some (WWritten m) => fl = [m] | Some WStopped => True | _ => fl = [] end.

Record counted (c : connection) (fl : list outbound) : Prop := {
  cc_messages : cn_queuedMessages c = zlen (cn_queue c) + zlen (cn_pending c) + zlen fl;
  cc_bytes : cn_queuedBytes c = bytesOf (cn_queue c) + bytesOf (cn_pending c) + bytesOf fl;
  cc_max_messages : cn_queuedMessages c <= MaxPresenterQueueMessages;
  cc_max_bytes : cn_queuedBytes c <= MaxPresenterDecodedBytes }.

(** Before the hand-over. *)
Record idle (seq0 : Z) (w : world) : Prop := {
  id_queue : cn_queue (w_conn w) = [];
  id_writer : w_writer w = None;
  id_wire : w_wire w = [];
  id_needed : cn_resyncNeeded (w_conn w) = false;
  id_scheduled : cn_resyncScheduled (w_conn w) = false;
  id_frame : cn_resyncFrame (w_conn w) = None;
  id_tail : cn_resyncTail (w_conn w) = [];
  id_tailBytes : cn_resyncTailBytes (w_conn w) = 0;
  id_hold : cn_replyHold (w_conn w) = None;
  id_pending : cn_failed (w_conn w) = false -> cn_pending (w_conn w) = deltasAfter seq0 (w_seq w - seq0) }.

Definition onWire (w : world) (last : Z) : Prop :=
  match w_writer w with
  | None => w_wire w = [] /\ w_snap w = Some last
  | Some _ => wireRuns 0 (w_wire w) last
  end.

Definition resync_ok (c : connection) (seq : Z) : Prop :=
  match cn_resyncFrame c with
  | None => cn_resyncTail c = [] /\ cn_resyncTailBytes c = 0 /\
      (cn_failed c = false -> cn_resyncNeeded c = false -> cn_lastSequence c = seq)
  | Some f => cn_resyncNeeded c = true /\ cn_lastSequence c <= cn_resyncSeq c /\ isSnapshot (cn_resyncSeq c) f /\
      cn_resyncTail c = deltasAfter (cn_resyncSeq c) (zlen (cn_resyncTail c)) /\
      cn_resyncSeq c + zlen (cn_resyncTail c) <= seq /\
      (cn_failed c = false -> cn_resyncSeq c + zlen (cn_resyncTail c) = seq) /\
      cn_resyncTailBytes c = bytesOf (cn_resyncTail c) /\ cn_resyncTailBytes c <= MaxPresenterDecodedBytes /\
      zlen (cn_resyncTail c) <= MaxPresenterQueueMessages
  end.

(** After the hand-over. *)
Record live (w : world) : Prop := {
  lv_pending : cn_pending (w_conn w) = [];
  lv_runs : exists last, 0 <= last /\ onWire w last /\ runsTo last (cn_queue (w_conn w)) (cn_lastSequence (w_conn w));
  lv_last : 0 <= cn_lastSequence (w_conn w) <= w_seq w;
  lv_scheduled : cn_resyncScheduled (w_conn w) = cn_resyncNeeded (w_conn w);
  lv_resync : resync_ok (w_conn w) (w_seq w) }.

(** The writer does not sleep on work. *)
Definition awake (w : world) : Prop :=
  match w_writer w with
  | Some WResync => cn_replyHold (w_conn w) <> None -> cn_wake (w_conn w) = true
  | Some WSelect =>
      (cn_replyHold (w_conn w) <> None -> cn_wake (w_conn w) = true) /\
      (cn_resyncFrame (w_conn w) <> None -> cn_queue (w_conn w) = [] -> cn_wake (w_conn w) = true)
  | _ => True
  end.

Record cinv (seq0 : Z) (w : world) : Prop := {
  ci_seq : 0 <= seq0 <= w_seq w /\ w_seq w < 18446744073709551615;
  ci_snap : forall n, w_snap w = Some n -> seq0 <= n <= w_seq w;
  ci_counted : exists fl, inflight_ok (w_writer w) fl /\ counted (w_conn w) fl;
  ci_mode : if cn_active (w_conn w) then live w else idle seq0 w;
  ci_awake : awake w;
  ci_stopped : w_writer w = Some WStopped -> cn_failed (w_conn w) = true;
  ci_queue : Forall genuine (cn_queue (w_conn w));
  ci_wire : Forall frame_genuine (w_wire w) }.

Lemma cinv_start seq : 0 <= seq < 18446744073709551615 -> cinv seq (cstart seq).
Proof.
  intros Hs. split; cbn; try done; try lia.
  - exists []. split; [done|]. split; cbn; lia || done.
  - split; cbn; try done. intros _. by rewrite Z.sub_diag.
Qed.

(** [fail] keeps everything: what it weakens is guarded by [cn_failed]. *)
Lemma cinv_fail seq w : cinv seq w -> cinv seq (set_conn (fail (w_conn w)) w).
Proof.
  destruct w as [c sq sn wr wire]. intros [Hseq Hsnap (fl&Hfl&[Hm Hb Hmm Hmb]) Hmode Haw Hst Hq Hw].
  unfold set_conn. cbn in *. split; cbn in *; try done.
  - exists fl. split; [done|]. by destruct c.
  - destruct c; cbn in *. destruct cn_active0.
    + destruct Hmode as [Hp Hr Hl Hs Hx]. split; cbn in *; try done.
      unfold resync_ok in *; cbn in *. destruct cn_resyncFrame0; naive_solver.
    + destruct Hmode. split; cbn in *; try done.
  - unfold awake in *. by destruct c.
  - intros _. by destruct c.
  - by destruct c.
Qed.

Lemma cinv_prepare seq w c ok :
  cinv seq w -> cn_active (w_conn w) = false -> w_seq w + 1 < 18446744073709551615 ->
  prepare (deltaMessage (w_seq w + 1)) (w_conn w) = (c, ok) ->
  cinv seq (mkWorld c (w_seq w + 1) (w_snap w) (w_writer w) (w_wire w)).
Proof.
  destruct w as [c0 sq sn wr wire]. cbn. intros [Hseq Hsnap (fl&Hfl&[Hm Hb Hmm Hmb]) Hmode Haw Hst Hq Hw] Ha Hlt.
  cbn in *. rewrite Ha in Hmode. destruct Hmode as [I1 I2 I3 I4 I5 I6 I7 I8 I9 I10]. cbn in *. subst wr wire.
  assert (forall n, sn = Some n -> seq <= n <= sq + 1) as Hsnap' by (intros n Hn; apply Hsnap in Hn; lia).
  assert (cinv seq (mkWorld (fail c0) (sq + 1) sn None [])) as Hfail.
  { split; cbn; try done; try lia.
    - exists fl. split; [done|]. by destruct c0.
    - destruct c0; cbn in *. subst. by split.
    - by destruct c0. }
  unfold prepare. destruct (cn_failed c0) eqn:Hf; [by intros [= <- <-]|].
  unfold reserve. destruct (_ || _) eqn:Hr; [by intros [= <- <-]|].
  apply orb_false_iff in Hr as [Hr1%Z.leb_gt Hr2%Z.ltb_ge]. intros [= <- <-].
  specialize (I10 eq_refl). split; cbn; try done; try lia.
  - exists []. rewrite Hfl in *. split; [done|]. destruct c0; cbn in *. subst. split; cbn.
    + rewrite zlen_app. change (zlen [_]) with 1. lia.
    + rewrite ?bytesOf_app, ?bytesOf_one, ?bytesOf_nil in *. cbn [ob_data deltaMessage] in *. lia.
    + lia.
    + lia.
  - destruct c0; cbn in *. subst. split; cbn; try done. intros _.
    replace (sq + 1 - seq) with (sq - seq + 1) by lia. rewrite deltasAfter_snoc by lia.
    by replace (seq + (sq - seq) + 1) with (sq + 1) by lia.
  - by destruct c0.
Qed.

(** The current connection after a delta was published to it. *)
Lemma cinv_published seq w fl last c1 :
  cinv seq w -> w_seq w + 1 < 18446744073709551615 -> inflight_ok (w_writer w) fl -> 0 <= last -> onWire w last ->
  cn_active c1 = true -> cn_pending c1 = [] -> counted c1 fl ->
  cn_failed c1 = cn_failed (w_conn w) \/ cn_failed c1 = true ->
  cn_replyHold c1 = cn_replyHold (w_conn w) -> cn_wake c1 = cn_wake (w_conn w) ->
  (cn_resyncFrame c1 = None <-> cn_resyncFrame (w_conn w) = None) -> (cn_queue c1 = [] -> cn_queue (w_conn w) = []) ->
  Forall genuine (cn_queue c1) -> runsTo last (cn_queue c1) (cn_lastSequence c1) ->
  0 <= cn_lastSequence c1 <= w_seq w + 1 -> cn_resyncScheduled c1 = cn_resyncNeeded c1 -> resync_ok c1 (w_seq w + 1) ->
  cinv seq (mkWorld c1 (w_seq w + 1) (w_snap w) (w_writer w) (w_wire w)).
Proof.
  destruct w as [c0 sq sn wr wire]. cbn. intros [Hseq Hsnap _ _ Haw Hst _ Hw] Hlt Hfl L2 L3 E1 E2 E3 E4 E5 E6 E7 E8 E9 E10 E11 E12 E13.
  cbn in *. split; cbn; try done; try lia; try (by exists fl).
  - intros n Hn. apply Hsnap in Hn. lia.
  - rewrite E1. split; cbn; try done. exists last. done.
  - unfold awake in *. cbn in *. rewrite E5, E6. destruct wr as [[]|]; try done. destruct Haw as [Hw1 Hw2]. split; [done|].
    intros Hf Hqq. apply Hw2; [|by apply E8]. by rewrite <-E7.
  - intros Hs. specialize (Hst Hs). destruct E4 as [->| ->]; done.
Qed.

(** A delta for the current connection. *)
Lemma cinv_enqueueDelta seq w c published resync :
  cinv seq w -> cn_active (w_conn w) = true -> w_seq w + 1 < 18446744073709551615 ->
  enqueueDelta (deltaMessage (w_seq w + 1)) (w_conn w) = (c, (published, resync)) ->
  cinv seq (mkWorld c (w_seq w + 1) (w_snap w) (w_writer w) (w_wire w)).
Proof.
  destruct w as [c0 sq sn wr wire]. cbn. intros Hinv Ha Hlt.
  pose proof Hinv as [Hseq Hsnap (fl&Hfl&Hcc) Hmode Haw Hst Hq Hw]. cbn in *. rewrite Ha in Hmode. destruct Hmode as [L1 (last&L2&L3&L4) L5 L6 L7]. cbn in *.
  pose proof (fun c1 => cinv_published seq (mkWorld c0 sq sn wr wire) fl last c1 Hinv Hlt Hfl L2 L3) as Hgen. cbn in Hgen.
  assert (forall c1, c1 = c0 \/ c1 = fail c0 -> resync_ok c1 (sq + 1) -> cinv seq (mkWorld c1 (sq + 1) sn wr wire)) as Hsame.
  { intros c1 [-> | ->] Hr; apply Hgen; try done; try (by destruct c0); try lia; auto; destruct c0; cbn in *; auto; try lia.
    by destruct Hcc; split. }
  unfold enqueueDelta. rewrite Ha. cbn [negb]. rewrite orb_false_r. destruct (cn_failed c0) eqn:Hf.
  { intros [= <- _ _]. apply Hsame; [by left|]. unfold resync_ok in *. rewrite Hf in *. destruct (cn_resyncFrame c0).
    - destruct L7 as (?&?&?&?&?&_&?&?&?). split_and!; try done; lia.
    - by destruct L7 as (?&?&_). }
  destruct (cn_resyncNeeded c0) eqn:Hn.
  { destruct (cn_resyncFrame c0) as [f|] eqn:Hfr.
    2: { intros [= <- _ _]. apply Hsame; [by left|]. unfold resync_ok in *. rewrite Hfr, Hn in *. naive_solver. }
    unfold resync_ok in L7. rewrite Hfr in L7. destruct L7 as (_&R1&R2&R3&R4&R5&R6&R7&R8). specialize (R5 Hf).
    assert (resync_ok (fail c0) (sq + 1)) as Hfail.
    { unfold resync_ok. destruct c0; cbn in *. subst. split_and!; try done; lia. }
    destruct (_ =? _); cbn [negb]; [|intros [= <- _ _]; by apply Hsame; [right|]].
    unfold reserveTail. destruct (_ || _) eqn:Hr; [intros [= <- _ _]; by apply Hsame; [right|]|].
    apply orb_false_iff in Hr as [Hr1%Z.leb_gt Hr2%Z.ltb_ge]. intros [= <- _ _].
    apply Hgen; destruct c0; cbn in *; subst; auto; try done; try lia.
    - by destruct Hcc; split.
    - unfold resync_ok. cbn. rewrite zlen_app. change (zlen [_]) with 1. split_and!; try done; try lia.
      + rewrite deltasAfter_snoc by apply zlen_nonneg. by rewrite <-R3.
      + rewrite ?bytesOf_app, ?bytesOf_one, ?bytesOf_nil in *. cbn [ob_data deltaMessage] in *. lia. }
  unfold resync_ok in L7. destruct (cn_resyncFrame c0) as [f|] eqn:Hfr; [destruct L7 as [L7 _]; congruence|].
  destruct L7 as (R1&R2&R3). specialize (R3 Hf Hn). rewrite R3.
  cbn [ob_sequence deltaMessage]. rewrite ValidateNextSequence_next by lia.
  unfold reserve. destruct (_ || _) eqn:Hr.
  { intros [= <- _ _]. apply Hgen; destruct c0; cbn in *; subst; auto; try done; try lia. by destruct Hcc; split. }
  apply orb_false_iff in Hr as [Hr1%Z.leb_gt Hr2%Z.ltb_ge]. destruct Hcc as [C1 C2 C3 C4].
  rewrite send_room.
  2: { destruct c0; cbn in *. pose proof (zlen_nonneg cn_pending0). pose proof (zlen_nonneg fl). lia. }
  intros [= <- _ _]. apply Hgen; destruct c0; cbn in *; subst; auto; try done; try lia.
  - split; cbn; try lia.
    + rewrite zlen_app. change (zlen [_]) with 1. lia.
    + rewrite ?bytesOf_app, ?bytesOf_one, ?bytesOf_nil in *. cbn [ob_data deltaMessage] in *. lia.
  - by intros [_ ?]%app_eq_nil.
  - apply Forall_app. split; [done|]. constructor; [by right|done].
  - eapply runsTo_app; [done|]. cbn. rewrite (proj2 (Z.eqb_neq _ _)) by lia. done.
Qed.

(** The hand-over: every pending delta after the snapshot is queued, none is
    refused, and no send can block. *)
Lemma activate_spec seq w n :
  cinv seq w -> cn_active (w_conn w) = false -> w_snap w = Some n -> cn_failed (w_conn w) = false ->
  exists c, activate n (w_conn w) = Some (c, true) /\
    c = cset_active true (cset_pending [] (cset_queue (deltasAfter n (w_seq w - n)) (cset_lastSequence (w_seq w)
          (cset_counts (w_seq w - n) (bytesOf (deltasAfter n (w_seq w - n))) (w_conn w))))).
Proof.
  destruct w as [c0 sq sn wr wire]. cbn. intros [Hseq Hsnap (fl&Hfl&[Hm Hb Hmm Hmb]) Hmode _ _ _ _] Ha Hn Hf.
  cbn in *. rewrite Ha in Hmode. destruct Hmode as [I1 I2 _ _ _ _ _ _ _ I10]. cbn in *. specialize (I10 Hf).
  specialize (Hsnap n Hn). subst wr. cbn in Hfl. subst fl. unfold activate. rewrite Hf.
  rewrite (deltasAfter_split seq (sq - seq) (n - seq)) in I10 by lia.
  replace (seq + (n - seq)) with n in I10 by lia. replace (sq - seq - (n - seq)) with (sq - n) in I10 by lia.
  rewrite I10, I1, zlen_app, !deltasAfter_length in Hm by lia. rewrite I10, I1, bytesOf_app, !bytesOf_nil in Hb.
  change (zlen (@nil outbound)) with 0 in Hm.
  rewrite I10, activateLoop_release.
  2: { unfold deltasAfter. apply Forall_fmap, Forall_forall. intros z Hz%elem_of_seqZ. cbn. lia. }
  rewrite deltasAfter_length by lia. rewrite activateLoop_send; try lia.
  - eexists. split; [done|]. destruct c0; cbn in *. subst cn_queue0. cbn [app].
    replace (n + (sq - n)) with sq by lia. f_equal; lia.
  - by destruct c0.
  - destruct c0; cbn in *. subst cn_queue0. change (zlen (@nil outbound)) with 0. lia.
Qed.

Lemma cinv_activate seq w n c ok :
  cinv seq w -> cn_active (w_conn w) = false -> w_snap w = Some n -> activate n (w_conn w) = Some (c, ok) ->
  cinv seq (set_conn c w).
Proof.
  intros Hinv Ha Hn Hact. destruct (cn_failed (w_conn w)) eqn:Hf.
  { unfold activate in Hact. rewrite Hf in Hact. injection Hact as <- _. by destruct w. }
  destruct (activate_spec seq w n Hinv Ha Hn Hf) as (c1&Heq&Hc). rewrite Heq in Hact. injection Hact as <- _.
  destruct w as [c0 sq sn wr wire]. unfold set_conn. cbn in *.
  destruct Hinv as [Hseq Hsnap (fl&Hfl&[Hm Hb Hmm Hmb]) Hmode Haw Hst Hq Hw]. cbn in *.
  rewrite Ha in Hmode. destruct Hmode as [I1 I2 I3 I4 I5 I6 I7 I8 I9 I10]. cbn in *. subst wr wire.
  cbn in Hfl. subst fl. specialize (Hsnap n Hn) as Hsn. specialize (I10 Hf).
  assert (zlen (deltasAfter n (sq - n)) = sq - n) as Hlen by (apply deltasAfter_length; lia).
  assert (sq - n <= MaxPresenterQueueMessages /\ bytesOf (deltasAfter n (sq - n)) <= MaxPresenterDecodedBytes) as [Hmax1 Hmax2].
  { rewrite (deltasAfter_split seq (sq - seq) (n - seq)) in I10 by lia.
    replace (seq + (n - seq)) with n in I10 by lia. replace (sq - seq - (n - seq)) with (sq - n) in I10 by lia.
    rewrite I10, I1, zlen_app, Hlen in Hm. rewrite I10, I1, bytesOf_app, !bytesOf_nil in Hb. pose proof (zlen_nonneg (deltasAfter seq (n - seq))).
    pose proof (bytesOf_nonneg (deltasAfter seq (n - seq))). change (zlen (@nil outbound)) with 0 in *. lia. }
  subst c1. destruct c0; cbn in *. subst. split; cbn; try done; try lia.
  - exists []. split; [done|]. split; cbn; rewrite ?bytesOf_nil; change (zlen (@nil outbound)) with 0; lia.
  - split; cbn; try done; try lia.
    + exists n. split_and!; try done; try lia. replace sq with (n + (sq - n)) at 2 by lia. apply deltasAfter_runs; lia.
  - unfold deltasAfter. apply Forall_fmap, Forall_forall. intros z _. by right.
Qed.

Lemma cinv_enqueueSnapshot seq w data c ok :
  cinv seq w -> isSnapshot (w_seq w) data -> enqueueSnapshot data (w_seq w) (w_conn w) = (c, ok) -> cinv seq (set_conn c w).
Proof.
  destruct w as [c0 sq sn wr wire]. unfold set_conn. cbn. intros Hinv Hdata. unfold enqueueSnapshot.
  destruct (cn_failed c0 || _ || _ || _) eqn:Hg; [by intros [= <- _]|]. intros [= <- _].
  destruct Hinv as [Hseq Hsnap (fl&Hfl&[Hm Hb Hmm Hmb]) Hmode Haw Hst Hq Hw]. cbn in *.
  destruct c0; cbn in *. destruct cn_failed0, cn_active0, cn_resyncNeeded0, cn_resyncFrame0; try done.
  split; cbn in *; try done.
  - exists fl. split; [done|]. by split.
  - destruct Hmode as [L1 L2 L3 L4 (L5&L6&_)]. cbn in *. split; cbn; try done. unfold resync_ok. cbn.
    subst. change (zlen (@nil outbound)) with 0. split_and!; try done; lia.
  - unfold awake. cbn. by destruct wr as [[]|].
Qed.

Lemma cinv_enqueue seq w data c ok :
  cinv seq w -> enqueue (mkOutbound data 0) (w_conn w) = Some (c, ok) -> cinv seq (set_conn c w).
Proof.
  intros Hinv. unfold enqueue. destruct (cn_failed (w_conn w) || _) eqn:Hg.
  { intros [= <- _]. by apply cinv_fail. }
  destruct w as [c0 sq sn wr wire]. unfold set_conn. cbn in *.
  destruct (cn_replyHold c0) eqn:Hh; [done|].
  destruct Hinv as [Hseq Hsnap (fl&Hfl&[Hm Hb Hmm Hmb]) Hmode Haw Hst Hq Hw]. cbn in *.
  unfold reserve. cbn [ob_data]. destruct ((MaxPresenterQueueMessages <=? _) || _) eqn:Hr.
  - cbv beta iota zeta. intros [= <- _]. destruct c0; cbn in *. destruct cn_failed0, cn_active0; try done. split; cbn in *; try done.
    + exists fl. split; [done|]. by split.
    + destruct Hmode as [L1 L2 L3 L4 L5]. cbn in *. by split.
    + unfold awake. cbn. by destruct wr as [[]|].
  - apply orb_false_iff in Hr as [Hr1%Z.leb_gt Hr2%Z.ltb_ge]. rewrite send_room.
    2: { destruct c0; cbn in *. pose proof (zlen_nonneg cn_pending0). pose proof (zlen_nonneg fl). lia. }
    cbv beta iota zeta. intros [= <- _]. destruct c0; cbn in *. destruct cn_failed0, cn_active0; try done. split; cbn in *; try done.
    + exists fl. split; [done|]. split; cbn; rewrite ?zlen_app, ?bytesOf_app, ?bytesOf_one; cbn; change (zlen [_]) with 1; lia.
    + destruct Hmode as [L1 (last&L2&L3&L4) L5 L6 L7]. cbn in *. split; cbn; try done.
      exists last. split_and!; try done. eapply runsTo_app; [done|]. done.
    + unfold awake in *. cbn in *. destruct wr as [[]|]; try done. destruct Haw as [Hw1 Hw2]. split; [done|].
      by intros _ [_ ?]%app_eq_nil.
    + apply Forall_app. split; [done|]. constructor; [by left|done].
Qed.

(** ** The writer *)

(** A started writer works on a live connection. *)
Lemma writer_live seq w v : cinv seq w -> w_writer w = Some v -> cn_active (w_conn w) = true /\ live w.
Proof.
  intros Hinv Hv. pose proof (ci_mode _ _ Hinv) as Hm. destruct (cn_active _); [done|].
  destruct Hm as [_ Hw _ _ _ _ _ _ _ _]. congruence.
Qed.

Lemma cinv_take_reply seq w c data :
  cinv seq w -> w_writer w = Some WReply -> takeReply (w_conn w) = (c, Some data) ->
  cinv seq (write (FReply data) (set_conn c w)).
Proof.
  intros Hinv Hv. destruct (writer_live seq w _ Hinv Hv) as [Ha [L1 (last&L2&L3&L4) L5 L6 L7]].
  destruct Hinv as [Hseq Hsnap (fl&Hfl&[Hm Hb Hmm Hmb]) _ Haw Hst Hq Hw].
  destruct w as [c0 sq sn wr wire]. unfold write, set_conn, takeReply. cbn in *. subst wr.
  destruct (cn_replyHold c0) as [fr|] eqn:Hh; [|done]. intros [= <- <-].
  destruct c0; cbn in *. subst. split; cbn in *; try done.
  - exists []. split; [done|]. by split.
  - split; cbn; try done. exists last. split_and!; try done. unfold onWire in *. cbn in *. by eapply wireRuns_app.
  - apply Forall_app. split; [done|]. by constructor.
Qed.

Lemma cinv_no_reply seq w c :
  cinv seq w -> w_writer w = Some WReply -> takeReply (w_conn w) = (c, None) ->
  cinv seq (set_writer WResync (set_conn c w)).
Proof.
  intros Hinv Hv. destruct (writer_live seq w _ Hinv Hv) as [Ha [L1 (last&L2&L3&L4) L5 L6 L7]].
  destruct Hinv as [Hseq Hsnap (fl&Hfl&[Hm Hb Hmm Hmb]) _ Haw Hst Hq Hw].
  destruct w as [c0 sq sn wr wire]. unfold set_writer, set_conn, takeReply. cbn in *. subst wr.
  destruct (cn_replyHold c0) as [fr|] eqn:Hh; [done|]. intros [= <-].
  destruct c0; cbn in *. subst. split; cbn in *; try done.
  - exists []. split; [done|]. by split.
  - split; cbn; try done. exists last. done.
Qed.

(** The snapshot of a resync goes out when the queue is empty; moving the tail
    over cannot block and stays within the limits of the queue. *)
Lemma takeResync_spec seq w :
  cinv seq w -> w_writer w = Some WResync ->
  takeResync (w_conn w) =
  match cn_resyncFrame (w_conn w), cn_queue (w_conn w) with
  | Some f, [] => Some (cset_resync false false (cset_frame None 0 (cset_tail [] 0
      (cset_lastSequence (cn_resyncSeq (w_conn w) + zlen (cn_resyncTail (w_conn w)))
      (cset_queue (cn_resyncTail (w_conn w)) (cset_counts (zlen (cn_resyncTail (w_conn w)))
      (bytesOf (cn_resyncTail (w_conn w))) (w_conn w)))))), Some f)
  | _, _ => Some (w_conn w, None)
  end.
Proof.
  intros Hinv Hv. destruct (writer_live seq w _ Hinv Hv) as [Ha [L1 _ L5 _ L7]].
  destruct Hinv as [Hseq _ (fl&Hfl&[Hm Hb Hmm Hmb]) _ _ _ _ _].
  destruct w as [c0 sq sn wr wire]. cbn in *. subst wr. cbn in Hfl. subst fl. unfold takeResync, resync_ok in *.
  destruct (cn_resyncFrame c0) as [f|] eqn:Hfr; [|done]. destruct (cn_queue c0) as [|m q] eqn:Hqe.
  2: { rewrite zlen_cons. pose proof (zlen_nonneg q). by rewrite (proj2 (Z.eqb_neq _ _)) by lia. }
  destruct L7 as (_&R1&_&_&R4&_&_&_&R8). cbn [negb Z.eqb]. change (zlen (@nil outbound) =? 0) with true. cbn [negb].
  pose proof (zlen_nonneg (cn_resyncTail c0)) as Hnn.
  rewrite moveTail_room by (destruct c0; cbn in *; subst; change (zlen (@nil outbound)) with 0; lia).
  rewrite L1 in *. change (zlen (@nil outbound)) with 0 in *. rewrite bytesOf_nil in *.
  destruct c0; cbn in *. subst. rewrite !wrap64_small by (unfold is_u64; lia). by rewrite !Z.add_0_l.
Qed.

Lemma cinv_take_resync seq w c data :
  cinv seq w -> w_writer w = Some WResync -> takeResync (w_conn w) = Some (c, Some data) ->
  cinv seq (set_writer WReply (write (FSnapshot data (cn_resyncSeq (w_conn w))) (set_conn c w))).
Proof.
  intros Hinv Hv. rewrite (takeResync_spec seq w Hinv Hv).
  destruct (writer_live seq w _ Hinv Hv) as [Ha [L1 (last&L2&L3&L4) L5 L6 L7]].
  destruct Hinv as [Hseq Hsnap (fl&Hfl&[Hm Hb Hmm Hmb]) _ Haw Hst Hq Hw].
  destruct w as [c0 sq sn wr wire]. unfold set_writer, write, set_conn, resync_ok in *. cbn in *. subst wr.
  destruct (cn_resyncFrame c0) as [f|] eqn:Hfr; [|done]. destruct (cn_queue c0) as [|m q] eqn:Hqe; [|done].
  destruct L7 as (_&R1&R2&R3&R4&R5&R6&R7&R8). intros [= <- <-]. cbn in L4. pose proof (zlen_nonneg (cn_resyncTail c0)).
  cbn in Hfl. subst fl. destruct c0; cbn in *. subst. split; cbn in *; try done.
  - exists []. split; [done|]. split; cbn; rewrite ?bytesOf_nil; change (zlen (@nil outbound)) with 0; lia.
  - split; cbn; try done; try lia; [|unfold resync_ok; cbn; split_and!; try done; intros Hff _; by apply R5].
    exists cn_resyncSeq0. split_and!; [lia| |].
    + unfold onWire in *. cbn in *. eapply wireRuns_app; [done|]. cbn. lia.
    + rewrite R3 at 1. apply deltasAfter_runs; lia.
  - rewrite R3. unfold deltasAfter. apply Forall_fmap, Forall_forall. intros z _. by right.
  - apply Forall_app. split; [done|]. by constructor.
Qed.

Lemma cinv_no_resync seq w c :
  cinv seq w -> w_writer w = Some WResync -> takeResync (w_conn w) = Some (c, None) ->
  cinv seq (set_writer WSelect (set_conn c w)).
Proof.
  intros Hinv Hv. rewrite (takeResync_spec seq w Hinv Hv).
  destruct (writer_live seq w _ Hinv Hv) as [Ha [L1 (last&L2&L3&L4) L5 L6 L7]].
  destruct Hinv as [Hseq Hsnap (fl&Hfl&Hcc) _ Haw Hst Hq Hw].
  destruct w as [c0 sq sn wr wire]. unfold set_writer, set_conn in *. cbn in *. subst wr. intros Heq.
  assert (c = c0 /\ (cn_resyncFrame c0 = None \/ cn_queue c0 <> [])) as [-> Hwhy].
  { destruct (cn_resyncFrame c0), (cn_queue c0); try done; injection Heq as <-; auto. }
  split; cbn in *; try done.
  - by exists fl.
  - rewrite Ha. split; cbn; try done. by exists last.
  - unfold awake in *. cbn in *. split; [done|]. intros Hf Hqe. by destruct Hwhy.
Qed.

Lemma cinv_wake seq w :
  cinv seq w -> w_writer w = Some WSelect -> cinv seq (set_writer WReply (set_conn (cset_wake false (w_conn w)) w)).
Proof.
  intros Hinv Hv. destruct (writer_live seq w _ Hinv Hv) as [Ha [L1 (last&L2&L3&L4) L5 L6 L7]].
  destruct Hinv as [Hseq Hsnap (fl&Hfl&[Hm Hb Hmm Hmb]) _ Haw Hst Hq Hw].
  destruct w as [c0 sq sn wr wire]. unfold set_writer, set_conn in *. cbn in *. subst wr.
  destruct c0; cbn in *. subst. split; cbn in *; try done.
  - exists []. split; [done|]. by split.
  - split; cbn; try done. by exists last.
Qed.

Lemma cinv_pop seq w m queue :
  cinv seq w -> w_writer w = Some WSelect -> cn_queue (w_conn w) = m :: queue ->
  cinv seq (set_writer (WWritten m) (write (FQueued m) (set_conn (cset_queue queue (w_conn w)) w))).
Proof.
  intros Hinv Hv. destruct (writer_live seq w _ Hinv Hv) as [Ha [L1 (last&L2&L3&L4) L5 L6 L7]].
  destruct Hinv as [Hseq Hsnap (fl&Hfl&[Hm Hb Hmm Hmb]) _ Haw Hst Hq Hw].
  destruct w as [c0 sq sn wr wire]. unfold set_writer, write, set_conn in *. cbn in *. subst wr. intros Hqe.
  cbn in Hfl. subst fl. rewrite Hqe in *. apply Forall_cons in Hq as [Hgm Hq].
  rewrite zlen_cons in Hm. change (m :: queue) with ([m] ++ queue) in Hb. rewrite bytesOf_app, bytesOf_one in Hb.
  rewrite L1 in Hm, Hb. change (zlen (@nil outbound)) with 0 in Hm. rewrite !bytesOf_nil in Hb.
  destruct c0; cbn in *. subst. split; cbn in *; try done.
  - exists [m]. split; [done|].
    split; cbn; rewrite ?bytesOf_nil, ?bytesOf_one; change (zlen [m]) with 1; change (zlen (@nil outbound)) with 0; lia.
  - split; cbn; try done. unfold onWire in *. cbn in *. destruct (Z.eqb_spec (ob_sequence m) 0) as [Hz|Hz].
    + exists last. split_and!; try done. eapply wireRuns_app; [done|]. cbn. by rewrite Hz.
    + destruct L4 as [Hs L4]. exists (last + 1). split_and!; [lia| |done]. eapply wireRuns_app; [done|]. cbn.
      by rewrite (proj2 (Z.eqb_neq _ _)).
  - apply Forall_app. split; [done|]. by constructor.
Qed.

Lemma cinv_release seq w m :
  cinv seq w -> w_writer w = Some (WWritten m) -> cinv seq (set_writer WReply (set_conn (release m (w_conn w)) w)).
Proof.
  intros Hinv Hv. destruct (writer_live seq w _ Hinv Hv) as [Ha [L1 (last&L2&L3&L4) L5 L6 L7]].
  destruct Hinv as [Hseq Hsnap (fl&Hfl&[Hm Hb Hmm Hmb]) _ Haw Hst Hq Hw].
  destruct w as [c0 sq sn wr wire]. unfold set_writer, set_conn, release in *. cbn in *. subst wr. cbn in Hfl. subst fl.
  rewrite bytesOf_one in *. pose proof (zlen_nonneg (ob_data m)). change (zlen [m]) with 1 in *.
  destruct c0; cbn in *. subst. split; cbn in *; try done.
  - exists []. split; [done|]. split; cbn; rewrite ?bytesOf_nil in *; change (zlen (@nil outbound)) with 0 in *; lia.
  - split; cbn; try done. by exists last.
Qed.

Lemma cinv_lstep seq w w' : cinv seq w -> lstep w w' -> cinv seq w'.
Proof.
  intros Hinv. destruct 1.
  - by eapply cinv_enqueue.
  - by eapply cinv_take_reply.
  - by eapply cinv_no_reply.
  - by eapply cinv_take_resync.
  - by eapply cinv_no_resync.
  - by eapply cinv_wake.
  - by eapply cinv_pop.
  - by eapply cinv_release.
  - by eapply cinv_fail.
  - destruct (writer_live seq w _ Hinv ltac:(eassumption)) as [Ha [L1 (last&L2&L3&L4) L5 L6 L7]].
    destruct Hinv as [Hseq Hsnap (fl&Hfl&Hc) Hm Haw Hst Hq Hw]. destruct w as [c0 sq sn wr wire]. cbn in *. subst.
    split; cbn; try done; [by exists fl|]. rewrite Ha. split; cbn; try done. by exists last.
Qed.

Lemma cinv_step seq w w' : cinv seq w -> cstep w w' -> cinv seq w'.
Proof.
  intros Hinv. destruct 1.
  - by eapply cinv_prepare.
  - by eapply cinv_enqueueDelta.
  - destruct Hinv as [Hseq Hsnap Hc Hm Haw Hst Hq Hw]. destruct w as [c0 sq sn wr wire]. cbn in *.
    split; cbn; try done; [intros n [= <-]; lia|]. destruct (cn_active c0); [done|]. destruct Hm. by split.
  - by eapply cinv_activate.
  - destruct Hinv as [Hseq Hsnap (fl&Hfl&Hc) Hm Haw Hst Hq Hw]. destruct w as [c0 sq sn wr wire]. cbn in *. subst.
    specialize (Hsnap n eq_refl). split; cbn; try done; try lia.
    + intros n' [= <-]. lia.
    + exists fl. split; [exact Hfl|exact Hc].
    + destruct (cn_active c0); [|done]. destruct Hm as [L1 (last&L2&L3&L4) L5 L6 L7]. split; cbn; try done.
      unfold onWire in *. cbn in *. destruct L3 as [-> [= <-]]. exists n. split_and!; try done; cbn; lia.
    + apply Forall_app. split; [done|]. by constructor.
  - by eapply cinv_enqueueSnapshot.
  - by eapply cinv_lstep.
Qed.

Lemma creachable_inv seq w : 0 <= seq < 18446744073709551615 -> creachable seq w -> cinv seq w.
Proof. intros Hs. induction 1; [by apply cinv_start|by eapply cinv_step]. Qed.

(** There is room in the channel for a reserved message. *)
Lemma reserve_send seq w m c : cinv seq w -> reserve m (w_conn w) = Some c -> is_Some (send m c).
Proof.
  intros Hinv. pose proof (ci_counted _ _ Hinv) as (fl&_&[Hm _ _ _]).
  pose proof (zlen_nonneg (cn_pending (w_conn w))). pose proof (zlen_nonneg fl).
  unfold reserve. destruct (_ || _) eqn:Hr; [done|]. apply orb_false_iff in Hr as [Hr1%Z.leb_gt _]. intros [= <-].
  rewrite send_room; [by eexists|]. destruct (w_conn w); cbn in *. lia.
Qed.

(** ** What a presenter rebuilds from the wire *)

Lemma wireRuns_bound from wire to : wireRuns from wire to -> from <= to.
Proof.
  revert from. induction wire as [|[d s|m|d] wire IH]; intros from; cbn; [lia| | |apply IH].
  - intros [Hs Hr%IH]. lia.
  - destruct (_ =? 0); [apply IH|]. intros [_ Hr%IH]. lia.
Qed.

Lemma wire_bound seq w last :
  cinv seq w -> w_writer w <> None -> wireRuns 0 (w_wire w) last -> last <= w_seq w.
Proof.
  intros Hinv Hv Hr. destruct (w_writer w) as [v|] eqn:Hw; [|done].
  destruct (writer_live seq w v Hinv Hw) as [_ [_ (last'&_&Ho&Hq) Hl _ _]]. unfold onWire in Ho. rewrite Hw in Ho.
  assert (forall from wire t1 t2, wireRuns from wire t1 -> wireRuns from wire t2 -> t1 = t2) as Hfun.
  { clear. intros from wire. revert from. induction wire as [|[d s|m|d] wire IH]; intros from t1 t2; cbn; [congruence|naive_solver| |naive_solver].
    destruct (_ =? 0); naive_solver. }
  rewrite (Hfun _ _ _ _ Hr Ho).
  assert (forall from q to, runsTo from q to -> from <= to) as Hmono.
  { clear. intros from q. revert from. induction q as [|m q IH]; intros from to; cbn; [lia|].
    destruct (_ =? 0); [apply IH|]. intros [_ Hr%IH]. lia. }
  apply Hmono in Hq. lia.
Qed.

(** Decoding of the frames' payloads, and the view the owner has after the
    delta numbered [n]. *)
Context (decodeDelta : list Byte.byte -> option Delta) (decodeSnapshot : list Byte.byte -> option View).
Context (viewAt : Z -> View).

Definition present (v : View) (f : frame) : View :=
  match f with
  | FSnapshot d _ => match decodeSnapshot d with Some v' => v' | None => v end
  | FQueued m => if ob_sequence m =? 0 then v
                 else match decodeDelta (ob_data m) with Some d => applyDelta d v | None => v end
  | FReply _ => v
  end.

(** Views that a presenter need not tell apart, which deltas respect: a frame
    may leave images out. *)
Context (R : View -> View -> Prop) `{!Equivalence R, !forall d, Proper (R ==> R) (applyDelta d)}.

(** What the owner guarantees of its deltas and snapshots up to a number. *)
Definition owner_stream (upto : Z) : Prop :=
  (forall n d, 0 <= n <= upto -> isSnapshot n d -> exists v, decodeSnapshot d = Some v /\ R (viewAt n) v) /\
  (forall n, 0 <= n < upto -> exists d, decodeDelta (deltaBytes (n + 1)) = Some d /\ viewAt (n + 1) = applyDelta d (viewAt n)).

Lemma project_wire upto wire from to v :
  owner_stream upto -> 0 <= from -> to <= upto -> Forall frame_genuine wire -> wireRuns from wire to ->
  R (viewAt from) v -> R (viewAt to) (fold_left present wire v).
Proof.
  intros [Hsn Hd] Hf Hto Hg. revert from Hf v. induction Hg as [|f wire Hgf _ IH]; intros from Hf v; cbn; [by intros ->|].
  destruct f as [d s|m|d]; cbn in *.
  - intros [Hs Hr] _. pose proof (wireRuns_bound _ _ _ Hr). destruct (Hsn s d) as (v'&->&Hv'); [lia|done|].
    apply (IH s); [lia|done|done].
  - destruct (Z.eqb_spec (ob_sequence m) 0) as [Hz|Hz]; [by apply IH|]. intros [Hs Hr] Hv. pose proof (wireRuns_bound _ _ _ Hr).
    destruct Hgf as [|Hgm]; [done|]. rewrite Hgm. cbn. rewrite Hs.
    destruct (Hd from) as (d&->&Hva); [lia|]. apply (IH (from + 1)); [lia|done|]. rewrite Hva. by rewrite Hv.
  - intros Hr. by apply IH.
Qed.

(** The first frame a started writer finds on the wire is a snapshot. *)
Lemma wire_starts seq w :
  creachable seq w -> w_writer w = None /\ w_wire w = [] \/ exists d s rest, w_wire w = FSnapshot d s :: rest.
Proof.
  induction 1 as [|w w' _ IH Hs]; [by left|].
  destruct Hs as [| | | | | |? ? Hs]; [| | | | | |destruct Hs]; unfold set_writer, set_conn, write in *; cbn in *;
    (destruct IH as [[? Hw]|(d&s&rest&Hw)]; [|right; rewrite Hw; by do 3 eexists]); try congruence; rewrite Hw; first [by left|right; by do 3 eexists].
Qed.

(** A presenter that starts with anything and applies the frames holds a view
    of the owner's. *)
Lemma wire_rebuilds seq w v0 :
  0 <= seq < 18446744073709551615 -> creachable seq w -> w_writer w <> None -> owner_stream (w_seq w) ->
  exists last, wireRuns 0 (w_wire w) last /\ 0 <= last <= w_seq w /\ R (viewAt last) (fold_left present (w_wire w) v0).
Proof.
  intros Hs Hr Hv Hstream. pose proof (creachable_inv seq w Hs Hr) as Hinv.
  destruct (w_writer w) as [v|] eqn:Hw; [|done].
  destruct (writer_live seq w v Hinv Hw) as [_ [_ (last&Hpos&Ho&_) _ _ _]]. unfold onWire in Ho. rewrite Hw in Ho.
  assert (last <= w_seq w) as Hle by (eapply wire_bound; eauto; congruence). exists last. split_and!; try done.
  destruct (wire_starts seq w Hr) as [[? _]|(d&s&rest&Hwire)]; [congruence|]. pose proof (ci_wire _ _ Hinv) as Hg.
  rewrite Hwire in *. apply Forall_cons in Hg as [Hgd Hg]. cbn in Ho, Hgd |- *. destruct Ho as [Hs0 Ho].
  pose proof (wireRuns_bound _ _ _ Ho). destruct (proj1 Hstream s d) as (v'&->&Hv'); [lia|done|].
  by eapply project_wire.
Qed.

End Connections.

(** ** Claims *)

Section ConnectionClaims.
Context `{Encoding}.

(** C24: the bounds of the outbound queue hold in every reachable state, for
    messages and for bytes, and no channel operation that the code performs
    with the mutex held can block: there is room for every reserved message,
    for the pending deltas of a hand-over and for the tail of a resync. *)
Theorem queue_never_blocks seq w :
  0 <= seq < 18446744073709551615 -> creachable seq w ->
  zlen (cn_queue (w_conn w)) <= MaxPresenterQueueMessages /\
  bytesOf (cn_queue (w_conn w)) <= MaxPresenterDecodedBytes /\
  (forall m c, reserve m (w_conn w) = Some c -> is_Some (send m c)) /\
  (forall n, cn_active (w_conn w) = false -> w_snap w = Some n -> is_Some (activate n (w_conn w))) /\
  (w_writer w = Some WResync -> is_Some (takeResync (w_conn w))).
Proof.
  intros Hs Hr. pose proof (creachable_inv seq w Hs Hr) as Hinv.
  pose proof (ci_counted _ _ Hinv) as (fl&_&[Hm Hb Hmm Hmb]).
  pose proof (zlen_nonneg (cn_pending (w_conn w))). pose proof (zlen_nonneg fl).
  pose proof (bytesOf_nonneg (cn_pending (w_conn w))). pose proof (bytesOf_nonneg fl). split_and!; try lia.
  - intros m c. by apply (reserve_send seq).
  - intros n Ha Hn. destruct (cn_failed (w_conn w)) eqn:Hf; [unfold activate; rewrite Hf; by eexists|].
    destruct (activate_spec seq w n Hinv Ha Hn Hf) as (c&->&_). by eexists.
  - intros Hv. rewrite (takeResync_spec seq w Hinv Hv). destruct (cn_resyncFrame _), (cn_queue _); by eexists.
Qed.

(** A slow presenter is resynchronized, not dropped: on a live connection
    the next delta is refused only when the buffer behind a waiting snapshot is
    full, never for its sequence number; a full queue asks for a snapshot
    exactly once, and the delta that asks leaves the connection in the state
    that waits for it. *)
Theorem overflow_resyncs seq w c published resync :
  0 <= seq < 18446744073709551615 -> creachable seq w ->
  cn_active (w_conn w) = true -> cn_failed (w_conn w) = false -> w_seq w + 1 < 18446744073709551615 ->
  enqueueDelta (deltaMessage (w_seq w + 1)) (w_conn w) = (c, (published, resync)) ->
  (published = false -> cn_resyncFrame (w_conn w) <> None /\ reserveTail (deltaMessage (w_seq w + 1)) (w_conn w) = None) /\
  (resync = true <-> cn_resyncNeeded (w_conn w) = false /\ reserve (deltaMessage (w_seq w + 1)) (w_conn w) = None) /\
  (resync = true -> cn_resyncNeeded c = true /\ cn_resyncFrame c = None).
Proof.
  intros Hs Hr Ha Hf Hlt. pose proof (creachable_inv seq w Hs Hr) as Hinv.
  pose proof (ci_mode _ _ Hinv) as Hmode. rewrite Ha in Hmode. destruct Hmode as [_ _ Hl Hsch Hres].
  unfold enqueueDelta. rewrite Hf, Ha. cbn [negb orb]. unfold resync_ok in Hres.
  destruct (cn_resyncNeeded (w_conn w)) eqn:Hn.
  - destruct (cn_resyncFrame (w_conn w)) as [f|] eqn:Hfr; [|intros [= <- <- <-]; naive_solver].
    destruct Hres as (_&R1&_&_&_&R5&_). specialize (R5 Hf). pose proof (zlen_nonneg (cn_resyncTail (w_conn w))).
    rewrite !wrap64_small by (rewrite ?wrap64_small; unfold is_u64; lia).
    cbn [ob_sequence deltaMessage]. rewrite R5, Z.eqb_refl. cbn [negb].
    destruct (reserveTail _ _) eqn:Hrt; intros [= <- <- <-]; naive_solver.
  - destruct (cn_resyncFrame (w_conn w)) as [f|] eqn:Hfr; [destruct Hres as [Hres _]; congruence|].
    destruct Hres as (_&_&R3). rewrite (R3 Hf eq_refl). pose proof (ci_seq _ _ Hinv).
    cbn [ob_sequence deltaMessage]. rewrite ValidateNextSequence_next by lia.
    destruct (reserve _ _) as [c1|] eqn:Hrv.
    + destruct (reserve_send seq w _ _ Hinv Hrv) as [c2 Hs2].
      assert (is_Some (send (deltaMessage (w_seq w + 1)) (cset_lastSequence (w_seq w + 1) c1))) as [c3 Hs3].
      { unfold send in *. destruct c1; cbn in *. destruct (_ <? _); [by eexists|done]. }
      rewrite Hs3. intros [= <- <- <-]. naive_solver.
    + unfold beginResyncLocked. rewrite Hsch. intros [= <- <- <-]. destruct (w_conn w); cbn in *. naive_solver.
Qed.

(** The writer never sleeps on work: when it waits in its select and a
    reply is parked, a snapshot can go out or a message is queued, one of the
    cases it waits for is ready. *)
Theorem writer_never_sleeps_on_work seq w :
  0 <= seq < 18446744073709551615 -> creachable seq w -> w_writer w = Some WSelect ->
  cn_replyHold (w_conn w) <> None \/ cn_resyncFrame (w_conn w) <> None \/ cn_queue (w_conn w) <> [] ->
  cn_wake (w_conn w) = true \/ cn_queue (w_conn w) <> [].
Proof.
  intros Hs Hr Hv Hwork. pose proof (ci_awake _ _ (creachable_inv seq w Hs Hr)) as Haw. unfold awake in Haw.
  rewrite Hv in Haw. destruct Haw as [Hw1 Hw2]. destruct (cn_queue (w_conn w)) as [|m q] eqn:Hq; [|by right].
  left. destruct Hwork as [?|[?|?]]; auto; done.
Qed.

End ConnectionClaims.

(** ** The order of replies *)

Section Overtaking.

(** An encoding small enough for the byte limit not to matter. *)
#[local] Instance tinyEncoding : Encoding := {| deltaBytes := fun _ => [x7b; x7d]; isSnapshot := fun _ d => d = [x7b; x7d] |}.

Definition publishOne (w : world) : world :=
  mkWorld (enqueueDelta (deltaMessage (w_seq w + 1)) (w_conn w)).1 (w_seq w + 1) (w_snap w) (w_writer w) (w_wire w).

Fixpoint publishMany (k : nat) (w : world) : world :=
  match k with O => w | S k => publishOne (publishMany k w) end.

Lemma enqueueDelta_active m c : cn_active (enqueueDelta m c).1 = cn_active c.
Proof.
  unfold enqueueDelta, reserveTail, reserve, send, beginResyncLocked, release, fail.
  destruct c; cbn. repeat case_match; simplify_eq/=; done.
Qed.

Lemma publish_many k w :
  cn_active (w_conn w) = true -> w_seq w + Z.of_nat k < 18446744073709551615 ->
  rtc cstep w (publishMany k w).
Proof.
  intros Ha Hlt. assert (rtc cstep w (publishMany k w) /\ cn_active (w_conn (publishMany k w)) = true /\
    w_seq (publishMany k w) = w_seq w + Z.of_nat k) as [? _]; [|done].
  induction k as [|k IH]; cbn [publishMany]; [split_and!; [apply rtc_refl|done|lia]|].
  destruct IH as (IH1&IH2&IH3); [lia|]. set (w1 := publishMany k w) in *. split_and!.
  - eapply rtc_r; [done|]. unfold publishOne.
    destruct (enqueueDelta (deltaMessage (w_seq w1 + 1)) (w_conn w1)) as [c [p r]] eqn:He.
    eapply cs_publish_current; [done|lia|exact He].
  - unfold publishOne. cbn. by rewrite enqueueDelta_active.
  - unfold publishOne. cbn. lia.
Qed.

(** The connection after its hand-over at sequence 0, with one reply queued. *)
Definition oneReply (r1 : list Byte.byte) : world :=
  mkWorld (cset_queue [mkOutbound r1 0] (cset_counts 1 (zlen r1) (cset_active true newConnection)))
    0 (Some 0) (Some WReply) [FSnapshot [x7b; x7d] 0].

Lemma oneReply_reachable r1 : zlen r1 <= 1024 -> creachable 0 (oneReply r1).
Proof.
  intros Hlen. set (c := cset_active true newConnection).
  apply (cr_step _ (mkWorld c 0 (Some 0) (Some WReply) [FSnapshot [x7b; x7d] 0])).
  - apply (cr_step _ (mkWorld c 0 (Some 0) None [])); [apply (cr_step _ (mkWorld newConnection 0 (Some 0) None []))|].
    + apply (cr_step _ (cstart 0)); [apply cr_start|]. exact (cs_snapshot (cstart 0) eq_refl eq_refl).
    + exact (cs_activate (mkWorld newConnection 0 (Some 0) None []) 0 c true eq_refl eq_refl eq_refl).
    + exact (cs_start (mkWorld c 0 (Some 0) None []) 0 [x7b; x7d] eq_refl eq_refl eq_refl eq_refl).
  - apply cs_local, (ls_reply (mkWorld c 0 (Some 0) (Some WReply) [FSnapshot [x7b; x7d] 0]) r1 (w_conn (oneReply r1)) true).
    unfold enqueue, reserve. cbn. rewrite (proj2 (Z.ltb_ge _ _)) by (unfold MaxPresenterDecodedBytes; lia). done.
Qed.

(** The same after [k] deltas, as long as there is room. *)
Definition backlog (r1 : list Byte.byte) (k : Z) : world :=
  mkWorld (cset_queue (mkOutbound r1 0 :: deltasAfter 0 k) (cset_counts (1 + k) (zlen r1 + 2 * k)
      (cset_lastSequence k (cset_active true newConnection))))
    k (Some 0) (Some WReply) [FSnapshot [x7b; x7d] 0].

Lemma publishOne_backlog r1 k :
  zlen r1 <= 1024 -> 0 <= k < 255 -> publishOne (backlog r1 k) = backlog r1 (k + 1).
Proof.
  intros Hr Hk. pose proof (zlen_nonneg r1). unfold publishOne, backlog, enqueueDelta. cbn -[deltasAfter zlen].
  rewrite ValidateNextSequence_next by lia. unfold reserve. cbn -[deltasAfter zlen].
  change (zlen [x7b; x7d]) with 2.
  rewrite (proj2 (Z.leb_gt _ _)), (proj2 (Z.ltb_ge _ _)) by (unfold MaxPresenterQueueMessages, MaxPresenterDecodedBytes; lia).
  cbn -[deltasAfter zlen]. unfold send. cbn -[deltasAfter zlen].
  rewrite zlen_cons, deltasAfter_length, (proj2 (Z.ltb_lt _ _)) by (unfold MaxPresenterQueueMessages; lia).
  cbn -[deltasAfter zlen]. rewrite deltasAfter_snoc by lia. rewrite Z.add_0_l. do 2 f_equal; lia.
Qed.

Lemma publishMany_backlog r1 k :
  zlen r1 <= 1024 -> (k <= 255)%nat -> publishMany k (oneReply r1) = backlog r1 (Z.of_nat k).
Proof.
  intros Hr. induction k as [|k IH]; intros Hk; cbn [publishMany].
  - unfold oneReply, backlog. change (Z.of_nat 0) with 0. rewrite deltasAfter_nil. do 2 f_equal. unfold newConnection, cset_counts, cset_active, cset_lastSequence. f_equal. lia.
  - rewrite IH, publishOne_backlog by lia. f_equal. lia.
Qed.

(** replies can overtake each other: a reply that was queued is written
    after a later one when the queue fills up behind it, because the later
    reply is parked and the writer sends the parked reply before the queue. *)
Theorem replies_can_overtake r1 r2 :
  zlen r1 <= 1024 -> zlen r2 <= 1024 ->
  exists w w', creachable 0 w /\ rtc cstep w w' /\
    cn_queue (w_conn w) = [mkOutbound r1 0] /\ cn_replyHold (w_conn w) = None /\
    w_wire w = [FSnapshot [x7b; x7d] 0] /\
    w_wire w' = [FSnapshot [x7b; x7d] 0; FReply r2; FQueued (mkOutbound r1 0)].
Proof.
  intros Hr1 Hr2. pose proof (publish_many 255 (oneReply r1) eq_refl eq_refl) as Hfull.
  rewrite publishMany_backlog in Hfull by done. set (full := backlog r1 (Z.of_nat 255)) in *.
  set (parked := cset_wake true (cset_replyHold (Some r2) (w_conn full))).
  set (sent := cset_wake true (cset_replyHold None (w_conn full))).
  exists (oneReply r1). eexists. split; [by apply oneReply_reachable|]. split.
  { etrans; [exact Hfull|].
  eapply rtc_l; [apply cs_local, (ls_reply full r2 parked true); done|].
  eapply rtc_l; [apply cs_local, (ls_take_reply (set_conn parked full) sent r2); done|].
  eapply rtc_l; [apply cs_local, (ls_no_reply _ sent); done|].
  eapply rtc_l; [apply cs_local, (ls_no_resync _ sent); done|].
  eapply rtc_l; [apply cs_local, (ls_pop _ (mkOutbound r1 0) (deltasAfter 0 (Z.of_nat 255))); done|].
  apply rtc_refl. }
  split_and!; reflexivity.
Qed.

End Overtaking.
