(* ===== verification/Commands.v ===== *)
(** * internal/presenter: the commands of a presenter

    [executeCommandForConnection] of [connection.go]: a command from the wire
    becomes a command of the owner, and what [Owner.Do] answers becomes a
    reply.  The text of an error is a parameter: the model keeps formats, not
    their arguments. *)
From stdpp Require Import gmap strings list fin_maps.
From Stdlib Require Import ZArith Lia Strings.Byte.
From S2P Require Import Prelude GoLib Protocol Notify History Owner OwnerInv OwnerOps OwnerAdd OwnerCmd OwnerTime OwnerRun OwnerGen OwnerClaims.
Local Open Scope string_scope.
Local Open Scope list_scope.
Local Open Scope Z_scope.

(** ** Data *)

(** [Error()] of an error. *)
Class ErrorText := error_Error : error -> string.

(** [%q] writes its argument between quotes and never writes less for a
    character than the character itself. *)
Class ErrorTextLaws `{ErrorText} := {
  quoted_length prefix arg : slen prefix + slen arg + 2 <= slen (error_Error (ErrQuoted prefix arg)) }.

(** How a call of [Owner.Do] ends: answered; given up before the owner received
    the command; given up while the owner was executing it. *)
Inductive delivery :=
  | Answered
  | NotReceived (err : error)
  | ReplyLost (err : error).

Definition errOwnerClosed : error := ErrNew "state: owner closed".

Definition kindOf (kind : WireCommandKind) : CommandKind :=
  match kind with
  | CommandPresentationRenew => PresentationRenew
  | CommandAction => InvokeAction
  | CommandDismiss => Dismiss
  | CommandReply => SubmitReply
  | CommandHistoryClear => HistoryClear
  | CommandHistoryRemove => HistoryRemove
  | CommandHistoryMarkSeen => HistoryMarkSeen
  | CommandDismissAll => DismissAll
  | CommandProducerPublish => ProducerPublish
  | CommandProducerClose => ProducerClose
  | CommandOther _ => CommandKindOther 0
  end.

Definition producerKind (kind : WireCommandKind) : bool :=
  match kind with CommandProducerPublish | CommandProducerClose => true | _ => false end.

Definition stateCommand (generation : Z) (command : WireCommand) : Command :=
  mkCommand (kindOf (c_Kind command)) zeroCandidate None
    (if producerKind (c_Kind command) then c_Producer command else None)
    (c_ID command) (c_ActionKey command) (c_Text command) generation 0 (c_IDs command)
    (match c_Kind command with CommandPresentationRenew => c_Presentations command | _ => [] end).

Definition errorCodeOf (err : error) : ErrorCode :=
  if errors_Is isErrNotFound err then ErrorNotFound
  else if errors_Is isErrStale err then ErrorStale
  else if errors_Is isErrCanceled err || errors_Is isErrDeadlineExceeded err then ErrorUnavailable
  else ErrorInvalid.

Section Execute.
Context `{Clock, Sink, Png, Sha256, ErrorText}.

Definition ownerDo (d : delivery) (c : Command) (s : ownerState) : ownerState * (error + Result) :=
  match d with
  | Answered => Do c s
  | NotReceived err => (s, inl err)
  | ReplyLost err => ((Do c s).1, inl err)
  end.

Definition executeCommandForConnection (d : delivery) (generation : Z) (producer : bool) (command : WireCommand)
    (s : ownerState) : ownerState * Reply :=
  if producerKind (c_Kind command) && negb producer then
    (s, mkReply false (Some (mkProtocolError ErrorUnavailable "producer capability was not negotiated")) [] 0 false)
  else
    let '(s, result) := ownerDo d (stateCommand generation command) s in
    (s, match result with
        | inr r => mkReply true None (res_Lifetimes r) (res_ID r) (res_Replaced r)
        | inl err => mkReply false (Some (mkProtocolError (errorCodeOf err) (error_Error err))) [] 0 false
        end).

End Execute.

(** ** The decision table *)

(** A generation whose command of this kind the owner refuses. *)
Definition refused (generation : Z) (kind : WireCommandKind) (s : ownerState) : bool :=
  match kind with
  | CommandPresentationRenew =>
      (generation <? s_acceptedGeneration s) || (s_presenterRetired s && (generation =? s_acceptedGeneration s))
  | _ => s_presenterRetired s || negb (generation =? s_acceptedGeneration s)
  end.

(** The outcome of a valid command by the state it meets: [None] is success. *)
Definition expected (generation : Z) (c : WireCommand) (s : ownerState) : option ErrorCode :=
  if refused generation (c_Kind c) s then Some ErrorStale
  else match c_Kind c with
  | CommandDismiss => match s_records s !! c_ID c with None => Some ErrorNotFound | Some _ => None end
  | CommandAction =>
      match s_records s !! c_ID c with
      | None => Some ErrorNotFound
      | Some r => if existsb (fun a => String.eqb (a_Key a) (c_ActionKey c)) (n_Actions (r_notification r))
                  then None else Some ErrorInvalid
      end
  | CommandReply =>
      match s_records s !! c_ID c with
      | None => Some ErrorNotFound
      | Some r => if cd_InlineReply (r_candidate r) then None else Some ErrorInvalid
      end
  | CommandHistoryClear | CommandHistoryRemove | CommandHistoryMarkSeen =>
      match s_history s with None => Some ErrorInvalid | Some _ => None end
  | _ => None
  end.

(** The machine-width fields of a command from the wire. *)
Definition wire_typed (c : WireCommand) : Prop :=
  match c_Producer c with Some p => is_i32 (pq_ExpireTimeoutMS p) | None => True end.

Section CommandFacts.
Context `{MonotonicClock, Sink, PngLaws, Sha256Laws, ErrorText}.

Lemma valid_producer p replacesID now :
  ProducerRequest_Validate p = None -> now <> 0 -> validateCandidate (producerCandidate p replacesID) now = None.
Proof.
  unfold ProducerRequest_Validate. rewrite !firstErr_None, !failIf_None, validateTexts_None, !Forall_cons, negb_false_iff.
  intros (_&(Ha&Hs&Hb&_)&Hu&Ht&Hv) Hnow. unfold validateCandidate, Notification_Validate.
  cbn [cd_ExpireTimeout producerCandidate notificationFromCandidate n_ID n_Urgency n_Timestamp n_AppName n_AppIcon n_DesktopEntry
    n_Summary n_Body n_Category n_ReplyPlaceholder n_Actions n_Image n_Value n_SenderLineage cd_AppName cd_AppIcon cd_DesktopEntry
    cd_Summary cd_Body cd_Category cd_ReplyPlaceholder cd_Actions cd_Image cd_Value cd_Sender cd_Urgency sd_Lineage zeroSender].
  rewrite !firstErr_None, !failIf_None, validateTexts_None, !Forall_cons, firstErrDistinct_None, firstErrOf_None, Hu.
  assert (textOK "") as He by done. split_and!; try done; [by apply Z.eqb_neq|by constructor..].
Qed.

Lemma lifetimes_valid s now :
  wf s -> (forall id r, s_records s !! id = Some r -> timed now r) ->
  Reply_Validate (mkReply true None (lifetimes s now) 0 false) = None.
Proof.
  intros Hwf Htimed. unfold Reply_Validate. cbn [rp_OK rp_Error rp_Lifetimes]. rewrite firstErr_None. split; [done|].
  unfold lifetimes. rewrite firstErrDistinct_None. split_and!.
  - apply List.Forall_map, Forall_forall. intros r (id&_&Hr)%list_elem_of_omap. apply wrapErr_None.
    pose proof (wf_records s Hwf id r Hr) as [Hid Hrange _ _ _ _]. apply lifetime_valid; [by eapply Htimed|lia].
  - rewrite <-list_fmap_compose. pose proof (activeOf_ids (s_records s) (s_order s) (wf_ids_match s Hwf)
      (fun id => proj1 (wf_order s Hwf id))) as Hids. unfold activeOf in Hids. rewrite <-list_fmap_compose in Hids.
    assert (n_ID ∘ r_notification <$> omap (fun id => s_records s !! id) (s_order s) = s_order s) as Heq by exact Hids.
    change (NoDup (n_ID ∘ r_notification <$> orderedRecords s)). unfold orderedRecords. rewrite Heq. apply Hwf.
  - apply Forall_forall. set_solver.
Qed.

Lemma renew_timed generation presentations now s s' :
  wf s -> 0 < now -> (forall id r, s_records s !! id = Some r -> timed now r) ->
  renew generation presentations now s = (s', None) -> forall id r, s_records s' !! id = Some r -> timed now r.
Proof.
  intros Hwf Hnow Htimed. unfold renew. destruct (generation =? 0); [done|].
  destruct (WireCommand_Validate _) as [e|] eqn:Hv; [done|]. apply renewal_valid in Hv as (_&_&_&Hstates).
  destruct (_ && _); [done|]. destruct (_ && _); [done|]. set (s1 := if negb _ && _ then clearPresentation now s else s).
  assert (forall f s, (forall id, PresentationState_valid (f id) = true) ->
    (forall id r, s_records s !! id = Some r -> timed now r) -> forall id r, s_records (presentAll f now s) !! id = Some r -> timed now r) as Hall.
  { intros f t Hf Ht. unfold presentAll. replace (s_records (set_records _ t)) with
      (fold_left (fun m id => alter (setPresentation (f id) now) id m) (s_order t) (s_records t)) by (by destruct t).
    generalize (s_order t). intros ids. revert Ht. generalize (s_records t) as m.
    induction ids as [|id ids IH]; intros m Hm; cbn [fold_left]; [done|]. apply IH. intros i r Hi.
    destruct (decide (i = id)) as [->|Hne]; [|rewrite lookup_alter_ne in Hi by done; by eapply Hm].
    rewrite lookup_alter_eq in Hi. apply fmap_Some in Hi as (r0&Hr0&->).
    apply timed_setPresentation; [by eapply Hm|lia|done|by left]. }
  intros [= <-]. apply Hall; [intros id; by apply reportedStates_valid|]. intros id r.
  replace (s_records (set_leaseDeadline _ _)) with (s_records s1) by (by destruct s1). unfold s1. destruct (_ && _); [|apply Htimed].
  replace (s_records (clearPresentation now s)) with (s_records (presentAll (fun _ => PresentationSuppressed) now s)) by (by destruct s).
  by apply Hall.
Qed.

(** Whatever the owner does with a command it does not carry out, nothing of it
    shows. *)
Definition untouched (s s' : ownerState) : Prop :=
  s_records s' = s_records s /\ s_order s' = s_order s /\ s_history s' = s_history s /\ s_sink s' = s_sink s /\
  s_sequence s' = s_sequence s /\ gens s' = gens s.

Lemma untouched_reset s s' : untouched s s' -> untouched s (resetTimer s').
Proof.
  unfold untouched. destruct (resetTimer_frame s') as (->&->&->). rewrite gens_resetTimer. intros (?&?&Hh&?&Hq&?).
  split_and!; try done; [rewrite <-Hh|rewrite <-Hq]; unfold resetTimer; destruct (IsZero _); by destruct s'.
Qed.

Lemma untouched_tick s : untouched s (clockNow s).2.
Proof. by destruct s. Qed.

(** The outcome of a handler: success with a reply that validates, or an error
    with its code and nothing changed. *)
Definition concluded (code : option ErrorCode) (s s' : ownerState) (r : Result) (err : option error) : Prop :=
  match code with
  | None => err = None /\ Reply_Validate (mkReply true None (res_Lifetimes r) (res_ID r) (res_Replaced r)) = None
  | Some code => exists e, err = Some e /\ errorCodeOf e = code /\ untouched s s'
  end.

Lemma concluded_close id s :
  wf s -> concluded (match s_records s !! id with None => Some ErrorNotFound | Some _ => None end)
    s (close id CloseDismissed s).1 zeroResult (close id CloseDismissed s).2.
Proof.
  intros Hwf. destruct (s_records s !! id) as [r|] eqn:Hid.
  - destruct (close_spec id CloseDismissed s Hwf eq_refl (mk_is_Some _ _ Hid)) as (s'&->&_). by split.
  - unfold close. rewrite Hid. by exists ErrNotFound.
Qed.

(** An event for the sink, and the notification closed unless it is resident. *)
Lemma concluded_event e r id s :
  wf s -> s_records s !! id = Some r ->
  (if cd_Resident (r_candidate r) then ((publish e s).1, None) else close id CloseDismissed (publish e s).1).2 = None.
Proof.
  intros Hwf Hid. destruct (cd_Resident _); [done|]. pose proof (wf_publish e s Hwf) as Hwf'.
  assert (s_records (publish e s).1 = s_records s) as Er by (rewrite publish_eq; by destruct s).
  destruct (close_spec id CloseDismissed (publish e s).1 Hwf' eq_refl) as (s'&->&_); [by rewrite Er, Hid|done].
Qed.

Lemma concluded_action id key s :
  wf s ->
  concluded (match s_records s !! id with
             | None => Some ErrorNotFound
             | Some r => if existsb (fun a => String.eqb (a_Key a) key) (n_Actions (r_notification r)) then None else Some ErrorInvalid
             end) s (invokeAction id key s).1 zeroResult (invokeAction id key s).2.
Proof.
  intros Hwf. unfold invokeAction. destruct (s_records s !! id) as [r|] eqn:Hid; [|by exists ErrNotFound].
  destruct (existsb _ _); [|by eexists]. split; [|done]. by apply concluded_event.
Qed.

Lemma concluded_reply id text s :
  wf s -> WireCommand_Validate (mkWireCommand CommandReply id [] "" text [] None) = None ->
  concluded (match s_records s !! id with
             | None => Some ErrorNotFound
             | Some r => if cd_InlineReply (r_candidate r) then None else Some ErrorInvalid
             end) s (submitReply id text s).1 zeroResult (submitReply id text s).2.
Proof.
  intros Hwf Hv. unfold submitReply. rewrite Hv. destruct (s_records s !! id) as [r|] eqn:Hid; [|by exists ErrNotFound].
  destruct (cd_InlineReply _); [|by eexists]. split; [|done]. by apply concluded_event.
Qed.

Lemma concluded_history s :
  wf s ->
  let code := match s_history s with None => Some ErrorInvalid | Some _ => None end in
  concluded code s (clearHistory s).1 zeroResult (clearHistory s).2 /\
  (forall ids, concluded code s (removeHistory ids s).1 zeroResult (removeHistory ids s).2) /\
  (forall ids, concluded code s (markHistorySeen ids s).1 zeroResult (markHistorySeen ids s).2).
Proof.
  intros Hwf. cbn zeta. unfold clearHistory, removeHistory, markHistorySeen.
  destruct (s_history s) as [st|] eqn:Hs; [|by split_and!; intros; eexists]. pose proof (wf_store s st Hwf Hs) as Hst.
  split_and!; [|intros ids..].
  - destruct (Clear st) as [st' o] eqn:Ho. apply Clear_spec in Ho as (removed&->&_); [|done]. by destruct (_ =? 0).
  - destruct (Remove st ids) as [st' o] eqn:Ho. by apply Remove_spec in Ho as (removed&->&_).
  - destruct (MarkSeen st ids) as [st' o] eqn:Ho. apply MarkSeen_spec in Ho as (changed&->&_); [|done]. by destruct (_ =? 0).
Qed.

Lemma concluded_producer p now s :
  wf s -> producers_ok s -> ProducerRequest_Validate p = None -> is_i32 (pq_ExpireTimeoutMS p) -> 0 < now <= Now (s_ticks s) ->
  (let '(s', r, err) := publishProducer (Some p) now s in concluded None s s' r err) /\
  (let '(s', r, err) := closeProducer (Some p) s in concluded None s s' r err).
Proof.
  intros Hwf Hp Hv Ht Hnow. split.
  - unfold publishProducer. rewrite Hv, producer_replaces by done.
    destruct (addWithProducerKey _ _ _ _ _) as [[s' r] err] eqn:Ha.
    apply addWithProducerKey_spec in Ha as (_&_&Ha); [|done..|lia|lia].
    destruct Ha as [e He _|existing _ _ _ _ _ _ _|id _ _ _ _ _ _ _ _]; [|by split..].
    exfalso. rewrite valid_producer in He by (done || lia). done.
  - unfold closeProducer. rewrite Hv. pose proof (producer_replaces s (pq_Key p) Hwf Hp) as Hr.
    destruct (lookup0 _ _ =? 0); [by split|]. destruct (s_records s !! _) as [rec|] eqn:Hid; [|done].
    destruct (close_spec _ CloseRequestedReason s Hwf eq_refl (mk_is_Some _ _ Hid)) as (s'&->&_). by split.
Qed.

Lemma concluded_renew generation presentations now s :
  wf s -> producers_ok s -> 0 < generation -> 0 < now <= Now (s_ticks s) ->
  (forall id r, s_records s !! id = Some r -> timed now r) ->
  WireCommand_Validate (mkWireCommand CommandPresentationRenew 0 [] "" "" presentations None) = None ->
  let '(s', err) := renew generation presentations now s in
  concluded (if refused generation CommandPresentationRenew s then Some ErrorStale else None) s s'
    (mkResult 0 false (lifetimes s' now)) err.
Proof.
  intros Hwf Hp Hg Hnow Htimed Hv. pose proof (renew_ok generation presentations now s Hwf Hp Hnow Htimed) as [[_ Hwf' _] _].
  destruct (renew generation presentations now s) as [s' err] eqn:Hr. cbn [fst] in Hwf'.
  destruct (refused generation CommandPresentationRenew s) eqn:Href.
  - revert Hr. unfold renew. rewrite (proj2 (Z.eqb_neq _ _)), Hv by lia. cbn in Href.
    destruct (Z.ltb_spec generation (s_acceptedGeneration s)); cbn [orb] in Href.
    + rewrite (proj2 (Z.eqb_neq (s_acceptedGeneration s) 0)) by lia. intros [= <- <-]. by exists ErrStale.
    + rewrite andb_false_r, Href. intros [= <- <-]. by exists ErrStale.
  - assert (err = None) as ->.
    { revert Hr. unfold renew. rewrite (proj2 (Z.eqb_neq _ _)), Hv by lia. cbn in Href.
      apply orb_false_iff in Href as [-> ->]. rewrite andb_false_r. by intros [= _ <-]. }
    split; [done|]. apply lifetimes_valid; [done|]. eapply renew_timed; [exact Hwf|lia|exact Htimed|exact Hr].
Qed.

Lemma concluded_tick code s s' r err : concluded code (clockNow s).2 s' r err -> concluded code s s' r err.
Proof.
  destruct code as [code|]; [|done]. intros (e&->&<-&Hu). exists e. split_and!; [done..|].
  pose proof (untouched_tick s) as Ht. unfold untouched in *. destruct Hu as (?&?&?&?&?&?), Ht as (?&?&?&?&?&?). split_and!; congruence.
Qed.

Lemma concluded_stale generation c s :
  c_Kind c <> CommandPresentationRenew -> WireCommand_Validate c = None -> 0 < generation ->
  refused generation (c_Kind c) s = true -> gatePresenter (stateCommand generation c) s = Some ErrStale.
Proof.
  intros Hk Hv Hg. unfold gatePresenter, requirePresenter, refused. cbn [cm_Kind cm_Generation stateCommand].
  rewrite (proj2 (Z.eqb_neq generation 0)) by lia. unfold WireCommand_Validate in Hv.
  destruct (c_Kind c); cbn [kindOf]; try done; by intros ->.
Qed.

Lemma concluded_passes generation c s :
  refused generation (c_Kind c) s = false -> gatePresenter (stateCommand generation c) s = None.
Proof.
  unfold gatePresenter, requirePresenter, refused. cbn [cm_Kind cm_Generation stateCommand].
  destruct (c_Kind c); cbn [kindOf]; try done; intros ->; by destruct (generation =? 0).
Qed.

Lemma do_concluded generation c s :
  wf s -> producers_ok s -> WireCommand_Validate c = None -> wire_typed c -> 0 < generation ->
  let '(s', r, err) := do_ (stateCommand generation c) s in concluded (expected generation c s) s s' r err.
Proof.
  intros Hwf Hp Hv Ht Hg. destruct (decide (c_Kind c = CommandPresentationRenew)) as [Hk|Hk].
  { unfold do_, gatePresenter, expected. cbn [cm_Kind stateCommand]. rewrite Hk. cbn [kindOf].
    pose proof (tick_ok s Hwf Hp) as [[_ Hwf1 _] Hp1]. set (s1 := (clockNow s).2) in *. change (clockNow s) with (Now (s_ticks s), s1).
    cbn iota beta. cbn [cm_Generation cm_Presentations stateCommand]. rewrite Hk.
    pose proof (concluded_renew generation (c_Presentations c) (Now (s_ticks s)) s1 Hwf1 Hp1 Hg) as Hc.
    destruct (renew _ _ _ s1) as [s' err].
    assert (concluded (if refused generation CommandPresentationRenew s then Some ErrorStale else None) s s'
      (mkResult 0 false (lifetimes s' (Now (s_ticks s)))) err) as Hd.
    { apply concluded_tick. replace (refused generation CommandPresentationRenew s) with (refused generation CommandPresentationRenew s1)
        by (by destruct s). apply Hc.
      - split; [apply Now_pos|]. apply Now_mono. unfold s1. destruct s; cbn. lia.
      - intros id r Hr. apply (wf_records s Hwf id). unfold s1 in Hr. by destruct s.
      - revert Hv. unfold WireCommand_Validate. by rewrite Hk. }
    destruct (refused generation CommandPresentationRenew s).
    - destruct Hd as (e&->&He). by exists e.
    - destruct Hd as [-> Hd]. by split. }
  unfold expected. destruct (refused generation (c_Kind c) s) eqn:Href.
  { unfold do_. rewrite concluded_stale by done. by exists ErrStale. }
  unfold do_. rewrite concluded_passes by done. pose proof (tick_ok s Hwf Hp) as [[_ Hwf1 _] Hp1].
  set (s1 := (clockNow s).2) in *. change (clockNow s) with (Now (s_ticks s), s1). cbn iota beta.
  assert (s_records s = s_records s1 /\ s_history s = s_history s1) as [-> ->] by (by destruct s).
  assert (0 < Now (s_ticks s) <= Now (s_ticks s1)) as Hnow.
  { split; [apply Now_pos|]. apply Now_mono. unfold s1. destruct s; cbn. lia. }
  destruct (concluded_history s1 Hwf1) as (Hc1&Hc2&Hc3). unfold wire_typed in Ht.
  assert (forall s' r err code, concluded code s1 s' r err -> concluded code s s' r err) as Htick by (intros; by apply concluded_tick).
  unfold WireCommand_Validate in Hv. cbn [cm_Kind stateCommand cm_ID cm_ActionKey cm_ReplyText cm_IDs cm_Producer]. unfold withZeroResult.
  destruct (c_Kind c) eqn:Hkind; try done; cbn [kindOf producerKind].
  - apply Htick. by apply concluded_action.
  - apply Htick. by apply concluded_close.
  - apply Htick. apply concluded_reply; done.
  - by apply Htick.
  - by apply Htick.
  - by apply Htick.
  - pose proof (closeAll_empties (s_order s1) CloseDismissed s1 Hwf1 Hp1 eq_refl eq_refl) as Hall.
    destruct (closeAll _ _ s1 None) as [s' err]. destruct Hall as (_&_&->). by split.
  - destruct (c_Producer c) as [p|]; [|done]. destruct (concluded_producer p (Now (s_ticks s)) s1) as [Hc _]; try done.
  - destruct (c_Producer c) as [p|]; [|done]. destruct (concluded_producer p (Now (s_ticks s)) s1) as [_ Hc]; try done.
Qed.

Lemma command_reachable sink store s d generation producer c s' reply :
  start_store_ok store -> reachable sink store s -> is_u64 generation -> wire_typed c ->
  executeCommandForConnection d generation producer c s = (s', reply) -> reachable sink store s'.
Proof.
  intros Hst Hr Hg Ht. assert (command_typed (stateCommand generation c)) as Hty.
  { split; cbn; try done. by destruct (producerKind _). }
  assert (reachable sink store (Do (stateCommand generation c) s).1) as Hd.
  { unfold Do. destruct (do_ _ s) as [[s1 r] err] eqn:Hd. by eapply reachable_do. }
  unfold executeCommandForConnection. destruct (_ && _); [by intros [= <- _]|]. unfold ownerDo.
  destruct d; [destruct (Do _ s); by intros [= <- _]|by intros [= <- _]|by intros [= <- _]].
Qed.

(** C12: the reply to a valid command from a presenter is decided by the state it
    meets, as the table [expected] says: a producer command without the
    negotiated capability is unavailable, a generation that is not the live one
    is stale, a notification that is gone is not found, an action or a reply the
    notification does not offer, or a history command without a history, is
    invalid, and every other command succeeds.  A command that fails has changed
    nothing and told nobody, and the reply to one that succeeds validates. *)
Theorem command_replies sink store s generation producer c s' reply :
  start_store_ok store -> reachable sink store s -> WireCommand_Validate c = None -> wire_typed c ->
  0 < generation < 18446744073709551616 ->
  executeCommandForConnection Answered generation producer c s = (s', reply) ->
  reachable sink store s' /\
  e_Code <$> rp_Error reply =
    (if producerKind (c_Kind c) && negb producer then Some ErrorUnavailable else expected generation c s) /\
  match rp_Error reply with
  | None => rp_OK reply = true /\ Reply_Validate reply = None
  | Some e => rp_OK reply = false /\ untouched s s' /\
      Reply_Validate reply = validateText "error message" (e_Message e) MaxBodyBytes true
  end.
Proof.
  intros Hst Hr Hv Ht Hg. destruct (reachable_ok sink store s Hst Hr) as [Hwf Hp]. unfold executeCommandForConnection.
  destruct (_ && _); [intros [= <- <-]; split_and!; try done; by unfold untouched|].
  pose proof (do_concluded generation c s Hwf Hp Hv Ht ltac:(lia)) as Hc. unfold ownerDo, Do.
  destruct (do_ (stateCommand generation c) s) as [[s1 r] err] eqn:Hd. intros Heq.
  assert (command_typed (stateCommand generation c)) as Htyped.
  { split; cbn; try done. destruct (producerKind _); [exact Ht|done]. unfold is_u64. lia. }
  assert (reachable sink store (resetTimer s1)) as Hr' by (by eapply reachable_do).
  destruct (expected generation c s) as [code|]; cbn [concluded] in Hc.
  - destruct Hc as (e&->&<-&Hu). injection Heq as <- <-. split; [done|]. split; [done|]. cbn [rp_Error rp_OK e_Message].
    split_and!; [done|by apply untouched_reset|]. unfold errorCodeOf.
    by destruct (errors_Is isErrNotFound e), (errors_Is isErrStale e), (errors_Is isErrCanceled e), (errors_Is isErrDeadlineExceeded e).
  - destruct Hc as [-> Hc]. by injection Heq as <- <-.
Qed.

(** C40: a reply can be refused by the validator of its own protocol: an action
    key of the greatest length the protocol allows is quoted in the message of
    the error, which is then longer than a message may be. *)
Theorem long_key_reply_invalid `{!ErrorTextLaws} sink store s id r key generation s' reply :
  start_store_ok store -> reachable sink store s -> s_records s !! id = Some r ->
  slen key = MaxBodyBytes -> ValidString key = true ->
  existsb (fun a => String.eqb (a_Key a) key) (n_Actions (r_notification r)) = false ->
  0 < generation -> generation = s_acceptedGeneration s -> s_presenterRetired s = false ->
  let c := mkWireCommand CommandAction id [] key "" [] None in
  executeCommandForConnection Answered generation false c s = (s', reply) ->
  WireCommand_Validate c = None /\ is_Some (Reply_Validate reply).
Proof.
  intros Hst Hr Hid Hlen Hutf Hno Hg Hgen Hret. destruct (reachable_ok sink store s Hst Hr) as [Hwf Hp]. cbn zeta.
  assert (WireCommand_Validate (mkWireCommand CommandAction id [] key "" [] None) = None) as Hv.
  { cbn. rewrite firstErr_None, failIf_None, validateText_None, Hlen, Z.eqb_neq.
    pose proof (wf_records s Hwf id r Hid) as [_ ? _ _ _ _]. split_and!; [lia|done|right; by intros ->|done]. }
  intros Heq. split; [done|]. revert Heq. unfold executeCommandForConnection, ownerDo, Do, do_, gatePresenter, requirePresenter.
  cbn [c_Kind producerKind andb stateCommand kindOf cm_Kind cm_Generation cm_ID cm_ActionKey c_ID c_ActionKey].
  rewrite Hret, Hgen, Z.eqb_refl. rewrite <-Hgen, (proj2 (Z.eqb_neq generation 0)) by lia. cbn [orb negb clockNow withZeroResult].
  unfold withZeroResult, invokeAction. assert (s_records (set_ticks (S (s_ticks s)) s) = s_records s) as -> by (by destruct s).
  rewrite Hid, Hno. cbn. intros [= <- <-]. cbn. unfold validateText.
  pose proof (quoted_length "state: unknown action " key) as Hq. set (text := error_Error _) in *.
  destruct (ValidString text); cbn; [|by eexists]. rewrite (proj2 (Z.ltb_lt MaxBodyBytes (slen text))); [by eexists|].
  pose proof (slen_nonneg "state: unknown action "). lia.
Qed.

End CommandFacts.
