(* ===== verification/OwnerCalls.v ===== *)
(** * internal/state: the calls to the owner

    [Do], [Snapshot], [Close] and [run] of [owner.go] with their channels.  The
    goroutine of [run] alone touches the [ownerState]; a caller hands it a
    request over the unbuffered channel [requests], waits on a reply channel of
    its own, which has room for one response, and gives up when its context
    ends or the owner is closed.  [mstep] interleaves the callers, the loop and
    [Close]; a rule is one way out of a [select], or what a goroutine does
    between two of them.

    The loop's trace is a run of [step], so what is proved about those runs is
    proved about the owner as its callers see it; and every call is, at one
    point of the trace between its beginning and its end, what [ownerDo] says
    for one of the [delivery]s. *)
From stdpp Require Import gmap strings list.
From Stdlib Require Import ZArith Lia.
From S2P Require Import Prelude GoLib Protocol Notify History Owner OwnerInv OwnerOps OwnerAdd OwnerCmd OwnerTime OwnerRun Connection Commands.
Local Open Scope string_scope.
Local Open Scope list_scope.
Local Open Scope Z_scope.

(** ** State *)

(** [request], without its reply channel. *)
Inductive ask := AskDo (c : Command) | AskSnapshot.

Record response := mkResponse { rs_result : Result; rs_snapshot : Snapshot; rs_err : option error }.

Definition zeroSnapshot : Snapshot := mkSnapshot 0 [] [] [].

(** What a call returns with: the response, or an error of its own. *)
Inductive outcome := Replied (r : response) | Failed (e : error).

(** Before [ctx.Err]; in the first [select]; in the second one; returned. *)
Inductive callPhase := Entering | Sending | Awaiting | Back (o : outcome).

(** A call: what it asks, the error of its context once that has ended, and the
    buffer of its reply channel. *)
Record ownerCall := mkOwnerCall {
  oc_ask : ask; oc_ctx : option error; oc_phase : callPhase; oc_reply : option response }.

Definition at_phase (p : callPhase) (c : ownerCall) : ownerCall := mkOwnerCall (oc_ask c) (oc_ctx c) p (oc_reply c).
Definition cancelled (e : error) (c : ownerCall) : ownerCall := mkOwnerCall (oc_ask c) (Some e) (oc_phase c) (oc_reply c).
Definition replied (r : response) (c : ownerCall) : ownerCall := mkOwnerCall (oc_ask c) (oc_ctx c) (oc_phase c) (Some r).

(** [run]: in its [select], at a request, or returned with [done] closed. *)
Inductive loop := LoopIdle | LoopHandling (i : nat) | LoopDone.

(** [Owner], with its callers: the state, the loop, whether [stop] is closed,
    and the calls; and what the loop did, with the caller it did it for. *)
Record mworld := mkMWorld {
  mw_state : ownerState;
  mw_loop : loop;
  mw_stop : bool;
  mw_calls : gmap nat ownerCall;
  mw_trace : list (option nat * label) }.

Definition with_call (i : nat) (c : ownerCall) (w : mworld) : mworld :=
  mkMWorld (mw_state w) (mw_loop w) (mw_stop w) (<[i := c]> (mw_calls w)) (mw_trace w).
Definition with_loop (l : loop) (w : mworld) : mworld := mkMWorld (mw_state w) l (mw_stop w) (mw_calls w) (mw_trace w).
Definition did (i : option nat) (l : label) (s : ownerState) (w : mworld) : mworld :=
  mkMWorld s LoopIdle (mw_stop w) (mw_calls w) (mw_trace w ++ [(i, l)]).

(** ** Steps *)

Section Calls.
Context `{Clock, Sink, Png, Sha256}.

Inductive mstep : mworld -> mworld -> Prop :=
  (* a caller *)
  | ms_call w i a ctx :
      mw_calls w !! i = None -> mstep w (with_call i (mkOwnerCall a ctx Entering None) w)
  | ms_cancel w i c e :
      mw_calls w !! i = Some c -> oc_ctx c = None -> mstep w (with_call i (cancelled e c) w)
  | ms_enter w i c :
      mw_calls w !! i = Some c -> oc_phase c = Entering ->
      mstep w (with_call i (at_phase (match oc_ctx c with Some e => Back (Failed e) | None => Sending end) c) w)
  | ms_send w i c :
      mw_calls w !! i = Some c -> oc_phase c = Sending -> mw_loop w = LoopIdle ->
      mstep w (with_loop (LoopHandling i) (with_call i (at_phase Awaiting c) w))
  | ms_receive w i c r :
      mw_calls w !! i = Some c -> oc_phase c = Awaiting -> oc_reply c = Some r ->
      mstep w (with_call i (mkOwnerCall (oc_ask c) (oc_ctx c) (Back (Replied r)) None) w)
  | ms_context w i c e :
      mw_calls w !! i = Some c -> oc_phase c = Sending \/ oc_phase c = Awaiting -> oc_ctx c = Some e ->
      mstep w (with_call i (at_phase (Back (Failed e)) c) w)
  | ms_closed w i c :
      mw_calls w !! i = Some c -> oc_phase c = Sending \/ oc_phase c = Awaiting -> mw_loop w = LoopDone ->
      mstep w (with_call i (at_phase (Back (Failed errOwnerClosed)) c) w)
  (* [run] *)
  | ms_do w i c command s r err :
      mw_loop w = LoopHandling i -> mw_calls w !! i = Some c -> oc_ask c = AskDo command ->
      do_ command (mw_state w) = (s, r, err) ->
      mstep w (did (Some i) (LDo command r err) (resetTimer s) (with_call i (replied (mkResponse r zeroSnapshot err) c) w))
  | ms_snapshot w i c snap s :
      mw_loop w = LoopHandling i -> mw_calls w !! i = Some c -> oc_ask c = AskSnapshot -> snapshot (mw_state w) = (snap, s) ->
      mstep w (did (Some i) (LSnapshot snap) s (with_call i (replied (mkResponse zeroResult snap None) c) w))
  | ms_timer w d :
      mw_loop w = LoopIdle -> s_timer (mw_state w) = Some d ->
      mstep w (did None LTimer (resetTimer (handleTimer (mw_state w))) w)
  | ms_stop w :
      mw_loop w = LoopIdle -> mw_stop w = true -> mstep w (with_loop LoopDone w)
  (* [Close], which waits for the loop and then flushes the store *)
  | ms_close w : mstep w (mkMWorld (mw_state w) (mw_loop w) true (mw_calls w) (mw_trace w)).

Definition mstart (sink : option (list Event)) (store : option Store) : mworld :=
  mkMWorld (start sink store) LoopIdle false ∅ [].

Definition mreachable (sink : option (list Event)) (store : option Store) (w : mworld) : Prop := rtc mstep (mstart sink store) w.

(** ** What is true of every call *)

(** The loop's answer to a request. *)
Definition answers (a : ask) (l : label) (r : response) : Prop :=
  match a, l with
  | AskDo c, LDo c' result err => c' = c /\ r = mkResponse result zeroSnapshot err
  | AskSnapshot, LSnapshot snap => r = mkResponse zeroResult snap None
  | _, _ => False
  end.

Definition handling (w : mworld) (i : nat) : Prop := mw_loop w = LoopHandling i.
Definition served (w : mworld) (i : nat) : Prop := Some i ∈ (mw_trace w).*1.
Definition servedWith (w : mworld) (i : nat) (a : ask) (r : response) : Prop :=
  exists l, (Some i, l) ∈ mw_trace w /\ answers a l r.

Definition call_ok (w : mworld) (i : nat) (c : ownerCall) : Prop :=
  match oc_phase c with
  | Entering | Sending => oc_reply c = None /\ ~ handling w i /\ ~ served w i
  | Awaiting => (handling w i /\ oc_reply c = None /\ ~ served w i) \/
      (exists r, ~ handling w i /\ oc_reply c = Some r /\ servedWith w i (oc_ask c) r)
  | Back (Replied r) => ~ handling w i /\ servedWith w i (oc_ask c) r
  | Back (Failed e) => (oc_ctx c = Some e \/ (e = errOwnerClosed /\ mw_stop w = true)) /\
      (~ served w i \/ (~ handling w i /\ exists r, servedWith w i (oc_ask c) r))
  end.

Record mworld_ok (sink : option (list Event)) (store : option Store) (w : mworld) : Prop := {
  mo_steps : steps (start sink store) ((mw_trace w).*2) (mw_state w);
  mo_once : NoDup (omap fst (mw_trace w));
  mo_known i : handling w i \/ served w i -> is_Some (mw_calls w !! i);
  mo_calls i c : mw_calls w !! i = Some c -> call_ok w i c;
  mo_done : mw_loop w = LoopDone -> mw_stop w = true }.

Lemma handling_fun w i j : handling w i -> handling w j -> i = j.
Proof. unfold handling. congruence. Qed.

Lemma served_with w i a r : servedWith w i a r -> served w i.
Proof. intros (l&Hl&_). apply list_elem_of_fmap. by exists (Some i, l). Qed.

Lemma served_did i l s w j : served (did i l s w) j <-> served w j \/ i = Some j.
Proof. unfold served, did. cbn. rewrite fmap_app, elem_of_app. cbn. rewrite list_elem_of_singleton. intuition congruence. Qed.

(** A call does not notice the others. *)
Lemma call_ok_mono w w' i c :
  call_ok w i c -> (handling w' i <-> handling w i) -> (served w' i <-> served w i) ->
  (forall a r, servedWith w i a r -> servedWith w' i a r) -> (mw_stop w = true -> mw_stop w' = true) -> call_ok w' i c.
Proof.
  unfold call_ok. intros Hc Hh Hs Ha Hst. destruct (oc_phase c) as [| | |[r|e]]; rewrite ?Hh, ?Hs; try done.
  - destruct Hc as [Hc|(r&?&?&?)]; [by left|right; exists r; rewrite Hh; auto].
  - destruct Hc as [? Hc]. auto.
  - destruct Hc as [He Hc]. split; [destruct He as [?|[? ?]]; auto|]. destruct Hc as [?|[? [r ?]]]; [by left|right; eauto].
Qed.

(** A caller moves; the loop and its trace stay. *)
Lemma mworld_caller sink store w i c :
  mworld_ok sink store w -> call_ok w i c -> mworld_ok sink store (with_call i c w).
Proof.
  intros [Hs Ho Hk Hc Hd] Hi. split; [done|done| | |done].
  - intros j Hj. cbn. destruct (decide (i = j)) as [<-|Hne]; [by rewrite lookup_insert_eq|]. rewrite lookup_insert_ne by done. by apply Hk.
  - intros j d. cbn. intros [[<- <-]|[_ Hj]]%lookup_insert_Some; [exact Hi|exact (Hc j d Hj)].
Qed.

Lemma steps_snoc s ls s1 l s2 : steps s ls s1 -> step s1 l s2 -> steps s (ls ++ [l]) s2.
Proof. induction 1 as [s|s l' s' ls s'' Hs _ IH]; intros Hl; cbn; [by eapply steps_cons; [|constructor]|]. eapply steps_cons; [done|auto]. Qed.

(** The loop comes back from a round, in which it changed one call at most. *)
Lemma mworld_did sink store w i l s calls :
  let w' := did i l s (mkMWorld (mw_state w) (mw_loop w) (mw_stop w) calls (mw_trace w)) in
  mworld_ok sink store w -> step (mw_state w) l s -> (forall j, i = Some j -> handling w j /\ ~ served w j) ->
  (forall j, handling w j -> i = Some j) -> (forall j, i <> Some j -> calls !! j = mw_calls w !! j) ->
  (forall j, i = Some j -> exists c, calls !! j = Some c /\ call_ok w' j c) -> mworld_ok sink store w'.
Proof.
  intros w' [Hs Ho Hk Hc Hd] Hl Hi Hh Hsame Hcall. split; cbn.
  - rewrite fmap_app. by eapply steps_snoc.
  - rewrite omap_app. apply NoDup_app. split_and!; [done| |destruct i; [apply NoDup_singleton|apply NoDup_nil_2]].
    intros j Hj Hin. destruct i as [k|]; [|by apply not_elem_of_nil in Hin]. apply list_elem_of_singleton in Hin as ->.
    apply (Hi k eq_refl). apply list_elem_of_omap in Hj as ([x l']&Hx&Heq). cbn in Heq. subst. apply list_elem_of_fmap. by exists (Some k, l').
  - intros j [Hj|Hj%served_did]; [done|]. destruct (decide (i = Some j)) as [Heq|Hne]; [destruct (Hcall j Heq) as (c&Hcj&_); by exists c|].
    rewrite Hsame by done. destruct Hj; [apply Hk; by right|done].
  - intros j c Hj. destruct (decide (i = Some j)) as [Heq|Hne].
    + destruct (Hcall j Heq) as (c'&Hc'&Hok). by assert (c' = c) as -> by congruence.
    + rewrite Hsame in Hj by done. eapply call_ok_mono; [by apply Hc| | | |done].
      * split; [done|]. intros Hhj. by destruct Hne, (Hh j Hhj).
      * unfold w'. rewrite served_did. unfold served. cbn. tauto.
      * intros a r (l'&Hl'&?). exists l'. split; [|done]. cbn. apply elem_of_app. by left.
  - done.
Qed.

(** The loop answers the caller it is at. *)
Lemma mworld_answer sink store w i c l s r :
  mworld_ok sink store w -> handling w i -> mw_calls w !! i = Some c -> step (mw_state w) l s -> answers (oc_ask c) l r ->
  mworld_ok sink store (did (Some i) l s (with_call i (replied r c) w)).
Proof.
  intros Hw Hh Hi Hl Ha. pose proof (mo_calls _ _ _ Hw i c Hi) as Hc. unfold call_ok in Hc.
  assert (~ served w i) as Hns by (destruct (oc_phase c) as [| | |[r'|e]]; [tauto|tauto| |tauto|]; [destruct Hc as [?|(?&?&_)]|destruct Hc as [_ [?|[? _]]]]; tauto).
  apply (mworld_did sink store w (Some i) l s (<[i := replied r c]> (mw_calls w))); try done.
  - by intros j [= <-].
  - intros j Hj. f_equal. by eapply handling_fun.
  - intros j Hne. rewrite lookup_insert_ne by congruence. done.
  - intros j [= <-]. eexists. rewrite lookup_insert_eq. split; [done|]. unfold call_ok. cbn.
    assert (servedWith (did (Some i) l s (mkMWorld (mw_state w) (mw_loop w) (mw_stop w) (<[i:=replied r c]> (mw_calls w)) (mw_trace w)))
      i (oc_ask c) r) as Hserved.
    { exists l. split; [|done]. cbn. apply elem_of_app. right. by apply list_elem_of_singleton. }
    destruct (oc_phase c) as [| | |[r'|e]]; [tauto|tauto| |tauto|].
    + right. exists r. by split_and!.
    + destruct Hc as [Hc _]. split; [done|]. right. split; [done|]. by exists r.
Qed.

(** A call that gives up was not received, is being handled, or its reply is
    lost. *)
Lemma waits_served w i c :
  oc_phase c = Sending \/ oc_phase c = Awaiting -> call_ok w i c ->
  ~ served w i \/ (~ handling w i /\ exists r, servedWith w i (oc_ask c) r).
Proof.
  unfold call_ok. intros [-> | ->] Hc; [tauto|]. destruct Hc as [?|(r&?&_&?)]; [tauto|right]. eauto.
Qed.

Lemma mstep_ok sink store w w' : mworld_ok sink store w -> mstep w w' -> mworld_ok sink store w'.
Proof.
  intros Hw Hstep. pose proof Hw as [Hs Ho Hk Hc Hd].
  destruct Hstep as [w i a ctx Hi|w i c e Hi Hx|w i c Hi Hp|w i c Hi Hp Hl|w i c r Hi Hp Hr|w i c e Hi Hp Hx|w i c Hi Hp Hl|
    w i c command s r err Hl Hi Ha Hdo|w i c snap s Hl Hi Ha Hsn|w d Hl Ht|w Hl Hst|w]; try (pose proof (Hc i c Hi) as Hci; unfold call_ok in Hci).
  - apply mworld_caller; [done|]. cbn. split_and!; [done|intros Hh|intros Hh]; destruct (Hk i); auto; congruence.
  - apply mworld_caller; [done|]. unfold call_ok. cbn. destruct (oc_phase c) as [| | |[r|e']]; try done.
    destruct Hci as [[?|?] ?]; [congruence|auto].
  - apply mworld_caller; [done|]. unfold call_ok. rewrite Hp in Hci. destruct Hci as (Q1&Q2&Q3). cbn.
    destruct (oc_ctx c); cbn; [|done]. split; [by left|by left].
  - rewrite Hp in Hci. destruct Hci as (Q1&Q2&Q3). split; cbn; try done.
    + intros j [[= ->]|Hj]; [by rewrite lookup_insert_eq|]. destruct (decide (i = j)) as [<-|Hne]; [done|].
      rewrite lookup_insert_ne by done. apply Hk. by right.
    + intros j d [[<- <-]|[Hne Hj]]%lookup_insert_Some; [by left|]. eapply call_ok_mono; [by apply Hc| |done|done|done].
      unfold handling. cbn. rewrite Hl. split; congruence.
  - apply mworld_caller; [done|]. rewrite Hp in Hci. unfold call_ok. cbn. destruct Hci as [(_&?&_)|(r'&?&?&?)]; [congruence|].
    by assert (r' = r) as -> by congruence.
  - apply mworld_caller; [done|]. unfold call_ok. cbn. split; [by left|]. by eapply waits_served.
  - apply mworld_caller; [done|]. unfold call_ok. cbn. split; [right; auto|]. by eapply waits_served.
  - eapply mworld_answer; [done|done|done|by constructor|by rewrite Ha].
  - eapply mworld_answer; [done|done|done|by constructor|by rewrite Ha].
  - destruct w as [st lo stp calls tr]. cbn in *. subst lo.
    apply (mworld_did sink store (mkMWorld st LoopIdle stp calls tr) None); try done. by econstructor.
  - split; cbn; try done.
    + intros j [?|?]; [done|apply Hk; by right].
    + intros j d Hj. eapply call_ok_mono; [by apply Hc| |done|done|done]. unfold handling. cbn. rewrite Hl. done.
  - split; cbn; try done. intros j d Hj. by eapply call_ok_mono; [apply Hc|..].
Qed.

Lemma mreachable_ok sink store w : mreachable sink store w -> mworld_ok sink store w.
Proof.
  apply (rtc_ind_r (mworld_ok sink store)); [|intros w1 w2 _ Hs Hw; by eapply mstep_ok].
  split; cbn; try done; [constructor|constructor|]. by intros i [?|[? [_ ?%not_elem_of_nil]]%list_elem_of_fmap].
Qed.

(** ** Where a call takes effect *)

Lemma steps_split s ls ls' s' : steps s (ls ++ ls') s' -> exists s1, steps s ls s1 /\ steps s1 ls' s'.
Proof.
  revert s. induction ls as [|l ls IH]; intros s; cbn; [intros Hs; exists s; split; [constructor|done]|].
  intros Hs. inversion Hs as [|? ? s1 ? ? Hl Hls]; subst. destruct (IH s1 Hls) as (s2&?&?). exists s2. split; [|done]. by eapply steps_cons.
Qed.

Lemma served_at sink store w i c r :
  mworld_ok sink store w -> servedWith w i (AskDo c) r ->
  exists ls l ls' s1 s2, (mw_trace w).*2 = ls ++ [l] ++ ls' /\ steps (start sink store) ls s1 /\ steps s1 [l] s2 /\
    steps s2 ls' (mw_state w) /\ Do c s1 = (s2, match rs_err r with Some e => inl e | None => inr (rs_result r) end).
Proof.
  intros Hw (l&Hl&Ha). destruct l as [c' result err| |]; try done. destruct Ha as [-> ->]. cbn.
  pose proof (mo_steps _ _ _ Hw) as Hs. apply list_elem_of_split in Hl as (t1&t2&Ht). rewrite Ht in *. rewrite fmap_app, fmap_cons in *. cbn in *.
  destruct (steps_split _ _ _ _ Hs) as (s1&Hs1&Hs2). inversion Hs2 as [|? ? s2 ? ? Hd Hs3]; subst. inversion Hd as [? ? s' ? ? Hdo| |]; subst.
  exists t1.*2, (LDo c result err), t2.*2, s1, (resetTimer s'). split_and!; try done; [by eapply steps_cons; [|constructor]|].
  unfold Do. by rewrite Hdo.
Qed.

(** What a returned call tells its caller, as [Do] does. *)
Definition outcomeOf (o : outcome) : error + Result :=
  match o with
  | Replied r => match rs_err r with Some e => inl e | None => inr (rs_result r) end
  | Failed e => inl e
  end.

Lemma trace_grows w w' : rtc mstep w w' -> exists later, mw_trace w' = mw_trace w ++ later.
Proof.
  induction 1 as [w|w w1 w2 Hs _ [later IH]]; [exists []; by rewrite app_nil_r|].
  assert (exists new, mw_trace w1 = mw_trace w ++ new) as [new Hn].
  { destruct Hs; cbn; first [by exists []; rewrite app_nil_r|by eexists]. }
  exists (new ++ later). by rewrite IH, Hn, app_assoc.
Qed.

(** ** Ways to return *)

(** The loop can finish the request it is at, if it is at one. *)
Lemma loop_frees sink store w :
  mworld_ok sink store w ->
  exists w', rtc mstep w w' /\ (forall k, ~ handling w' k) /\ mw_stop w' = mw_stop w /\ (mw_loop w' = LoopDone -> mw_loop w = LoopDone) /\
    forall i c, mw_calls w !! i = Some c -> exists c', mw_calls w' !! i = Some c' /\
      oc_ask c' = oc_ask c /\ oc_ctx c' = oc_ctx c /\ oc_phase c' = oc_phase c.
Proof.
  intros Hw. destruct (mw_loop w) as [|k|] eqn:Hl.
  - exists w. split; [apply rtc_refl|]. unfold handling. rewrite Hl. split_and!; try done. intros i c Hi. by exists c.
  - destruct (mo_known _ _ _ Hw k (or_introl Hl)) as [c Hc].
    assert (exists w', mstep w w' /\ mw_loop w' = LoopIdle /\ mw_stop w' = mw_stop w /\
      exists r, mw_calls w' = <[k := replied r c]> (mw_calls w)) as (w'&Hs&Hl'&Hst&r&Hcs).
    { destruct (oc_ask c) as [command|] eqn:Ha.
      - destruct (do_ command (mw_state w)) as [[s r] err] eqn:Hd. eexists. split; [by eapply ms_do|]. split_and!; try done. by eexists.
      - destruct (snapshot (mw_state w)) as [snap s] eqn:Hd. eexists. split; [by eapply ms_snapshot|]. split_and!; try done. by eexists. }
    exists w'. split; [by apply rtc_once|]. unfold handling. rewrite Hl'. split_and!; try done.
    intros i d. rewrite Hcs. destruct (decide (k = i)) as [<-|Hne].
    + intros Hi. assert (d = c) as -> by congruence. eexists. by rewrite lookup_insert_eq.
    + intros Hi. exists d. by rewrite lookup_insert_ne.
  - exists w. split; [apply rtc_refl|]. unfold handling. rewrite Hl. split_and!; try done. intros i c Hi. by exists c.
Qed.

(** A call that was received, or whose owner is closed, can return. *)
Lemma awaiting_returns sink store w i c :
  mworld_ok sink store w -> mw_calls w !! i = Some c -> oc_phase c = Awaiting ->
  exists w' c' r, rtc mstep w w' /\ mw_calls w' !! i = Some c' /\ oc_phase c' = Back (Replied r).
Proof.
  intros Hw Hi Hp. destruct (loop_frees _ _ _ Hw) as (w1&Hs1&Hfree&_&_&Hcalls). destruct (Hcalls i c Hi) as (c1&Hi1&_&_&Hp1).
  assert (mworld_ok sink store w1) as Hw1 by (clear -Hs1 Hw; induction Hs1 as [|w w1 w2 Hs _ IH]; [done|]; apply IH; by eapply mstep_ok).
  pose proof (mo_calls _ _ _ Hw1 i c1 Hi1) as Hc1. unfold call_ok in Hc1. rewrite Hp1, Hp in Hc1.
  destruct Hc1 as [(Hh&_)|(r&_&Hr&_)]; [by apply Hfree in Hh|].
  eexists _, _, r. split; [eapply rtc_r; [exact Hs1|]|].
  - eapply (ms_receive w1 i c1 r); [done|congruence|done].
  - cbn. by rewrite lookup_insert_eq.
Qed.

Lemma sending_returns sink store w i c :
  mworld_ok sink store w -> mw_calls w !! i = Some c -> oc_phase c = Sending ->
  exists w' c' o, rtc mstep w w' /\ mw_calls w' !! i = Some c' /\ oc_phase c' = Back o /\ (mw_stop w = false -> exists r, o = Replied r).
Proof.
  intros Hw Hi Hp. destruct (loop_frees _ _ _ Hw) as (w1&Hs1&Hfree&Hstop&Hdone&Hcalls). destruct (Hcalls i c Hi) as (c1&Hi1&_&_&Hp1).
  assert (mworld_ok sink store w1) as Hw1 by (clear -Hs1 Hw; induction Hs1 as [|w w1 w2 Hs _ IH]; [done|]; apply IH; by eapply mstep_ok).
  rewrite Hp in Hp1. destruct (mw_loop w1) as [|k|] eqn:Hl; [|by destruct (Hfree k)|].
  - pose proof (ms_send w1 i c1 Hi1 Hp1 Hl) as Hs2.
    destruct (awaiting_returns sink store _ i (at_phase Awaiting c1) (mstep_ok _ _ _ _ Hw1 Hs2)) as (w'&c'&r&Hs3&Hi'&Hp'); [by cbn; rewrite lookup_insert_eq|done|].
    exists w', c', (Replied r). split_and!; [|done|done|by eexists]. etrans; [exact Hs1|]. by eapply rtc_l.
  - eexists _, _, (Failed errOwnerClosed). split; [eapply rtc_r; [exact Hs1|]|].
    + by eapply (ms_closed w1 i c1); [|left|].
    + cbn. rewrite lookup_insert_eq. split_and!; [done|done|]. intros Hst. pose proof (mo_done _ _ _ Hw (Hdone eq_refl)). congruence.
Qed.

(** ** Claims *)

(** C6: the calls to the owner are linearizable.  In every reachable state,
    whatever the callers, their contexts and [Close] do, the loop's trace is a
    run of the owner's steps and has each caller at most once.  A [Do] that
    returned is, at one point of that run, the [ownerDo] of its command, for
    one of its deliveries; in particular a call that failed on its own has
    changed nothing or has been carried out once.  A call that was answered
    took effect before it returned: what the loop does later is not for it, and
    nothing was done for a call that has not begun. *)
Theorem owner_calls_linearize sink store w :
  mreachable sink store w ->
  steps (start sink store) ((mw_trace w).*2) (mw_state w) /\ NoDup (omap fst (mw_trace w)) /\
  (forall i c command o, mw_calls w !! i = Some c -> oc_ask c = AskDo command -> oc_phase c = Back o ->
    exists d ls ls1 ls' s1 s2, (mw_trace w).*2 = ls ++ ls1 ++ ls' /\ steps (start sink store) ls s1 /\ steps s1 ls1 s2 /\
      steps s2 ls' (mw_state w) /\ ownerDo d command s1 = (s2, outcomeOf o) /\
      match o with Replied _ => d = Answered | Failed e => d <> Answered /\ (oc_ctx c = Some e \/ (e = errOwnerClosed /\ mw_stop w = true)) end) /\
  (forall w', rtc mstep w w' -> exists later, mw_trace w' = mw_trace w ++ later /\
    (forall i c r, mw_calls w !! i = Some c -> oc_phase c = Back (Replied r) -> Some i ∉ later.*1)) /\
  (forall i, mw_calls w !! i = None -> Some i ∉ (mw_trace w).*1).
Proof.
  intros Hr. pose proof (mreachable_ok _ _ _ Hr) as Hw. pose proof Hw as [Hs Ho Hk Hc _]. split; [done|]. split; [done|]. split_and!.
  - intros i c command o Hi Ha Hp. pose proof (Hc i c Hi) as Hok. unfold call_ok in Hok. rewrite Hp, Ha in Hok.
    destruct o as [r|e].
    + destruct Hok as [_ Hsv]. destruct (served_at _ _ _ _ _ _ Hw Hsv) as (ls&l&ls'&s1&s2&Ht&Hs1&Hl&Hs2&Hdo).
      by exists Answered, ls, [l], ls', s1, s2.
    + destruct Hok as [He [Hns|[_ [r Hsv]]]].
      * exists (NotReceived e), (mw_trace w).*2, [], [], (mw_state w), (mw_state w). rewrite app_nil_r.
        split_and!; [done|done|constructor|constructor|done|done|done].
      * destruct (served_at _ _ _ _ _ _ Hw Hsv) as (ls&l&ls'&s1&s2&Ht&Hs1&Hl&Hs2&Hdo).
        exists (ReplyLost e), ls, [l], ls', s1, s2. split_and!; try done. unfold ownerDo. by rewrite Hdo.
  - intros w' Hs'. destruct (trace_grows _ _ Hs') as [later Hlater]. exists later. split; [done|]. intros i c r Hi Hp Hin.
    assert (mreachable sink store w') as Hr' by (unfold mreachable in *; by etrans).
    pose proof (mo_once _ _ _ (mreachable_ok _ _ _ Hr')) as Hnd. rewrite Hlater, omap_app in Hnd.
    apply NoDup_app in Hnd as (_&Hdis&_). pose proof (Hc i c Hi) as Hok. unfold call_ok in Hok. rewrite Hp in Hok. destruct Hok as [_ Hsv].
    assert (forall tr, Some i ∈ tr.*1 -> i ∈ omap fst (tr : list (option nat * label))) as Hmem.
    { intros tr ([x l]&Hx&Hin')%list_elem_of_fmap. apply list_elem_of_omap. exists (x, l). by rewrite <-Hx. }
    by apply (Hdis i); apply Hmem; [eapply served_with|].
  - intros i Hi Hsv. destruct (Hk i (or_intror Hsv)). congruence.
Qed.

(** Once told to stop, the loop can be left. *)
Lemma loop_stops sink store w : mworld_ok sink store w -> mw_stop w = true -> exists w', rtc mstep w w' /\ mw_loop w' = LoopDone.
Proof.
  intros Hw Hst. destruct (loop_frees _ _ _ Hw) as (w1&Hs1&Hfree&Hstop&_&_). destruct (mw_loop w1) as [|k|] eqn:Hl; [|by destruct (Hfree k)|by exists w1].
  eexists. split; [eapply rtc_r; [exact Hs1|]|].
  - apply ms_stop; [done|congruence].
  - done.
Qed.

(** C31: no call to the owner hangs: from every reachable state every call that
    has not returned can return, whatever the other callers do; unless its
    context has ended or [Close] was called it can return the owner's response.
    After [Close] was called the loop can come to its end, and then [Close] and
    every call can return. *)
Theorem owner_calls_return sink store w :
  mreachable sink store w ->
  (forall i c, mw_calls w !! i = Some c -> exists w' c' o, rtc mstep w w' /\ mw_calls w' !! i = Some c' /\ oc_phase c' = Back o /\
    (mw_stop w = false -> oc_ctx c = None -> (forall o', oc_phase c <> Back o') -> exists r, o = Replied r)) /\
  (mw_stop w = true -> exists w', rtc mstep w w' /\ mw_loop w' = LoopDone).
Proof.
  intros Hr. pose proof (mreachable_ok _ _ _ Hr) as Hw. split.
  - intros i c Hi. destruct (oc_phase c) as [| | |o] eqn:Hp.
    + pose proof (ms_enter w i c Hi Hp) as Hs. destruct (oc_ctx c) as [e|] eqn:Hx.
      * eexists _, _, (Failed e). split; [by apply rtc_once|]. cbn. by rewrite lookup_insert_eq.
      * destruct (sending_returns sink store _ i (at_phase Sending c) (mstep_ok _ _ _ _ Hw Hs)) as (w'&c'&o&Hs'&Hi'&Hp'&Ho); [by cbn; rewrite lookup_insert_eq|done|].
        exists w', c', o. split_and!; [by eapply rtc_l|done|done|]. intros Hst _ _. by apply Ho.
    + destruct (sending_returns sink store w i c Hw Hi Hp) as (w'&c'&o&Hs'&Hi'&Hp'&Ho). exists w', c', o. split_and!; auto.
    + destruct (awaiting_returns sink store w i c Hw Hi Hp) as (w'&c'&r&Hs'&Hi'&Hp'). exists w', c', (Replied r). split_and!; eauto.
    + exists w, c, o. split_and!; [apply rtc_refl|done|done|]. intros _ _ Hn. by destruct (Hn o).
  - intros Hst. by eapply loop_stops.
Qed.

End Calls.
