(* ===== verification/Handover.v ===== *)
(** * internal/presenter: the hand-over between presenter connections

    [handle], [connectionDone] and [Close] of [server.go], with the state owner
    they talk to.  Every critical section under the server's mutex is a
    function; [hstep] interleaves the goroutines of the connections, the calls
    they make to the owner, the owner's other callers and its timer.

    A connection is where its [handle] is.  What [activate] answers, which the
    other model of a connection follows in detail, is open here.  The owner
    outlives the server: the program closes the server first. *)
From stdpp Require Import gmap strings list fin_maps.
From Stdlib Require Import ZArith Lia Strings.Byte.
From S2P Require Import Prelude GoLib Protocol Notify History Owner OwnerInv OwnerOps OwnerAdd OwnerCmd OwnerTime OwnerRun OwnerGen Commands.
Local Open Scope string_scope.
Local Open Scope list_scope.
Local Open Scope Z_scope.

(** ** Data *)

(** Where [handle] is: reading the hello; prepared, without and with its
    snapshot; made current, with the generation it replaced, and not yet bound
    by the owner; bound; in its read loop; in the deferred function; taken out
    as the current connection, with the owner still to be told; returned. *)
Inductive hphase :=
  | HHandshake | HPreparing | HReady | HCurrent (previous : Z) | HBound | HServing | HLeaving | HLost | HDone.

Record hconn := mkHConn { hc_generation : Z; hc_producer : bool; hc_phase : hphase }.

Definition at_hphase (p : hphase) (c : hconn) : hconn := mkHConn (hc_generation c) (hc_producer c) p.

(** The fields of [Server] that the mutex guards; connections are numbered. *)
Record Server := mkServer {
  sv_current : option nat;
  sv_preparing : option nat;
  sv_nextGen : Z;
  sv_closing : bool;
  sv_conns : gset nat }.

Definition NewServer : Server := mkServer None None 0 false ∅.

Record hworld := mkHWorld { hw_server : Server; hw_conns : gmap nat hconn; hw_owner : ownerState }.

(** ** The critical sections *)

(** [handle] puts itself among the live handles, unless the server closes. *)
Definition registerConn (i : nat) (s : Server) : option Server :=
  if sv_closing s then None
  else Some (mkServer (sv_current s) (sv_preparing s) (sv_nextGen s) (sv_closing s) ({[i]} ∪ sv_conns s)).

(** The next generation: [uint64] addition that skips zero. *)
Definition nextGeneration (g : Z) : Z := let g := wrap64 (g + 1) in if g =? 0 then wrap64 (g + 1) else g.

(** The connection becomes the one that prepares, unless there is one. *)
Definition beginPrepare (i : nat) (s : Server) : option (Server * Z) :=
  if sv_closing s || match sv_preparing s with Some _ => true | None => false end then None
  else
    let g := nextGeneration (sv_nextGen s) in
    Some (mkServer (sv_current s) (Some i) g (sv_closing s) (sv_conns s), g).

Definition clearPreparing (i : nat) (s : Server) : Server :=
  if bool_decide (sv_preparing s = Some i)
  then mkServer (sv_current s) None (sv_nextGen s) (sv_closing s) (sv_conns s) else s.

(** The prepared connection becomes the current one; the answer is the one it
    replaces. *)
Definition commitHandoff (i : nat) (activated : bool) (s : Server) : Server * option (option nat) :=
  if sv_closing s || negb (bool_decide (sv_preparing s = Some i)) || negb activated
  then (clearPreparing i s, None)
  else (mkServer (Some i) None (sv_nextGen s) (sv_closing s) (sv_conns s), Some (sv_current s)).

(** [connectionDone] up to its unlock; the answer says whether the connection
    was the current one. *)
Definition connectionDone (i : nat) (s : Server) : Server * bool :=
  let wasCurrent := bool_decide (sv_current s = Some i) in
  (mkServer (if wasCurrent then None else sv_current s)
     (if bool_decide (sv_preparing s = Some i) then None else sv_preparing s)
     (sv_nextGen s) (sv_closing s) (sv_conns s ∖ {[i]}), wasCurrent).

(** [Close] sets the flag and fails every live handle. *)
Definition closeServer (s : Server) : Server * gset nat :=
  (mkServer (sv_current s) (sv_preparing s) (sv_nextGen s) true (sv_conns s), sv_conns s).

(** ** The calls to the owner *)

Definition lostCommand (generation next : Z) : Command :=
  mkCommand PresenterLost zeroCandidate None None 0 "" "" generation next [] [].

(** The generation that a hand-over replaces; no connection has none. *)
Definition generationOf (conns : gmap nat hconn) (i : option nat) : Z :=
  match i with Some i => match conns !! i with Some c => hc_generation c | None => 0 end | None => 0 end.

Section Handover.
Context `{Clock, Sink, Png, Sha256, ErrorText}.

(** A connection may leave at any time: its socket failed, a frame was refused
    or a call answered an error. *)
Definition mayLeave (p : hphase) : bool :=
  match p with HHandshake | HPreparing | HReady | HBound | HServing => true | _ => false end.

(** What callers other than presenter connections ask of the owner. *)
Definition serviceLabel (l : label) : Prop :=
  match l with
  | LDo c _ _ => command_typed c /\ match cm_Kind c with
                 | Add | CloseRequested | PresenterResync => True | _ => False end
  | _ => True
  end.

Inductive hstep : hworld -> hworld -> Prop :=
  | hs_accept w i s :
      hw_conns w !! i = None -> registerConn i (hw_server w) = Some s ->
      hstep w (mkHWorld s (<[i := mkHConn 0 false HHandshake]> (hw_conns w)) (hw_owner w))
  | hs_hello w i c s g producer :
      hw_conns w !! i = Some c -> hc_phase c = HHandshake -> beginPrepare i (hw_server w) = Some (s, g) ->
      sv_nextGen (hw_server w) + 1 < 18446744073709551616 ->
      hstep w (mkHWorld s (<[i := mkHConn g producer HPreparing]> (hw_conns w)) (hw_owner w))
  | hs_snapshot w i c snap o :
      hw_conns w !! i = Some c -> hc_phase c = HPreparing -> step (hw_owner w) (LSnapshot snap) o ->
      hstep w (mkHWorld (hw_server w) (<[i := at_hphase HReady c]> (hw_conns w)) o)
  | hs_commit w i c activated s old :
      hw_conns w !! i = Some c -> hc_phase c = HReady -> commitHandoff i activated (hw_server w) = (s, Some old) ->
      hstep w (mkHWorld s (<[i := at_hphase (HCurrent (generationOf (hw_conns w) old)) c]> (hw_conns w)) (hw_owner w))
  | hs_commit_refused w i c activated s :
      hw_conns w !! i = Some c -> hc_phase c = HReady -> commitHandoff i activated (hw_server w) = (s, None) ->
      hstep w (mkHWorld s (<[i := at_hphase HLeaving c]> (hw_conns w)) (hw_owner w))
  | hs_bind w i c previous :
      hw_conns w !! i = Some c -> hc_phase c = HCurrent previous ->
      hstep w (mkHWorld (hw_server w) (<[i := at_hphase HBound c]> (hw_conns w))
        (Do (lostCommand previous (hc_generation c)) (hw_owner w)).1)
  | hs_serve w i c :
      hw_conns w !! i = Some c -> hc_phase c = HBound ->
      hstep w (mkHWorld (hw_server w) (<[i := at_hphase HServing c]> (hw_conns w)) (hw_owner w))
  | hs_command w i c d command o reply :
      hw_conns w !! i = Some c -> hc_phase c = HServing -> WireCommand_Validate command = None -> wire_typed command ->
      executeCommandForConnection d (hc_generation c) (hc_producer c) command (hw_owner w) = (o, reply) ->
      hstep w (mkHWorld (hw_server w) (hw_conns w) o)
  | hs_leave w i c :
      hw_conns w !! i = Some c -> mayLeave (hc_phase c) = true ->
      hstep w (mkHWorld (hw_server w) (<[i := at_hphase HLeaving c]> (hw_conns w)) (hw_owner w))
  | hs_done w i c s wasCurrent :
      hw_conns w !! i = Some c -> hc_phase c = HLeaving -> connectionDone i (hw_server w) = (s, wasCurrent) ->
      hstep w (mkHWorld s (<[i := at_hphase (if wasCurrent then HLost else HDone) c]> (hw_conns w)) (hw_owner w))
  | hs_lost w i c :
      hw_conns w !! i = Some c -> hc_phase c = HLost ->
      hstep w (mkHWorld (hw_server w) (<[i := at_hphase HDone c]> (hw_conns w))
        (Do (lostCommand (hc_generation c) 0) (hw_owner w)).1)
  | hs_owner w l o :
      serviceLabel l -> step (hw_owner w) l o -> hstep w (mkHWorld (hw_server w) (hw_conns w) o)
  | hs_close w s conns :
      closeServer (hw_server w) = (s, conns) -> hstep w (mkHWorld s (hw_conns w) (hw_owner w)).

Definition hstart (sink : option (list Event)) (store : option Store) : hworld := mkHWorld NewServer ∅ (start sink store).

Definition hreachable (sink : option (list Event)) (store : option Store) (w : hworld) : Prop := rtc hstep (hstart sink store) w.

End Handover.

(** ** What the calls do to the owner's generations *)

Definition pgens (s : ownerState) : Z * Z * bool := (s_presenterGeneration s, s_acceptedGeneration s, s_presenterRetired s).

(** No presenter, no lease. *)
Definition leased (s : ownerState) : Prop := s_presenterGeneration s = 0 -> s_leaseDeadline s = 0.

(** The presenter's fields after a call: its three generations, and that the
    lease is still that of a presenter. *)
Definition gensTo (s s' : ownerState) (g : Z * Z * bool) : Prop := pgens s' = g /\ (leased s -> leased s').

Section Generations.
Context `{MonotonicClock, Sink, PngLaws, Sha256Laws, ErrorText}.

Lemma gensTo_ctl s s' : ctl s' = ctl s -> gensTo s s' (pgens s).
Proof. unfold gensTo, leased, ctl, pgens. intros [= -> -> -> ->]. done. Qed.

Lemma gensTo_trans s1 s2 s3 g : gensTo s1 s2 (pgens s1) -> gensTo s2 s3 g -> gensTo s1 s3 g.
Proof. unfold gensTo. naive_solver. Qed.

Lemma gensTo_tick s : gensTo s (clockNow s).2 (pgens s).
Proof. apply gensTo_ctl. by destruct s. Qed.

Lemma gensTo_reset s s' g : gensTo s s' g -> gensTo s (resetTimer s') g.
Proof.
  unfold gensTo, leased, pgens. unfold resetTimer. destruct (IsZero _); by destruct s'.
Qed.

Lemma gensTo_clear now s : gensTo s (clearPresentation now s) (0, s_acceptedGeneration s, s_presenterRetired s).
Proof. by destruct s. Qed.

Lemma gensTo_sweep now s : gensTo s (sweepDue now s) (pgens s).
Proof.
  unfold sweepDue. destruct (_ && _); [|by apply gensTo_ctl]. set (s1 := match s_history s with Some _ => _ | None => _ end).
  assert (gensTo s s1 (pgens s)) as Ht.
  { apply gensTo_ctl. unfold s1. destruct (s_history s) as [st|]; [|done].
    destruct (Sweep st _) as [st' [e|removed]]; [by destruct s|]. rewrite ctl_publishRemoved. by destruct s. }
  revert Ht. clearbody s1. unfold gensTo, leased, pgens. by destruct s1.
Qed.

Lemma gensTo_timer s :
  gensTo s (resetTimer (handleTimer s)) (pgens s) \/
  gensTo s (resetTimer (handleTimer s)) (0, s_acceptedGeneration s, s_presenterRetired s).
Proof.
  unfold handleTimer. pose proof (gensTo_tick s) as Ht. destruct (clockNow s) as [now s1]. cbn [snd] in Ht.
  pose proof (gensTo_trans _ _ _ _ Ht (eq_ind _ _ (gensTo_sweep now s1) _ (proj1 Ht))) as Hw.
  set (s2 := sweepDue now s1) in *. clearbody s2.
  assert (forall g, gensTo s (leaseDue now s2) g -> gensTo s (resetTimer (fold_left (expireOne now) (s_order (leaseDue now s2)) (leaseDue now s2))) g) as Hexp.
  { intros g Hg. apply gensTo_reset. pose proof (gensTo_ctl _ _ (gens_expireAll now (s_order (leaseDue now s2)) (leaseDue now s2))) as He.
    unfold gensTo in *. destruct He as [-> He], Hg as [-> Hg]. auto. }
  unfold leaseDue in *. destruct (_ && _); [right|left]; apply Hexp; [|done].
  eapply gensTo_trans; [exact Hw|]. destruct Hw as [[= _ <- <-] _]. apply gensTo_clear.
Qed.

Lemma gensTo_do c s :
  cm_Kind c <> PresentationRenew -> cm_Kind c <> PresenterLost -> gensTo s (resetTimer (do_ c s).1.1) (pgens s).
Proof. intros. by apply gensTo_reset, gensTo_ctl, ctl_do. Qed.

Lemma gensTo_lost generation next s :
  gensTo s (Do (lostCommand generation next) s).1
  (if negb (generation =? 0) && (generation =? s_presenterGeneration s) then 0 else s_presenterGeneration s,
   Z.max (s_acceptedGeneration s) next,
   if s_acceptedGeneration s <? next then false
   else s_presenterRetired s || (negb (generation =? 0) && (generation =? s_acceptedGeneration s) && (next =? 0))).
Proof.
  unfold Do, do_, gatePresenter. cbn [cm_Kind lostCommand]. pose proof (gensTo_tick s) as Ht.
  destruct (clockNow s) as [now s1]. cbn [snd fst] in *. apply gensTo_reset.
  assert (s_presenterGeneration s1 = s_presenterGeneration s /\ s_acceptedGeneration s1 = s_acceptedGeneration s /\
    s_presenterRetired s1 = s_presenterRetired s) as (<-&<-&<-) by (destruct Ht as [Ht _]; unfold pgens in Ht; split_and!; congruence).
  destruct Ht as [_ Ht]. enough (gensTo s1 (presenterLost generation next now s1) (if negb (generation =? 0) && (generation =? s_presenterGeneration s1) then 0
    else s_presenterGeneration s1, Z.max (s_acceptedGeneration s1) next,
    if s_acceptedGeneration s1 <? next then false else s_presenterRetired s1 ||
      (negb (generation =? 0) && (generation =? s_acceptedGeneration s1) && (next =? 0)))) as [Hg Hl] by (split; auto).
  clear s Ht. unfold presenterLost. cbn [cm_Generation cm_NextGeneration].
  set (s2 := if _ && _ then clearPresentation now s1 else s1).
  assert (gensTo s1 s2 (if negb (generation =? 0) && (generation =? s_presenterGeneration s1) then 0 else s_presenterGeneration s1,
    s_acceptedGeneration s1, s_presenterRetired s1)) as [[= <- <- <-] Hl].
  { unfold s2. destruct (_ && _); [apply gensTo_clear|by split]. }
  clearbody s2. destruct (Z.ltb_spec (s_acceptedGeneration s2) next).
  - rewrite Z.max_r by lia. revert Hl. unfold gensTo, leased. by destruct s2.
  - rewrite Z.max_l by lia. revert Hl. unfold gensTo, leased.
    destruct (_ && (next =? 0)); destruct s2; cbn; [by rewrite orb_true_r|by rewrite orb_false_r].
Qed.

Lemma gensTo_renew generation presentations now s s' err :
  renew generation presentations now s = (s', err) ->
  gensTo s s' (pgens s) \/
  (gensTo s s' (generation, generation, false) /\ (s_acceptedGeneration s = 0 \/ s_acceptedGeneration s <= generation) /\
   (s_acceptedGeneration s = generation -> s_presenterRetired s = false)).
Proof.
  intros [(e&->&->)|(->&Hg&Hle&Hret&Ha&Hr&Hp&_)]%renew_gens; [left; by apply gensTo_ctl|right].
  split; [|done]. split; [unfold pgens; congruence|]. intros _. unfold leased. congruence.
Qed.

Lemma gensTo_command d generation producer c s s' reply :
  executeCommandForConnection d generation producer c s = (s', reply) ->
  gensTo s s' (pgens s) \/
  (gensTo s s' (generation, generation, false) /\ (s_acceptedGeneration s = 0 \/ s_acceptedGeneration s <= generation) /\
   (s_acceptedGeneration s = generation -> s_presenterRetired s = false)).
Proof.
  unfold executeCommandForConnection. destruct (_ && _); [intros [= <- _]; left; by apply gensTo_ctl|].
  enough (gensTo s (Do (stateCommand generation c) s).1 (pgens s) \/
    (gensTo s (Do (stateCommand generation c) s).1 (generation, generation, false) /\
     (s_acceptedGeneration s = 0 \/ s_acceptedGeneration s <= generation) /\
     (s_acceptedGeneration s = generation -> s_presenterRetired s = false))) as Hdo.
  { unfold ownerDo. destruct d; [destruct (Do _ s); by intros [= <- _]|intros [= <- _]; left; by apply gensTo_ctl|by intros [= <- _]]. }
  assert (fst (Do (stateCommand generation c) s) = resetTimer (do_ (stateCommand generation c) s).1.1) as ->
    by (unfold Do; by destruct (do_ _ s) as [[? ?] ?]).
  destruct (decide (c_Kind c = CommandPresentationRenew)) as [Hk|Hk].
  - unfold do_, gatePresenter. cbn [cm_Kind cm_Generation cm_Presentations stateCommand]. rewrite Hk. cbn [kindOf].
    pose proof (gensTo_tick s) as Ht. destruct (clockNow s) as [now s1]. cbn [snd] in Ht.
    assert (pgens s1 = pgens s) as [= _ <- <-] by apply Ht.
    destruct (renew generation (c_Presentations c) now s1) as [s2 err] eqn:Hr.
    assert (forall g, gensTo s1 s2 g -> gensTo s (resetTimer s2) g) as Hs by (intros g Hg; apply gensTo_reset; destruct Ht, Hg; split; auto).
    destruct (gensTo_renew _ _ _ _ _ _ Hr) as [Hg|(Hg&Hle&Hret)]; [left|right]; destruct err; cbn [fst].
    1,2:  rewrite <-(proj1 Ht); auto.
    1,2: auto.
  - left. apply gensTo_do; cbn; by destruct (c_Kind c).
Qed.

End Generations.

(** ** The invariant *)

Definition prepares (p : hphase) : bool := match p with HPreparing | HReady => true | _ => false end.
Definition bound (p : hphase) : bool := match p with HBound | HServing => true | _ => false end.
Definition replaces (p : hphase) : option Z := match p with HCurrent previous => Some previous | _ => None end.
(** Current now, or once and with the owner not yet told that it is gone. *)
Definition installed (p : hphase) : bool := bound p || match p with HCurrent _ => true | _ => false end.
Definition numbered (p : hphase) : bool :=
  prepares p || installed p || match p with HLost => true | _ => false end.

(** A connection that replaced generation [g] and has yet to tell the owner. *)
Definition pendingFor (g : Z) (conns : gmap nat hconn) : Prop :=
  exists k d, conns !! k = Some d /\ replaces (hc_phase d) = Some g.

(** [last] is the greatest generation that was ever current; the owner's three
    generations are [gens]. *)
Record hinv (last : Z) (gens : Z * Z * bool) (s : Server) (conns : gmap nat hconn) : Prop := {
  hv_gen i c : conns !! i = Some c -> 0 <= hc_generation c <= sv_nextGen s;
  hv_numbered i c : conns !! i = Some c -> numbered (hc_phase c) = true -> 0 < hc_generation c;
  hv_distinct i j c d : conns !! i = Some c -> conns !! j = Some d -> hc_generation c = hc_generation d ->
    0 < hc_generation c -> i = j;
  hv_prepares i c : conns !! i = Some c -> prepares (hc_phase c) = true -> sv_preparing s = Some i;
  hv_preparing i : sv_preparing s = Some i -> exists c, conns !! i = Some c /\ last < hc_generation c /\
    (prepares (hc_phase c) = true \/ hc_phase c = HLeaving);
  hv_last : 0 <= last <= sv_nextGen s;
  hv_once i c : conns !! i = Some c -> numbered (hc_phase c) = true -> prepares (hc_phase c) = false -> hc_generation c <= last;
  hv_current i : sv_current s = Some i -> exists c, conns !! i = Some c /\ hc_generation c = last /\ 0 < last /\
    (installed (hc_phase c) = true \/ hc_phase c = HLeaving);
  hv_accepted : 0 <= gens.1.2 <= last;
  hv_bound i c : conns !! i = Some c -> bound (hc_phase c) = true -> hc_generation c <= gens.1.2;
  hv_retired : gens.2 = true -> 0 < gens.1.2 /\
    forall i c, conns !! i = Some c -> hc_generation c = gens.1.2 -> hc_phase c = HDone;
  hv_previous i c g : conns !! i = Some c -> replaces (hc_phase c) = Some g -> 0 <= g < hc_generation c;
  hv_installed i c : conns !! i = Some c -> installed (hc_phase c) = true ->
    sv_current s = Some i \/ pendingFor (hc_generation c) conns \/ hc_generation c < gens.1.2;
  hv_presenting : gens.1.1 = 0 \/ pendingFor gens.1.1 conns \/
    exists i c, conns !! i = Some c /\ hc_generation c = gens.1.1 /\ (sv_current s = Some i \/ hc_phase c = HLost) }.

Ltac cases_at H := apply lookup_insert_Some in H as [[<- <-]|[? H]].

Lemma pending_insert g i c c' conns :
  conns !! i = Some c -> replaces (hc_phase c) = None -> pendingFor g conns -> pendingFor g (<[i := c']> conns).
Proof.
  intros Hi Hc (k&d&Hk&Hd). exists k, d. split; [|done]. rewrite lookup_insert_ne; [done|]. intros ->. congruence.
Qed.

(** A connection goes on, or leaves, on its own. *)
Lemma hinv_move last gens s conns i c p :
  hinv last gens s conns -> conns !! i = Some c -> replaces (hc_phase c) = None ->
  (p = HLeaving \/ (p = HReady /\ hc_phase c = HPreparing) \/ (p = HServing /\ hc_phase c = HBound)) ->
  hc_phase c <> HLost -> hc_phase c <> HDone ->
  hinv last gens s (<[i := at_hphase p c]> conns).
Proof.
  intros Hinv Hi Hrep Hp Hlost Hdone. destruct Hinv as [I1 I2 I3 I4 I5 I6 I7 I8 I9 I10 I11 I12 I13 I14].
  assert (replaces p = None) as Hp1 by (destruct Hp as [->|[[-> _]|[-> _]]]; done).
  assert ((prepares p = true -> prepares (hc_phase c) = true) /\ (bound p = true -> bound (hc_phase c) = true) /\
    (installed p = true -> installed (hc_phase c) = true) /\ (numbered p = true -> numbered (hc_phase c) = true) /\
    (prepares (hc_phase c) = true -> prepares p = true \/ p = HLeaving) /\
    (installed (hc_phase c) = true -> installed p = true \/ p = HLeaving)) as (P1&P2&P3&P4&P5&P6).
  { destruct Hp as [->|[[-> Hc]|[-> Hc]]]; [|rewrite Hc..]; split_and!; cbn; first [done|by auto]. }
  split; try assumption.
  - intros j d Hj. cases_at Hj; [cbn|]; eauto.
  - intros j d Hj. cases_at Hj; [cbn|]; eauto.
  - intros j k d e Hj Hk. cases_at Hj; cases_at Hk; cbn; intros; eauto.
  - intros j d Hj. cases_at Hj; [cbn|]; eauto.
  - intros j Hj. destruct (I5 j Hj) as (d&Hd&Hlt&Hph). destruct (decide (i = j)) as [->|Hne].
    + eexists. rewrite lookup_insert_eq. split; [done|]. cbn. assert (d = c) as -> by congruence. split; [done|].
      destruct Hph as [Hph|Hph]; [auto|]. destruct Hp as [->|[[_ Hc]|[_ Hc]]]; auto; congruence.
    + exists d. rewrite lookup_insert_ne by done. done.
  - intros j d Hj. cases_at Hj; [cbn|]; eauto. intros Hn Hq. apply (I7 i c Hi); [auto|].
    destruct (prepares (hc_phase c)) eqn:Hpc; [|done]. destruct (P5 eq_refl) as [?| ->]; [congruence|done].
  - intros j Hj. destruct (I8 j Hj) as (d&Hd&Hlt&Hpos&Hph). destruct (decide (i = j)) as [->|Hne].
    + eexists. rewrite lookup_insert_eq. split; [done|]. cbn. assert (d = c) as -> by congruence. split_and!; [done..|].
      destruct Hph as [Hph|Hph]; [auto|]. destruct Hp as [->|[[_ Hc]|[_ Hc]]]; auto; congruence.
    + exists d. rewrite lookup_insert_ne by done. done.
  - intros j d Hj. cases_at Hj; [cbn|]; eauto.
  - intros Hr. destruct (I11 Hr) as [? Hall]. split; [done|]. intros j d Hj Hg. cases_at Hj; [|eauto].
    exfalso. apply Hdone. by apply (Hall i).
  - intros j d g Hj. cases_at Hj; [cbn; congruence|]; eauto.
  - intros j d Hj Hin. assert (sv_current s = Some j \/ pendingFor (hc_generation d) conns \/ hc_generation d < gens.1.2) as [?|[?|?]].
    { cases_at Hj; [apply (I13 i c Hi); auto|eauto]. }
    + by left.
    + right. left. by eapply pending_insert.
    + by do 2 right.
  - destruct I14 as [?|[?|(j&d&Hj&Hg&Hor)]]; [by left|right; left; by eapply pending_insert|].
    do 2 right. destruct (decide (i = j)) as [->|Hne].
    + exists j. eexists. rewrite lookup_insert_eq. split; [done|]. assert (d = c) as -> by congruence. split; [done|]. left.
      by destruct Hor.
    + exists j, d. by rewrite lookup_insert_ne by done.
Qed.

Lemma hinv_accept last gens s s' conns i :
  hinv last gens s conns -> conns !! i = None -> registerConn i s = Some s' ->
  hinv last gens s' (<[i := mkHConn 0 false HHandshake]> conns).
Proof.
  intros Hinv Hi. unfold registerConn. destruct (sv_closing s); [done|]. intros [= <-].
  destruct Hinv as [I1 I2 I3 I4 I5 I6 I7 I8 I9 I10 I11 I12 I13 I14].
  assert (forall j d, conns !! j = Some d -> <[i := mkHConn 0 false HHandshake]> conns !! j = Some d) as Hold.
  { intros j d Hj. rewrite lookup_insert_ne; [done|]. intros ->. congruence. }
  assert (forall g, pendingFor g conns -> pendingFor g (<[i := mkHConn 0 false HHandshake]> conns)) as Hpend.
  { intros g (k&d&Hk&Hd). exists k, d. auto. }
  split; cbn; try assumption.
  - intros j d Hj. cases_at Hj; [cbn; lia|eauto].
  - intros j d Hj. cases_at Hj; [done|eauto].
  - intros j k d e Hj Hk. cases_at Hj; cases_at Hk; cbn; intros; try lia; eauto.
  - intros j d Hj. cases_at Hj; [done|eauto].
  - intros j Hj. destruct (I5 j Hj) as (d&Hd&?). exists d. auto.
  - intros j d Hj. cases_at Hj; [done|eauto].
  - intros j Hj. destruct (I8 j Hj) as (d&Hd&?). exists d. auto.
  - intros j d Hj. cases_at Hj; [done|eauto].
  - intros Hr. destruct (I11 Hr) as [? Hall]. split; [done|]. intros j d Hj Hg. cases_at Hj; [cbn in Hg; lia|eauto].
  - intros j d g Hj. cases_at Hj; [done|eauto].
  - intros j d Hj Hin. cases_at Hj; [done|]. destruct (I13 j d Hj Hin) as [?|[?|?]]; auto.
  - destruct I14 as [?|[?|(j&d&Hj&?)]]; [by left|right; left; auto|do 2 right; exists j, d; auto].
Qed.

Lemma nextGeneration_small g : 0 <= g -> g + 1 < 18446744073709551616 -> nextGeneration g = g + 1.
Proof.
  intros Hg Hlt. unfold nextGeneration. assert (wrap64 (g + 1) = g + 1) as -> by (unfold wrap64; apply Z.mod_small; lia).
  by rewrite (proj2 (Z.eqb_neq _ _)) by lia.
Qed.

Lemma hinv_hello last gens s s' conns i c g producer :
  hinv last gens s conns -> conns !! i = Some c -> hc_phase c = HHandshake -> beginPrepare i s = Some (s', g) ->
  sv_nextGen s + 1 < 18446744073709551616 ->
  hinv last gens s' (<[i := mkHConn g producer HPreparing]> conns).
Proof.
  intros Hinv Hi Hph. unfold beginPrepare. destruct (sv_closing s); [done|]. destruct (sv_preparing s) eqn:Hprep; [done|].
  destruct Hinv as [I1 I2 I3 I4 I5 I6 I7 I8 I9 I10 I11 I12 I13 I14]. cbn [orb]. intros [= <- <-] Hlt.
  rewrite nextGeneration_small by lia. set (c' := mkHConn _ _ _).
  assert (forall j d, conns !! j = Some d -> numbered (hc_phase d) = true \/ hc_phase d = HLeaving -> <[i := c']> conns !! j = Some d) as Hold.
  { intros j d Hj Hd. rewrite lookup_insert_ne; [done|]. intros <-. assert (d = c) as -> by congruence. rewrite Hph in Hd. by destruct Hd. }
  assert (forall g, pendingFor g conns -> pendingFor g (<[i := c']> conns)) as Hpend.
  { intros g. apply (pending_insert g i c); [done|by rewrite Hph]. }
  assert (forall p, installed p = true -> numbered p = true) as Hinst by (by intros []).
  split; cbn; try assumption.
  - intros j d Hj. cases_at Hj; [cbn; lia|]. specialize (I1 j d Hj). lia.
  - intros j d Hj. cases_at Hj; [cbn; lia|eauto].
  - intros j k d e Hj Hk. cases_at Hj; cases_at Hk; cbn; intros; eauto.
    + specialize (I1 k e Hk). lia.
    + specialize (I1 j d Hj). lia.
  - intros j d Hj. cases_at Hj; [done|]. intros Hp. specialize (I4 j d Hj Hp). congruence.
  - intros j [= <-]. exists c'. rewrite lookup_insert_eq. split; [done|]. cbn. split; [lia|by left].
  - lia.
  - intros j d Hj. cases_at Hj; [done|eauto].
  - intros j Hj. destruct (I8 j Hj) as (d&Hd&Hg&Hpos&Hor). exists d. split; [|done]. apply Hold; [done|]. destruct Hor; auto.
  - intros j d Hj. cases_at Hj; [done|eauto].
  - intros Hr. destruct (I11 Hr) as [? Hall]. split; [done|]. intros j d Hj Hg. cases_at Hj; [cbn in Hg; lia|eauto].
  - intros j d g Hj. cases_at Hj; [done|eauto].
  - intros j d Hj Hin. cases_at Hj; [done|]. destruct (I13 j d Hj Hin) as [?|[?|?]]; auto.
  - destruct I14 as [?|[?|(j&d&Hj&Hg&Hor)]]; [by left|right; left; auto|do 2 right; exists j, d; split; [|done]].
    apply Hold; [done|]. destruct Hor as [Hcur|Hl]; [|left; by rewrite Hl].
    destruct (I8 j Hcur) as (e&He&_&_&Hor). assert (e = d) as -> by congruence. destruct Hor; auto.
Qed.

Lemma hinv_commit last gens s s' conns i c activated old :
  hinv last gens s conns -> conns !! i = Some c -> hc_phase c = HReady -> commitHandoff i activated s = (s', Some old) ->
  hinv (hc_generation c) gens s' (<[i := at_hphase (HCurrent (generationOf conns old)) c]> conns).
Proof.
  intros Hinv Hi Hph. unfold commitHandoff. destruct (sv_closing s); [done|]. case_bool_decide as Hprep; [|done].
  destruct activated; [|done]. cbn [orb negb]. intros [= <- <-].
  destruct Hinv as [I1 I2 I3 I4 I5 I6 I7 I8 I9 I10 I11 I12 I13 I14].
  destruct (I5 i Hprep) as (c0&Hc0&Hlast&_). assert (c0 = c) as -> by congruence.
  set (c' := at_hphase _ c).
  assert (0 < hc_generation c) as Hpos by (apply (I2 i c Hi); by rewrite Hph).
  assert (forall g, pendingFor g conns -> pendingFor g (<[i := c']> conns)) as Hpend.
  { intros g. apply (pending_insert g i c); [done|by rewrite Hph]. }
  assert (forall j d, conns !! j = Some d -> sv_current s = Some j -> generationOf conns (sv_current s) = hc_generation d) as Hgen.
  { intros j d Hj ->. cbn. by rewrite Hj. }
  assert (0 <= generationOf conns (sv_current s) < hc_generation c) as Hprev.
  { destruct (sv_current s) as [j|] eqn:Hcur; [|cbn; lia]. destruct (I8 j eq_refl) as (d&Hd&Hg&Hp&_). cbn. rewrite Hd. lia. }
  assert (forall g j d, conns !! j = Some d -> sv_current s = Some j -> g = hc_generation d -> pendingFor g (<[i := c']> conns)) as Hnew.
  { intros g j d Hj Hcur ->. exists i, c'. rewrite lookup_insert_eq. split; [done|]. cbn. by rewrite (Hgen j d). }
  split; cbn; try assumption.
  - intros j d Hj. cases_at Hj; [exact (I1 i c Hi)|eauto].
  - intros j d Hj. cases_at Hj; [by cbn|eauto].
  - intros j k d e Hj Hk. cases_at Hj; cases_at Hk; cbn; intros; eauto.
  - intros j d Hj. cases_at Hj; [done|]. intros Hp. specialize (I4 j d Hj Hp). congruence.
  - done.
  - pose proof (I1 i c Hi). lia.
  - intros j d Hj. cases_at Hj; [cbn; lia|]. intros Hn Hp. specialize (I7 j d Hj Hn Hp). lia.
  - intros j [= <-]. exists c'. rewrite lookup_insert_eq. split_and!; try done. by left.
  - cbn in *. lia.
  - intros j d Hj. cases_at Hj; [done|eauto].
  - intros Hr. destruct (I11 Hr) as [? Hall]. split; [done|]. intros j d Hj Hg. cases_at Hj; [cbn in *; lia|eauto].
  - intros j d g Hj. cases_at Hj; [cbn; by intros [= <-]|eauto].
  - intros j d Hj Hin. cases_at Hj; [by left|]. right. destruct (I13 j d Hj Hin) as [?|[?|?]]; [left; by eapply Hnew|auto|auto].
  - destruct I14 as [?|[?|(j&d&Hj&Hg&Hor)]]; [by left|right; left; auto|]. destruct Hor as [Hcur|Hl].
    + right. left. apply (Hnew _ j d Hj Hcur); congruence.
    + do 2 right. exists j, d. rewrite lookup_insert_ne by (intros <-; congruence). auto.
Qed.

Lemma hinv_refused last gens s s' conns i c activated :
  hinv last gens s conns -> conns !! i = Some c -> hc_phase c = HReady -> commitHandoff i activated s = (s', None) ->
  hinv last gens s' (<[i := at_hphase HLeaving c]> conns).
Proof.
  intros Hinv Hi Hph Hc. assert (s' = clearPreparing i s) as ->.
  { revert Hc. unfold commitHandoff. destruct (_ || _); [by intros [= <-]|done]. }
  assert (hinv last gens s (<[i := at_hphase HLeaving c]> conns)) as [I1 I2 I3 I4 I5 I6 I7 I8 I9 I10 I11 I12 I13 I14].
  { apply hinv_move; try done; rewrite ?Hph; auto. }
  unfold clearPreparing. case_bool_decide as Hp; [|by split]. split; cbn; try assumption; [|done].
  intros j d Hj Hd. specialize (I4 j d Hj Hd). assert (j = i) as -> by congruence. rewrite lookup_insert_eq in Hj. by injection Hj as <-.
Qed.

(** The owner's generations after [PresenterLost]. *)
Definition lostGens (generation next : Z) (gens : Z * Z * bool) : Z * Z * bool :=
  let '(p, a, r) := gens in
  (if negb (generation =? 0) && (generation =? p) then 0 else p, Z.max a next,
   if a <? next then false else r || (negb (generation =? 0) && (generation =? a) && (next =? 0))).

Lemma hinv_bind last gens s conns i c previous :
  hinv last gens s conns -> conns !! i = Some c -> hc_phase c = HCurrent previous ->
  hinv last (lostGens previous (hc_generation c) gens) s (<[i := at_hphase HBound c]> conns).
Proof.
  intros Hinv Hi Hph. destruct gens as [[p a] r]. destruct Hinv as [I1 I2 I3 I4 I5 I6 I7 I8 I9 I10 I11 I12 I13 I14]. cbn [fst snd] in *.
  assert (0 < hc_generation c) as Hpos by (apply (I2 i c Hi); by rewrite Hph).
  assert (hc_generation c <= last) as Hlast by (apply (I7 i c Hi); by rewrite Hph).
  assert (0 <= previous < hc_generation c) as Hprev by (apply (I12 i c previous Hi); by rewrite Hph).
  unfold lostGens. rewrite (proj2 (Z.eqb_neq (hc_generation c) 0)), andb_false_r, orb_false_r by lia.
  set (c' := at_hphase HBound c). set (a' := Z.max a (hc_generation c)).
  assert (forall j d, i <> j -> conns !! j = Some d -> hc_phase d <> HDone -> hc_generation d = a' -> (if a <? hc_generation c then false else r) = false) as Hlive.
  { intros j d Hne Hj Hd Hg. destruct (Z.ltb_spec a (hc_generation c)); [done|]. destruct r; [|done].
    destruct (I11 eq_refl) as [_ Hall]. exfalso. apply Hd. apply (Hall j d Hj). lia. }
  assert (forall g, g <> previous \/ a' <= g -> pendingFor g conns -> pendingFor g (<[i := c']> conns)) as Hpend.
  { intros g Hg (k&d&Hk&Hd). exists k, d. rewrite lookup_insert_ne; [done|]. intros <-. assert (d = c) as -> by congruence.
    rewrite Hph in Hd. injection Hd as ->. lia. }
  split; cbn [fst snd]; try assumption.
  - intros j d Hj. cases_at Hj; [exact (I1 i c Hi)|eauto].
  - intros j d Hj. cases_at Hj; [done|eauto].
  - intros j k d e Hj Hk. cases_at Hj; cases_at Hk; cbn; intros; eauto.
  - intros j d Hj. cases_at Hj; [done|eauto].
  - intros j Hj. destruct (I5 j Hj) as (d&Hd&Hlt&Hor). exists d. rewrite lookup_insert_ne; [done|].
    intros <-. assert (d = c) as -> by congruence. rewrite Hph in Hor. by destruct Hor.
  - intros j d Hj. cases_at Hj; [done|eauto].
  - intros j Hj. destruct (I8 j Hj) as (d&Hd&Hg&Hp&Hor). destruct (decide (i = j)) as [<-|Hne].
    + exists c'. rewrite lookup_insert_eq. assert (d = c) as -> by congruence. split_and!; try done. by left.
    + exists d. by rewrite lookup_insert_ne by done.
  - lia.
  - intros j d Hj. cases_at Hj; [cbn; lia|]. intros Hb. specialize (I10 j d Hj Hb). lia.
  - destruct (Z.ltb_spec a (hc_generation c)) as [|Hle]; [done|]. intros Hr. destruct (I11 Hr) as [? Hall]. split; [lia|].
    assert (a' = a) as -> by lia. intros j d Hj Hg. cases_at Hj; [|eauto]. cbn in Hg. specialize (Hall i c Hi Hg). congruence.
  - intros j d g Hj. cases_at Hj; [done|eauto].
  - intros j d Hj Hin. destruct (Z.lt_ge_cases (hc_generation d) a') as [|Hge]; [by do 2 right|].
    assert (sv_current s = Some j \/ pendingFor (hc_generation d) conns \/ hc_generation d < a) as [?|[?|?]]; [|by left| |lia].
    { cases_at Hj; [apply (I13 i c Hi); by rewrite Hph|eauto]. }
    right. left. apply Hpend; [right; lia|done].
  - destruct (Z.eqb_spec previous p) as [<-|Hne].
    { destruct (Z.eqb_spec previous 0); [by left|by left]. }
    rewrite andb_false_r. destruct I14 as [?|[?|(j&d&Hj&Hg&Hor)]]; [by left|right; left; apply Hpend; [by left|done]|].
    do 2 right. destruct (decide (i = j)) as [<-|Hij].
    + exists i, c'. rewrite lookup_insert_eq. assert (d = c) as -> by congruence. rewrite Hph in Hor. split_and!; try done.
      left. by destruct Hor.
    + exists j, d. by rewrite lookup_insert_ne by done.
Qed.

Lemma hinv_done last gens s s' conns i c wasCurrent :
  hinv last gens s conns -> conns !! i = Some c -> hc_phase c = HLeaving -> connectionDone i s = (s', wasCurrent) ->
  hinv last gens s' (<[i := at_hphase (if wasCurrent then HLost else HDone) c]> conns).
Proof.
  intros Hinv Hi Hph. unfold connectionDone. intros [= <- <-].
  destruct Hinv as [I1 I2 I3 I4 I5 I6 I7 I8 I9 I10 I11 I12 I13 I14]. set (p := if bool_decide (sv_current s = Some i) then HLost else HDone). set (c' := at_hphase p c).
  assert (forall g, pendingFor g conns -> pendingFor g (<[i := c']> conns)) as Hpend.
  { intros g. apply (pending_insert g i c); [done|by rewrite Hph]. }
  assert (sv_current s = Some i -> hc_generation c = last /\ 0 < last) as Hcur.
  { intros Hcur. destruct (I8 i Hcur) as (d&Hd&Hg&Hp&_). by assert (d = c) as -> by congruence. }
  assert ((prepares p = true -> False) /\ (bound p = true -> False) /\ (installed p = true -> False) /\ replaces p = None /\
    (numbered p = true -> sv_current s = Some i)) as (P1&P2&P3&P4&P5).
  { unfold p. case_bool_decide; done. }
  split; cbn; try assumption.
  - intros j d Hj. cases_at Hj; [exact (I1 i c Hi)|eauto].
  - intros j d Hj. cases_at Hj; [|eauto]. cbn. intros Hn%P5%Hcur. lia.
  - intros j k d e Hj Hk. cases_at Hj; cases_at Hk; cbn; intros; eauto.
  - intros j d Hj Hp. cases_at Hj; [by apply P1 in Hp|]. rewrite (I4 j d Hj Hp). rewrite bool_decide_eq_false_2; [done|congruence].
  - intros j. case_bool_decide as Hpi; [done|]. intros Hj. destruct (I5 j Hj) as (d&Hd&?). exists d.
    rewrite lookup_insert_ne by (intros ->; congruence). done.
  - intros j d Hj. cases_at Hj; [|eauto]. cbn. intros Hn%P5%Hcur. lia.
  - intros j. case_bool_decide as Hpi; [done|]. intros Hj. destruct (I8 j Hj) as (d&Hd&?). exists d.
    rewrite lookup_insert_ne by (intros ->; congruence). done.
  - intros j d Hj. cases_at Hj; [by intros ?%P2|eauto].
  - intros Hr. destruct (I11 Hr) as [? Hall]. split; [done|]. intros j d Hj Hg. cases_at Hj; [|eauto].
    cbn in Hg. specialize (Hall i c Hi Hg). congruence.
  - intros j d g Hj. cases_at Hj; [cbn; congruence|eauto].
  - intros j d Hj Hin. cases_at Hj; [by apply P3 in Hin|]. destruct (I13 j d Hj Hin) as [Hc|[?|?]]; [|auto|auto].
    left. rewrite Hc, bool_decide_eq_false_2; [done|congruence].
  - destruct I14 as [?|[?|(j&d&Hj&Hg&Hor)]]; [by left|right; left; auto|]. do 2 right. destruct (decide (i = j)) as [<-|Hne].
    + exists i, c'. rewrite lookup_insert_eq. assert (d = c) as -> by congruence. split_and!; try done. right. cbn. unfold p.
      destruct Hor as [Hc|Hc]; [by rewrite bool_decide_eq_true_2|congruence].
    + exists j, d. rewrite lookup_insert_ne by done. split_and!; try done. destruct Hor as [Hc|Hc]; [left|by right].
      rewrite Hc, bool_decide_eq_false_2; [done|congruence].
Qed.

Lemma hinv_lost last gens s conns i c :
  hinv last gens s conns -> conns !! i = Some c -> hc_phase c = HLost ->
  hinv last (lostGens (hc_generation c) 0 gens) s (<[i := at_hphase HDone c]> conns).
Proof.
  intros Hinv Hi Hph. destruct gens as [[p a] r]. destruct Hinv as [I1 I2 I3 I4 I5 I6 I7 I8 I9 I10 I11 I12 I13 I14]. cbn [fst snd] in *.
  assert (0 < hc_generation c) as Hpos by (apply (I2 i c Hi); by rewrite Hph).
  unfold lostGens. rewrite (proj2 (Z.eqb_neq (hc_generation c) 0)), Z.max_l, (proj2 (Z.ltb_ge a 0)) by lia. cbn [negb andb].
  rewrite andb_true_r. set (c' := at_hphase HDone c).
  assert (forall g, pendingFor g conns -> pendingFor g (<[i := c']> conns)) as Hpend.
  { intros g. apply (pending_insert g i c); [done|by rewrite Hph]. }
  split; cbn [fst snd]; try assumption.
  - intros j d Hj. cases_at Hj; [exact (I1 i c Hi)|eauto].
  - intros j d Hj. cases_at Hj; [done|eauto].
  - intros j k d e Hj Hk. cases_at Hj; cases_at Hk; cbn; intros; eauto.
  - intros j d Hj. cases_at Hj; [done|eauto].
  - intros j Hj. destruct (I5 j Hj) as (d&Hd&Hlt&Hor). exists d. rewrite lookup_insert_ne; [done|].
    intros <-. assert (d = c) as -> by congruence. rewrite Hph in Hor. by destruct Hor.
  - intros j d Hj. cases_at Hj; [done|eauto].
  - intros j Hj. destruct (I8 j Hj) as (d&Hd&Hg&Hp&Hor). exists d. rewrite lookup_insert_ne; [done|].
    intros <-. assert (d = c) as -> by congruence. rewrite Hph in Hor. by destruct Hor.
  - intros j d Hj. cases_at Hj; [done|eauto].
  - intros Hr. split.
    { destruct (Z.eqb_spec (hc_generation c) a); [lia|]. rewrite orb_false_r in Hr. by apply I11. }
    intros j d Hj Hg. cases_at Hj; [done|]. destruct (Z.eqb_spec (hc_generation c) a) as [Heq|Hne].
    + exfalso. assert (i = j) by (apply (I3 i j c d Hi Hj); [congruence|done]). done.
    + rewrite orb_false_r in Hr. eapply I11; eauto.
  - intros j d g Hj. cases_at Hj; [done|eauto].
  - intros j d Hj Hin. cases_at Hj; [done|]. destruct (I13 j d Hj Hin) as [?|[?|?]]; auto.
  - destruct (Z.eqb_spec (hc_generation c) p) as [|Hne]; [by left|].
    destruct I14 as [?|[?|(j&d&Hj&Hg&Hor)]]; [by left|right; left; auto|do 2 right].
    exists j, d. rewrite lookup_insert_ne; [done|]. intros <-. congruence.
Qed.

(** The owner's generations change without the server: a lease ran out, or a
    connection in its read loop renewed. *)
Lemma hinv_expired last p a r s conns : hinv last (p, a, r) s conns -> hinv last (0, a, r) s conns.
Proof. intros []. split; try assumption. by left. Qed.

Lemma hinv_renewed last p a r s conns i c :
  hinv last (p, a, r) s conns -> conns !! i = Some c -> hc_phase c = HServing ->
  a = 0 \/ a <= hc_generation c -> (a = hc_generation c -> r = false) ->
  hinv last (hc_generation c, hc_generation c, false) s conns.
Proof.
  intros Hinv Hi Hph Hle Hret. destruct Hinv as [I1 I2 I3 I4 I5 I6 I7 I8 I9 I10 I11 I12 I13 I14]. cbn [fst snd] in *.
  assert (0 < hc_generation c) as Hpos by (apply (I2 i c Hi); by rewrite Hph).
  assert (hc_generation c <= a) as Hb by (apply (I10 i c Hi); by rewrite Hph).
  assert (hc_generation c = a) as <- by lia. split; try assumption; [done|]. right.
  destruct (I13 i c Hi) as [?|[?|?]]; [by rewrite Hph|right|by left|cbn in *; lia]. exists i, c. auto.
Qed.

Lemma hinv_close last gens s conns : hinv last gens s conns -> hinv last gens (closeServer s).1 conns.
Proof. intros []. by split. Qed.

(** ** Runs *)

Section Runs.
Context `{MonotonicClock, Sink, PngLaws, Sha256Laws, ErrorText}.

Record hworld_ok (sink : option (list Event)) (store : option Store) (w : hworld) : Prop := {
  ho_owner : reachable sink store (hw_owner w);
  ho_leased : leased (hw_owner w);
  ho_inv : exists last, hinv last (pgens (hw_owner w)) (hw_server w) (hw_conns w) }.

Lemma hstart_ok sink store : hworld_ok sink store (hstart sink store).
Proof.
  assert (gensTo (boot sink store) (start sink store) (0, 0, false)) as [Hp Hl].
  { change (start sink store) with (resetTimer (boot sink store)). apply gensTo_reset. destruct store; by split. }
  split; cbn [hw_owner hw_server hw_conns hstart].
  - exists []. split; constructor.
  - apply Hl. by destruct store.
  - exists 0. rewrite Hp. split; cbn; try done; try (intros; by rewrite lookup_empty in *). by left.
Qed.

(** A call that the owner answered. *)
Lemma hworld_call sink store w s' conns' c last :
  hworld_ok sink store w -> command_typed c ->
  hinv last (pgens (Do c (hw_owner w)).1) s' conns' -> (leased (hw_owner w) -> leased (Do c (hw_owner w)).1) ->
  hworld_ok sink store (mkHWorld s' conns' (Do c (hw_owner w)).1).
Proof.
  intros [Ho Hl _] Ht Hi Hlease. split; cbn; [|auto|by exists last].
  unfold Do. destruct (do_ c (hw_owner w)) as [[s1 r] err] eqn:Hd. by eapply reachable_do.
Qed.

(** A move that leaves the owner alone. *)
Lemma hworld_quiet sink store w s' conns' last :
  hworld_ok sink store w -> hinv last (pgens (hw_owner w)) s' conns' ->
  hworld_ok sink store (mkHWorld s' conns' (hw_owner w)).
Proof. intros [Ho Hl _] Hi. split; cbn; [done|done|by exists last]. Qed.

Lemma lostCommand_typed g next : is_u64 g -> command_typed (lostCommand g next).
Proof. by split. Qed.

Lemma hworld_lost sink store w s' conns' g next last :
  hworld_ok sink store w -> is_u64 g -> hinv last (lostGens g next (pgens (hw_owner w))) s' conns' ->
  hworld_ok sink store (mkHWorld s' conns' (Do (lostCommand g next) (hw_owner w)).1).
Proof.
  intros Hw Hg Hi. destruct (gensTo_lost g next (hw_owner w)) as [Hp Hl].
  apply (hworld_call _ _ _ _ _ _ last); [done|by apply lostCommand_typed|by rewrite Hp|done].
Qed.

Lemma serviceLabel_gens s l s' :
  serviceLabel l -> step s l s' -> label_typed l /\
  (gensTo s s' (pgens s) \/ gensTo s s' (0, s_acceptedGeneration s, s_presenterRetired s)).
Proof.
  intros Hl Hstep. destruct Hstep as [s c s' r err Hdo|s snap s' Hsn|s d Ht].
  - destruct Hl as [Ht Hk]. split; [done|left]. pose proof (gensTo_do c s) as Hg. rewrite Hdo in Hg.
    apply Hg; by destruct (cm_Kind c).
  - split; [done|left]. assert (s' = (clockNow s).2) as -> by (by rewrite <-snapshot_tick, Hsn). apply gensTo_tick.
  - split; [done|]. apply gensTo_timer.
Qed.

(** The generations the server has handed out fit their width. *)
Definition nextGen_ok (w : hworld) : Prop := sv_nextGen (hw_server w) < 18446744073709551616.

Lemma hinv_u64 last gens s conns i c :
  hinv last gens s conns -> sv_nextGen s < 18446744073709551616 -> conns !! i = Some c -> is_u64 (hc_generation c).
Proof. intros Hi Hn Hc. pose proof (hv_gen _ _ _ _ Hi i c Hc). unfold is_u64. lia. Qed.

Lemma hstep_ok sink store w w' :
  start_store_ok store -> nextGen_ok w -> hworld_ok sink store w -> hstep w w' -> nextGen_ok w' /\ hworld_ok sink store w'.
Proof.
  intros Hst Hn Hw Hstep. pose proof Hw as [Ho Hl [last Hi]]. unfold nextGen_ok in *.
  destruct Hstep as [w i s Hi0 Hs|w i c s g producer Hc Hph Hs Hlt|w i c snap o Hc Hph Hs|w i c act s old Hc Hph Hs|
    w i c act s Hc Hph Hs|w i c previous Hc Hph|w i c Hc Hph|w i c d command o reply Hc Hph Hv Ht Hex|w i c Hc Hm|
    w i c s was Hc Hph Hs|w i c Hc Hph|w l o Hsl Hs|w s conns Hs]; cbn [hw_server] in *.
  - split; [|eapply hworld_quiet; [done|by eapply hinv_accept]]. revert Hs. unfold registerConn. destruct (sv_closing _); [done|by intros [= <-]].
  - split; [|eapply hworld_quiet; [done|by eapply hinv_hello]]. revert Hs. unfold beginPrepare. destruct (_ || _); [done|]. intros [= <- _].
    cbn. pose proof (hv_last _ _ _ _ Hi). rewrite nextGeneration_small; lia.
  - split; [done|]. destruct (serviceLabel_gens _ _ _ (I : serviceLabel (LSnapshot snap)) Hs) as [Hlt Hg].
    assert (gensTo (hw_owner w) o (pgens (hw_owner w))) as [Hp Hls].
    { inversion Hs as [|? ? ? Hsn|]; subst. assert (o = (clockNow (hw_owner w)).2) as -> by (by rewrite <-snapshot_tick, Hsn). apply gensTo_tick. }
    split; cbn; [by eapply reachable_step|auto|exists last; rewrite Hp]. apply hinv_move; try done; rewrite Hph; auto.
  - split; [|eapply hworld_quiet; [done|by eapply hinv_commit]]. revert Hs. unfold commitHandoff. destruct (_ || _); [done|by intros [= <- _]].
  - split; [|eapply hworld_quiet; [done|by eapply hinv_refused]]. revert Hs. unfold commitHandoff, clearPreparing.
    destruct (_ || _); [|done]. destruct (bool_decide _); by intros [= <-].
  - split; [done|]. eapply hworld_lost; [done| |by apply hinv_bind].
    pose proof (hv_previous _ _ _ _ Hi i c previous Hc ltac:(by rewrite Hph)). pose proof (hv_gen _ _ _ _ Hi i c Hc). unfold is_u64. lia.
  - split; [done|]. eapply hworld_quiet; [done|]. apply hinv_move; try done; rewrite Hph; auto.
  - split; [done|]. pose proof (hinv_u64 _ _ _ _ _ _ Hi Hn Hc) as Hu. pose proof (command_reachable _ _ _ _ _ _ _ _ _ Hst Ho Hu Ht Hex) as Hr.
    destruct (gensTo_command _ _ _ _ _ _ _ Hex) as [[Hp Hls]|([Hp Hls]&Hle&Hret)]; split; cbn; auto; exists last; rewrite Hp; [done|].
    by eapply hinv_renewed.
  - split; [done|]. eapply hworld_quiet; [done|]. apply hinv_move; try done; try (by destruct (hc_phase c)). by left.
  - split; [by injection Hs as <- _|]. eapply hworld_quiet; [done|]. by eapply hinv_done.
  - split; [done|]. eapply hworld_lost; [done|by eapply hinv_u64|by apply hinv_lost].
  - split; [done|]. destruct (serviceLabel_gens _ _ _ Hsl Hs) as [Hty Hg].
    destruct Hg as [[Hp Hls]|[Hp Hls]]; split; cbn; auto; try (by eapply reachable_step); exists last; rewrite Hp; [done|].
    by eapply hinv_expired.
  - split; [by injection Hs as <- _|]. eapply hworld_quiet; [done|]. injection Hs as <- _. by apply (hinv_close last _ (hw_server w)).
Qed.

Lemma hreachable_ok sink store w :
  start_store_ok store -> hreachable sink store w -> hworld_ok sink store w /\ nextGen_ok w.
Proof.
  intros Hst Hr. enough (forall v, nextGen_ok v -> hworld_ok sink store v -> rtc hstep v w -> hworld_ok sink store w /\ nextGen_ok w) as Hgen.
  { eapply Hgen; [|apply hstart_ok|exact Hr]. done. }
  clear Hr. intros v Hn Hv Hr. induction Hr as [|v v1 w Hs _ IH]; [done|].
  destruct (hstep_ok sink store v v1 Hst Hn Hv Hs). auto.
Qed.

(** ** Progress *)

(** What prepares can leave, and gives the preparation free. *)
Lemma preparing_free last w :
  hinv last (pgens (hw_owner w)) (hw_server w) (hw_conns w) ->
  exists w1, rtc hstep w w1 /\ sv_preparing (hw_server w1) = None /\ sv_closing (hw_server w1) = sv_closing (hw_server w) /\
    sv_nextGen (hw_server w1) = sv_nextGen (hw_server w) /\ forall i, hw_conns w !! i = None -> hw_conns w1 !! i = None.
Proof.
  intros Hi. destruct (sv_preparing (hw_server w)) as [j|] eqn:Hp; [|by exists w].
  destruct (hv_preparing _ _ _ _ Hi j Hp) as (c&Hc&_&Hor).
  assert (forall v, hw_server v = hw_server w -> hw_conns v !! j = Some (at_hphase HLeaving c) -> (forall i, i <> j -> hw_conns v !! i = hw_conns w !! i) ->
    exists w1, rtc hstep v w1 /\ sv_preparing (hw_server w1) = None /\ sv_closing (hw_server w1) = sv_closing (hw_server w) /\
      sv_nextGen (hw_server w1) = sv_nextGen (hw_server w) /\ forall i, hw_conns w !! i = None -> hw_conns w1 !! i = None) as Hleave.
  { intros v Hs Hv Hsame. destruct (connectionDone j (hw_server v)) as [s was] eqn:Hd. eexists. split.
    - apply rtc_once. by eapply (hs_done v j).
    - rewrite Hs in Hd. unfold connectionDone in Hd. rewrite Hp in Hd. injection Hd as <- _. cbn.
      rewrite bool_decide_eq_true_2 by done. split_and!; [done..|]. intros i Hn. rewrite lookup_insert_ne by (intros ->; congruence).
      rewrite Hsame; [done|]. intros ->. congruence. }
  destruct Hor as [Hph|Hph].
  - edestruct (Hleave (mkHWorld (hw_server w) (<[j := at_hphase HLeaving c]> (hw_conns w)) (hw_owner w))) as (w1&Hw1&?); cbn.
    + done.
    + apply lookup_insert_eq.
    + intros i Hne. by rewrite lookup_insert_ne.
    + exists w1. split; [|done]. eapply rtc_l; [|exact Hw1]. eapply hs_leave; [done|]. by destruct (hc_phase c).
  - apply Hleave; try done. rewrite Hc. f_equal. destruct c. cbn in *. by subst.
Qed.

Lemma fresh_connects s conns o i :
  sv_closing s = false -> sv_preparing s = None -> 0 <= sv_nextGen s -> sv_nextGen s + 1 < 18446744073709551616 -> conns !! i = None ->
  exists w', rtc hstep (mkHWorld s conns o) w' /\
    hw_server w' = mkServer (Some i) None (nextGeneration (sv_nextGen s)) (sv_closing s) ({[i]} ∪ sv_conns s) /\
    hw_conns w' = <[i := mkHConn (nextGeneration (sv_nextGen s)) false HServing]> conns.
Proof.
  intros Hcl Hp Hpos Hlt Hi. set (g := nextGeneration (sv_nextGen s)).
  set (s1 := mkServer (sv_current s) (sv_preparing s) (sv_nextGen s) (sv_closing s) ({[i]} ∪ sv_conns s)).
  set (s2 := mkServer (sv_current s) (Some i) g (sv_closing s) ({[i]} ∪ sv_conns s)).
  set (s3 := mkServer (Some i) None g (sv_closing s) ({[i]} ∪ sv_conns s)).
  set (c := fun p => mkHConn g false p).
  set (previous := generationOf (<[i := c HReady]> conns) (sv_current s)).
  destruct (snapshot o) as [snap o1] eqn:Hsn.
  exists (mkHWorld s3 (<[i := c HServing]> conns) (Do (lostCommand previous g) o1).1). split_and!; [|done..].
  assert (forall p q, <[i := c q]> (<[i := c p]> conns) = <[i := c q]> conns) as Hii by (intros; apply insert_insert_eq).
  eapply rtc_l; [apply (hs_accept _ i s1); [done|]; unfold registerConn, s1; cbn; by rewrite Hcl|]. cbn [hw_conns hw_owner].
  eapply rtc_l; [eapply (hs_hello _ i _ s2 g false); [apply lookup_insert_eq|done| |done]|]; cbn [hw_server hw_conns hw_owner].
  { unfold beginPrepare, s1, s2. cbn. by rewrite Hcl, Hp. }
  rewrite insert_insert_eq. change (mkHConn g false HPreparing) with (c HPreparing).
  eapply rtc_l; [eapply (hs_snapshot _ i (c HPreparing) snap o1); [apply lookup_insert_eq|done|by constructor]|]. cbn [hw_server hw_conns hw_owner].
  change (at_hphase HReady (c HPreparing)) with (c HReady). rewrite Hii.
  eapply rtc_l; [eapply (hs_commit _ i (c HReady) true s3 (sv_current s)); [apply lookup_insert_eq|done|]|]; cbn [hw_server hw_conns hw_owner].
  { unfold commitHandoff, s2, s3. cbn. by rewrite Hcl, bool_decide_eq_true_2. }
  fold previous. change (at_hphase (HCurrent previous) (c HReady)) with (c (HCurrent previous)). rewrite Hii.
  eapply rtc_l; [eapply (hs_bind _ i (c (HCurrent previous)) previous); [apply lookup_insert_eq|done]|]. cbn [hw_server hw_conns hw_owner].
  change (at_hphase HBound (c (HCurrent previous))) with (c HBound). rewrite Hii.
  eapply rtc_l; [eapply (hs_serve _ i (c HBound)); [apply lookup_insert_eq|done]|]. cbn [hw_server hw_conns hw_owner].
  change (at_hphase HServing (c HBound)) with (c HServing). by rewrite Hii.
Qed.

(** ** Claims *)

(** C7: exactly the current connection commands the owner: once it is bound, no
    command of it is ever refused as stale, and every command of any other
    connection that is still in its read loop is, in whatever order the calls
    of the connections reach the owner. *)
Theorem only_current_commands sink store w i c :
  start_store_ok store -> hreachable sink store w ->
  sv_current (hw_server w) = Some i -> hw_conns w !! i = Some c -> bound (hc_phase c) = true ->
  (forall kind, refused (hc_generation c) kind (hw_owner w) = false) /\
  (forall j d kind, j <> i -> hw_conns w !! j = Some d -> hc_phase d = HServing ->
    refused (hc_generation d) kind (hw_owner w) = true).
Proof.
  intros Hst Hr Hcur Hc Hb. destruct (hreachable_ok sink store w Hst Hr) as [[_ _ [last Hi]] _].
  destruct (hv_current _ _ _ _ Hi i Hcur) as (c0&Hc0&Hlast&Hpos&_). assert (c0 = c) as -> by congruence.
  pose proof (hv_accepted _ _ _ _ Hi) as Ha. pose proof (hv_bound _ _ _ _ Hi i c Hc Hb) as Hle. cbn in Ha, Hle.
  assert (s_acceptedGeneration (hw_owner w) = hc_generation c) as Hacc by lia.
  assert (s_presenterRetired (hw_owner w) = false) as Hret.
  { destruct (s_presenterRetired (hw_owner w)) eqn:Hret; [|done]. destruct (hv_retired _ _ _ _ Hi Hret) as [_ Hall].
    specialize (Hall i c Hc ltac:(cbn; lia)). by rewrite Hall in Hb. }
  unfold refused. rewrite Hacc, Hret. split.
  - intros kind. rewrite Z.ltb_irrefl, Z.eqb_refl. by destruct kind.
  - intros j d kind Hne Hd Hph. assert (hc_generation d < hc_generation c) as Hlt.
    { pose proof (hv_bound _ _ _ _ Hi j d Hd ltac:(by rewrite Hph)) as Hj. cbn in Hj.
      assert (hc_generation d <> hc_generation c); [|lia]. intros Heq. apply Hne.
      apply (hv_distinct _ _ _ _ Hi j i d c Hd Hc Heq). lia. }
    rewrite (proj2 (Z.ltb_lt _ _)), (proj2 (Z.eqb_neq _ _)) by lia. by destruct kind.
Qed.

(** C33: when every connection is gone, nothing of them is left in the owner: no
    presenter holds a lease, every notification is as if nobody displayed it,
    and its clock runs if it has a duration. *)
Theorem gone_presenters_release sink store w :
  start_store_ok store -> hreachable sink store w ->
  (forall i c, hw_conns w !! i = Some c -> hc_phase c = HDone) ->
  s_presenterGeneration (hw_owner w) = 0 /\ s_leaseDeadline (hw_owner w) = 0 /\
  forall id r, s_records (hw_owner w) !! id = Some r ->
    r_state r = PresentationSuppressed /\ r_hasDeadline r = (0 <? r_duration r).
Proof.
  intros Hst Hr Hdone. destruct (hreachable_ok sink store w Hst Hr) as [[Ho Hl [last Hi]] _].
  assert (s_presenterGeneration (hw_owner w) = 0) as Hp.
  { destruct (hv_presenting _ _ _ _ Hi) as [?|[(k&d&Hk&Hd)|(j&d&Hj&_&Hor)]]; [done| |].
    - by rewrite (Hdone k d Hk) in Hd.
    - rewrite (Hdone j d Hj) in Hor. destruct Hor as [Hcur|]; [|done].
      destruct (hv_current _ _ _ _ Hi j Hcur) as (e&He&_&_&Hph). rewrite (Hdone j e He) in Hph. by destruct Hph. }
  split_and!; [done|by apply Hl|]. intros id r Hid. destruct (reachable_ok sink store _ Hst Ho) as [Hwf _].
  pose proof (wf_suppressed _ Hwf (Hl Hp) id r Hid) as Hs. split; [done|].
  pose proof (tm_running _ _ (ro_timed _ _ _ (wf_records _ Hwf id r Hid))) as ->. unfold paused. rewrite Hs. apply andb_true_r.
Qed.

(** A new presenter can always take over: from every reachable state of an
    open server a connection that has just been accepted can become the current
    one and get into its read loop, whatever the other connections are in the
    middle of. *)
Theorem presenter_can_connect sink store w i :
  start_store_ok store -> hreachable sink store w -> sv_closing (hw_server w) = false ->
  sv_nextGen (hw_server w) + 1 < 18446744073709551616 -> hw_conns w !! i = None ->
  exists w' c, rtc hstep w w' /\ sv_current (hw_server w') = Some i /\ hw_conns w' !! i = Some c /\ hc_phase c = HServing.
Proof.
  intros Hst Hr Hcl Hlt Hfresh. destruct (hreachable_ok sink store w Hst Hr) as [[_ _ [last Hi]] _].
  destruct (preparing_free last w Hi) as (w1&Hw1&Hp1&Hc1&Hn1&Hf1). pose proof (hv_last _ _ _ _ Hi).
  destruct (fresh_connects (hw_server w1) (hw_conns w1) (hw_owner w1) i) as (w'&Hw'&Hs&Hc); [congruence|done|lia|lia|auto|].
  eexists w', _. rewrite Hs, Hc, lookup_insert_eq. split_and!; [|done..]. etrans; [exact Hw1|]. by destruct w1.
Qed.

End Runs.
