(* ===== verification/CallOrder.v ===== *)
(** * internal/fdo: the order of one sender's calls

    [order.go].  The bus library runs every incoming call on a goroutine of its
    own.  [Observe] runs on the read goroutine and stamps a ticket; a handler
    calls [Enter] before it touches the state and releases its turn after.
    Every method is a function on [CallOrder]; [ostep] interleaves arrivals,
    handlers and [Close] over a world of the calls in progress.

    A message is identified by the address of its header map, which no other
    live message shares.  The nil map that [Close] leaves behind reads like an
    empty one. *)
From stdpp Require Import gmap strings list.
From Stdlib Require Import ZArith Lia.
From S2P Require Import Prelude.
Local Open Scope string_scope.
Local Open Scope list_scope.
Local Open Scope Z_scope.

#[local] Ltac Zify.zify_post_hook ::= Z.div_mod_to_equations.

(** ** Data *)

Record CallOrder := mkCallOrder {
  co_issued : gmap string Z;  (** next ticket per sender *)
  co_turn : gmap string Z;    (** ticket currently allowed to enter *)
  co_tickets : gmap Z Z;      (** per-message ticket, consumed by [Enter] *)
  co_closed : bool }.

Definition NewCallOrder : CallOrder := mkCallOrder ∅ ∅ ∅ false.

(** A message with the headers the code reads; [None] stands for a header that
    is missing or of another type than D-Bus gives it. *)
Record Message := mkMessage {
  ms_ID : Z;                    (** the address of the header map *)
  ms_MethodCall : bool;
  ms_Path : option string;
  ms_Interface : option string;
  ms_Member : option string;
  ms_Signature : option string;
  ms_Sender : option string }.

Definition ObjectPath : string := "/org/freedesktop/Notifications".
Definition Interface : string := "org.freedesktop.Notifications".
Definition notifySignature : string := "susssasa{sv}i".
Definition closeSignature : string := "u".

(** ** Methods *)

Definition ticketed (msg : Message) : bool :=
  if negb (ms_MethodCall msg) || negb (bool_decide (ms_Path msg = Some ObjectPath)) ||
     negb (bool_decide (ms_Interface msg = Some Interface))
  then false
  else
    let member := default "" (ms_Member msg) in
    let signature := default "" (ms_Signature msg) in
    if String.eqb member "Notify" then String.eqb signature notifySignature
    else if String.eqb member "CloseNotification" then String.eqb signature closeSignature
    else false.

Definition Observe (msg : Message) (o : CallOrder) : CallOrder :=
  if negb (ticketed msg) then o
  else match ms_Sender msg with
  | None => o
  | Some sender =>
      if co_closed o then o
      else
        let ticket := lookup0 (co_issued o) sender in
        mkCallOrder (<[sender := wrap64 (ticket + 1)]> (co_issued o)) (co_turn o)
          (<[ms_ID msg := ticket]> (co_tickets o)) (co_closed o)
  end.

(** [Enter] up to its wait: the ticket is consumed.  [None] is a message
    without one, which passes straight through. *)
Definition takeTicket (id : Z) (o : CallOrder) : CallOrder * option Z :=
  match co_tickets o !! id with
  | None => (o, None)
  | Some ticket => (mkCallOrder (co_issued o) (co_turn o) (delete id (co_tickets o)) (co_closed o), Some ticket)
  end.

Inductive waiting := Waits | Turn | Released.

(** The condition [Enter] waits for, and how it returns: with its turn, or
    released by [Close]. *)
Definition awaitTurn (sender : string) (ticket : Z) (o : CallOrder) : waiting :=
  if negb (co_closed o) && negb (lookup0 (co_turn o) sender =? ticket) then Waits
  else if co_closed o then Released else Turn.

Definition advance (sender : string) (o : CallOrder) : CallOrder :=
  let turn := <[sender := wrap64 (lookup0 (co_turn o) sender + 1)]> (co_turn o) in
  if lookup0 turn sender =? lookup0 (co_issued o) sender
  then mkCallOrder (delete sender (co_issued o)) (delete sender turn) (co_tickets o) (co_closed o)
  else mkCallOrder (co_issued o) turn (co_tickets o) (co_closed o).

Definition Close (o : CallOrder) : CallOrder := mkCallOrder (co_issued o) (co_turn o) ∅ true.

(** ** The calls in progress *)

(** Where a ticketed call is: on the way to [Enter], in its wait, or between
    [Enter] and the release of its turn. *)
Inductive phase := Observed | Waiting | Running.

#[global] Instance phase_eq_dec : EqDecision phase.
Proof. solve_decision. Defined.

Record call := mkCall { ca_id : Z; ca_sender : string; ca_ticket : Z; ca_phase : phase; ca_serial : nat }.

Definition at_phase (p : phase) (c : call) : call := mkCall (ca_id c) (ca_sender c) (ca_ticket c) p (ca_serial c).

(** The ticketed calls in progress in the order of their arrival, and two logs:
    the calls that arrived and the calls that got their turn, by sender and
    serial number. *)
Record oworld := mkOWorld {
  ow_order : CallOrder;
  ow_calls : list call;
  ow_arrived : list (string * nat);
  ow_entered : list (string * nat) }.

Inductive ostep : oworld -> oworld -> Prop :=
  (* the read goroutine *)
  | os_observe w msg sender :
      ticketed msg = true -> ms_Sender msg = Some sender -> co_closed (ow_order w) = false ->
      Forall (fun c => ca_id c <> ms_ID msg) (ow_calls w) ->
      zlen (ow_calls w) + 1 < 18446744073709551616 ->
      let serial := length (ow_arrived w) in
      ostep w (mkOWorld (Observe msg (ow_order w))
        (ow_calls w ++ [mkCall (ms_ID msg) sender (lookup0 (co_issued (ow_order w)) sender) Observed serial])
        (ow_arrived w ++ [(sender, serial)]) (ow_entered w))
  | os_observe_other w msg :
      ticketed msg = false \/ ms_Sender msg = None \/ co_closed (ow_order w) = true ->
      ostep w (mkOWorld (Observe msg (ow_order w)) (ow_calls w) (ow_arrived w) (ow_entered w))
  (* a handler *)
  | os_take w l1 c l2 o ticket :
      ow_calls w = l1 ++ c :: l2 -> ca_phase c = Observed -> takeTicket (ca_id c) (ow_order w) = (o, Some ticket) ->
      ostep w (mkOWorld o (l1 ++ mkCall (ca_id c) (ca_sender c) ticket Waiting (ca_serial c) :: l2)
        (ow_arrived w) (ow_entered w))
  | os_pass w l1 c l2 o :
      ow_calls w = l1 ++ c :: l2 -> ca_phase c = Observed -> takeTicket (ca_id c) (ow_order w) = (o, None) ->
      ostep w (mkOWorld o (l1 ++ l2) (ow_arrived w) (ow_entered w))
  | os_turn w l1 c l2 :
      ow_calls w = l1 ++ c :: l2 -> ca_phase c = Waiting ->
      awaitTurn (ca_sender c) (ca_ticket c) (ow_order w) = Turn ->
      ostep w (mkOWorld (ow_order w) (l1 ++ at_phase Running c :: l2) (ow_arrived w)
        (ow_entered w ++ [(ca_sender c, ca_serial c)]))
  | os_released w l1 c l2 :
      ow_calls w = l1 ++ c :: l2 -> ca_phase c = Waiting ->
      awaitTurn (ca_sender c) (ca_ticket c) (ow_order w) = Released ->
      ostep w (mkOWorld (ow_order w) (l1 ++ l2) (ow_arrived w) (ow_entered w))
  | os_release w l1 c l2 :
      ow_calls w = l1 ++ c :: l2 -> ca_phase c = Running ->
      ostep w (mkOWorld (advance (ca_sender c) (ow_order w)) (l1 ++ l2) (ow_arrived w) (ow_entered w))
  (* shutdown *)
  | os_close w :
      ostep w (mkOWorld (Close (ow_order w)) (ow_calls w) (ow_arrived w) (ow_entered w)).

Definition ostart : oworld := mkOWorld NewCallOrder [] [] [].

Definition oreachable (w : oworld) : Prop := rtc ostep ostart w.

(** ** The invariant of an open order *)

Definition ofSender (s : string) (l : list call) : list call := filter (fun c => ca_sender c = s) l.

Definition key (c : call) : string * nat := (ca_sender c, ca_serial c).

(** The calls that have not got their turn yet. *)
Definition queued (l : list call) : list (string * nat) := key <$> filter (fun c => ca_phase c <> Running) l.

Definition sentBy (s : string) (log : list (string * nat)) : list (string * nat) := filter (fun p => p.1 = s) log.

Fixpoint ticketsFrom (t : Z) (l : list call) : Prop :=
  match l with [] => True | c :: l => ca_ticket c = wrap64 t /\ ticketsFrom (t + 1) l end.

(** One sender's calls hold consecutive tickets from the current turn on, and
    only the first may run. *)
Record ordered (o : CallOrder) (calls : list call) (s : string) : Prop := {
  or_issued : lookup0 (co_issued o) s = wrap64 (lookup0 (co_turn o) s + zlen (ofSender s calls));
  or_idle : ofSender s calls = [] -> co_issued o !! s = None /\ co_turn o !! s = None;
  or_turn : is_u64 (lookup0 (co_turn o) s);
  or_tickets : ticketsFrom (lookup0 (co_turn o) s) (ofSender s calls);
  or_waiting : Forall (fun c => ca_phase c <> Running) (tail (ofSender s calls)) }.

Record oinv (w : oworld) : Prop := {
  oi_ids : NoDup (ca_id <$> ow_calls w);
  oi_tickets : forall id t, co_tickets (ow_order w) !! id = Some t <->
    exists c, c ∈ ow_calls w /\ ca_id c = id /\ ca_phase c = Observed /\ ca_ticket c = t;
  oi_ordered : forall s, ordered (ow_order w) (ow_calls w) s;
  oi_few : zlen (ow_calls w) < 18446744073709551616;
  oi_logs : forall s, sentBy s (ow_entered w) ++ sentBy s (queued (ow_calls w)) = sentBy s (ow_arrived w) }.

Lemma ofSender_app s l k : ofSender s (l ++ k) = ofSender s l ++ ofSender s k.
Proof. apply filter_app. Qed.

Lemma ofSender_cons s c l : ofSender s (c :: l) = (if decide (ca_sender c = s) then [c] else []) ++ ofSender s l.
Proof. unfold ofSender. rewrite filter_cons. by case_decide. Qed.

Lemma ofSender_length s l : zlen (ofSender s l) <= zlen l.
Proof. unfold ofSender, zlen. pose proof (length_filter (fun c => ca_sender c = s) l). lia. Qed.

Lemma queued_app l k : queued (l ++ k) = queued l ++ queued k.
Proof. unfold queued. by rewrite filter_app, fmap_app. Qed.

Lemma queued_cons c l : queued (c :: l) = (if decide (ca_phase c <> Running) then [key c] else []) ++ queued l.
Proof. unfold queued. rewrite filter_cons. by case_decide. Qed.

Lemma sentBy_app s l k : sentBy s (l ++ k) = sentBy s l ++ sentBy s k.
Proof. apply filter_app. Qed.

Lemma sentBy_one s p : sentBy s [p] = if decide (p.1 = s) then [p] else [].
Proof. unfold sentBy. rewrite filter_cons. by case_decide. Qed.

Lemma sentBy_queued_none s l : ofSender s l = [] -> sentBy s (queued l) = [].
Proof.
  induction l as [|c l IH]; [done|]. rewrite ofSender_cons, queued_cons. case_decide as Hs; [done|]. intros Hl.
  rewrite sentBy_app, (IH Hl), app_nil_r. case_decide; [|done]. rewrite sentBy_one. by case_decide.
Qed.

Lemma ticketsFrom_app t l k : ticketsFrom t (l ++ k) <-> ticketsFrom t l /\ ticketsFrom (t + zlen l) k.
Proof.
  revert t. induction l as [|c l IH]; intros t; cbn [app ticketsFrom].
  - rewrite zlen_nil, Z.add_0_r. tauto.
  - rewrite IH, zlen_cons. replace (t + 1 + zlen l) with (t + (1 + zlen l)) by lia. tauto.
Qed.

Lemma wrap64_wrap t : wrap64 (wrap64 t) = wrap64 t.
Proof. unfold wrap64. lia. Qed.

Lemma ticketsFrom_wrap t u l : wrap64 t = wrap64 u -> ticketsFrom t l -> ticketsFrom u l.
Proof.
  revert t u. induction l as [|c l IH]; intros t u Hw; cbn [ticketsFrom]; [done|]. intros [Hc Hl].
  split; [congruence|]. eapply IH; [|exact Hl]. revert Hw. unfold wrap64. lia.
Qed.

Lemma lookup0_insert_eq `{Countable K} (m : gmap K Z) k v : lookup0 (<[k := v]> m) k = v.
Proof. unfold lookup0. by rewrite lookup_insert_eq. Qed.

Lemma lookup0_insert_neq `{Countable K} (m : gmap K Z) k k' v : k <> k' -> lookup0 (<[k := v]> m) k' = lookup0 m k'.
Proof. intros Hk. unfold lookup0. by rewrite lookup_insert_ne. Qed.

(** Only the calls of the sender, and its two counters, matter. *)
Lemma ordered_ext o o' calls calls' s :
  ordered o calls s -> co_issued o !! s = co_issued o' !! s -> co_turn o !! s = co_turn o' !! s ->
  ofSender s calls' = ofSender s calls -> ordered o' calls' s.
Proof.
  intros [H1 H2 H3 H4 H5] Hi Ht Hf. unfold lookup0 in *. split; unfold lookup0; rewrite ?Hf, <-?Hi, <-?Ht; auto.
Qed.

(** The holder of the turn is the first of its sender. *)
Lemma turn_first o l1 c l2 :
  ordered o (l1 ++ c :: l2) (ca_sender c) -> zlen (l1 ++ c :: l2) < 18446744073709551616 ->
  lookup0 (co_turn o) (ca_sender c) = ca_ticket c -> ofSender (ca_sender c) l1 = [].
Proof.
  intros [_ _ Ht Hts _] Hfew Heq. rewrite ofSender_app, ofSender_cons, decide_True in Hts by done.
  apply ticketsFrom_app in Hts as [_ [Hc _]]. rewrite <-Heq in Hc. unfold is_u64 in Ht.
  pose proof (ofSender_length (ca_sender c) l1). rewrite zlen_app, zlen_cons in Hfew. pose proof (zlen_nonneg l2).
  pose proof (zlen_nonneg (ofSender (ca_sender c) l1)).
  destruct (ofSender (ca_sender c) l1) as [|x l]; [done|]. rewrite zlen_cons in *. pose proof (zlen_nonneg l).
  revert Hc. unfold wrap64. lia.
Qed.

(** So is a call that runs. *)
Lemma running_first o l1 c l2 :
  ordered o (l1 ++ c :: l2) (ca_sender c) -> ca_phase c = Running -> ofSender (ca_sender c) l1 = [].
Proof.
  intros [_ _ _ _ Hw] Hr. rewrite ofSender_app, ofSender_cons, decide_True in Hw by done.
  destruct (ofSender (ca_sender c) l1) as [|x l]; [done|]. cbn [app tail] in Hw.
  apply Forall_app in Hw as [_ Hw]. by apply Forall_cons in Hw as [Hw _].
Qed.

(** ** The steps keep it *)

Lemma ofSender_replace s l1 c c' l2 :
  ca_sender c' = ca_sender c -> ca_sender c <> s -> ofSender s (l1 ++ c' :: l2) = ofSender s (l1 ++ c :: l2).
Proof. intros Hs Hn. rewrite !ofSender_app, !ofSender_cons, !decide_False by congruence. done. Qed.

Lemma ofSender_remove s l1 c l2 : ca_sender c <> s -> ofSender s (l1 ++ l2) = ofSender s (l1 ++ c :: l2).
Proof. intros Hn. rewrite !ofSender_app, !ofSender_cons, !decide_False by congruence. done. Qed.

Lemma zlen_replace {A} (l1 : list A) c c' l2 : zlen (l1 ++ c' :: l2) = zlen (l1 ++ c :: l2).
Proof. rewrite !zlen_app, !zlen_cons. lia. Qed.

(** A call that changes its phase and keeps its ticket. *)
Lemma ordered_phase o o' l1 c p l2 s :
  ordered o (l1 ++ c :: l2) s -> co_issued o' = co_issued o -> co_turn o' = co_turn o ->
  (p = Running -> ofSender (ca_sender c) l1 = []) -> ordered o' (l1 ++ at_phase p c :: l2) s.
Proof.
  intros Ho Hi Ht Hp. destruct (decide (ca_sender c = s)) as [<-|Hn].
  2:{ eapply ordered_ext; [exact Ho|by rewrite Hi|by rewrite Ht|by apply ofSender_replace]. }
  destruct Ho as [H1 H2 H3 H4 H5]. rewrite ofSender_app, ofSender_cons, decide_True in H1, H2, H4, H5 by done.
  split; rewrite ?Hi, ?Ht, ?ofSender_app, ?ofSender_cons, ?decide_True by done; try done.
  - rewrite H1. f_equal. f_equal. by rewrite !zlen_app.
  - by intros [_ ?]%app_eq_nil.
  - revert H4. by rewrite !ticketsFrom_app.
  - destruct (ofSender (ca_sender c) l1) as [|x l] eqn:Hl; [done|]. cbn [app tail] in *.
    apply Forall_app in H5 as [H5 H6]. apply Forall_app. split; [done|]. apply Forall_cons in H6 as [_ H6].
    constructor; [|done]. cbn. intros ->. by discriminate Hp.
Qed.

Lemma queued_phase l1 c p l2 :
  ca_phase c <> Running -> p <> Running -> queued (l1 ++ at_phase p c :: l2) = queued (l1 ++ c :: l2).
Proof. intros Hc Hp. rewrite !queued_app, !queued_cons, !decide_True by done. done. Qed.

Lemma fmap_id_replace l1 c c' l2 : ca_id c' = ca_id c -> ca_id <$> (l1 ++ c' :: l2) = ca_id <$> (l1 ++ c :: l2).
Proof. intros Hc. rewrite !fmap_app, !fmap_cons. by rewrite Hc. Qed.

(** The owner of an id is unique. *)
Lemma id_unique (l : list call) c d : NoDup (ca_id <$> l) -> c ∈ l -> d ∈ l -> ca_id c = ca_id d -> c = d.
Proof.
  intros Hn Hc Hd Hid. apply list_elem_of_lookup in Hc as [i Hi], Hd as [j Hj].
  assert (i = j) as ->; [|congruence].
  apply (NoDup_lookup (ca_id <$> l) i j (ca_id c) Hn); rewrite list_lookup_fmap, ?Hi, ?Hj; cbn; congruence.
Qed.

Lemma observe_inv w msg sender :
  oinv w -> ticketed msg = true -> ms_Sender msg = Some sender -> co_closed (ow_order w) = false ->
  Forall (fun c => ca_id c <> ms_ID msg) (ow_calls w) -> zlen (ow_calls w) + 1 < 18446744073709551616 ->
  oinv (mkOWorld (Observe msg (ow_order w))
    (ow_calls w ++ [mkCall (ms_ID msg) sender (lookup0 (co_issued (ow_order w)) sender) Observed (length (ow_arrived w))])
    (ow_arrived w ++ [(sender, length (ow_arrived w))]) (ow_entered w)).
Proof.
  intros [I1 I2 I3 I4 I5] Ht Hs Ho Hid Hfew. unfold Observe. rewrite Ht, Hs, Ho. cbn [negb].
  set (c := mkCall _ _ _ _ _). split; cbn [ow_order ow_calls ow_arrived ow_entered co_tickets co_issued co_turn].
  - rewrite fmap_app. apply NoDup_snoc. split; [done|]. cbn. intros (d&Hd&Hin)%list_elem_of_fmap.
    rewrite Forall_forall in Hid. by eapply Hid.
  - intros id t. destruct (decide (ms_ID msg = id)) as [<-|Hne].
    + rewrite lookup_insert_eq. split.
      * intros [= <-]. exists c. split; [apply elem_of_app; right; by apply list_elem_of_singleton|done].
      * intros (d&[Hd|Hd%list_elem_of_singleton]%elem_of_app&Hi&_&<-); [|by subst d].
        rewrite Forall_forall in Hid. by destruct (Hid d Hd).
    + rewrite lookup_insert_ne, I2 by done. split.
      * intros (d&Hd&?). exists d. split; [by apply elem_of_app; left|done].
      * intros (d&[Hd|Hd%list_elem_of_singleton]%elem_of_app&Hi&?); [by exists d|by subst d].
  - intros s. destruct (decide (sender = s)) as [<-|Hne].
    2:{ eapply ordered_ext; [apply I3|cbn; by rewrite lookup_insert_ne|done|].
        rewrite ofSender_app, ofSender_cons, decide_False by done. by rewrite app_nil_r. }
    destruct (I3 sender) as [H1 H2 H3 H4 H5].
    assert (ofSender sender (ow_calls w ++ [c]) = ofSender sender (ow_calls w) ++ [c]) as Hf.
    { rewrite ofSender_app, ofSender_cons, decide_True by done. done. }
    split; cbn [co_issued co_turn]; rewrite ?Hf; try done.
    + rewrite lookup0_insert_eq, zlen_app, H1. change (zlen [c]) with 1. unfold wrap64. lia.
    + by intros [_ ?]%app_eq_nil.
    + apply ticketsFrom_app. split; [done|]. cbn. by rewrite H1.
    + destruct (ofSender sender (ow_calls w)) as [|x l]; [done|]. cbn [app tail] in *.
      apply Forall_app. split; [done|]. by repeat constructor.
  - rewrite zlen_app. by change (zlen [c]) with 1.
  - intros s. rewrite queued_app, !sentBy_app, app_assoc, I5. f_equal.
Qed.

Lemma take_inv w l1 c l2 o ticket :
  oinv w -> ow_calls w = l1 ++ c :: l2 -> ca_phase c = Observed -> takeTicket (ca_id c) (ow_order w) = (o, Some ticket) ->
  oinv (mkOWorld o (l1 ++ mkCall (ca_id c) (ca_sender c) ticket Waiting (ca_serial c) :: l2) (ow_arrived w) (ow_entered w)).
Proof.
  intros [I1 I2 I3 I4 I5] Hl Hp. rewrite Hl in *. assert (c ∈ l1 ++ c :: l2) as Hin.
  { apply elem_of_app. right. apply list_elem_of_here. }
  unfold takeTicket. rewrite (proj2 (I2 (ca_id c) (ca_ticket c))) by (by exists c). intros [= <- <-].
  change (mkCall _ _ _ Waiting _) with (at_phase Waiting c).
  split; cbn [ow_order ow_calls ow_arrived ow_entered co_tickets].
  - by rewrite (fmap_id_replace _ c).
  - intros id t. destruct (decide (ca_id c = id)) as [<-|Hne].
    + rewrite lookup_delete_eq. split; [done|]. intros (d&Hd&Hi&Hph&_). exfalso.
      assert (d = at_phase Waiting c) as ->; [|done]. eapply id_unique; [|exact Hd| |exact Hi].
      * by rewrite (fmap_id_replace _ c).
      * apply elem_of_app. right. apply list_elem_of_here.
    + rewrite lookup_delete_ne, I2 by done. split; intros (d&Hd&Hi&Hd2); exists d; (split; [|done]);
        revert Hd; rewrite !elem_of_app, !elem_of_cons; intros [?|[->|?]]; auto; by destruct Hne.
  - intros s. eapply ordered_phase; [apply I3|done|done|done].
  - by rewrite (zlen_replace _ c).
  - intros s. by rewrite queued_phase by congruence.
Qed.

Lemma turn_inv w l1 c l2 :
  oinv w -> ow_calls w = l1 ++ c :: l2 -> ca_phase c = Waiting ->
  awaitTurn (ca_sender c) (ca_ticket c) (ow_order w) = Turn ->
  oinv (mkOWorld (ow_order w) (l1 ++ at_phase Running c :: l2) (ow_arrived w) (ow_entered w ++ [(ca_sender c, ca_serial c)])).
Proof.
  intros [I1 I2 I3 I4 I5] Hl Hp Ha. rewrite Hl in *.
  assert (lookup0 (co_turn (ow_order w)) (ca_sender c) = ca_ticket c) as Heq.
  { revert Ha. unfold awaitTurn. destruct (co_closed _); [done|]. destruct (Z.eqb_spec (lookup0 (co_turn (ow_order w)) (ca_sender c)) (ca_ticket c)); done. }
  pose proof (turn_first _ _ _ _ (I3 _) I4 Heq) as Hfirst.
  split; cbn [ow_order ow_calls ow_arrived ow_entered].
  - by rewrite (fmap_id_replace _ c).
  - intros id t. rewrite I2. split; intros (d&Hd&Hi&Hph&Hd2); exists d; (split; [|done]);
      revert Hd; rewrite !elem_of_app, !elem_of_cons; intros [?|[->|?]]; auto; cbn in Hph; congruence.
  - intros s. by eapply ordered_phase.
  - by rewrite (zlen_replace _ c).
  - intros s. rewrite <-I5, queued_app, queued_cons, decide_False by (by intros ?).
    rewrite queued_app, queued_cons, decide_True by congruence. rewrite !sentBy_app. cbn [app].
    change (key c) with (ca_sender c, ca_serial c). rewrite sentBy_one. cbn [fst]. case_decide as Hs; [|by rewrite app_nil_r].
    subst s. by rewrite (sentBy_queued_none _ l1), <-app_assoc.
Qed.

Lemma release_inv w l1 c l2 :
  oinv w -> ow_calls w = l1 ++ c :: l2 -> ca_phase c = Running ->
  oinv (mkOWorld (advance (ca_sender c) (ow_order w)) (l1 ++ l2) (ow_arrived w) (ow_entered w)).
Proof.
  intros [I1 I2 I3 I4 I5] Hl Hp. rewrite Hl in *. pose proof (running_first _ _ _ _ (I3 _) Hp) as Hfirst.
  split; cbn [ow_order ow_calls ow_arrived ow_entered].
  - revert I1. rewrite !fmap_app, fmap_cons. rewrite !NoDup_app, NoDup_cons. set_solver.
  - intros id t. replace (co_tickets (advance _ _)) with (co_tickets (ow_order w)) by (unfold advance; by destruct (_ =? _)).
    rewrite I2. split; intros (d&Hd&Hi&Hph&Hd2); exists d; (split; [|done]);
      revert Hd; rewrite !elem_of_app, ?elem_of_cons; [|tauto]. intros [?|[->|?]]; auto; congruence.
  - intros s. destruct (decide (ca_sender c = s)) as [<-|Hne].
    2:{ eapply ordered_ext; [apply I3| | |by apply ofSender_remove];
          unfold advance; destruct (_ =? _); cbn; by rewrite ?lookup_delete_ne, ?lookup_insert_ne by done. }
    pose proof (I3 (ca_sender c)) as [H1 H2 H3 H4 H5].
    rewrite ofSender_app, ofSender_cons, decide_True, Hfirst in H1, H4, H5 by done. cbn [app tail ticketsFrom] in H1, H4, H5.
    rewrite zlen_cons in H1. destruct H4 as [_ H4].
    assert (ofSender (ca_sender c) (l1 ++ l2) = ofSender (ca_sender c) l2) as Hf by (by rewrite ofSender_app, Hfirst).
    pose proof (ofSender_length (ca_sender c) l2) as Hlen. pose proof (zlen_nonneg (ofSender (ca_sender c) l2)) as Hnn.
    pose proof (zlen_nonneg l1) as Hnn1. rewrite zlen_app, zlen_cons in I4. unfold is_u64 in H3.
    unfold advance. rewrite lookup0_insert_eq, H1.
    destruct (Z.eqb_spec (wrap64 (lookup0 (co_turn (ow_order w)) (ca_sender c) + 1))
      (wrap64 (lookup0 (co_turn (ow_order w)) (ca_sender c) + (1 + zlen (ofSender (ca_sender c) l2))))) as [Heq|Hne].
    + assert (ofSender (ca_sender c) l2 = []) as Hnil.
      { destruct (ofSender (ca_sender c) l2) as [|x l]; [done|]. rewrite zlen_cons in *. pose proof (zlen_nonneg l).
        revert Heq. unfold wrap64. lia. }
      split; cbn [co_issued co_turn]; rewrite ?Hf, ?Hnil; unfold lookup0; rewrite ?lookup_delete_eq; try done.
    + split; cbn [co_issued co_turn]; rewrite ?Hf, ?lookup0_insert_eq; try done.
      * rewrite H1. unfold wrap64. lia.
      * intros Hnil. rewrite Hnil in Hne. by destruct Hne.
      * apply wrap64_range.
      * eapply ticketsFrom_wrap; [|exact H4]. by rewrite wrap64_wrap.
      * by destruct (ofSender (ca_sender c) l2); [|apply Forall_cons in H5 as [_ ?]].
  - rewrite zlen_app. rewrite zlen_app, zlen_cons in I4. lia.
  - intros s. rewrite <-I5, !queued_app, queued_cons, decide_False by (by intros ?). done.
Qed.

(** ** Reachable states *)

Lemma Observe_closed msg o : co_closed (Observe msg o) = co_closed o.
Proof. unfold Observe. by destruct (negb (ticketed msg)), (ms_Sender msg), (co_closed o) eqn:?. Qed.

Lemma advance_closed s o : co_closed (advance s o) = co_closed o.
Proof. unfold advance. by destruct (_ =? _). Qed.

Lemma takeTicket_closed id o o' r : takeTicket id o = (o', r) -> co_closed o' = co_closed o.
Proof. unfold takeTicket. destruct (co_tickets o !! id); by intros [= <- <-]. Qed.

Lemma ostart_inv : oinv ostart.
Proof.
  split; cbn; try done; [apply NoDup_nil_2|].
  intros id t. rewrite lookup_empty. split; [done|]. intros (c&Hc%not_elem_of_nil&_). done.
Qed.

Lemma oinv_takes w l1 c l2 :
  oinv w -> ow_calls w = l1 ++ c :: l2 -> ca_phase c = Observed ->
  exists o, takeTicket (ca_id c) (ow_order w) = (o, Some (ca_ticket c)).
Proof.
  intros Hinv Hl Hp. unfold takeTicket. rewrite (proj2 (oi_tickets _ Hinv (ca_id c) (ca_ticket c))); [by eexists|].
  exists c. rewrite Hl. split; [apply elem_of_app; right; apply list_elem_of_here|done].
Qed.

Lemma ostep_inv w w' : oinv w -> ostep w w' -> co_closed (ow_order w') = false -> oinv w'.
Proof.
  intros Hinv Hs Ho. destruct Hs as
    [w msg sender Ht Hm Hcl Hid Hfew|w msg Hno|w l1 c l2 o t Hl Hp Htk|w l1 c l2 o Hl Hp Htk|w l1 c l2 Hl Hp Ha|w l1 c l2 Hl Hp Ha|w l1 c l2 Hl Hp|w].
  - by apply observe_inv.
  - destruct w as [o calls arrived entered]. cbn in *. rewrite Observe_closed in Ho. unfold Observe.
    destruct Hno as [->|[->|Hc]]; [done|by destruct (ticketed msg)|congruence].
  - by eapply take_inv.
  - destruct (oinv_takes w l1 c l2 Hinv Hl Hp) as [o' Ho']. congruence.
  - by eapply turn_inv.
  - revert Ha. unfold awaitTurn. cbn in Ho. rewrite Ho. by destruct (_ =? _).
  - by apply (release_inv w l1 c l2).
  - done.
Qed.

(** An order that is closed stays closed. *)
Lemma ostep_open w w' : ostep w w' -> co_closed (ow_order w') = false -> co_closed (ow_order w) = false.
Proof.
  intros Hs. destruct Hs; cbn; rewrite ?Observe_closed, ?advance_closed; try done;
    match goal with Ht : takeTicket _ _ = _ |- _ => by rewrite (takeTicket_closed _ _ _ _ Ht) end.
Qed.

Lemma oreachable_inv w : oreachable w -> co_closed (ow_order w) = false -> oinv w.
Proof.
  unfold oreachable. intros Hr. pattern w. eapply rtc_ind_r; [| |exact Hr]; clear w Hr.
  - intros _. apply ostart_inv.
  - intros w w' _ Hs IH Ho. eapply ostep_inv; [apply IH; by eapply ostep_open|done|done].
Qed.

Lemma closed_no_tickets w : oreachable w -> co_closed (ow_order w) = true -> co_tickets (ow_order w) = ∅.
Proof.
  unfold oreachable. intros Hr. pattern w. eapply rtc_ind_r; [| |exact Hr]; clear w Hr; [done|].
  intros w w' _ Hs IH. destruct Hs as
    [w msg sender Ht Hm Hcl Hid Hfew|w msg Hno|w l1 c l2 o t Hl Hp Htk|w l1 c l2 o Hl Hp Htk|w l1 c l2 Hl Hp Ha|w l1 c l2 Hl Hp Ha|w l1 c l2 Hl Hp|w]; cbn; try done.
  - rewrite Observe_closed. congruence.
  - rewrite Observe_closed. intros Hc. unfold Observe. rewrite Hc. destruct (negb _), (ms_Sender msg); auto.
  - intros Hc. rewrite (takeTicket_closed _ _ _ _ Htk) in Hc. unfold takeTicket in Htk. by rewrite (IH Hc) in Htk.
  - intros Hc. pose proof (takeTicket_closed _ _ _ _ Htk) as Hc'. unfold takeTicket in Htk.
    destruct (co_tickets (ow_order w) !! ca_id c); simplify_eq. auto.
  - rewrite advance_closed. intros Hc. unfold advance. destruct (_ =? _); auto.
Qed.

(** The oldest call of all can run to its end. *)
Lemma first_finishes w c l :
  oinv w -> co_closed (ow_order w) = false -> ow_calls w = c :: l ->
  exists w', rtc ostep w w' /\ oinv w' /\ co_closed (ow_order w') = false /\ ow_calls w' = l /\ ow_arrived w' = ow_arrived w.
Proof.
  assert (forall w c, oinv w -> co_closed (ow_order w) = false -> ow_calls w = c :: l -> ca_phase c = Running ->
    exists w', rtc ostep w w' /\ oinv w' /\ co_closed (ow_order w') = false /\ ow_calls w' = l /\ ow_arrived w' = ow_arrived w) as Hrun.
  { clear. intros w c Hinv Ho Hl Hp. pose proof (os_release w [] c l Hl Hp) as Hs. eexists. split; [by apply rtc_once|].
    split; [eapply ostep_inv; [exact Hinv|exact Hs|cbn; by rewrite advance_closed]|]. cbn. by rewrite advance_closed. }
  assert (forall w c, oinv w -> co_closed (ow_order w) = false -> ow_calls w = c :: l -> ca_phase c = Waiting ->
    exists w', rtc ostep w w' /\ oinv w' /\ co_closed (ow_order w') = false /\ ow_calls w' = l /\ ow_arrived w' = ow_arrived w) as Hwait.
  { clear c. intros w1 c Hinv Ho Hl Hp. pose proof (oi_ordered _ Hinv (ca_sender c)) as [_ _ Ht Hts _].
    rewrite Hl, ofSender_cons, decide_True in Hts by done. destruct Hts as [Hc _]. rewrite wrap64_small in Hc by done.
    assert (awaitTurn (ca_sender c) (ca_ticket c) (ow_order w1) = Turn) as Ha.
    { unfold awaitTurn. by rewrite Ho, Hc, Z.eqb_refl. }
    pose proof (os_turn w1 [] c l Hl Hp Ha) as Hs.
    destruct (Hrun _ (at_phase Running c) (ostep_inv _ _ Hinv Hs Ho) Ho eq_refl eq_refl) as (w'&Hw'&?).
    exists w'. split; [by eapply rtc_l|done]. }
  intros Hinv Ho Hl. destruct (ca_phase c) eqn:Hp; [|by eapply Hwait|by eapply Hrun].
  destruct (oinv_takes w [] c l Hinv Hl Hp) as [o Htk]. pose proof (os_take w [] c l o _ Hl Hp Htk) as Hs.
  assert (co_closed o = false) as Ho' by (by rewrite (takeTicket_closed _ _ _ _ Htk)).
  destruct (Hwait _ _ (ostep_inv _ _ Hinv Hs Ho') Ho' eq_refl eq_refl) as (w'&Hw'&?).
  exists w'. split; [by eapply rtc_l|done].
Qed.

Lemma all_finish w :
  oinv w -> co_closed (ow_order w) = false ->
  exists w', rtc ostep w w' /\ oinv w' /\ co_closed (ow_order w') = false /\ ow_calls w' = [] /\ ow_arrived w' = ow_arrived w.
Proof.
  remember (ow_calls w) as l eqn:Hl. symmetry in Hl. revert w Hl. induction l as [|c l IH]; intros w Hl Hinv Ho.
  - exists w. by split; [apply rtc_refl|].
  - destruct (first_finishes w c l Hinv Ho Hl) as (w1&Hw1&Hi1&Ho1&Hl1&Ha1).
    destruct (IH w1 Hl1 Hi1 Ho1) as (w'&Hw'&?&?&?&Ha'). exists w'. split; [by etrans|]. by rewrite Ha', Ha1.
Qed.

(** In a closed order nobody waits. *)
Lemma closed_finish w :
  co_closed (ow_order w) = true -> co_tickets (ow_order w) = ∅ ->
  exists w', rtc ostep w w' /\ ow_calls w' = [] /\ ow_arrived w' = ow_arrived w.
Proof.
  remember (ow_calls w) as l eqn:Hl. symmetry in Hl. revert w Hl. induction l as [|c l IH]; intros w Hl Ho Ht.
  { exists w. by split; [apply rtc_refl|]. }
  assert (exists w1, ostep w w1 /\ ow_calls w1 = l /\ co_closed (ow_order w1) = true /\ co_tickets (ow_order w1) = ∅ /\
    ow_arrived w1 = ow_arrived w) as (w1&Hs&Hl1&Ho1&Ht1&Ha1).
  { destruct (ca_phase c) eqn:Hp.
    - eexists. split; [apply (os_pass w [] c l (ow_order w)); [done|done|]|done]. unfold takeTicket. by rewrite Ht, lookup_empty.
    - eexists. split; [apply (os_released w [] c l); [done|done|]|done]. unfold awaitTurn. by rewrite Ho.
    - eexists. split; [by apply (os_release w [] c l)|]. cbn. rewrite advance_closed. unfold advance. by destruct (_ =? _). }
  destruct (IH w1 Hl1 Ho1 Ht1) as (w'&Hw'&?&Ha'). exists w'. split; [by eapply rtc_l|]. by rewrite Ha', Ha1.
Qed.

(** ** Claims *)

(** C15: one sender's calls touch the state in the order in which they arrived
    on the bus, one at a time: until the server closes, the calls that got
    their turn are a prefix of the calls that arrived, for every sender, and
    two calls of a sender never run at once. *)
Theorem calls_in_order w s :
  oreachable w -> co_closed (ow_order w) = false ->
  sentBy s (ow_entered w) `prefix_of` sentBy s (ow_arrived w) /\
  (forall i j c d, ow_calls w !! i = Some c -> ow_calls w !! j = Some d -> ca_sender c = s -> ca_sender d = s ->
    ca_phase c = Running -> ca_phase d = Running -> i = j).
Proof.
  intros Hr Ho. pose proof (oreachable_inv w Hr Ho) as Hinv. split; [eexists; symmetry; apply Hinv|].
  assert (forall i j c d, (i < j)%nat -> ow_calls w !! i = Some c -> ow_calls w !! j = Some d -> ca_sender c = s ->
    ca_sender d = s -> ca_phase c = Running -> ca_phase d = Running -> False) as Hlt.
  { intros i j c d Hij Hi Hj Hc Hd Hpc Hpd. apply list_elem_of_split_length in Hj as (l1&l2&Hl&Hlen).
    pose proof (oi_ordered _ Hinv (ca_sender d)) as Hod. rewrite Hl in Hod.
    pose proof (running_first _ _ _ _ Hod Hpd) as Hnil.
    rewrite Hl, lookup_app_l in Hi by lia. apply list_elem_of_lookup_2 in Hi.
    assert (c ∈ ofSender (ca_sender d) l1) as Hin; [|rewrite Hnil in Hin; by apply not_elem_of_nil in Hin].
    unfold ofSender. apply list_elem_of_filter. split; [congruence|done]. }
  intros i j c d. destruct (Nat.lt_trichotomy i j) as [?|[?|?]]; [|done|]; intros; exfalso; eauto.
Qed.

