(* ===== verification/Lineage.v ===== *)
(** * internal/sender: the lineage of a sender

    [lineage.go]: [Capture] walks from a process to its ancestors, [readStat]
    reads a process's parent and start time out of its stat file.  The files
    under the proc root are a parameter ([ProcFS]); the parsing is written out,
    with the functions of [strings] and [strconv] it calls, over the bytes of a
    string. *)
From stdpp Require Import gmap strings list.
From Stdlib Require Import ZArith Lia Ascii.
From S2P Require Import Prelude GoLib Protocol.
Local Open Scope list_scope.
Local Open Scope Z_scope.

(** ** strings and strconv *)

Definition text := list ascii.

(** [unicode.IsSpace], on the encodings of one, two and three bytes. *)
Definition isSpace1 (a : ascii) : bool := inRange 9 13 a || (byteVal a =? 32).
Definition isSpace2 (a b : ascii) : bool := (byteVal a =? 194) && ((byteVal b =? 133) || (byteVal b =? 160)).
Definition isSpace3 (a b c : ascii) : bool :=
  ((byteVal a =? 225) && (byteVal b =? 154) && (byteVal c =? 128)) ||
  ((byteVal a =? 226) && (byteVal b =? 128) &&
     (inRange 128 138 c || (byteVal c =? 168) || (byteVal c =? 169) || (byteVal c =? 175))) ||
  ((byteVal a =? 226) && (byteVal b =? 129) && (byteVal c =? 159)) ||
  ((byteVal a =? 227) && (byteVal b =? 128) && (byteVal c =? 128)).

Fixpoint trimLeft (s : text) : text :=
  match s with
  | [] => []
  | a :: s1 =>
      if isSpace1 a then trimLeft s1
      else match s1 with
           | [] => s
           | b :: s2 =>
               if isSpace2 a b then trimLeft s2
               else match s2 with
                    | [] => s
                    | c :: s3 => if isSpace3 a b c then trimLeft s3 else s
                    end
           end
  end.

(** The same from the end of a text, given backwards. *)
Fixpoint trimBack (r : text) : text :=
  match r with
  | [] => []
  | c :: r1 =>
      if isSpace1 c then trimBack r1
      else match r1 with
           | [] => r
           | b :: r2 =>
               if isSpace2 b c then trimBack r2
               else match r2 with
                    | [] => r
                    | a :: r3 => if isSpace3 a b c then trimBack r3 else r
                    end
           end
  end.

Definition TrimSpace (s : text) : text := rev (trimBack (rev (trimLeft s))).

Definition flush (cur : text) : list text := match cur with [] => [] | _ => [rev cur] end.

(** [strings.Fields]; [cur] is the field being read, backwards. *)
Fixpoint fieldsLoop (cur : text) (s : text) : list text :=
  match s with
  | [] => flush cur
  | a :: s1 =>
      if isSpace1 a then flush cur ++ fieldsLoop [] s1
      else match s1 with
           | [] => fieldsLoop (a :: cur) s1
           | b :: s2 =>
               if isSpace2 a b then flush cur ++ fieldsLoop [] s2
               else match s2 with
                    | [] => fieldsLoop (a :: cur) s1
                    | c :: s3 =>
                        if isSpace3 a b c then flush cur ++ fieldsLoop [] s3 else fieldsLoop (a :: cur) s1
                    end
           end
  end.

Definition Fields (s : text) : list text := fieldsLoop [] s.

Fixpoint IndexByte (s : text) (c : ascii) : Z :=
  match s with
  | [] => -1
  | a :: s => if Ascii.eqb a c then 0 else let i := IndexByte s c in if i <? 0 then -1 else 1 + i
  end.

(** [strings.LastIndex] for a substring of two bytes. *)
Fixpoint LastIndex2 (s : text) (c d : ascii) : Z :=
  match s with
  | [] => -1
  | a :: s =>
      let i := LastIndex2 s c d in
      if 0 <=? i then 1 + i
      else match s with
           | b :: _ => if Ascii.eqb a c && Ascii.eqb b d then 0 else -1
           | [] => -1
           end
  end.

Definition isDigit (a : ascii) : bool := inRange 48 57 a.

Fixpoint digits (acc : Z) (s : text) : option Z :=
  match s with
  | [] => Some acc
  | a :: s => if isDigit a then digits (10 * acc + (byteVal a - 48)) s else None
  end.

(** [strconv.ParseUint(s, 10, bitSize)]; [None] for its errors. *)
Definition ParseUint (s : text) (bitSize : Z) : option Z :=
  match s with
  | [] => None
  | _ => n ← digits 0 s; if n <? 2 ^ bitSize then Some n else None
  end.

(** ** lineage.go *)

(** [os.ReadFile] of the file stat of a process under a proc root. *)
Class ProcFS := readStatFile : string -> Z -> option text.

Definition readStat `{ProcFS} (procRoot : string) (pid : Z) : option (Z * Z) :=
  data ← readStatFile procRoot pid;
  let stat := TrimSpace data in
  let close := LastIndex2 stat ")" " " in
  let open := IndexByte stat "(" in
  if (open <? 1) || (close <=? open) then None
  else
    parsedPID ← ParseUint (TrimSpace (take (Z.to_nat open) stat)) 32;
    if negb (parsedPID =? pid) then None
    else
      let fields := Fields (drop (Z.to_nat (close + 2)) stat) in
      if (zlen fields <? 20) || negb (zlen (default [] (fields !! 0%nat)) =? 1) then None
      else
        parent ← ParseUint (default [] (fields !! 1%nat)) 32;
        start ← ParseUint (default [] (fields !! 19%nat)) 64;
        if start =? 0 then None else Some (parent, start).

(** The loop of [Capture]; its fuel is the room left in the lineage. *)
Fixpoint captureLoop `{ProcFS} (procRoot : string) (room : nat) (seen : gset Z) (childStart pid : Z) : list Process :=
  match room with
  | O => []
  | S room =>
      if (pid =? 0) || bool_decide (pid ∈ seen) then []
      else match readStat procRoot pid with
           | None => []
           | Some (parent, start) =>
               if negb (childStart =? 0) && (childStart <? start) then []
               else mkProcess pid start :: captureLoop procRoot room ({[pid]} ∪ seen) start parent
           end
  end.

Definition Capture `{ProcFS} (procRoot : string) (pid : Z) : list Process :=
  captureLoop procRoot (Z.to_nat MaxLineageEntries) ∅ 0 pid.

(** ** What a lineage is *)

Section Lineage.
Context `{ProcFS}.

(** Each process is what its stat file says, and the next one is its parent. *)
Fixpoint chain (procRoot : string) (pid : Z) (l : list Process) : Prop :=
  match l with
  | [] => True
  | p :: l => p_PID p = pid /\ exists parent, readStat procRoot pid = Some (parent, p_StartTime p) /\ chain procRoot parent l
  end.

(** Nobody is older than the process it descends from. *)
Fixpoint olderThan (start : Z) (l : list Process) : Prop :=
  match l with [] => True | p :: l => p_StartTime p <= start /\ olderThan (p_StartTime p) l end.

Lemma readStat_start procRoot pid parent start : readStat procRoot pid = Some (parent, start) -> 0 < start.
Proof.
  assert (forall s acc n, 0 <= acc -> digits acc s = Some n -> 0 <= n) as Hd.
  { induction s as [|a s IH]; intros acc n Hacc; cbn; [by intros [= <-]|].
    destruct (isDigit a) eqn:Ha; [|done]. apply IH. revert Ha. unfold isDigit, inRange.
    rewrite andb_true_iff, !Z.leb_le. lia. }
  assert (forall s bits n, ParseUint s bits = Some n -> 0 <= n) as Hp.
  { intros s bits n. unfold ParseUint. destruct s as [|a s]; [done|]. destruct (digits 0 (a :: s)) eqn:He; [|done]. cbn.
    destruct (_ <? _); [|done]. intros [= <-]. by eapply Hd, He. }
  unfold readStat. intros (data&_&Hr)%bind_Some. destruct (_ || _); [done|]. apply bind_Some in Hr as (ppid&_&Hr).
  destruct (negb _); [done|]. destruct (_ || _); [done|]. apply bind_Some in Hr as (parent'&_&Hr).
  apply bind_Some in Hr as (start'&Hs%Hp&Hr). destruct (Z.eqb_spec start' 0); [done|]. injection Hr as <- <-. lia.
Qed.

Lemma captureLoop_spec procRoot room seen childStart pid l :
  captureLoop procRoot room seen childStart pid = l ->
  (length l <= room)%nat /\ chain procRoot pid l /\ NoDup (p_PID <$> l) /\
  Forall (fun p => p_PID p <> 0 /\ 0 < p_StartTime p /\ p_PID p ∉ seen) l /\
  (childStart <> 0 -> olderThan childStart l).
Proof.
  revert seen childStart pid l. induction room as [|room IH]; intros seen childStart pid l; cbn [captureLoop].
  { intros <-. cbn. split_and!; try done. by apply NoDup_nil_2. }
  assert (forall l : list Process, l = [] -> (length l <= S room)%nat /\ chain procRoot pid l /\ NoDup (p_PID <$> l) /\
    Forall (fun p => p_PID p <> 0 /\ 0 < p_StartTime p /\ p_PID p ∉ seen) l /\ (childStart <> 0 -> olderThan childStart l)) as Hnil.
  { intros ? ->. split_and!; cbn; try done; [lia|by apply NoDup_nil_2]. }
  destruct (Z.eqb_spec pid 0) as [|Hpid]; [by intros <-; apply Hnil|]. cbn [orb].
  case_bool_decide as Hseen; [by intros <-; apply Hnil|].
  destruct (readStat procRoot pid) as [[parent start]|] eqn:Hr; [|by intros <-; apply Hnil].
  destruct (negb (childStart =? 0) && (childStart <? start)) eqn:Hc; [by intros <-; apply Hnil|]. intros <-.
  pose proof (readStat_start _ _ _ _ Hr) as Hstart.
  destruct (IH ({[pid]} ∪ seen) start parent _ eq_refl) as (I1&I2&I3&I4&I5). split_and!.
  - cbn. lia.
  - cbn. split; [done|]. by exists parent.
  - cbn. apply NoDup_cons. split; [|done]. intros (p&Hp&Hin)%list_elem_of_fmap.
    rewrite Forall_forall in I4. destruct (I4 p Hin) as (_&_&Hn). set_solver.
  - constructor; [done|]. eapply Forall_impl; [exact I4|]. cbn. intros p (?&?&?). set_solver.
  - intros Hne. cbn. split; [|apply I5; lia]. apply andb_false_iff in Hc as [Hc|Hc]; [|by apply Z.ltb_ge in Hc].
    apply negb_false_iff, Z.eqb_eq in Hc. done.
Qed.

Lemma captureLoop_older procRoot room seen pid :
  match captureLoop procRoot room seen 0 pid with [] => True | p :: l => olderThan (p_StartTime p) l end.
Proof.
  destruct room as [|room]; [done|]. cbn [captureLoop].
  destruct (_ || _); [done|]. destruct (readStat procRoot pid) as [[parent start]|] eqn:Hr; [|done].
  cbn [negb andb Z.eqb]. pose proof (readStat_start _ _ _ _ Hr). cbn [p_StartTime].
  apply (captureLoop_spec procRoot room ({[pid]} ∪ seen) start parent _ eq_refl). lia.
Qed.

(** The lineage of a sender has at most sixteen entries, names distinct
    processes with nonzero ids and start times, starts at the sender and goes
    from a process to the parent its stat file names, and no ancestor started
    after its descendant; a cycle of parents or a reused id ends the walk. *)
Theorem Capture_chain procRoot pid :
  let l := Capture procRoot pid in
  zlen l <= MaxLineageEntries /\ chain procRoot pid l /\ NoDup (p_PID <$> l) /\
  Forall (fun p => p_PID p <> 0 /\ p_StartTime p <> 0) l /\
  match l with [] => True | p :: l => olderThan (p_StartTime p) l end.
Proof.
  cbn zeta. unfold Capture. destruct (captureLoop_spec procRoot (Z.to_nat MaxLineageEntries) ∅ 0 pid _ eq_refl)
    as (I1&I2&I3&I4&_). split_and!; try done.
  - unfold zlen. unfold MaxLineageEntries in *. lia.
  - eapply Forall_impl; [exact I4|]. cbn. intros p (?&?&_). split; [done|lia].
  - apply captureLoop_older.
Qed.

(** ** The lines the kernel writes *)

Definition bytes (s : string) : text := String.list_ascii_of_string s.

(** A field of the line after the command: a letter, or a number with its sign. *)
Definition plainChar (a : ascii) : bool := inRange 48 57 a || (byteVal a =? 45) || inRange 65 90 a || inRange 97 122 a.
Definition plainField (f : text) : Prop := f <> [] /\ Forall (fun a => plainChar a = true) f.

Fixpoint joined (fs : list text) : text :=
  match fs with
  | [] => []
  | [f] => f
  | f :: fs => f ++ " "%char :: joined fs
  end.

Definition statLine (pid : Z) (comm : text) (fs : list text) : text :=
  bytes (FormatUint pid) ++ " "%char :: "("%char :: comm ++ ")"%char :: " "%char :: joined fs ++ ["010"%char].

Lemma plain_val a : plainChar a = true -> 45 <= byteVal a <= 122 /\ a <> ")"%char /\ a <> "("%char /\ a <> " "%char.
Proof.
  intros Ha. split; [|split_and!; by intros ->]. revert Ha. unfold plainChar, inRange.
  rewrite !orb_true_iff, !andb_true_iff, !Z.leb_le, Z.eqb_eq. lia.
Qed.

Lemma plain_space1 a : plainChar a = true -> isSpace1 a = false.
Proof.
  intros [Ha _]%plain_val. unfold isSpace1, inRange. apply orb_false_iff. split; [|apply Z.eqb_neq; lia].
  apply andb_false_iff. right. apply Z.leb_gt. lia.
Qed.

Lemma low_space2 a b : byteVal a < 128 -> isSpace2 a b = false.
Proof. intros Ha. unfold isSpace2. by rewrite (proj2 (Z.eqb_neq _ _)) by lia. Qed.

Lemma low_space3 a b c : byteVal a < 128 -> isSpace3 a b c = false.
Proof. intros Ha. unfold isSpace3. by rewrite !(proj2 (Z.eqb_neq (byteVal a) _)) by lia. Qed.

(** A space of several bytes does not end with a low byte either. *)
Lemma low_space2' a b : byteVal b < 128 -> isSpace2 a b = false.
Proof. intros Hb. unfold isSpace2. rewrite !(proj2 (Z.eqb_neq (byteVal b) _)) by lia. by rewrite andb_false_r. Qed.

Lemma low_space3' a b c : byteVal c < 128 -> isSpace3 a b c = false.
Proof.
  intros Hc. unfold isSpace3, inRange. rewrite !(proj2 (Z.eqb_neq (byteVal c) _)), (proj2 (Z.leb_gt 128 _)) by lia.
  cbn [andb orb]. by rewrite !andb_false_r.
Qed.

Lemma trimLeft_plain a s : plainChar a = true -> trimLeft (a :: s) = a :: s.
Proof.
  intros Ha. pose proof (plain_val a Ha) as [Hv _]. cbn [trimLeft]. rewrite plain_space1 by done.
  destruct s as [|b [|c s]]; rewrite ?low_space2, ?low_space3 by lia; done.
Qed.

Lemma trimBack_plain a s : plainChar a = true -> trimBack (a :: s) = a :: s.
Proof.
  intros Ha. pose proof (plain_val a Ha) as [Hv _]. cbn [trimBack]. rewrite plain_space1 by done.
  destruct s as [|b [|c s]]; rewrite ?low_space2', ?low_space3' by lia; done.
Qed.

Lemma trimBack_space z r : isSpace1 z = true -> trimBack (z :: r) = trimBack r.
Proof. intros Hz. cbn [trimBack]. by rewrite Hz. Qed.

(** A text that begins and ends with a plain byte loses only the space after it. *)
Lemma TrimSpace_plain t z a s s' b :
  t = a :: s -> t = s' ++ [b] -> plainChar a = true -> plainChar b = true -> isSpace1 z = true ->
  TrimSpace (t ++ [z]) = t.
Proof.
  intros Ht Ht' Ha Hb Hz. unfold TrimSpace.
  replace (trimLeft (t ++ [z])) with (t ++ [z]) by (rewrite Ht; cbn [app]; by rewrite trimLeft_plain).
  rewrite rev_app_distr. cbn [rev app]. rewrite trimBack_space, Ht', rev_app_distr by done. cbn [rev app].
  rewrite trimBack_plain by done. cbn [rev]. by rewrite rev_involutive.
Qed.

Lemma fieldsLoop_field f cur s :
  Forall (fun a => plainChar a = true) f -> fieldsLoop cur (f ++ s) = fieldsLoop (rev f ++ cur) s.
Proof.
  intros Hf. revert cur. induction Hf as [|a f Ha _ IH]; intros cur; [done|]. cbn [app fieldsLoop].
  pose proof (plain_val a Ha) as [Hv _]. rewrite plain_space1 by done. cbn [rev]. rewrite <-app_assoc. cbn [app]. rewrite <-IH.
  destruct (f ++ s) as [|b [|c l]]; rewrite ?low_space2, ?low_space3 by lia; done.
Qed.

Lemma fieldsLoop_space cur s : fieldsLoop cur (" "%char :: s) = flush cur ++ fieldsLoop [] s.
Proof. done. Qed.

Lemma fieldsLoop_joined fs : Forall plainField fs -> Fields (joined fs) = fs.
Proof.
  unfold Fields. assert (forall f : text, f <> [] -> flush (rev f ++ []) = [f]) as Hflush.
  { intros f Hf. rewrite app_nil_r. unfold flush. destruct (rev f) eqn:Hr; [|by rewrite <-Hr, rev_involutive].
    destruct Hf. rewrite <-(rev_involutive f), Hr. done. }
  intros Hfs. induction Hfs as [|f fs [Hne Hf] Hfs IH]; [done|]. destruct fs as [|g fs].
  - cbn [joined]. rewrite <-(app_nil_r f) at 1. rewrite fieldsLoop_field by done. by apply Hflush.
  - change (joined (f :: g :: fs)) with (f ++ " "%char :: joined (g :: fs)).
    rewrite fieldsLoop_field, fieldsLoop_space, Hflush, IH by done. done.
Qed.

Lemma LastIndex2_none s : Forall (fun a => a <> ")"%char) s -> LastIndex2 s ")" " " = -1.
Proof.
  induction 1 as [|a s Ha _ IH]; [done|]. cbn [LastIndex2]. rewrite IH. change (0 <=? -1) with false. cbn iota.
  destruct s; [done|]. rewrite (proj2 (Ascii.eqb_neq _ _)) by done. done.
Qed.

Lemma LastIndex2_last p s : Forall (fun a => a <> ")"%char) s -> LastIndex2 (p ++ ")"%char :: " "%char :: s) ")" " " = zlen p.
Proof.
  intros Hs. induction p as [|a p IH]; cbn [app LastIndex2].
  - assert (LastIndex2 (" "%char :: s) ")" " " = -1) as Hn by (apply LastIndex2_none; by constructor).
    cbn [LastIndex2] in Hn. rewrite Hn. done.
  - rewrite IH. rewrite (proj2 (Z.leb_le _ _)) by apply zlen_nonneg. by rewrite zlen_cons.
Qed.

Lemma IndexByte_first p s c : Forall (fun a => a <> c) p -> IndexByte (p ++ c :: s) c = zlen p.
Proof.
  induction 1 as [|a p Ha _ IH]; cbn [app IndexByte]; [by rewrite Ascii.eqb_refl|].
  rewrite (proj2 (Ascii.eqb_neq _ _)) by done. rewrite IH. pose proof (zlen_nonneg p). rewrite zlen_cons.
  by rewrite (proj2 (Z.ltb_ge _ _)) by done.
Qed.

(** Formatted numbers parse. *)
Lemma digit_val n : byteVal (digit n) = 48 + n mod 10 /\ isDigit (digit n) = true.
Proof.
  pose proof (Z.mod_pos_bound n 10 ltac:(lia)) as Hb.
  assert (byteVal (digit n) = 48 + n mod 10) as Hv.
  { unfold byteVal, digit. rewrite nat_ascii_embedding by lia. lia. }
  split; [done|]. unfold isDigit, inRange. rewrite Hv. apply andb_true_iff. rewrite !Z.leb_le. lia.
Qed.

Lemma digits_app s k acc n : digits acc s = Some n -> digits acc (s ++ k) = digits n k.
Proof.
  revert acc. induction s as [|a s IH]; intros acc; cbn; [by intros [= ->]|]. destruct (isDigit a); [apply IH|done].
Qed.

Lemma formatUint_digits fuel n acc :
  0 <= n < 10 ^ Z.of_nat fuel -> (0 < fuel)%nat -> exists s : text,
    bytes (formatUint fuel n acc) = s ++ bytes acc /\ s <> [] /\ digits 0 s = Some n /\ Forall (fun a => isDigit a = true) s.
Proof.
  revert n acc. induction fuel as [|fuel IH]; intros n acc Hn Hf; [lia|]. cbn [formatUint].
  pose proof (digit_val n) as [Hv Hd]. destruct (Z.ltb_spec n 10) as [Hlt|Hge].
  - exists [digit n]. split_and!; [done|done| |by repeat constructor]. cbn. rewrite Hd, Hv, Z.mod_small by lia. f_equal. lia.
  - rewrite Nat2Z.inj_succ, Z.pow_succ_r in Hn by lia.
    assert (0 < fuel)%nat as Hf' by (destruct fuel; [cbn in Hn; lia|lia]).
    assert (0 <= n / 10 < 10 ^ Z.of_nat fuel) as Hq.
    { split; [apply Z.div_pos; lia|]. apply Z.div_lt_upper_bound; lia. }
    destruct (IH (n / 10) (String (digit n) acc) Hq Hf') as (s&Hs&Hne&Hds&Hall). exists (s ++ [digit n]). split_and!.
    + rewrite Hs. cbn. by rewrite <-app_assoc.
    + by intros [? _]%app_eq_nil.
    + rewrite (digits_app _ _ _ _ Hds). cbn. rewrite Hd, Hv. f_equal. pose proof (Z.div_mod n 10 ltac:(lia)). lia.
    + apply Forall_app. split; [done|]. by repeat constructor.
Qed.

Lemma ParseUint_FormatUint n bits :
  0 <= n < 2 ^ bits -> bits <= 64 ->
  ParseUint (bytes (FormatUint n)) bits = Some n /\ bytes (FormatUint n) <> [] /\
  Forall (fun a => plainChar a = true) (bytes (FormatUint n)).
Proof.
  intros Hn Hb. assert (2 ^ bits <= 2 ^ 64) as Hle by (apply Z.pow_le_mono_r; lia).
  assert (2 ^ 64 < 10 ^ Z.of_nat 20) as H64 by reflexivity. unfold FormatUint.
  destruct (formatUint_digits 20 n EmptyString ltac:(lia) ltac:(lia)) as (s&Hs&Hne&Hd&Hall).
  rewrite Hs. cbn [bytes String.list_ascii_of_string]. rewrite app_nil_r. split_and!; [|done|].
  - unfold ParseUint. destruct s as [|a s]; [by destruct Hne|]. rewrite Hd. cbn [mbind option_bind]. rewrite (proj2 (Z.ltb_lt _ _)) by lia. reflexivity.
  - eapply Forall_impl; [exact Hall|]. intros a Ha. unfold plainChar. unfold isDigit in Ha. by rewrite Ha.
Qed.

Lemma joined_chars (P : ascii -> Prop) fs :
  P " "%char -> Forall (Forall P) fs -> Forall P (joined fs).
Proof.
  intros Hsp Hfs. induction Hfs as [|f fs Hf Hfs IH]; [constructor|]. destruct fs as [|g fs]; [done|].
  cbn [joined]. apply Forall_app. split; [done|]. by constructor.
Qed.

Lemma joined_last fs f : plainField f -> exists s b, joined (fs ++ [f]) = s ++ [b] /\ plainChar b = true.
Proof.
  intros [Hne Hf]. induction fs as [|g fs IH].
  - destruct (exists_last Hne) as (s&b&->). exists s, b. split; [done|].
    apply Forall_app in Hf as [_ Hf]. by apply Forall_cons in Hf as [? _].
  - destruct IH as (s&b&Hs&Hb). cbn [app]. exists (g ++ " "%char :: s), b. split; [|done].
    destruct (fs ++ [f]) as [|h l] eqn:Hl; [by apply app_eq_nil in Hl as [_ ?]|].
    change (joined (g :: h :: l)) with (g ++ " "%char :: joined (h :: l)). rewrite Hs. by rewrite <-app_assoc.
Qed.

(** What [readStat] sees of a kernel line. *)
Lemma TrimSpace_statLine pid comm fs f :
  0 <= pid < 2 ^ 32 -> plainField f ->
  TrimSpace (statLine pid comm (fs ++ [f])) =
  bytes (FormatUint pid) ++ " "%char :: "("%char :: comm ++ ")"%char :: " "%char :: joined (fs ++ [f]).
Proof.
  intros Hpid Hf. unfold statLine. destruct (ParseUint_FormatUint pid 32 Hpid ltac:(lia)) as (_&Hne&Hall).
  destruct (bytes (FormatUint pid)) as [|a s] eqn:Ha; [done|]. apply Forall_cons in Hall as [Hpa _].
  destruct (joined_last fs f Hf) as (s'&b&Hj&Hb). rewrite Hj.
  set (t := (a :: s) ++ " "%char :: "("%char :: comm ++ ")"%char :: " "%char :: s' ++ [b]).
  transitivity (TrimSpace (t ++ ["010"%char])).
  { f_equal. unfold t. by repeat (cbn [app]; rewrite <-?app_assoc). }
  apply (TrimSpace_plain t "010" a (s ++ " "%char :: "("%char :: comm ++ ")"%char :: " "%char :: s' ++ [b])
    ((a :: s) ++ " "%char :: "("%char :: comm ++ ")"%char :: " "%char :: s') b); try done.
  unfold t. by repeat (cbn [app]; rewrite <-?app_assoc).
Qed.

(** Where the parser cuts the line. *)
Lemma stat_parts p comm tl :
  Forall (fun a => plainChar a = true) p -> Forall (fun a => a <> ")"%char) tl ->
  let line := p ++ " "%char :: "("%char :: comm ++ ")"%char :: " "%char :: tl in
  LastIndex2 line ")" " " = zlen p + 2 + zlen comm /\ IndexByte line "(" = zlen p + 1 /\
  take (Z.to_nat (zlen p + 1)) line = p ++ [" "%char] /\ drop (Z.to_nat (zlen p + 2 + zlen comm + 2)) line = tl.
Proof.
  intros Hp Htl. cbn zeta. split_and!.
  - change (" "%char :: "("%char :: comm ++ ")"%char :: " "%char :: tl)
      with ([" "%char; "("%char] ++ comm ++ ")"%char :: " "%char :: tl). rewrite !app_assoc.
    rewrite LastIndex2_last by done. rewrite !zlen_app. change (zlen [" "%char; "("%char]) with 2. lia.
  - change (" "%char :: "("%char :: comm ++ ")"%char :: " "%char :: tl)
      with ([" "%char] ++ "("%char :: comm ++ ")"%char :: " "%char :: tl). rewrite app_assoc.
    rewrite IndexByte_first; [by rewrite zlen_app|]. apply Forall_app. split; [|by repeat constructor].
    eapply Forall_impl; [exact Hp|]. cbn. intros a Ha. by destruct (plain_val a Ha) as (_&?&?&?).
  - replace (Z.to_nat (zlen p + 1)) with (length p + 1)%nat by (unfold zlen; lia). by rewrite take_app_add.
  - replace (Z.to_nat (zlen p + 2 + zlen comm + 2)) with (length p + (2 + (length comm + 2)))%nat by (unfold zlen; lia).
    rewrite drop_app_add. cbn [drop Nat.add]. by rewrite drop_app_add.
Qed.

(** [readStat] reads the lines the kernel writes, whatever the process is
    called: for every command name, parentheses, spaces and bytes that are not
    text included, it returns the parent and the start time of the line. *)
Theorem readStat_kernel_line procRoot pid comm state ppid middle start rest :
  readStatFile procRoot pid =
    Some (statLine pid comm (([state] :: bytes (FormatUint ppid) :: middle ++ [bytes (FormatUint start)]) ++ rest)) ->
  0 <= pid < 2 ^ 32 -> 0 <= ppid < 2 ^ 32 -> 0 < start < 2 ^ 64 ->
  plainChar state = true -> length middle = 17%nat -> Forall plainField middle -> Forall plainField rest ->
  readStat procRoot pid = Some (ppid, start).
Proof.
  intros Hfile Hpid Hppid Hstart Hstate Hmid Hfm Hfr.
  destruct (ParseUint_FormatUint pid 32 Hpid ltac:(lia)) as (Hpp&Hpne&Hpall).
  destruct (ParseUint_FormatUint ppid 32 Hppid ltac:(lia)) as (Hqp&Hqne&Hqall).
  destruct (ParseUint_FormatUint start 64 ltac:(lia) ltac:(lia)) as (Hsp&Hsne&Hsall).
  remember (([state] :: bytes (FormatUint ppid) :: middle ++ [bytes (FormatUint start)]) ++ rest) as fs eqn:Hdef.
  assert (Forall plainField fs) as Hfs.
  { rewrite Hdef. apply Forall_app. split; [|done]. constructor; [by split; [|repeat constructor]|].
    constructor; [done|]. apply Forall_app. split; [done|]. by repeat constructor. }
  assert (exists fs' f, fs = fs' ++ [f] /\ plainField f) as (fs'&f&Hlast&Hf).
  { destruct (exists_last (l := fs)) as (fs'&f&He); [by rewrite Hdef|]. exists fs', f. split; [done|].
    rewrite He in Hfs. apply Forall_app in Hfs as [_ Hfs]. by apply Forall_cons in Hfs as [? _]. }
  unfold readStat. rewrite Hfile. cbn [mbind option_bind].
  assert (TrimSpace (statLine pid comm fs) = bytes (FormatUint pid) ++ " "%char :: "("%char :: comm ++ ")"%char :: " "%char :: joined fs) as ->
    by (rewrite Hlast; by apply TrimSpace_statLine).
  set (p := bytes (FormatUint pid)) in *. set (tl := joined fs).
  assert (Forall (fun a => a <> ")"%char) tl) as Htl.
  { apply joined_chars; [done|]. eapply Forall_impl; [exact Hfs|]. intros g [_ Hg]. eapply Forall_impl; [exact Hg|].
    cbn. intros a Ha. by destruct (plain_val a Ha) as (_&?&?&?). }
  destruct (stat_parts p comm tl Hpall Htl) as (->&->&Htake&Hdrop).
  pose proof (zlen_nonneg comm). assert (0 < zlen p) as Hp0. { destruct p as [|a s]; [done|]. rewrite zlen_cons. pose proof (zlen_nonneg s). lia. }
  rewrite (proj2 (Z.ltb_ge _ _)), (proj2 (Z.leb_gt _ _)) by lia. cbn [orb]. rewrite Htake, Hdrop.
  assert (TrimSpace (p ++ [" "%char]) = p) as ->.
  { destruct (exists_last Hpne) as (s'&b&Hb). destruct p as [|a s] eqn:Hp; [done|].
    apply (TrimSpace_plain _ _ a s s' b); try done; [by apply Forall_cons in Hpall as [? _]|].
    rewrite Hb in Hpall. apply Forall_app in Hpall as [_ Hpall]. by apply Forall_cons in Hpall as [? _]. }
  rewrite Hpp. cbn [mbind option_bind]. rewrite Z.eqb_refl. cbn [negb]. unfold tl. rewrite fieldsLoop_joined by done.
  assert (20 <= zlen fs) as Hlen.
  { rewrite Hdef. unfold zlen. rewrite length_app. cbn [length]. rewrite length_app, Hmid. cbn [length]. lia. }
  assert (fs !! 19%nat = Some (bytes (FormatUint start))) as H19.
  { replace fs with (([state] :: bytes (FormatUint ppid) :: middle) ++ bytes (FormatUint start) :: rest).
    - apply list_lookup_middle. cbn. by rewrite Hmid.
    - rewrite Hdef. cbn [app]. by rewrite <-app_assoc. }
  assert (fs !! 0%nat = Some [state] /\ fs !! 1%nat = Some (bytes (FormatUint ppid))) as [Hf0 Hf1] by (by rewrite Hdef).
  unfold text in *. rewrite H19, Hf0, Hf1.
  cbn [default from_option]. rewrite (proj2 (Z.ltb_ge _ _)) by done. change (zlen [state] =? 1) with true. cbn [negb orb id].
  rewrite Hqp. cbn [mbind option_bind]. rewrite Hsp. cbn [mbind option_bind]. destruct (Z.eqb_spec start 0); [lia|done].
Qed.

End Lineage.
