(* ===== verification/Fdo.v ===== *)
(** * internal/fdo: the D-Bus interface

    [convert.go] and the calls of [server.go] that carry state: [Notify],
    [CloseNotification] and the signals of [Publish].  A variant is the dynamic
    value it holds; the bus daemon's answer about a sender is a parameter
    ([Bus]).  The order of the calls of one sender is in [CallOrder]; here a
    call is its preprocessing followed by one command to the owner. *)
From stdpp Require Import gmap strings list fin_maps.
From Stdlib Require Import ZArith Lia Strings.Byte.
From S2P Require Import Prelude GoLib Protocol Notify History Owner OwnerInv OwnerOps OwnerAdd OwnerCmd OwnerTime OwnerRun OwnerClaims Lineage.
Local Open Scope string_scope.
Local Open Scope list_scope.
Local Open Scope Z_scope.

(** ** convert.go *)

Definition legacyImageData : string := "image_data".
Definition legacyIconData : string := "icon_data".

Definition convertImageData (value : any) : error + RawImage :=
  match value with
  | AImageData data => inr data
  | ASlice fields =>
      if negb (zlen fields =? 7) then inl (ErrNew "fdo: malformed image-data hint")
      else match fields with
           | [AInt32 width; AInt32 height; AInt32 rowStride; ABool hasAlpha; AInt32 bits; AInt32 channels; ABytes data] =>
               inr (mkRawImage width height rowStride hasAlpha bits channels data)
           | _ => inl (ErrNew "fdo: malformed image-data fields")
           end
  | _ => inl (ErrNew "fdo: malformed image-data hint")
  end.

(** The hints that are copied as they are. *)
Definition plainHint (key : string) : bool :=
  existsb (String.eqb key) [HintUrgency; HintTransient; HintPrivate; HintResident; HintDesktopEntry;
    HintCategory; HintValue; HintInlineReplyPlaceholder].

Record hints := mkHints { hn_result : gmap string any; hn_rawImage : any; hn_imagePriority : Z }.

(** One round of the loop over the variants. *)
Definition convertHint (h : hints) (hint : string * any) : hints :=
  let '(key, variant) := hint in
  if plainHint key then mkHints (<[key := variant]> (hn_result h)) (hn_rawImage h) (hn_imagePriority h)
  else if String.eqb key HintImageData || String.eqb key legacyImageData || String.eqb key legacyIconData then
    let priority := if String.eqb key HintImageData then 0 else if String.eqb key legacyImageData then 1 else 2 in
    if priority <? hn_imagePriority h then mkHints (hn_result h) variant priority else h
  else if String.eqb key HintImagePath then
    match variant with
    | AString path => mkHints (<[key := AString path]> (hn_result h)) (hn_rawImage h) (hn_imagePriority h)
    | _ => h
    end
  else h.

(** [convertHints], ranging over the variants in the order [order] gives. *)
Definition convertHintsWith (source : gmap string any) (order : list (string * any)) : error + gmap string any :=
  if MaxHints <? Z.of_nat (size source) then inl (ErrNew "fdo: too many hints")
  else
    let h := fold_left convertHint order (mkHints ∅ (AOther "nil") 3) in
    inr (if hn_imagePriority h <? 3 then
           match convertImageData (hn_rawImage h) with
           | inr image => <[HintImageData := ARawImage image]> (hn_result h)
           | inl _ => hn_result h
           end
         else hn_result h).

Definition convertHints (source : gmap string any) : error + gmap string any :=
  convertHintsWith source (map_to_list source).

(** ** server.go *)

Definition dbusInvalidArgs : string := "org.freedesktop.DBus.Error.InvalidArgs".
Definition dbusFailed : string := "org.freedesktop.DBus.Error.Failed".
Definition invalidNotification : string := "org.freedesktop.Notifications.InvalidNotification".

Record dbusError := mkDbusError { be_Name : string; be_Err : error }.

(** [GetConnectionUnixProcessID] of the bus daemon. *)
Class Bus := connectionUnixProcessID : string -> error + Z.

Record notifyCall := mkNotifyCall {
  nc_sender : string; nc_appName : string; nc_replacesID : Z; nc_appIcon : string; nc_summary : string;
  nc_body : string; nc_actions : list string; nc_variants : gmap string any; nc_expireTimeout : Z }.

Section Server.
Context `{Clock, Sink, Png, Sha256, UrlParser, ProcFS, Bus}.

Definition senderPID (sender : string) : Z :=
  match connectionUnixProcessID sender with inl _ => 0 | inr pid => pid end.

Definition requestOf (procRoot : string) (call : notifyCall) (converted : gmap string any) : Request :=
  let pid := senderPID (nc_sender call) in
  mkRequest (nc_appName call) (nc_appIcon call) (nc_summary call) (nc_body call) (nc_replacesID call)
    (nc_actions call) converted (nc_expireTimeout call) (mkSender (nc_sender call) pid (Capture procRoot pid)).

Definition preparedImage (candidate : Candidate) : option PreparedImage :=
  match cd_Image candidate with
  | Some image =>
      if negb (cd_Transient candidate) && negb (cd_Private candidate) then
        match PrepareImage (Some image) with inr prepared => Some prepared | inl _ => None end
      else None
  | None => None
  end.

Definition addCommand (candidate : Candidate) : Command :=
  mkCommand Add candidate (preparedImage candidate) None 0 "" "" 0 0 [] [].

(** The call up to the ordered section; [None] is a panic. *)
Definition prepareNotify (procRoot : string) (call : notifyCall) : option (dbusError + Command) :=
  match convertHints (nc_variants call) with
  | inl err => Some (inl (mkDbusError dbusInvalidArgs err))
  | inr converted =>
      normalized ← Normalize (requestOf procRoot call converted);
      Some (match normalized with
            | inl err => inl (mkDbusError dbusInvalidArgs err)
            | inr candidate => inr (addCommand candidate)
            end)
  end.

Definition unavailable : dbusError := mkDbusError dbusFailed (ErrNew "notification state unavailable").

(** A call on the owner; [None] is a server without one. *)
Definition Notify (procRoot : string) (call : notifyCall) (owner : option ownerState)
    : option (option ownerState * (dbusError + Z)) :=
  prepared ← prepareNotify procRoot call;
  Some (match prepared with
        | inl err => (owner, inl err)
        | inr command =>
            match owner with
            | None => (None, inl unavailable)
            | Some s =>
                let '(s, result) := Do command s in
                (Some s, match result with
                         | inl err => inl (mkDbusError dbusFailed err)
                         | inr result => inr (res_ID result)
                         end)
            end
        end).

Definition closeCommand (id : Z) : Command :=
  mkCommand CloseRequested zeroCandidate None None id "" "" 0 0 [] [].

Definition CloseNotification (id : Z) (owner : option ownerState) : option ownerState * option dbusError :=
  match owner with
  | None => (None, Some unavailable)
  | Some s =>
      let '(s, result) := Do (closeCommand id) s in
      (Some s, match result with
               | inr _ => None
               | inl err => Some (mkDbusError (if errors_Is isErrNotFound err then invalidNotification else dbusFailed) err)
               end)
  end.

End Server.

(** ** Signals *)

Inductive queuedSignal :=
  | NotificationClosed (id reason : Z)
  | ActionInvoked (id : Z) (key : string)
  | NotificationReplied (id : Z) (text : string).

Definition emitQueueSize : Z := 128.

Definition signalsOf (event : Event) : list queuedSignal :=
  match ev_Delta event with
  | Some d => match d_Kind d with DeltaClosed => [NotificationClosed (d_ID d) (wrap32 (d_CloseReason d))] | _ => [] end
  | None => []
  end ++
  match ev_Action event with Some a => [ActionInvoked (ae_ID a) (ae_Key a)] | None => [] end ++
  match ev_Reply event with Some r => [NotificationReplied (rv_ID r) (rv_Text r)] | None => [] end.

(** A send on the buffered queue that never blocks. *)
Definition emit (acc : list queuedSignal * bool) (signal : queuedSignal) : list queuedSignal * bool :=
  let '(queue, delivered) := acc in
  if zlen queue <? emitQueueSize then (queue ++ [signal], delivered) else (queue, false).

Definition Server_Publish (event : Event) (queue : list queuedSignal) : list queuedSignal * bool :=
  fold_left emit (signalsOf event) (queue, true).

(** ** What the conversion keeps *)

(** The image hint that counts: the first present one of the three names,
    whether or not it is well formed. *)
Definition imageHint (source : gmap string any) : Z * any :=
  match source !! HintImageData with
  | Some v => (0, v)
  | None =>
      match source !! legacyImageData with
      | Some v => (1, v)
      | None => match source !! legacyIconData with Some v => (2, v) | None => (3, AOther "nil") end
      end
  end.

Definition copied (source : gmap string any) (k : string) : option any :=
  if plainHint k then source !! k
  else if String.eqb k HintImagePath
       then match source !! k with Some (AString path) => Some (AString path) | _ => None end
       else None.

(** What [convertHints] returns for each key. *)
Definition hintOf (source : gmap string any) (k : string) : option any :=
  if String.eqb k HintImageData then
    if (imageHint source).1 <? 3 then
      match convertImageData (imageHint source).2 with inr image => Some (ARawImage image) | inl _ => None end
    else None
  else copied source k.

Lemma plainHint_image key :
  plainHint key = true -> key <> HintImageData /\ key <> legacyImageData /\ key <> legacyIconData /\ key <> HintImagePath.
Proof. intros Hp. split_and!; intros ->; by vm_compute in Hp. Qed.

Lemma imageHint_range source : 0 <= (imageHint source).1 <= 3.
Proof. unfold imageHint. repeat case_match; cbn; lia. Qed.

Lemma copied_insert source key v k :
  source !! key = None ->
  copied (<[key := v]> source) k =
  if decide (k = key) then
    if plainHint k then Some v
    else if String.eqb k HintImagePath then match v with AString path => Some (AString path) | _ => None end else None
  else copied source k.
Proof.
  intros Hn. unfold copied. case_decide as Hk; [subst k; rewrite lookup_insert_eq; by destruct v|].
  by rewrite lookup_insert_ne by done.
Qed.

Lemma imageHint_insert source key v :
  source !! key = None ->
  imageHint (<[key := v]> source) =
  if String.eqb key HintImageData then (0, v)
  else if String.eqb key legacyImageData then if 1 <? (imageHint source).1 then (1, v) else imageHint source
  else if String.eqb key legacyIconData then if 2 <? (imageHint source).1 then (2, v) else imageHint source
  else imageHint source.
Proof.
  intros Hn. unfold imageHint.
  destruct (String.eqb_spec key HintImageData) as [->|H1]; [by rewrite lookup_insert_eq|]. rewrite lookup_insert_ne by done.
  destruct (String.eqb_spec key legacyImageData) as [->|H2].
  { rewrite lookup_insert_eq, Hn. by repeat case_match. }
  rewrite lookup_insert_ne by done. destruct (String.eqb_spec key legacyIconData) as [->|H3].
  { rewrite lookup_insert_eq, Hn. by repeat case_match. }
  by rewrite lookup_insert_ne by done.
Qed.

(** The loop, over any order. *)
Lemma fold_convertHint l :
  NoDup l.*1 ->
  let h := fold_left convertHint l (mkHints ∅ (AOther "nil") 3) in
  let source := list_to_map l : gmap string any in
  (forall k, hn_result h !! k = copied source k) /\ (hn_imagePriority h, hn_rawImage h) = imageHint source.
Proof.
  cbn zeta. induction l as [|[key v] l IH] using rev_ind.
  { intros _. split; [|done]. intros k. cbn. unfold copied. rewrite !lookup_empty. by destruct (plainHint k), (String.eqb k HintImagePath). }
  rewrite fmap_app. intros [Hnd Hkey]%NoDup_snoc. cbn in Hkey. destruct (IH Hnd) as [IH1 IH2]. clear IH.
  rewrite fold_left_app. cbn [fold_left]. set (h := fold_left _ _ _) in *.
  assert (list_to_map (l ++ [(key, v)]) = <[key := v]> (list_to_map l : gmap string any)) as ->.
  { rewrite list_to_map_snoc by done. done. }
  set (source := list_to_map l) in *.
  assert (source !! key = None) as Hn by (by apply not_elem_of_list_to_map_1).
  rewrite imageHint_insert by done. setoid_rewrite copied_insert; [|done].
  unfold convertHint. destruct (plainHint key) eqn:Hp; cbn [hn_result hn_rawImage hn_imagePriority].
  { destruct (plainHint_image key Hp) as (?&?&?&?). rewrite !(proj2 (String.eqb_neq key _)) by done. split; [|done].
    intros k. case_decide as Hk; [subst k; by rewrite lookup_insert_eq, Hp|]. by rewrite lookup_insert_ne by done. }
  assert (forall k, String.eqb key HintImagePath = false -> hn_result h !! k =
    if decide (k = key) then if plainHint k then Some v else if String.eqb k HintImagePath then
      match v with AString path => Some (AString path) | _ => None end else None else copied source k) as Hsame.
  { intros k Hnp. case_decide as Hk; [subst k|apply IH1]. rewrite Hp, Hnp, IH1. unfold copied. by rewrite Hp, Hnp. }
  rewrite <-IH2. cbn [fst].
  pose proof (imageHint_range source) as Hrange. rewrite <-IH2 in Hrange. cbn [fst] in Hrange.
  destruct (String.eqb_spec key HintImageData) as [->|H1]; cbn [orb].
  { destruct (Z.ltb_spec 0 (hn_imagePriority h)) as [|Hle]; cbn [hn_result hn_rawImage hn_imagePriority]; (split; [by intros; apply Hsame|]); [done|].
    exfalso. assert ((imageHint source).1 = 0) as H0 by (rewrite <-IH2; cbn; lia). revert H0. unfold imageHint. rewrite Hn.
    repeat case_match; cbn; lia. }
  destruct (String.eqb_spec key legacyImageData) as [->|H2]; cbn [orb].
  { destruct (1 <? hn_imagePriority h); cbn [hn_result hn_rawImage hn_imagePriority]; by (split; [by intros; apply Hsame|]). }
  destruct (String.eqb_spec key legacyIconData) as [->|H3]; cbn [orb].
  { destruct (2 <? hn_imagePriority h); cbn [hn_result hn_rawImage hn_imagePriority]; by (split; [by intros; apply Hsame|]). }
  destruct (String.eqb_spec key HintImagePath) as [->|H4]; [|by split; [intros; apply Hsame|]].
  split; [|by destruct v]. intros k. case_decide as Hk; [subst k|].
  - destruct v; cbn [hn_result]; rewrite ?lookup_insert_eq; try done; by rewrite IH1; unfold copied; rewrite Hn.
  - destruct v; cbn [hn_result]; rewrite ?lookup_insert_ne by done; apply IH1.
Qed.

Lemma convertHintsWith_lookup source order :
  order ≡ₚ map_to_list source -> Z.of_nat (size source) <= MaxHints ->
  exists result, convertHintsWith source order = inr result /\ forall k, result !! k = hintOf source k.
Proof.
  intros Hperm Hsize. unfold convertHintsWith. rewrite (proj2 (Z.ltb_ge _ _)) by done. eexists. split; [done|]. intros k.
  assert (NoDup order.*1) as Hnd by (rewrite Hperm; apply NoDup_fst_map_to_list).
  destruct (fold_convertHint order Hnd) as [H1 H2].
  assert (list_to_map order = source) as Hsrc.
  { rewrite <-(list_to_map_to_list source). by apply list_to_map_proper. }
  rewrite Hsrc in H1, H2. set (h := fold_left _ _ _) in *. unfold hintOf. rewrite <-H2. cbn [fst snd].
  destruct (String.eqb_spec k HintImageData) as [->|Hk].
  - destruct (_ <? 3); [|by rewrite H1]. destruct (convertImageData _); [by rewrite H1|]. by rewrite lookup_insert_eq.
  - destruct (_ <? 3); [|by rewrite H1]. destruct (convertImageData _); [by rewrite H1|]. by rewrite lookup_insert_ne by done.
Qed.

(** [convertHints] keeps exactly the hints [Normalize] reads, whatever
    order the runtime ranges over the map in: plain hints as they are, a path
    that is a string, and as image data the first present of the hints
    image-data, image_data and icon_data, if it is well formed; a map with too
    many hints is refused. *)
Theorem convertHints_exact source order :
  order ≡ₚ map_to_list source ->
  (MaxHints < Z.of_nat (size source) -> exists e, convertHintsWith source order = inl e) /\
  (Z.of_nat (size source) <= MaxHints -> exists result, convertHintsWith source order = inr result /\
     forall k, result !! k = hintOf source k).
Proof.
  intros Hperm. split; [|by apply convertHintsWith_lookup]. intros Hsize. unfold convertHintsWith.
  rewrite (proj2 (Z.ltb_lt _ _)) by done. by eexists.
Qed.

(** The image of an icon_data hint is the one that is shown, whatever the
    image-path hint says. *)
Theorem icon_data_beats_image_path `{Png, UrlParser} source data image path c :
  source !! HintImageData = None -> source !! legacyImageData = None -> source !! legacyIconData = Some data ->
  source !! HintImagePath = Some (AString path) -> convertImageData data = inr image ->
  Z.of_nat (size source) <= MaxHints ->
  exists result, convertHints source = inr result /\
    applyImageHints c result =
      (normalizeImage image ≫= fun r => Some (match r with
       | inl _ => set_ImageRejected true c
       | inr shown => set_AppIcon "" (set_Image (Some shown) c)
       end)).
Proof.
  intros E1 E2 E3 _ Hdata Hsize. destruct (convertHintsWith_lookup source (map_to_list source)) as (result&Hr&Hk); [done|done|].
  exists result. split; [done|]. unfold applyImageHints. rewrite Hk. unfold hintOf, imageHint. cbn [String.eqb].
  rewrite E1, E2, E3. cbn [fst snd]. by rewrite Hdata.
Qed.

(** ** A whole call *)

Lemma applyHint_texts c hint :
  let c' := applyHint c hint in
  cd_AppName c' = cd_AppName c /\ cd_Summary c' = cd_Summary c /\ cd_Body c' = cd_Body c /\ cd_ExpireTimeout c' = cd_ExpireTimeout c.
Proof. destruct hint as [key value]. unfold applyHint. destruct c. cbn zeta. by repeat case_match. Qed.

Lemma applyImageHints_texts `{Png, UrlParser} c source c' :
  applyImageHints c source = Some c' ->
  cd_AppName c' = cd_AppName c /\ cd_Summary c' = cd_Summary c /\ cd_Body c' = cd_Body c /\ cd_ExpireTimeout c' = cd_ExpireTimeout c.
Proof.
  unfold applyImageHints. destruct c. repeat (case_match; simplify_eq/=; try done); try (by intros [= <-]).
  destruct (normalizeImage _) as [[e|image]|]; cbn; [| |done]; by intros [= <-].
Qed.

Lemma Normalize_texts `{Png, UrlParser} request c :
  Normalize request = Some (inr c) ->
  cd_AppName c = rq_AppName request /\ cd_Summary c = rq_Summary request /\ cd_Body c = rq_Body request /\
  cd_ExpireTimeout c = rq_ExpireTimeout request.
Proof.
  unfold Normalize, normalizeWith. set (checks := firstErr _ _). destruct checks; [done|].
  destruct (parseActions ∅ (rq_Actions request)) as [e|actions]; [done|].
  assert (forall l c0, let c1 := fold_left applyHint l c0 in cd_AppName c1 = cd_AppName c0 /\ cd_Summary c1 = cd_Summary c0 /\
    cd_Body c1 = cd_Body c0 /\ cd_ExpireTimeout c1 = cd_ExpireTimeout c0) as Hfold.
  { induction l as [|h l IH]; intros c0; cbn [fold_left]; [done|]. cbn zeta.
    destruct (IH (applyHint c0 h)) as (->&->&->&->). apply applyHint_texts. }
  set (c0 := mkCandidate _ _ _ _ _ _ _ _ _ _ _ _ _ _ _ _ _ _ _). destruct (Hfold (map_to_list (rq_Hints request)) c0) as (F1&F2&F3&F4).
  intros (c2&Hc2&[= <-])%bind_Some. apply applyImageHints_texts in Hc2 as (->&->&->&->). by rewrite F1, F2, F3, F4.
Qed.

Section Calls.
Context `{MonotonicClock, Sink, PngLaws, Sha256Laws, UrlParser, ProcFS, Bus}.

Lemma do_add s c s' r err :
  wf s -> producers_ok s -> command_typed c -> cm_Kind c = Add -> do_ c s = (s', r, err) ->
  (err = None /\ exists rec, s_records s' !! res_ID r = Some rec /\
     r_notification rec = notificationFromCandidate (res_ID r) (cm_Candidate c) (Now (s_ticks s))) \/
  (exists e, err = Some e /\ validateCandidate (cm_Candidate c) (Now (s_ticks s)) <> None).
Proof.
  intros Hwf Hp Ht Hk. unfold do_, gatePresenter. rewrite Hk. pose proof (tick_ok s Hwf Hp) as [[_ Hwf1 _] Hp1].
  unfold clockNow in *. cbn [fst snd] in *. set (s1 := set_ticks (S (s_ticks s)) s) in *. set (now := Now (s_ticks s)).
  assert (0 < now <= Now (s_ticks s1)) as [Hpos Hnow].
  { split; [apply Now_pos|]. apply Now_mono. unfold s1. destruct s; cbn. lia. }
  unfold add. set (c1 := if _ =? 0 then _ else _).
  assert (exists target, c1 = set_ReplacesID target (cm_Candidate c)) as [target ->].
  { unfold c1. destruct (_ =? 0); [by eexists|]. exists (cd_ReplacesID (cm_Candidate c)). by destruct (cm_Candidate c). }
  destruct Ht as [Ht1 Ht2 _ _]. intros (_&_&Ha)%addWithProducerKey_spec; try done; [|by destruct (cm_Candidate c)].
  assert (forall id, notificationFromCandidate id (set_ReplacesID target (cm_Candidate c)) now =
    notificationFromCandidate id (cm_Candidate c) now) as Hn by (intros id; by destruct (cm_Candidate c)).
  assert (validateCandidate (set_ReplacesID target (cm_Candidate c)) now = validateCandidate (cm_Candidate c) now) as Hv
    by (by destruct (cm_Candidate c)).
  destruct Ha as [e He _|existing _ Hex Er _ _ _ _|id _ Hex _ _ Er _ _ _]; [right|left|left].
  - exists e. split; [done|]. rewrite <-Hv. fold now. congruence.
  - split; [done|]. cbn [res_ID]. rewrite Er. eexists. rewrite lookup_insert_eq. split; [done|].
    rewrite <-Hn. unfold replaceRecord. by destruct (_ && _).
  - split; [done|]. cbn [res_ID]. rewrite Er. eexists. rewrite lookup_insert_eq. split; [done|].
    rewrite <-Hn. unfold startRecord. by destruct (0 <? _).
Qed.

Lemma addCommand_typed c : is_i32 (cd_ExpireTimeout c) -> command_typed (addCommand c).
Proof.
  intros Hc. split; cbn; try done. unfold typed_prepared, preparedImage. destruct (cd_Image c) as [image|]; [|done].
  destruct (_ && _); [|done]. destruct (PrepareImage (Some image)) as [e|p] eqn:Hp; [done|]. by apply PrepareImage_metaOK in Hp.
Qed.

Lemma Capture_lineage_ok procRoot pid : lineage_ok (Capture procRoot pid).
Proof.
  destruct (captureLoop_spec procRoot (Z.to_nat MaxLineageEntries) ∅ 0 pid _ eq_refl) as (I1&_&_&I4&_). split.
  - unfold zlen, Capture. unfold MaxLineageEntries in *. lia.
  - eapply Forall_impl; [exact I4|]. cbn. intros p (?&?&_). split; [done|lia].
Qed.

(** C17: a Notify call never panics and always answers.  A call that is refused
    for its arguments has not touched the state; one that gets past the checks
    is shown: the answer is the id of an active notification with the texts of
    the call and the lineage of its sender.  The owner refuses a call after the
    checks only for the icon of a file:// hint. *)
Theorem Notify_outcome sink store s procRoot call :
  start_store_ok store -> reachable sink store s -> is_i32 (nc_expireTimeout call) ->
  exists s' result, Notify procRoot call (Some s) = Some (Some s', result) /\ reachable sink store s' /\
    match result with
    | inl err =>
        (be_Name err = dbusInvalidArgs /\ s' = s) \/
        (be_Name err = dbusFailed /\ exists converted, convertHints (nc_variants call) = inr converted /\ fileURIHint converted = true)
    | inr id => exists rec, s_records s' !! id = Some rec /\ n_ID (r_notification rec) = id /\
        n_AppName (r_notification rec) = nc_appName call /\ n_Summary (r_notification rec) = nc_summary call /\
        n_Body (r_notification rec) = nc_body call /\
        n_SenderLineage (r_notification rec) = Capture procRoot (senderPID (nc_sender call))
    end.
Proof.
  intros Hst Hr Hexp. unfold Notify, prepareNotify.
  destruct (convertHints (nc_variants call)) as [e|converted] eqn:Hc.
  { exists s. eexists. split; [done|]. split; [done|]. left. done. }
  destruct (Normalize_total (requestOf procRoot call converted)) as [normalized Hn].
  rewrite Hn. cbn [mbind option_bind]. destruct normalized as [e|c].
  { exists s. eexists. split; [done|]. split; [done|]. left. done. }
  pose proof (Normalize_texts _ _ Hn) as (T1&T2&T3&T4). pose proof (Normalize_candidate_ok _ _ Hn) as (Hok&Hsd&_&Hicon).
  cbn in T1, T2, T3, T4, Hsd. assert (command_typed (addCommand c)) as Ht by (apply addCommand_typed; by rewrite T4).
  unfold Do. destruct (do_ (addCommand c) s) as [[s' r] err] eqn:Hd. exists (resetTimer s'). eexists.
  split; [done|]. split; [by eapply reachable_do|]. destruct (reachable_ok sink store s Hst Hr) as [Hwf Hp].
  destruct (do_add s (addCommand c) s' r err Hwf Hp Ht eq_refl Hd) as [(->&rec&Hrec&Hnf)|(e&->&Hv)].
  - exists rec. replace (s_records (resetTimer s')) with (s_records s') by (unfold resetTimer; destruct (IsZero _); by destruct s').
    split; [done|]. rewrite Hnf. cbn. by rewrite T1, T2, T3, Hsd.
  - right. split; [done|]. exists converted. split; [done|]. destruct (fileURIHint converted) eqn:Hf; [done|].
    destruct Hv. cbn [cm_Candidate addCommand]. pose proof (Now_pos (s_ticks s)). apply candidate_ok_accepted; auto; [|lia].
    rewrite Hsd. apply Capture_lineage_ok.
Qed.

(** CloseNotification of an active notification succeeds, takes exactly it
    out, and its sender is told first: the first event for the sink becomes the
    signal NotificationClosed with the reason 3; for any other id the answer is
    the InvalidNotification error and no notification is touched. *)
Theorem CloseNotification_outcome sink store s id :
  start_store_ok store -> reachable sink store s ->
  exists s' err, CloseNotification id (Some s) = (Some s', err) /\ reachable sink store s' /\
  match s_records s !! id with
  | Some _ => err = None /\ s_records s' = delete id (s_records s) /\
      exists ev evs, handed s (ev :: evs) s' /\ signalsOf ev = [NotificationClosed id 3]
  | None => (exists e, err = Some e /\ be_Name e = invalidNotification) /\
      s_records s' = s_records s /\ s_order s' = s_order s
  end.
Proof.
  intros Hst Hr. destruct (reachable_ok sink store s Hst Hr) as [Hwf Hp].
  assert (command_typed (closeCommand id)) as Ht by (split; cbn; done).
  unfold CloseNotification, Do. destruct (do_ (closeCommand id) s) as [[s' r] err] eqn:Hd.
  exists (resetTimer s'). eexists. split; [done|]. split; [by eapply reachable_do|].
  destruct (resetTimer_frame s') as (->&->&Hsk). revert Hd. unfold do_, gatePresenter. cbn [cm_Kind closeCommand cm_ID].
  pose proof (tick_ok s Hwf Hp) as [[_ Hwf1 _] _]. unfold clockNow in *. cbn [fst snd] in *.
  set (s1 := set_ticks _ s) in *. assert (s_records s1 = s_records s /\ s_order s1 = s_order s /\ s_sink s1 = s_sink s) as (E1&E2&E3) by (by destruct s).
  destruct (s_records s !! id) as [rec|] eqn:Hid.
  - destruct (close_spec id CloseRequestedReason s1 Hwf1 eq_refl) as (s2&Hc&[(evs&[Hk _ _ _]) _ Er _ _ _ _ _]).
    { rewrite E1, Hid. by eexists. }
    rewrite Hc. intros [= <- <- <-]. split; [done|]. split; [by rewrite Er, E1|]. do 2 eexists.
    split; [unfold handed in *; rewrite Hsk, <-E3; exact Hk|]. done.
  - unfold close. rewrite E1, Hid. intros [= <- <- <-]. split; [by eexists|done].
Qed.

End Calls.

(** The signals of an event are queued without blocking, in order: what
    fits the bounded queue is appended, the rest is dropped from the end, and
    the answer says whether all of them fitted. *)
Theorem signals_bounded event queue queue' delivered :
  zlen queue <= emitQueueSize -> Server_Publish event queue = (queue', delivered) ->
  zlen queue' <= emitQueueSize /\ exists sent dropped, signalsOf event = sent ++ dropped /\ queue' = queue ++ sent /\
    (delivered = true <-> dropped = []) /\ (dropped <> [] -> zlen queue' = emitQueueSize).
Proof.
  unfold Server_Publish. generalize (signalsOf event). intros l Hq.
  assert (forall l queue ok queue' ok', zlen queue <= emitQueueSize -> fold_left emit l (queue, ok) = (queue', ok') ->
    zlen queue' <= emitQueueSize /\ exists sent dropped, l = sent ++ dropped /\ queue' = queue ++ sent /\
      (ok' = true <-> ok = true /\ dropped = []) /\ (dropped <> [] -> zlen queue' = emitQueueSize)) as Hgen.
  { clear. induction l as [|x l IH]; intros queue ok queue' ok' Hq; cbn [fold_left].
    - intros [= <- <-]. split; [done|]. exists [], []. rewrite !app_nil_r. split_and!; [done|done|tauto|done].
    - unfold emit at 2. destruct (Z.ltb_spec (zlen queue) emitQueueSize) as [Hlt|Hge]; intros Hf.
      + apply IH in Hf as (Hb&sent&dropped&->&->&Hok&Hd); [|rewrite zlen_app; change (zlen [x]) with 1; lia].
        split; [done|]. exists (x :: sent), dropped. split_and!; [done|by rewrite <-app_assoc|done|done].
      + assert (forall l, fold_left emit l (queue, false) = (queue, false)) as Hfull.
        { clear -Hge. induction l as [|y l IH]; [done|]. cbn [fold_left]. unfold emit at 2. by rewrite (proj2 (Z.ltb_ge _ _)) by done. }
        rewrite Hfull in Hf. injection Hf as <- <-. split; [done|]. exists [], (x :: l). rewrite app_nil_r.
        split_and!; [done|done|naive_solver|]. intros _. lia. }
  intros Hf. destruct (Hgen l queue true queue' delivered Hq Hf) as (?&sent&dropped&?&?&Hok&?).
  split; [done|]. exists sent, dropped. naive_solver.
Qed.
