(* ===== verification/BusName.v ===== *)
(** * internal/fdo: the life of the D-Bus server

    [Serve], [Close], [emitLoop] and [monitorName] of [server.go], and the
    sends of [Publish].  Serve exports the object, watches the ownership of the
    bus name, asks for the name and starts two goroutines; a failure on the way
    takes back what was done.  The goroutines of Serve, Close, the emitter, the
    monitor and the owner interleave: [bstep] has a rule for each critical
    section, channel operation and call of the bus library.  What a call of the
    library returns is left open; what the server holds on the bus, and what it
    queued and emitted, are logs of the world. *)
From stdpp Require Import gmap strings list.
From Stdlib Require Import ZArith Lia.
From S2P Require Import Prelude GoLib Protocol Notify History Owner CallOrder Fdo.
Local Open Scope string_scope.
Local Open Scope list_scope.
Local Open Scope Z_scope.

(** ** The server *)

Definition BusName : string := "org.freedesktop.Notifications".

(** A signal of the bus; [None] is an element of the body that is no string. *)
Record BusSignal := mkBusSignal { bs_Name : string; bs_Body : list (option string) }.

Record DServer := mkDServer {
  ds_conn : bool;                    (** whether there is a connection *)
  ds_owner : bool;                   (** whether [Serve] has stored an owner *)
  ds_attempted : bool;
  ds_served : bool;
  ds_closing : bool;
  ds_stopped : bool;                 (** [stop] is closed *)
  ds_order : option CallOrder;
  ds_emitQueue : list queuedSignal;
  ds_signals : list (option BusSignal);
  ds_done : list error;
  ds_doneClosed : bool;
  ds_monitorDone : bool }.           (** [monitorDone] is closed *)

Definition NewAtWithOrder (conn : bool) (order : option CallOrder) : DServer :=
  mkDServer conn false false false false false order [] [] [] false false.

(** [NewAt] and [New]: no arrival order; with the root of /proc. *)
Definition NewAt (conn : bool) (procRoot : string) : DServer * string := (NewAtWithOrder conn None, procRoot).
Definition New (conn : bool) : DServer * string := NewAt conn "/proc".

(** The owner a call finds. *)
Definition stateOwner (s : DServer) (owner : ownerState) : option ownerState := if ds_owner s then Some owner else None.

(** The calls that answer the same always. *)
Definition ServerName : string := "sysc-notify".
Definition ServerVendor : string := "Nomadcxx".
Definition ServerVersion : string := "0.1.2".
Definition SpecVersion : string := "1.3".

Definition capabilities : list string :=
  ["actions"; "body"; "body-images"; "body-markup"; "icon-static"; "inline-reply"; "persistence"].

Definition GetCapabilities : list string := capabilities.
Definition GetServerInformation : string * string * string * string := (ServerName, ServerVendor, ServerVersion, SpecVersion).

Definition signalsSize : Z := 8.

(** [Serve] up to its first call of the bus. *)
Definition beginServe (owner : bool) (s : DServer) : DServer * option error :=
  if negb (ds_conn s) || negb owner then (s, Some (ErrNew "fdo: missing server dependency"))
  else if ds_attempted s then (s, Some (ErrNew "fdo: server already started"))
  else (mkDServer (ds_conn s) owner true (ds_served s) (ds_closing s) (ds_stopped s) (ds_order s) (ds_emitQueue s)
          (ds_signals s) (ds_done s) (ds_doneClosed s) (ds_monitorDone s), None).

Definition setServed (s : DServer) : DServer :=
  mkDServer (ds_conn s) (ds_owner s) (ds_attempted s) true (ds_closing s) (ds_stopped s) (ds_order s) (ds_emitQueue s)
    (ds_signals s) (ds_done s) (ds_doneClosed s) (ds_monitorDone s).

Definition setClosing (s : DServer) : DServer :=
  mkDServer (ds_conn s) (ds_owner s) (ds_attempted s) (ds_served s) true (ds_stopped s) (ds_order s) (ds_emitQueue s)
    (ds_signals s) (ds_done s) (ds_doneClosed s) (ds_monitorDone s).

Definition closeStop (s : DServer) : DServer :=
  mkDServer (ds_conn s) (ds_owner s) (ds_attempted s) (ds_served s) (ds_closing s) true (ds_order s) (ds_emitQueue s)
    (ds_signals s) (ds_done s) (ds_doneClosed s) (ds_monitorDone s).

(** [Close] of a nil order does nothing. *)
Definition closeOrder (s : DServer) : DServer :=
  mkDServer (ds_conn s) (ds_owner s) (ds_attempted s) (ds_served s) (ds_closing s) (ds_stopped s)
    (option_map CallOrder.Close (ds_order s)) (ds_emitQueue s) (ds_signals s) (ds_done s) (ds_doneClosed s) (ds_monitorDone s).

Definition setQueue (queue : list queuedSignal) (s : DServer) : DServer :=
  mkDServer (ds_conn s) (ds_owner s) (ds_attempted s) (ds_served s) (ds_closing s) (ds_stopped s) (ds_order s) queue
    (ds_signals s) (ds_done s) (ds_doneClosed s) (ds_monitorDone s).

Definition setSignals (signals : list (option BusSignal)) (s : DServer) : DServer :=
  mkDServer (ds_conn s) (ds_owner s) (ds_attempted s) (ds_served s) (ds_closing s) (ds_stopped s) (ds_order s)
    (ds_emitQueue s) signals (ds_done s) (ds_doneClosed s) (ds_monitorDone s).

Definition setDone (done : list error) (s : DServer) : DServer :=
  mkDServer (ds_conn s) (ds_owner s) (ds_attempted s) (ds_served s) (ds_closing s) (ds_stopped s) (ds_order s)
    (ds_emitQueue s) (ds_signals s) done (ds_doneClosed s) (ds_monitorDone s).

(** The deferred closes of [monitorName], the last deferred first. *)
Definition closeDone (s : DServer) : DServer :=
  mkDServer (ds_conn s) (ds_owner s) (ds_attempted s) (ds_served s) (ds_closing s) (ds_stopped s) (ds_order s)
    (ds_emitQueue s) (ds_signals s) (ds_done s) true (ds_monitorDone s).

Definition closeMonitorDone (s : DServer) : DServer :=
  mkDServer (ds_conn s) (ds_owner s) (ds_attempted s) (ds_served s) (ds_closing s) (ds_stopped s) (ds_order s)
    (ds_emitQueue s) (ds_signals s) (ds_done s) (ds_doneClosed s) true.

(** ** Calls of the bus library *)

Inductive busCall :=
  | CallExport | CallUnexport
  | CallAddMatch | CallRemoveMatch
  | CallSignal | CallRemoveSignal
  | CallRequestName | CallReleaseName.

#[global] Instance busCall_eq_dec : EqDecision busCall.
Proof. solve_decision. Defined.

Inductive requestReply := RequestPrimaryOwner | RequestInQueue | RequestExists | RequestAlreadyOwner.
Inductive releaseReply := ReleaseReleased | ReleaseNonExistent | ReleaseNotOwner.

(** What [Serve] makes of the answer to [RequestName]. *)
Definition requestAnswer (reply : requestReply) (err : option error) : option error :=
  match err with
  | Some e => Some (ErrWrap "fdo: acquire org.freedesktop.Notifications" e)
  | None => match reply with
            | RequestPrimaryOwner => None
            | _ => Some (ErrNew "fdo: acquire org.freedesktop.Notifications")
            end
  end.

(** What [Close] makes of the answer to [ReleaseName]. *)
Definition releaseAnswer (reply : releaseReply) (err : option error) : option error :=
  match err with
  | Some e => Some e
  | None => match reply with
            | ReleaseReleased | ReleaseNotOwner => None
            | ReleaseNonExistent => Some (ErrNew "fdo: release org.freedesktop.Notifications")
            end
  end.

(** The answers a call may have: [Signal] and [RemoveSignal] return nothing. *)
Definition answers (c : busCall) (err : option error) : Prop :=
  match c with
  | CallSignal | CallRemoveSignal => err = None
  | CallRequestName => exists reply e, err = requestAnswer reply e
  | CallReleaseName => exists reply e, err = releaseAnswer reply e
  | _ => True
  end.

(** The call that takes back another. *)
Definition undoes (c : busCall) : option busCall :=
  match c with
  | CallUnexport => Some CallExport
  | CallRemoveMatch => Some CallAddMatch
  | CallRemoveSignal => Some CallSignal
  | CallReleaseName => Some CallRequestName
  | _ => None
  end.

(** The calls that succeeded and were not taken back. *)
Definition perform (c : busCall) (err : option error) (held : list busCall) : list busCall :=
  match undoes c with
  | Some d => List.filter (fun x => negb (bool_decide (x = d))) held
  | None => match err with None => held ++ [c] | Some _ => held end
  end.

(** ** The goroutines *)

(** [Serve]: at the call it is about to make, or about to set [served], to
    start the emitter and the monitor. *)
Inductive serving :=
  | SIdle | SExport | SAddMatch | SSignal | SRequestName
  | SUndo (calls : list busCall) (result : error)
  | SMark | SEmitter | SMonitor
  | SReturned (result : option error).

Definition serveCall (p : serving) : option busCall :=
  match p with
  | SExport => Some CallExport
  | SAddMatch => Some CallAddMatch
  | SSignal => Some CallSignal
  | SRequestName => Some CallRequestName
  | SUndo (c :: _) _ => Some c
  | _ => None
  end.

Definition serveNext (p : serving) (err : option error) : serving :=
  match p, err with
  | SExport, None => SAddMatch
  | SExport, Some e => SReturned (Some (ErrWrap "fdo: export interface" e))
  | SAddMatch, None => SSignal
  | SAddMatch, Some e => SUndo [CallUnexport] (ErrWrap "fdo: watch name ownership" e)
  | SSignal, _ => SRequestName
  | SRequestName, None => SMark
  | SRequestName, Some e => SUndo [CallRemoveSignal; CallRemoveMatch; CallUnexport] e
  | SUndo [_] e, _ => SReturned (Some e)
  | SUndo (_ :: calls) e, _ => SUndo calls e
  | p, _ => p
  end.

(** [Close]: the body of its [Once]; [served] is its local variable. *)
Inductive closing :=
  | CIdle | CFlagged | CStopped | COrdered | CWait
  | CCalls (calls : list busCall) (result : option error)
  | CReturned (served : bool) (result : option error).

Definition closeCalls : list busCall := [CallRemoveSignal; CallRemoveMatch; CallUnexport; CallReleaseName].

Definition closeNext (calls : list busCall) (result : option error) : closing :=
  match calls with [] => CReturned true result | _ => CCalls calls result end.

(** [monitorName]: in its select, about to look at [closing] with the error it
    would report (and whether it returns all the same), at its send, and in its
    deferred calls. *)
Inductive monitor :=
  | MNone | MSelect | MCheck (e : error) (returns : bool) | MSend (e : error)
  | MReturned | MClosed | MGone.

Definition connectionLost (cause : error) : error := ErrWrap "fdo: D-Bus connection lost" cause.
Definition nameLost : error := ErrNew "fdo: notification bus name lost".

(** Whether a signal says that the name has gone from us to another. *)
Definition takesName (uniqueName : string) (signal : option BusSignal) : bool :=
  match signal with
  | None => false
  | Some s =>
      if negb (String.eqb (bs_Name s) "org.freedesktop.DBus.NameOwnerChanged") || negb (zlen (bs_Body s) =? 3) then false
      else match bs_Body s with
      | [Some name; Some oldOwner; Some newOwner] =>
          String.eqb name BusName && String.eqb oldOwner uniqueName && negb (String.eqb newOwner uniqueName)
      | _ => false
      end
  end.

(** What the bus is asked to deliver: the sender, the interface, the member and
    the first argument. *)
Record matchRule := mkMatchRule { mr_Sender : string; mr_Interface : string; mr_Member : string; mr_Arg0 : string }.

Definition nameOwnerMatch : matchRule := mkMatchRule "org.freedesktop.DBus" "org.freedesktop.DBus" "NameOwnerChanged" BusName.

(** Whether the bus delivers a signal it sends itself. *)
Definition delivers (rule : matchRule) (signal : BusSignal) : bool :=
  String.eqb (bs_Name signal) (String.append (mr_Interface rule) (String.append "." (mr_Member rule))) &&
  match bs_Body signal with Some arg0 :: _ => String.eqb arg0 (mr_Arg0 rule) | _ => false end.

Definition onSignal (uniqueName : string) (signal : option BusSignal) : monitor :=
  if takesName uniqueName signal then MCheck nameLost false else MSelect.

Definition onCheck (e : error) (returns isClosing : bool) : monitor :=
  if negb isClosing then MSend e else if returns then MReturned else MSelect.

(** The rule lets every signal through that tells of the loss of the name. *)
Lemma takesName_delivered uniqueName signal : takesName uniqueName (Some signal) = true -> delivers nameOwnerMatch signal = true.
Proof.
  unfold takesName, delivers. change (String.append _ _) with "org.freedesktop.DBus.NameOwnerChanged". destruct (String.eqb _ _); [|done].
  destruct (negb _ || _); [done|]. destruct (bs_Body signal) as [|[name|] [|[oldOwner|] [|[newOwner|] [|]]]]; try done.
  intros [[Hn _]%andb_true_iff _]%andb_true_iff. exact Hn.
Qed.

(** A call that comes before [Serve] has stored the owner, or after [Serve] was
    refused, changes nothing and says so. *)
Lemma unserved_calls `{Clock, Sink, Png, Sha256} conn procRoot owner id :
  CloseNotification id (stateOwner (NewAt conn procRoot).1 owner) = (None, Some unavailable).
Proof. done. Qed.

(** [emitLoop]: in its select, or in a call of [Emit]. *)
Inductive emitter := ENone | ESelect | EEmit (signal : queuedSignal) | EGone.

(** ** The world *)

(** The server and its goroutines; the send of [Publish] that is in progress;
    whether the connection's context is done; what is held on the bus; what was
    received from [Done]; and the signals queued and emitted so far. *)
Record bworld := mkBWorld {
  bw_server : DServer;
  bw_serve : serving;
  bw_close : closing;
  bw_monitor : monitor;
  bw_emitter : emitter;
  bw_publish : list queuedSignal * bool;
  bw_lost : bool;
  bw_held : list busCall;
  bw_taken : list error;
  bw_queued : list queuedSignal;
  bw_emitted : list queuedSignal }.

Definition bstart (s : DServer) : bworld := mkBWorld s SIdle CIdle MNone ENone ([], true) false [] [] [] [].

Definition with_server (s : DServer) (w : bworld) : bworld :=
  mkBWorld s (bw_serve w) (bw_close w) (bw_monitor w) (bw_emitter w) (bw_publish w) (bw_lost w) (bw_held w) (bw_taken w) (bw_queued w) (bw_emitted w).
Definition with_serve (p : serving) (w : bworld) : bworld :=
  mkBWorld (bw_server w) p (bw_close w) (bw_monitor w) (bw_emitter w) (bw_publish w) (bw_lost w) (bw_held w) (bw_taken w) (bw_queued w) (bw_emitted w).
Definition with_close (p : closing) (w : bworld) : bworld :=
  mkBWorld (bw_server w) (bw_serve w) p (bw_monitor w) (bw_emitter w) (bw_publish w) (bw_lost w) (bw_held w) (bw_taken w) (bw_queued w) (bw_emitted w).
Definition with_monitor (p : monitor) (w : bworld) : bworld :=
  mkBWorld (bw_server w) (bw_serve w) (bw_close w) p (bw_emitter w) (bw_publish w) (bw_lost w) (bw_held w) (bw_taken w) (bw_queued w) (bw_emitted w).
Definition with_emitter (p : emitter) (w : bworld) : bworld :=
  mkBWorld (bw_server w) (bw_serve w) (bw_close w) (bw_monitor w) p (bw_publish w) (bw_lost w) (bw_held w) (bw_taken w) (bw_queued w) (bw_emitted w).
Definition with_publish (p : list queuedSignal * bool) (queued : list queuedSignal) (w : bworld) : bworld :=
  mkBWorld (bw_server w) (bw_serve w) (bw_close w) (bw_monitor w) (bw_emitter w) p (bw_lost w) (bw_held w) (bw_taken w) queued (bw_emitted w).
Definition with_lost (w : bworld) : bworld :=
  mkBWorld (bw_server w) (bw_serve w) (bw_close w) (bw_monitor w) (bw_emitter w) (bw_publish w) true (bw_held w) (bw_taken w) (bw_queued w) (bw_emitted w).
Definition with_held (held : list busCall) (w : bworld) : bworld :=
  mkBWorld (bw_server w) (bw_serve w) (bw_close w) (bw_monitor w) (bw_emitter w) (bw_publish w) (bw_lost w) held (bw_taken w) (bw_queued w) (bw_emitted w).
Definition with_taken (taken : list error) (w : bworld) : bworld :=
  mkBWorld (bw_server w) (bw_serve w) (bw_close w) (bw_monitor w) (bw_emitter w) (bw_publish w) (bw_lost w) (bw_held w) taken (bw_queued w) (bw_emitted w).
Definition with_emitted (emitted : list queuedSignal) (w : bworld) : bworld :=
  mkBWorld (bw_server w) (bw_serve w) (bw_close w) (bw_monitor w) (bw_emitter w) (bw_publish w) (bw_lost w) (bw_held w) (bw_taken w) (bw_queued w) emitted.

Section Life.
Variable uniqueName : string.

Inductive bstep : bworld -> bworld -> Prop :=
  (* [Serve] *)
  | bs_refused w owner s e :
      beginServe owner (bw_server w) = (s, Some e) -> bstep w (with_server s w)
  | bs_begin w owner s :
      beginServe owner (bw_server w) = (s, None) -> bstep w (with_serve SExport (with_server s w))
  | bs_serve_call w c err :
      serveCall (bw_serve w) = Some c -> answers c err ->
      bstep w (with_serve (serveNext (bw_serve w) err) (with_held (perform c err (bw_held w)) w))
  | bs_mark w :
      bw_serve w = SMark -> bstep w (with_serve SEmitter (with_server (setServed (bw_server w)) w))
  | bs_go_emitter w :
      bw_serve w = SEmitter -> bstep w (with_serve SMonitor (with_emitter ESelect w))
  | bs_go_monitor w :
      bw_serve w = SMonitor -> bstep w (with_serve (SReturned None) (with_monitor MSelect w))
  (* [Close] *)
  | bs_flag w :
      bw_close w = CIdle -> ds_conn (bw_server w) = true ->
      bstep w (with_close CFlagged (with_server (setClosing (bw_server w)) w))
  | bs_stop w :
      bw_close w = CFlagged -> bstep w (with_close CStopped (with_server (closeStop (bw_server w)) w))
  | bs_order w :
      bw_close w = CStopped -> bstep w (with_close COrdered (with_server (closeOrder (bw_server w)) w))
  | bs_unserved w :
      bw_close w = COrdered -> ds_served (bw_server w) = false -> bstep w (with_close (CReturned false None) w)
  | bs_served w :
      bw_close w = COrdered -> ds_served (bw_server w) = true -> bstep w (with_close CWait w)
  | bs_waited w :
      bw_close w = CWait -> ds_monitorDone (bw_server w) = true -> bstep w (with_close (CCalls closeCalls None) w)
  | bs_close_call w c calls result err :
      bw_close w = CCalls (c :: calls) result -> answers c err ->
      bstep w (with_close (closeNext calls (errors_Join result err)) (with_held (perform c err (bw_held w)) w))
  (* [Publish]: the owner's goroutine, one send at a time *)
  | bs_publish w event :
      (bw_publish w).1 = [] -> bstep w (with_publish (signalsOf event, true) (bw_queued w) w)
  | bs_send w signal signals ok queue ok' :
      bw_publish w = (signal :: signals, ok) -> emit (ds_emitQueue (bw_server w), ok) signal = (queue, ok') ->
      bstep w (with_publish (signals, ok')
        (if zlen (ds_emitQueue (bw_server w)) <? emitQueueSize then bw_queued w ++ [signal] else bw_queued w)
        (with_server (setQueue queue (bw_server w)) w))
  (* [emitLoop] *)
  | bs_emit_stop w :
      bw_emitter w = ESelect -> ds_stopped (bw_server w) = true -> bstep w (with_emitter EGone w)
  | bs_emit_take w signal queue :
      bw_emitter w = ESelect -> ds_emitQueue (bw_server w) = signal :: queue ->
      bstep w (with_emitter (EEmit signal) (with_server (setQueue queue (bw_server w)) w))
  | bs_emitted w signal :
      bw_emitter w = EEmit signal -> bstep w (with_emitted (bw_emitted w ++ [signal]) (with_emitter ESelect w))
  (* [monitorName] *)
  | bs_monitor_stop w :
      bw_monitor w = MSelect -> ds_stopped (bw_server w) = true -> bstep w (with_monitor MReturned w)
  | bs_monitor_lost w cause :
      bw_monitor w = MSelect -> bw_lost w = true -> bstep w (with_monitor (MCheck (connectionLost cause) true) w)
  | bs_monitor_signal w signal signals :
      bw_monitor w = MSelect -> ds_signals (bw_server w) = signal :: signals ->
      bstep w (with_monitor (onSignal uniqueName signal) (with_server (setSignals signals (bw_server w)) w))
  | bs_monitor_check w e returns :
      bw_monitor w = MCheck e returns -> bstep w (with_monitor (onCheck e returns (ds_closing (bw_server w))) w)
  | bs_monitor_send w e :
      bw_monitor w = MSend e -> zlen (ds_done (bw_server w)) < 1 ->
      bstep w (with_monitor MReturned (with_server (setDone (ds_done (bw_server w) ++ [e]) (bw_server w)) w))
  | bs_monitor_close w :
      bw_monitor w = MReturned -> bstep w (with_monitor MClosed (with_server (closeDone (bw_server w)) w))
  | bs_monitor_gone w :
      bw_monitor w = MClosed -> bstep w (with_monitor MGone (with_server (closeMonitorDone (bw_server w)) w))
  (* the receiver of [Done], the bus library and the bus *)
  | bs_receive w e errs :
      ds_done (bw_server w) = e :: errs ->
      bstep w (with_taken (bw_taken w ++ [e]) (with_server (setDone errs (bw_server w)) w))
  | bs_deliver w signal :
      zlen (ds_signals (bw_server w)) < signalsSize ->
      bstep w (with_server (setSignals (ds_signals (bw_server w) ++ [signal]) (bw_server w)) w)
  | bs_disconnect w : bstep w (with_lost w).

(** The worlds of a server that was made with a connection. *)
Definition breachable (w : bworld) : Prop := exists order, rtc bstep (bstart (NewAtWithOrder true order)) w.

(** ** The invariant *)

Definition allHeld : list busCall := [CallExport; CallAddMatch; CallSignal; CallRequestName].

(** What is left to take back is held, no more and no less. *)
Definition left_of (calls : list busCall) (held : list busCall) : Prop :=
  held = List.filter (fun x => existsb (fun c => bool_decide (undoes c = Some x)) calls) allHeld.

(** The nonempty ends of a list of calls. *)
Fixpoint tails (calls : list busCall) : list (list busCall) :=
  match calls with [] => [] | _ :: calls' => calls :: tails calls' end.

Definition held_ok (p : serving) (q : closing) (held : list busCall) : Prop :=
  match p with
  | SIdle | SExport | SReturned (Some _) => held = []
  | SAddMatch => held = [CallExport]
  | SSignal => held = [CallExport; CallAddMatch]
  | SRequestName => held = [CallExport; CallAddMatch; CallSignal]
  | SUndo calls _ => In calls (tails [CallRemoveSignal; CallRemoveMatch; CallUnexport]) /\ left_of calls held
  | SMark | SEmitter | SMonitor => held = allHeld
  | SReturned None =>
      match q with
      | CCalls calls _ => In calls (tails closeCalls) /\ left_of calls held
      | CReturned true _ => held = []
      | _ => held = allHeld
      end
  end.

Definition servedBy (p : serving) : bool := match p with SEmitter | SMonitor | SReturned None => true | _ => false end.
Definition attemptedBy (p : serving) : bool := match p with SIdle => false | _ => true end.
Definition monitored (p : serving) : bool := match p with SReturned None => true | _ => false end.
Definition emitting (p : serving) : bool := match p with SMonitor | SReturned None => true | _ => false end.

Definition close_ok (q : closing) (served : bool) (m : monitor) : Prop :=
  match q with
  | CWait => served = true
  | CCalls _ _ | CReturned true _ => m = MGone
  | _ => True
  end.

(** At most one error is reported; a monitor that gave up has reported one
    unless the server is closing. *)
Definition reported_ok (m : monitor) (isClosing : bool) (errs : list error) : Prop :=
  match m with
  | MNone | MSelect | MCheck _ _ | MSend _ => errs = []
  | MReturned | MClosed | MGone => (errs = [] /\ isClosing = true) \/ exists e, errs = [e]
  end.

Definition inFlight (e : emitter) : list queuedSignal := match e with EEmit signal => [signal] | _ => [] end.

Record binv (w : bworld) : Prop := {
  bi_held : held_ok (bw_serve w) (bw_close w) (bw_held w);
  bi_served : ds_served (bw_server w) = servedBy (bw_serve w);
  bi_attempted : ds_attempted (bw_server w) = attemptedBy (bw_serve w);
  bi_monitor : monitored (bw_serve w) = match bw_monitor w with MNone => false | _ => true end;
  bi_emitter : emitting (bw_serve w) = match bw_emitter w with ENone => false | _ => true end;
  bi_closed : ds_doneClosed (bw_server w) = match bw_monitor w with MClosed | MGone => true | _ => false end;
  bi_gone : ds_monitorDone (bw_server w) = match bw_monitor w with MGone => true | _ => false end;
  bi_closing : ds_closing (bw_server w) = match bw_close w with CIdle => false | _ => true end;
  bi_stopped : ds_stopped (bw_server w) = match bw_close w with CIdle | CFlagged => false | _ => true end;
  bi_close : close_ok (bw_close w) (ds_served (bw_server w)) (bw_monitor w);
  bi_reported : reported_ok (bw_monitor w) (ds_closing (bw_server w)) (bw_taken w ++ ds_done (bw_server w));
  bi_sent : bw_queued w = bw_emitted w ++ inFlight (bw_emitter w) ++ ds_emitQueue (bw_server w);
  bi_bound : zlen (ds_emitQueue (bw_server w)) <= emitQueueSize }.

Lemma binv_start order : binv (bstart (NewAtWithOrder true order)).
Proof. by split. Qed.

Lemma held_serve p q c err held :
  serveCall p = Some c -> answers c err -> held_ok p q held -> held_ok (serveNext p err) q (perform c err held).
Proof.
  destruct p as [| | | | |calls e| | | |[]]; cbn [serveCall held_ok]; intros Hc Ha Hh; try discriminate Hc.
  1-4: injection Hc as <-; subst held.
  - by destruct err.
  - destruct err; [split; [cbn; tauto|done]|done].
  - cbn in Ha. by subst err.
  - destruct err; [split; [cbn; tauto|done]|done].
  - destruct Hh as [[<-|[<-|[<-|[]]]] ->]; injection Hc as <-; [split; [cbn; tauto|done]..|done].
Qed.

Lemma held_close c calls result err held :
  held_ok (SReturned None) (CCalls (c :: calls) result) held ->
  held_ok (SReturned None) (closeNext calls (errors_Join result err)) (perform c err held).
Proof.
  intros [[Hc|[Hc|[Hc|[Hc|[]]]]] ->]; injection Hc as <- <-; cbn; try done; (split; [cbn; tauto|done]).
Qed.

Lemma beginServe_spec owner s s' r :
  beginServe owner s = (s', r) -> (s' = s /\ is_Some r) \/
  (r = None /\ ds_attempted s = false /\ s' = mkDServer (ds_conn s) owner true (ds_served s) (ds_closing s) (ds_stopped s) (ds_order s) (ds_emitQueue s)
          (ds_signals s) (ds_done s) (ds_doneClosed s) (ds_monitorDone s)).
Proof.
  unfold beginServe. destruct (negb (ds_conn s) || negb owner); [intros [= <- <-]; left; split; [done|by eexists]|].
  destruct (ds_attempted s) eqn:Ha; intros [= <- <-]; [left; split; [done|by eexists]|right; done].
Qed.

Lemma emit_spec queue ok signal queue' ok' :
  emit (queue, ok) signal = (queue', ok') -> zlen queue <= emitQueueSize ->
  zlen queue' <= emitQueueSize /\ queue' = queue ++ (if zlen queue <? emitQueueSize then [signal] else []).
Proof.
  unfold emit. destruct (Z.ltb_spec (zlen queue) emitQueueSize) as [Hlt|]; intros [= <- <-] Hq.
  - rewrite zlen_app. change (zlen [signal]) with 1. split; [lia|done].
  - by rewrite app_nil_r.
Qed.

Lemma close_ok_monitor q served m m' : m <> MGone -> close_ok q served m -> close_ok q served m'.
Proof. by destruct q as [| | | | | |[] ?]. Qed.

Lemma close_ok_served q served m : close_ok q served m -> close_ok q true m.
Proof. by destruct q as [| | | | | |[] ?]. Qed.

Lemma serveNext_frame p c err :
  serveCall p = Some c -> servedBy (serveNext p err) = servedBy p /\ attemptedBy (serveNext p err) = attemptedBy p /\
    monitored (serveNext p err) = monitored p /\ emitting (serveNext p err) = emitting p.
Proof. destruct p as [| | | | |[|? [|]]| | | |]; destruct err; done. Qed.

(** Before the monitor runs nobody has waited for it. *)
Lemma held_monitor q served held :
  held_ok SMonitor q held -> close_ok q served MNone -> held_ok (SReturned None) q held.
Proof. by destruct q as [| | | | | |[] ?]. Qed.

Lemma returned_monitored p : monitored p = true -> p = SReturned None.
Proof. by destruct p as [| | | | |? ?| | | |[]]. Qed.

Lemma onSignal_running signal : onSignal uniqueName signal = MSelect \/ exists e, onSignal uniqueName signal = MCheck e false.
Proof. unfold onSignal. destruct (takesName _ _); [right; by eexists|by left]. Qed.

Lemma closeNext_frame calls result :
  match closeNext calls result with CCalls _ _ | CReturned true _ => True | _ => False end.
Proof. by destruct calls. Qed.

#[local] Ltac keeps :=
  split; cbn; try done; try congruence; eauto using close_ok_served;
  try match goal with H : close_ok ?q _ _ |- close_ok ?q _ _ => by eapply close_ok_monitor; [|exact H] end.

Lemma binv_step w w' : binv w -> bstep w w' -> binv w'.
Proof.
  intros [H1 H2 H3 H4 H5 H6 H7 H8 H9 H10 H11 H12 H13] Hs.
  destruct Hs as [w owner s e Hb|w owner s Hb|w c err Hc Ha|w Hp|w Hp|w Hp|w Hq Hc|w Hq|w Hq|w Hq Hv|w Hq Hv|w Hq Hd|w c calls result err Hq Ha
    |w event Hp|w signal signals ok queue ok' Hp He|w Hm Hst|w signal queue Hm Hl|w signal Hm|w Hm Hst|w cause Hm Hl|w signal signals Hm Hl
    |w e returns Hm|w e Hm Hl|w Hm|w Hm|w e errs Hd|w signal Hl|w];
    destruct w as [sv p q m em pub lost held taken queued emitted]; cbn in *; subst.
  - destruct (beginServe_spec _ _ _ _ Hb) as [[-> _]|[? _]]; [|done]. keeps.
  - destruct (beginServe_spec _ _ _ _ Hb) as [[_ [? ?]]|(_&Hat&->)]; [done|]. destruct p; cbn in H3; try congruence; keeps.
  - destruct (serveNext_frame p c err Hc) as (F1&F2&F3&F4). keeps. by apply held_serve.
  - keeps.
  - destruct em; try done; keeps.
  - destruct m; try done. pose proof (held_monitor _ _ _ H1 H10). keeps.
  - keeps. destruct m; cbn in *; try done; (destruct H11 as [[? _]|H11]; [by left|by right]).
  - keeps.
  - keeps.
  - keeps.
  - keeps.
  - destruct m; try congruence. apply returned_monitored in H4 as ->. keeps.
  - cbn in H10. subst m. apply returned_monitored in H4 as ->. pose proof (held_close c calls result err held H1) as Hh.
    pose proof (closeNext_frame calls (errors_Join result err)). destruct (closeNext _ _) as [| | | | | |[] ?]; keeps.
  - keeps.
  - destruct (emit_spec _ _ _ _ _ He H13) as [Hb ->]. keeps. destruct (_ <? _); [by rewrite !app_assoc|by rewrite app_nil_r].
  - keeps.
  - keeps. rewrite Hl, zlen_cons in H13. lia.
  - keeps. by rewrite <-app_assoc.
  - keeps. left. split; [done|]. destruct q; congruence.
  - keeps.
  - destruct (onSignal_running signal) as [->|[e ->]]; keeps.
  - unfold onCheck. destruct (ds_closing sv) eqn:Hcl, returns; cbn in *; keeps; rewrite ?Hcl; auto.
  - keeps. right. exists e. cbn in H11. apply app_eq_nil in H11 as [-> ->]. done.
  - keeps.
  - keeps.
  - keeps. rewrite <-app_assoc. cbn [app]. by rewrite <-Hd.
  - keeps.
  - keeps.
Qed.

Lemma binv_steps w w' : binv w -> rtc bstep w w' -> binv w'.
Proof. intros Hw Hs. induction Hs as [|w1 w2 w3 H1 _ IH]; [done|]. by apply IH, (binv_step w1). Qed.

Lemma breachable_inv w : breachable w -> binv w.
Proof. intros [order Hw]. eapply binv_steps; [apply (binv_start order)|done]. Qed.

(** ** Close comes to its end *)

(** Close has begun to wait for the monitor. *)
Definition waiting_for (m : monitor) (w : bworld) : Prop := binv w /\ bw_close w = CWait /\ bw_monitor w = m.

Definition gone_from (w : bworld) : Prop := exists w', rtc bstep w w' /\ waiting_for MGone w'.

Lemma gone_step w w' m : bstep w w' -> bw_close w' = bw_close w -> bw_monitor w' = m -> (forall w, waiting_for m w -> gone_from w) ->
  binv w -> bw_close w = CWait -> gone_from w.
Proof.
  intros Hs Hq Hm Hend Hw Hc. destruct (Hend w') as (w2&H2&?); [split_and!; [by eapply binv_step|congruence|done]|].
  exists w2. split; [by eapply rtc_l|done].
Qed.

Lemma gone_closed w : waiting_for MClosed w -> gone_from w.
Proof.
  intros (Hw&Hq&Hm). eapply gone_step; [by apply bs_monitor_gone|done|done| |done|done]. intros w1 H1. exists w1. by split.
Qed.

Lemma gone_returned w : waiting_for MReturned w -> gone_from w.
Proof. intros (Hw&Hq&Hm). eapply gone_step; [by apply bs_monitor_close|done|done|apply gone_closed|done|done]. Qed.

Lemma gone_select w : waiting_for MSelect w -> gone_from w.
Proof.
  intros (Hw&Hq&Hm). eapply gone_step; [apply bs_monitor_stop; [done|]|done|done|apply gone_returned|done|done].
  by rewrite (bi_stopped _ Hw), Hq.
Qed.

Lemma gone_monitor w : binv w -> bw_close w = CWait -> gone_from w.
Proof.
  intros Hw Hq. destruct (bw_monitor w) as [| |e returns|e| | |] eqn:Hm.
  - pose proof (bi_close _ Hw) as Hv. rewrite Hq in Hv. cbn in Hv. rewrite (bi_served _ Hw) in Hv.
    assert (forall w, binv w -> bw_close w = CWait -> bw_serve w = SMonitor -> gone_from w) as Hgo.
    { clear. intros w Hw Hq Hp. eapply gone_step; [by apply bs_go_monitor|done|done|apply gone_select|done|done]. }
    pose proof (bi_monitor _ Hw) as Hn. rewrite Hm in Hn. destruct (bw_serve w) as [| | | | | | | | |[]] eqn:Hp; try done; [|by apply Hgo].
    pose proof (bs_go_emitter w Hp) as Hs. destruct (Hgo _ (binv_step _ _ Hw Hs)) as (w'&Hr&?); [done|done|].
    exists w'. split; [by eapply rtc_l|done].
  - by apply gone_select.
  - pose proof (bi_closing _ Hw) as Hc. rewrite Hq in Hc. pose proof (bs_monitor_check w e returns Hm) as Hs.
    destruct returns; eapply gone_step; try exact Hs; try done; cbn; unfold onCheck; rewrite Hc; cbn; auto using gone_returned, gone_select.
  - pose proof (bi_reported _ Hw) as Hr. rewrite Hm in Hr. apply app_eq_nil in Hr as [_ Hd].
    eapply gone_step; [apply (bs_monitor_send w e Hm)|done|done|apply gone_returned|done|done]. by rewrite Hd.
  - by apply gone_returned.
  - by apply gone_closed.
  - exists w. by split.
Qed.

Definition ended (w : bworld) : Prop := exists w' served result, rtc bstep w w' /\ bw_close w' = CReturned served result.

Lemma ended_l w w' : rtc bstep w w' -> ended w' -> ended w.
Proof. intros Hs (w2&served&result&Hr&?). exists w2, served, result. split; [by etrans|done]. Qed.

Lemma some_answer c : exists err, answers c err.
Proof.
  destruct c; cbn; try (by exists None); [exists None, RequestPrimaryOwner, None|exists None, ReleaseReleased, None]; done.
Qed.

Lemma calls_end calls result w : bw_close w = closeNext calls result -> ended w.
Proof.
  revert result w. induction calls as [|c calls IH]; intros result w Hq; [exists w, true, result; by split; [apply rtc_refl|]|].
  destruct (some_answer c) as [err Ha]. eapply ended_l; [eapply rtc_once, (bs_close_call w c calls result err); done|]. by eapply IH.
Qed.

Lemma bus_close_ends w : binv w -> bw_close w <> CIdle -> ended w.
Proof.
  assert (forall w, binv w -> bw_close w = CWait -> ended w) as Hwait.
  { clear w. intros w Hw Hq. destruct (gone_monitor w Hw Hq) as (w1&Hs&(Hw1&Hq1&Hm1)). eapply ended_l; [exact Hs|].
    eapply ended_l; [apply rtc_once, bs_waited; [done|by rewrite (bi_gone _ Hw1), Hm1]|]. by apply (calls_end closeCalls None). }
  assert (forall w, binv w -> bw_close w = COrdered -> ended w) as Hordered.
  { clear w. intros w Hw Hq. destruct (ds_served (bw_server w)) eqn:Hv.
    - pose proof (bs_served w Hq Hv) as Hs. eapply ended_l; [by apply rtc_once, Hs|]. apply Hwait; [by eapply binv_step|done].
    - eapply ended_l; [by apply rtc_once, bs_unserved|]. exists (with_close (CReturned false None) w), false, None. by split; [apply rtc_refl|]. }
  assert (forall w, binv w -> bw_close w = CStopped -> ended w) as Hstopped.
  { clear w. intros w Hw Hq. pose proof (bs_order w Hq) as Hs. eapply ended_l; [by apply rtc_once, Hs|].
    apply Hordered; [by eapply binv_step|done]. }
  intros Hw Hq. destruct (bw_close w) as [| | | | |calls result|served result] eqn:Hc; try done; auto.
  - pose proof (bs_stop w Hc) as Hs. eapply ended_l; [by apply rtc_once, Hs|]. apply Hstopped; [by eapply binv_step|done].
  - destruct calls as [|c calls]; [|by apply (calls_end (c :: calls) result)].
    pose proof (bi_held _ Hw) as Hh. pose proof (bi_close _ Hw) as Hm. rewrite Hc in Hh, Hm. cbn in Hm.
    pose proof (bi_monitor _ Hw) as Hn. rewrite Hm in Hn. apply returned_monitored in Hn. rewrite Hn in Hh.
    destruct Hh as [[Hx|[Hx|[Hx|[Hx|[]]]]] _]; discriminate Hx.
  - exists w, served, result. by split; [apply rtc_refl|].
Qed.

(** What a Close that began after a successful Serve knows. *)
Definition servedClose (w : bworld) : Prop :=
  binv w /\ bw_serve w = SReturned None /\ forall result, bw_close w <> CReturned false result.

Lemma servedClose_step w w' : servedClose w -> bstep w w' -> servedClose w'.
Proof.
  intros (Hw&Hp&Hq) Hs. split; [by eapply binv_step|].
  pose proof (bi_served _ Hw) as Hv. pose proof (bi_attempted _ Hw) as Ht. rewrite Hp in Hv, Ht.
  destruct Hs as [? ? ? ? Hb|? ? ? Hb|? ? ? Hc|? Hx|? Hx|? Hx| | | |? Hx Hx'| | |? ? calls ? ?| | | | | | | | | | | | | | | ];
    cbn in *; rewrite ?Hp in *; try discriminate; try congruence; try (by split).
  - destruct (beginServe_spec _ _ _ _ Hb) as [[_ [? ?]]|(_&?&_)]; congruence.
  - split; [done|]. intros result0. pose proof (closeNext_frame calls (errors_Join result err)) as Hn. intros He. by rewrite He in Hn.
Qed.


(** The loss of the name or of the connection is reported once, and the report
    never blocks: [Done] hands out at most one error, the monitor finds its
    channel empty, and a monitor that closed the channel before [Close] began
    has left an error in it. *)
Theorem loss_reported w :
  breachable w ->
  zlen (bw_taken w ++ ds_done (bw_server w)) <= 1 /\
  (forall e, bw_monitor w = MSend e -> ds_done (bw_server w) = []) /\
  (ds_doneClosed (bw_server w) = true -> bw_close w = CIdle -> exists e, bw_taken w ++ ds_done (bw_server w) = [e]).
Proof.
  intros Hr. pose proof (breachable_inv w Hr) as Hw. pose proof (bi_reported _ Hw) as Hd. split_and!.
  - destruct (bw_monitor w); cbn in Hd; try (rewrite Hd; unfold zlen; cbn; lia); destruct Hd as [[-> _]|[e ->]]; unfold zlen; cbn; lia.
  - intros e Hm. rewrite Hm in Hd. by apply app_eq_nil in Hd as [_ ->].
  - intros Hc Hq. pose proof (bi_closed _ Hw) as Hm. pose proof (bi_closing _ Hw) as Hg. rewrite Hc in Hm. rewrite Hq in Hg.
    destruct (bw_monitor w); try done; (destruct Hd as [[_ Hd]|[e He]]; [congruence|by exists e]).
Qed.

(** Signals leave in the order in which they were queued, none twice, and at
    most one hundred and twenty-nine of them wait. *)
Theorem signals_leave_in_order w :
  breachable w -> exists waiting, bw_queued w = bw_emitted w ++ waiting /\ zlen waiting <= emitQueueSize + 1.
Proof.
  intros Hr. pose proof (breachable_inv w Hr) as Hw. eexists. split; [apply (bi_sent _ Hw)|].
  pose proof (bi_bound _ Hw). rewrite zlen_app. destruct (bw_emitter w); unfold zlen in *; cbn; lia.
Qed.

End Life.
