(* ===== verification/Persist.v ===== *)
(** * internal/history: persistence

    [commit], [persistLoop], [schedule], [Flush] and [Close] of [store.go].
    The files are the committed history file and the temporary one; every
    call of [commit] may fail, as the argument [faults] says, with the error the
    call's branch returns.  The image
    sidecars [commit] also writes and cleans up are in [Sidecar]; here the two
    calls are steps that can fail.

    The worker, the callers of the mutations and [Close] interleave: [pstep] is
    the relation of their critical sections over a [pworld]. *)
From stdpp Require Import gmap strings list.
From Stdlib Require Import ZArith Lia Ascii.
From S2P Require Import Prelude GoLib Protocol Notify History.
Local Open Scope string_scope.
Local Open Scope list_scope.
Local Open Scope Z_scope.

(** ** Committing *)

(** The calls of [commit] in their order. *)
Inductive fsop :=
  | OpWriteImages | OpCreateTemp | OpChmod | OpWrite | OpSync | OpClose | OpRename | OpSyncDirectory
  | OpCleanupImages.

Record files := mkFiles { fs_history : option string; fs_temporary : option string }.

Definition newline : string := String "010"%char "".

(** The bytes [commit] writes. *)
Definition contentsOf (entries : list retained) : error + string :=
  match document_json (encodeDocument entries) with
  | inl err => inl (ErrWrap "history: encode: %w" err)
  | inr contents => inr (String.append contents newline)
  end.

Definition effect (contents : string) (op : fsop) (f : files) : files :=
  match op with
  | OpCreateTemp => mkFiles (fs_history f) (Some "")
  | OpWrite => mkFiles (fs_history f) (Some contents)
  | OpRename => mkFiles (fs_temporary f) None
  | _ => f
  end.

(** The calls one after the other up to the first that fails, with the files
    after each call. *)
Fixpoint runOps (faults : fsop -> option error) (contents : string) (ops : list fsop) (f : files)
    : list files * option error :=
  match ops with
  | [] => ([], None)
  | op :: ops =>
      match faults op with
      | Some err => ([], Some err)
      | None =>
          let f := effect contents op f in
          let '(trace, err) := runOps faults contents ops f in (f :: trace, err)
      end
  end.

(** [commit]: the files after each call, the files it leaves and its error.
    The deferred function removes a temporary file that was not renamed. *)
Definition commit (faults : fsop -> option error) (entries : list retained) (f : files)
    : list files * files * option error :=
  match faults OpWriteImages with
  | Some err => ([], f, Some err)
  | None =>
      match contentsOf entries with
      | inl err => ([], f, Some err)
      | inr contents =>
          let '(trace, err) := runOps faults contents
            [OpCreateTemp; OpChmod; OpWrite; OpSync; OpClose; OpRename; OpSyncDirectory; OpCleanupImages] f in
          let left := default f (last trace) in
          (trace, mkFiles (fs_history left) None, err)
      end
  end.

(** ** The store's worker and its callers *)

(** [persistLoop]: at the top, committing a snapshot, with the outcome not yet
    recorded, with it recorded, waiting to retry, waiting for a wake-up, gone. *)
Inductive worker :=
  | PLoop | PCommit (target : list retained) (gen : Z) | PReport (gen : Z) (err : option error)
  | PFinish (gen : Z) (err : option error) | PRetry | PIdle | PExit.

(** [Close]: not called, with [closed] set, with the channel closed, committing
    what is left, with the outcome not yet recorded, about to signal, done. *)
Inductive closer :=
  | COpen | CClosing | CStopping | CCommit (target : list retained) | CReport (err : option error) | CFinish | CDone.

Record pworld := mkPWorld {
  pw_store : Store;
  pw_worker : worker;
  pw_closer : closer;
  pw_files : files;
  pw_versions : list (list retained) (** the entries after each mutation *) }.

Definition recordErr (err : error) (s : Store) : Store :=
  mkStore (st_entries s) (st_dirty s) (st_writeGen s) (st_workerGen s) (st_closed s)
    (match st_lastErr s with None => Some err | Some e => Some e end) (st_wake s).

Definition clearErr (s : Store) : Store :=
  mkStore (st_entries s) (st_dirty s) (st_writeGen s) (st_workerGen s) (st_closed s) None (st_wake s).

Definition report (err : option error) (s : Store) : Store :=
  match err with Some e => recordErr e s | None => clearErr s end.

Definition set_dirty v s :=
  mkStore (st_entries s) v (st_writeGen s) (st_workerGen s) (st_closed s) (st_lastErr s) (st_wake s).
Definition set_workerGen v s :=
  mkStore (st_entries s) (st_dirty s) (st_writeGen s) v (st_closed s) (st_lastErr s) (st_wake s).
Definition set_closed v s :=
  mkStore (st_entries s) (st_dirty s) (st_writeGen s) (st_workerGen s) v (st_lastErr s) (st_wake s).
Definition set_wake v s :=
  mkStore (st_entries s) (st_dirty s) (st_writeGen s) (st_workerGen s) (st_closed s) (st_lastErr s) v.

(** The critical section after a commit. *)
Definition finish (gen : Z) (err : option error) (s : Store) : Store :=
  let s := match err with Some _ => set_dirty true s | None => s end in
  if st_workerGen s <? gen then set_workerGen gen s else s.

Definition with_store s w := mkPWorld s (pw_worker w) (pw_closer w) (pw_files w) (pw_versions w).
Definition with_worker v w := mkPWorld (pw_store w) v (pw_closer w) (pw_files w) (pw_versions w).
Definition with_closer v w := mkPWorld (pw_store w) (pw_worker w) v (pw_files w) (pw_versions w).
Definition with_files f w := mkPWorld (pw_store w) (pw_worker w) (pw_closer w) f (pw_versions w).

(** The channel [closing] is closed. *)
Definition closingSignalled (c : closer) : bool := match c with COpen | CClosing => false | _ => true end.

Inductive pstep : pworld -> pworld -> Prop :=
  (* a mutation, which the store allows until it is closed *)
  | ps_mutate w next :
      st_closed (pw_store w) = false -> Forall measured next ->
      pstep w (mkPWorld (install (pw_store w) next) (pw_worker w) (pw_closer w) (pw_files w) (pw_versions w ++ [next]))
  (* [persistLoop] *)
  | ps_exit w :
      pw_worker w = PLoop -> st_closed (pw_store w) = true -> pstep w (with_worker PExit w)
  | ps_take w :
      pw_worker w = PLoop -> st_closed (pw_store w) = false -> st_dirty (pw_store w) = true ->
      pstep w (with_worker (PCommit (st_entries (pw_store w)) (st_writeGen (pw_store w)))
        (with_store (set_dirty false (pw_store w)) w))
  | ps_idle w :
      pw_worker w = PLoop -> st_closed (pw_store w) = false -> st_dirty (pw_store w) = false ->
      pstep w (with_worker PIdle w)
  | ps_wake w :
      pw_worker w = PIdle -> st_wake (pw_store w) = true ->
      pstep w (with_worker PLoop (with_store (set_wake false (pw_store w)) w))
  | ps_wake_closing w :
      pw_worker w = PIdle -> closingSignalled (pw_closer w) = true -> pstep w (with_worker PLoop w)
  | ps_commit w target gen faults trace f err :
      pw_worker w = PCommit target gen -> commit faults target (pw_files w) = (trace, f, err) ->
      pstep w (with_worker (PReport gen err) (with_files f w))
  | ps_report w gen err :
      pw_worker w = PReport gen err ->
      pstep w (with_worker (PFinish gen err) (with_store (report err (pw_store w)) w))
  | ps_finish w gen err :
      pw_worker w = PFinish gen err ->
      pstep w (with_worker (match err with Some _ => PRetry | None => PLoop end) (with_store (finish gen err (pw_store w)) w))
  | ps_retry w : pw_worker w = PRetry -> pstep w (with_worker PLoop w)
  (* [Close] *)
  | ps_close w : pw_closer w = COpen -> pstep w (with_closer CClosing (with_store (set_closed true (pw_store w)) w))
  | ps_signal w : pw_closer w = CClosing -> pstep w (with_closer CStopping w)
  | ps_pending w :
      pw_closer w = CStopping -> pw_worker w = PExit ->
      pstep w (with_closer (if st_dirty (pw_store w) then CCommit (st_entries (pw_store w)) else CFinish) w)
  | ps_close_commit w target faults trace f err :
      pw_closer w = CCommit target -> commit faults target (pw_files w) = (trace, f, err) ->
      pstep w (with_closer (CReport err) (with_files f w))
  | ps_close_report w err :
      pw_closer w = CReport err -> pstep w (with_closer CFinish (with_store (report err (pw_store w)) w))
  | ps_close_done w : pw_closer w = CFinish -> pstep w (with_closer CDone w).

(** [Flush] returns [err]: the worker has caught up, or the store is closed and
    [Close] is through. *)
Definition flushReturns (w : pworld) (err : option error) : Prop :=
  err = st_lastErr (pw_store w) /\
  ((st_closed (pw_store w) = false /\ st_writeGen (pw_store w) <= st_workerGen (pw_store w)) \/ pw_closer w = CDone).

(** [Close] returns [err]. *)
Definition closeReturns (w : pworld) (err : option error) : Prop :=
  pw_closer w = CDone /\ err = st_lastErr (pw_store w).

(** A store just opened: what it holds is what the file says; no file stands
    for no entries. *)
Definition holds (f : files) (entries : list retained) : Prop :=
  match fs_history f with Some text => contentsOf entries = inr text | None => entries = [] end.

Definition pstart (entries : list retained) (f : files) : pworld :=
  mkPWorld (mkStore entries false 0 0 false None false) PLoop COpen f [entries].

Definition preachable (entries : list retained) (f : files) (w : pworld) : Prop := rtc pstep (pstart entries f) w.

(** ** The mutations are the ones of the store *)

(** Every mutation of [History] leaves the store alone or is a [ps_mutate]. *)
Definition mutated (s s' : Store) : Prop := s' = s \/ exists next, s' = install s next /\ Forall measured next.

Lemma shrunk_mutated s s' removed : store_wf s -> shrunk s s' removed -> mutated s s'.
Proof.
  intros Hwf Hs. pose proof (shrunk_wf s s' removed Hwf Hs) as Hwf'. destruct Hs as (_&_&[[_ ->]|[_ ->]]); [by left|right].
  eexists. split; [done|]. apply Hwf'.
Qed.

Lemma mutations_are_steps s :
  store_wf s ->
  (forall entry image now, is_u32 (h_ID entry) -> metaOK (pi_meta image) -> mutated s (AddPrepared s entry image now).1) /\
  (forall now, mutated s (Sweep s now).1) /\ (forall ids, mutated s (Remove s ids).1) /\
  (forall ids, mutated s (MarkSeen s ids).1) /\ mutated s (Clear s).1.
Proof.
  intros Hwf. split_and!.
  - intros entry image now Hu Hm. destruct (AddPrepared s entry image now) as [s' r] eqn:Ha.
    apply AddPrepared_cases in Ha as [[-> _]|[[-> _]|(removed&_&_&Hto)]]; try done; [by left|by left|right].
    exists (st_entries s'). split; [apply Hto|]. apply (at_wf _ _ _ _ _ Hto).
  - intros now. destruct (Sweep s now) as [s' r] eqn:Ha. apply Sweep_spec in Ha as (removed&_&Hs&_); [|done]. by eapply shrunk_mutated.
  - intros ids. destruct (Remove s ids) as [s' r] eqn:Ha. apply Remove_spec in Ha as (removed&_&Hs&_); [|done]. by eapply shrunk_mutated.
  - intros ids. unfold MarkSeen. destruct (MarkSeen s ids) as [s' r] eqn:Ha. pose proof (MarkSeen_spec s ids s' r Hwf Ha) as Hs.
    revert Ha. unfold MarkSeen. destruct (markLoop _ _) as [e|[next changed]]; [by left|].
    destruct (_ =? 0); [by left|]. intros [= <- <-]. right. exists next. split; [done|].
    destruct Hs as (?&_&_&_&_&Hs&_). apply Hs.
  - destruct (Clear s) as [s' r] eqn:Ha. apply Clear_spec in Ha as (removed&_&Hs&_); [|done]. by eapply shrunk_mutated.
Qed.

(** ** A commit replaces the file at once or not at all *)

(** The history file is [f]'s or the new one. *)
Definition oldOrNew (entries : list retained) (f g : files) : Prop :=
  fs_history g = fs_history f \/ exists text, contentsOf entries = inr text /\ fs_history g = Some text.

Lemma commit_spec faults entries f trace f' err :
  commit faults entries f = (trace, f', err) ->
  Forall (oldOrNew entries f) trace /\ oldOrNew entries f f' /\
  (err = None -> exists text, contentsOf entries = inr text /\ fs_history f' = Some text) /\
  (fs_temporary f = None -> fs_temporary f' = None).
Proof.
  unfold commit. destruct (faults OpWriteImages) as [e|]; [intros [= <- <- <-]; split_and!; [constructor|by left|done|done]|].
  destruct (contentsOf entries) as [e|text] eqn:Hc; [intros [= <- <- <-]; split_and!; [constructor|by left|done|done]|].
  cbn [runOps]. unfold oldOrNew.
  destruct (faults OpCreateTemp), (faults OpChmod), (faults OpWrite), (faults OpSync), (faults OpClose), (faults OpRename),
    (faults OpSyncDirectory), (faults OpCleanupImages); intros [= <- <- <-].
  all: split_and!; [repeat apply Forall_cons_2; try apply Forall_nil_2| |first [done|intros _; by exists text]|done].
  all: first [by left|right; by exists text].
Qed.

(** ** The invariant *)

Definition settled (w : pworld) (d : Z) : Prop :=
  st_dirty (pw_store w) = false ->
  d = st_writeGen (pw_store w) /\ st_workerGen (pw_store w) = d /\ st_lastErr (pw_store w) = None.

(** A commit of the generation [gen] is under way. *)
Definition inFlight (w : pworld) (d gen : Z) : Prop :=
  d <= gen <= st_writeGen (pw_store w) /\ st_workerGen (pw_store w) <= gen /\
  (st_dirty (pw_store w) = false -> gen = st_writeGen (pw_store w)).

(** The file holds the entries of generation [d]. *)
Record pinv (d : Z) (w : pworld) : Prop := {
  pv_len : zlen (pw_versions w) = st_writeGen (pw_store w) + 1;
  pv_now : pw_versions w !! Z.to_nat (st_writeGen (pw_store w)) = Some (st_entries (pw_store w));
  pv_measured : Forall (Forall measured) (pw_versions w);
  pv_range : 0 <= d <= st_writeGen (pw_store w) /\ 0 <= st_workerGen (pw_store w) <= st_writeGen (pw_store w);
  pv_disk : exists v, pw_versions w !! Z.to_nat d = Some v /\ holds (pw_files w) v;
  pv_ok : st_lastErr (pw_store w) = None -> st_workerGen (pw_store w) <= d;
  pv_closed : st_closed (pw_store w) = match pw_closer w with COpen => false | _ => true end;
  pv_worker :
    match pw_worker w with
    | PCommit target gen => inFlight w d gen /\ pw_versions w !! Z.to_nat gen = Some target
    | PReport gen err => inFlight w d gen /\ (err = None -> d = gen)
    | PFinish gen err => inFlight w d gen /\ (err = None -> d = gen) /\ (err = None <-> st_lastErr (pw_store w) = None)
    | _ => settled w d
    end;
  pv_closer :
    match pw_closer w with
    | CCommit target => pw_worker w = PExit /\ target = st_entries (pw_store w) /\ st_dirty (pw_store w) = true
    | CReport err => pw_worker w = PExit /\ (err = None -> d = st_writeGen (pw_store w)) /\ st_dirty (pw_store w) = true
    | CFinish | CDone => pw_worker w = PExit /\ (st_lastErr (pw_store w) = None -> d = st_writeGen (pw_store w))
    | _ => True
    end;
  pv_exit : pw_worker w = PExit -> st_closed (pw_store w) = true;
  pv_idle : pw_worker w = PIdle -> st_dirty (pw_store w) = true ->
    st_wake (pw_store w) = true \/ closingSignalled (pw_closer w) = true }.

Lemma pstart_inv entries f : Forall measured entries -> holds f entries -> pinv 0 (pstart entries f).
Proof. intros Hm Hh. split; cbn; try done; [by apply Forall_singleton|by exists entries]. Qed.

(** A commit moves the file to its target or leaves it. *)
Lemma commit_moves faults w d target gen trace f err :
  pinv d w -> d <= gen <= st_writeGen (pw_store w) -> pw_versions w !! Z.to_nat gen = Some target ->
  commit faults target (pw_files w) = (trace, f, err) ->
  exists d', d <= d' <= gen /\ (err = None -> d' = gen) /\ exists v, pw_versions w !! Z.to_nat d' = Some v /\ holds f v.
Proof.
  intros Hinv Hd Ht (_&Hf&Hnew&_)%commit_spec.
  assert (forall text, contentsOf target = inr text -> fs_history f = Some text -> holds f target) as Hh.
  { intros text H1 H2. unfold holds. by rewrite H2. }
  destruct Hf as [Hold|(text&H1&H2)].
  - destruct err as [e|].
    + destruct (pv_disk _ _ Hinv) as (v&Hv&Hvh). exists d. split; [lia|]. split; [done|]. exists v. split; [done|].
      unfold holds in *. by rewrite Hold.
    + destruct (Hnew eq_refl) as (text&H1&H2). exists gen. split; [lia|]. split; [done|]. exists target. eauto.
  - exists gen. split; [lia|]. split; [done|]. exists target. eauto.
Qed.

#[local] Ltac pv := unfold inFlight, settled in *; cbn in *; try done; try lia; try tauto.

Lemma mutate_inv d w next :
  pinv d w -> st_closed (pw_store w) = false -> Forall measured next ->
  pinv d (mkPWorld (install (pw_store w) next) (pw_worker w) (pw_closer w) (pw_files w) (pw_versions w ++ [next])).
Proof.
  intros [I1 I2 I3 [I4 I4'] I5 I6 I7 I8 I9 I10 I11] Hc Hm. destruct w as [s wk cl f vs]. cbn in *.
  assert (forall g v, 0 <= g -> vs !! Z.to_nat g = Some v -> (vs ++ [next]) !! Z.to_nat g = Some v) as Hl.
  { intros g v Hg Hv. by rewrite lookup_app_l by (by eapply lookup_lt_Some). }
  split; cbn; auto.
  - rewrite zlen_app. change (zlen [next]) with 1. lia.
  - apply list_lookup_middle. unfold zlen in I1. lia.
  - apply Forall_app. split; [done|]. by apply Forall_singleton.
  - lia.
  - destruct I5 as (v&Hv&?). exists v. split; [apply Hl; [lia|done]|done].
  - destruct wk; pv; [|naive_solver lia|naive_solver lia]. destruct I8 as [H1 H2]. split; [lia|]. apply Hl; [lia|done].
  - destruct cl; pv; congruence.
Qed.

#[local] Ltac not_closing := match goal with cl : closer, I : match ?cl with COpen => _ | _ => _ end |- match ?cl with COpen => _ | _ => _ end =>
  destruct cl; cbn in *; try done; by destruct I end.

Lemma worker_inv d w w' :
  pinv d w -> pstep w w' -> pw_closer w' = pw_closer w -> pw_versions w' = pw_versions w -> exists d', d <= d' /\ pinv d' w'.
Proof.
  intros Hinv Hs. pose proof Hinv as [I1 I2 I3 [I4 I4'] I5 I6 I7 I8 I9 I10 I11].
  destruct Hs as [w next Hc Hm|w Hw Hc|w Hw Hc Hd|w Hw Hc Hd|w Hw Hk|w Hw Hk|w target gen faults trace f err Hw Hcm
    |w gen err Hw|w gen err Hw|w Hw|w Hc|w Hc|w Hc Hw|w target faults trace f err Hc Hcm|w err Hc|w Hc]; cbn; intros Ecl Evs.
  - exfalso. apply (f_equal length) in Evs. rewrite length_app in Evs. cbn in Evs. lia.
  - exists d. split; [lia|]. destruct w as [s wk cl f vs]. cbn in *. subst wk. split; pv. not_closing.
  - exists d. split; [lia|]. destruct w as [s wk cl f vs]. cbn in *. subst wk. split; pv; [|not_closing]. split; [lia|done].
  - exists d. split; [lia|]. destruct w as [s wk cl f vs]. cbn in *. subst wk. split; pv; [not_closing|congruence].
  - exists d. split; [lia|]. destruct w as [s wk cl f vs]. cbn in *. subst wk. split; pv. not_closing.
  - exists d. split; [lia|]. destruct w as [s wk cl f vs]. cbn in *. subst wk. split; pv. not_closing.
  - rewrite Hw in I8. destruct I8 as [Hfl Ht]. unfold inFlight in Hfl.
    destruct (commit_moves faults w d target gen trace f err Hinv ltac:(lia) Ht Hcm) as (d'&Hd'&He&Hv).
    exists d'. split; [lia|]. destruct w as [s wk cl f0 vs]. cbn in *. subst wk. split; pv; try not_closing; intuition (try lia; auto; try congruence).
  - exists d. split; [lia|]. destruct w as [s wk cl f vs]. cbn in *. subst wk.
    destruct err as [e|]; split; pv; try not_closing; destruct (st_lastErr s); intuition (try lia; auto; try congruence).
  - exists d. split; [lia|]. destruct w as [s wk cl f vs]. cbn in *. subst wk. unfold finish.
    destruct I8 as ((G1&G2&G3)&G4&G5).
    destruct err as [e|]; cbn [st_workerGen set_dirty]; destruct (Z.ltb_spec (st_workerGen s) gen) as [Hlt|Hge]; split; pv; try not_closing; intuition (try lia; auto; try congruence).
  - exists d. split; [lia|]. destruct w as [s wk cl f vs]. cbn in *. subst wk. split; pv. not_closing.
  - destruct w as [s wk cl f vs]. cbn in *. congruence.
  - destruct w as [s wk cl f vs]. cbn in *. congruence.
  - destruct w as [s wk cl f vs]. cbn in *. subst cl. by destruct (st_dirty s).
  - destruct w as [s wk cl f0 vs]. cbn in *. congruence.
  - destruct w as [s wk cl f vs]. cbn in *. congruence.
  - destruct w as [s wk cl f vs]. cbn in *. congruence.
Qed.

Lemma pstep_inv d w w' : pinv d w -> pstep w w' -> exists d', d <= d' /\ pinv d' w'.
Proof.
  intros Hinv Hs. pose proof Hs as Hstep. pose proof Hinv as [I1 I2 I3 [I4 I4'] I5 I6 I7 I8 I9 I10 I11].
  destruct Hs as [w next Hc Hm|w Hw Hc|w Hw Hc Hd|w Hw Hc Hd|w Hw Hk|w Hw Hk|w target gen faults trace f err Hw Hcm
    |w gen err Hw|w gen err Hw|w Hw|w Hc|w Hc|w Hc Hw|w target faults trace f err Hc Hcm|w err Hc|w Hc];
    try (by eapply worker_inv).
  - exists d. split; [lia|]. by apply mutate_inv.
  - exists d. split; [lia|]. destruct w as [s wk cl f vs]. cbn in *. subst cl. split; pv; destruct wk; pv; intuition (auto; congruence).
  - exists d. split; [lia|]. destruct w as [s wk cl f vs]. cbn in *. subst cl. split; pv.
  - exists d. split; [lia|]. destruct w as [s wk cl f vs]. cbn in *. subst cl wk.
    destruct (st_dirty s) eqn:Hd; split; pv; intuition (auto; congruence).
  - rewrite Hc in I9. destruct I9 as (Hw&->&Hdirty).
    destruct (commit_moves faults w d (st_entries (pw_store w)) (st_writeGen (pw_store w)) trace f err Hinv ltac:(lia) I2 Hcm) as (d'&Hd'&He&Hv).
    exists d'. split; [lia|]. destruct w as [s wk cl f0 vs]. cbn in *. subst wk cl. split; pv; intuition (try lia; auto; try congruence).
  - exists d. split; [lia|]. destruct w as [s wk cl f vs]. cbn in *. subst cl. destruct I9 as (->&He&Hdirty).
    destruct err as [e|]; split; pv; destruct (st_lastErr s); intuition (try lia; auto; try congruence).
  - exists d. split; [lia|]. destruct w as [s wk cl f vs]. cbn in *. subst cl. split; pv.
Qed.

(** ** Progress *)

(** Without faults a commit of measured entries succeeds. *)
Lemma commit_succeeds target f :
  Forall measured target -> exists trace f', commit (fun _ => None) target f = (trace, f', None).
Proof.
  intros Hm. unfold commit, contentsOf. destruct (documentBytes_encode target Hm) as (text&->&_). by do 2 eexists.
Qed.

(** What a caller of the store can tell apart. *)
Definition same_calls (w w' : pworld) : Prop :=
  pw_closer w' = pw_closer w /\ pw_versions w' = pw_versions w /\ st_closed (pw_store w') = st_closed (pw_store w).

(** The worker alone gets from [w] to [w']. *)
Definition worksTo (w w' : pworld) : Prop := rtc pstep w w' /\ same_calls w w'.

Lemma worksTo_step w w1 w' : pstep w w1 -> same_calls w w1 -> worksTo w1 w' -> worksTo w w'.
Proof.
  intros Hs (H1&H2&H3) [Hr (H4&H5&H6)]. split; [by eapply rtc_l|]. unfold same_calls. by rewrite H4, H5, H6.
Qed.

Lemma worksTo_refl w : worksTo w w.
Proof. by split; [apply rtc_refl|]. Qed.

Lemma report_closed err s : st_closed (report err s) = st_closed s.
Proof. by destruct err. Qed.

Lemma finish_closed gen err s : st_closed (finish gen err s) = st_closed s.
Proof. unfold finish. destruct err; cbn; by destruct (_ <? _). Qed.

(** A commit that is under way ends, and the worker is back at the top. *)
Lemma finishes w gen err : pw_worker w = PFinish gen err -> exists w', worksTo w w' /\ pw_worker w' = PLoop.
Proof.
  intros Hw. pose proof (ps_finish w gen err Hw) as Hs.
  assert (same_calls w (with_worker (match err with Some _ => PRetry | None => PLoop end) (with_store (finish gen err (pw_store w)) w))) as Hc
    by (split_and!; [done|done|apply finish_closed]).
  destruct err as [e|].
  - eexists. split; [eapply worksTo_step; [exact Hs|exact Hc|]|].
    + eapply worksTo_step; [by apply ps_retry|by split_and!|apply worksTo_refl].
    + done.
  - eexists. split; [eapply worksTo_step; [exact Hs|exact Hc|apply worksTo_refl]|done].
Qed.

Lemma reports w gen err : pw_worker w = PReport gen err -> exists w', worksTo w w' /\ pw_worker w' = PLoop.
Proof.
  intros Hw. destruct (finishes (with_worker (PFinish gen err) (with_store (report err (pw_store w)) w)) gen err eq_refl) as (w'&Hr&Hl).
  exists w'. split; [|done]. eapply worksTo_step; [by apply ps_report| |exact Hr]. split_and!; [done|done|apply report_closed].
Qed.

Lemma to_loop d w :
  pinv d w -> pw_worker w <> PExit ->
  (pw_worker w = PIdle -> st_dirty (pw_store w) = true \/ closingSignalled (pw_closer w) = true) ->
  exists w', worksTo w w' /\ pw_worker w' = PLoop.
Proof.
  intros Hinv Hne Hidle. destruct (pw_worker w) as [|target gen|gen err|gen err| | |] eqn:Hw; [| | | | | |done].
  - exists w. split; [apply worksTo_refl|done].
  - destruct (commit (fun _ => None) target (pw_files w)) as [[trace f] err] eqn:Hc.
    destruct (reports (with_worker (PReport gen err) (with_files f w)) gen err eq_refl) as (w'&Hr&Hl).
    exists w'. split; [|done]. eapply worksTo_step; [by eapply ps_commit|by split_and!|exact Hr].
  - by eapply reports.
  - by eapply finishes.
  - eexists. split; [eapply worksTo_step; [by apply ps_retry|by split_and!|apply worksTo_refl]|done].
  - destruct (closingSignalled (pw_closer w)) eqn:Hcs.
    + eexists. split; [eapply worksTo_step; [by apply ps_wake_closing|by split_and!|apply worksTo_refl]|done].
    + destruct (Hidle eq_refl) as [Hd|]; [|done]. destruct (pv_idle _ _ Hinv Hw Hd) as [Hk|]; [|congruence].
      eexists. split; [eapply worksTo_step; [by apply ps_wake|by split_and!|apply worksTo_refl]|done].
Qed.

Lemma worksTo_inv d w w' : pinv d w -> worksTo w w' -> exists d', pinv d' w'.
Proof.
  intros Hinv [Hr _]. revert d Hinv. induction Hr as [w|w w1 w' Hs _ IH]; intros d Hinv; [by exists d|].
  destruct (pstep_inv d w w1 Hinv Hs) as (d1&_&Hi1). by eapply IH.
Qed.

(** From the top of its loop the worker catches up. *)
Lemma catches_up d w :
  pinv d w -> pw_worker w = PLoop -> st_closed (pw_store w) = false ->
  exists w', worksTo w w' /\ flushReturns w' None.
Proof.
  intros Hinv Hw Hc. destruct (st_dirty (pw_store w)) eqn:Hd.
  2:{ exists w. split; [apply worksTo_refl|]. pose proof (pv_worker _ _ Hinv) as Hs. rewrite Hw in Hs. destruct (Hs Hd) as (H1&H2&H3).
      split; [done|]. left. split; [done|lia]. }
  set (target := st_entries (pw_store w)). set (gen := st_writeGen (pw_store w)).
  assert (Forall measured target) as Hm.
  { eapply (Forall_lookup_1 _ (pw_versions w)); [apply (pv_measured _ _ Hinv)|apply (pv_now _ _ Hinv)]. }
  destruct (commit_succeeds target (pw_files w) Hm) as (trace&f&Hcm).
  set (w1 := with_worker (PCommit target gen) (with_store (set_dirty false (pw_store w)) w)).
  set (w2 := with_worker (PReport gen None) (with_files f w1)).
  set (w3 := with_worker (PFinish gen None) (with_store (report None (pw_store w2)) w2)).
  set (w4 := with_worker PLoop (with_store (finish gen None (pw_store w3)) w3)).
  exists w4. split.
  - eapply worksTo_step; [by apply (ps_take w)|by split_and!|]. fold w1.
    eapply worksTo_step; [by apply (ps_commit w1 target gen (fun _ => None) trace f None)|by split_and!|]. fold w2.
    eapply worksTo_step; [by apply (ps_report w2 gen None)|by split_and!|]. fold w3.
    eapply worksTo_step; [by apply (ps_finish w3 gen None)| |apply worksTo_refl]. split_and!; [done|done|apply finish_closed].
  - split; [cbn; unfold finish; by destruct (_ <? _)|]. left. cbn. rewrite finish_closed. split; [done|].
    unfold finish. cbn [st_workerGen clearErr report set_dirty]. destruct (Z.ltb_spec (st_workerGen (pw_store w)) gen); cbn; [done|]. subst gen. lia.
Qed.

#[local] Instance worker_exit_dec w : Decision (pw_worker w = PExit).
Proof. destruct (pw_worker w); (by left) || (by right). Defined.

#[local] Instance worker_idle_dec w : Decision (pw_worker w = PIdle).
Proof. destruct (pw_worker w); (by left) || (by right). Defined.

(** [Close] ends once the worker is gone; [err] is what it returns. *)
Lemma close_commits w :
  (exists target, pw_closer w = CCommit target /\ Forall measured target) ->
  exists w', rtc pstep w w' /\ closeReturns w' None.
Proof.
  intros (target&Hc&Hm). destruct (commit_succeeds target (pw_files w) Hm) as (trace&f&Hcm).
  set (w1 := with_closer (CReport None) (with_files f w)).
  set (w2 := with_closer CFinish (with_store (report None (pw_store w1)) w1)).
  exists (with_closer CDone w2). split; [|done].
  eapply rtc_l; [by eapply (ps_close_commit w target (fun _ => None) trace f None)|]. fold w1.
  eapply rtc_l; [by apply (ps_close_report w1 None)|]. fold w2. apply rtc_once. by apply ps_close_done.
Qed.

Lemma close_stops d w :
  pinv d w -> pw_closer w = CStopping -> exists w', rtc pstep w w' /\ closeReturns w' None.
Proof.
  intros Hinv Hc.
  assert (exists d1 w1, rtc pstep w w1 /\ pinv d1 w1 /\ pw_closer w1 = CStopping /\ pw_worker w1 = PExit) as (d1&w1&Hr&Hi1&Hc1&Hw1).
  { assert (st_closed (pw_store w) = true) as Hcl by (rewrite (pv_closed _ _ Hinv); by rewrite Hc).
    destruct (decide (pw_worker w = PExit)) as [Hx|Hx]; [by exists d, w; split; [apply rtc_refl|]|].
    destruct (to_loop d w Hinv Hx) as (w1&Hw1&Hl1); [intros _; right; by rewrite Hc|].
    destruct (worksTo_inv d w w1 Hinv Hw1) as [d1 Hi1]. destruct Hw1 as [Hr (E1&E2&E3)].
    assert (pstep w1 (with_worker PExit w1)) as Hs by (apply ps_exit; [done|congruence]).
    destruct (pstep_inv d1 w1 _ Hi1 Hs) as (d2&_&Hi2). exists d2, (with_worker PExit w1).
    split; [by eapply rtc_r|]. split; [done|]. cbn. by rewrite E1. }
  pose proof (ps_pending w1 Hc1 Hw1) as Hs. destruct (st_dirty (pw_store w1)) eqn:Hd.
  - destruct (close_commits (with_closer (CCommit (st_entries (pw_store w1))) w1)) as (w'&Hr'&Hret).
    { eexists. split; [done|]. eapply (Forall_lookup_1 _ (pw_versions w1)); [apply (pv_measured _ _ Hi1)|apply (pv_now _ _ Hi1)]. }
    exists w'. split; [|done]. etrans; [exact Hr|]. by eapply rtc_l.
  - exists (with_closer CDone (with_closer CFinish w1)). split.
    + etrans; [exact Hr|]. eapply rtc_l; [exact Hs|]. apply rtc_once. by apply ps_close_done.
    + split; [done|]. pose proof (pv_worker _ _ Hi1) as Hset. rewrite Hw1 in Hset. destruct (Hset Hd) as (_&_&He). cbn. by rewrite He.
Qed.

Lemma close_ends d w :
  pinv d w -> pw_closer w = COpen -> exists w', rtc pstep w w' /\ closeReturns w' None.
Proof.
  intros Hinv Hc. set (w1 := with_closer CClosing (with_store (set_closed true (pw_store w)) w)).
  assert (pstep w w1) as H1 by (by apply ps_close). assert (pstep w1 (with_closer CStopping w1)) as H2 by (by apply ps_signal).
  destruct (pstep_inv d w w1 Hinv H1) as (d1&_&Hi1). destruct (pstep_inv d1 w1 _ Hi1 H2) as (d2&_&Hi2).
  destruct (close_stops d2 _ Hi2 eq_refl) as (w'&Hr&Hret). exists w'. split; [|done]. do 2 (eapply rtc_l; [done|]). done.
Qed.

(** An open store can be flushed by its worker alone. *)
Lemma flushes d w : pinv d w -> pw_closer w = COpen -> exists w', worksTo w w' /\ flushReturns w' None.
Proof.
  intros Hinv Hc.
  assert (st_closed (pw_store w) = false) as Hcl by (rewrite (pv_closed _ _ Hinv); by rewrite Hc).
  assert (pw_worker w <> PExit) as Hne by (intros Hx; pose proof (pv_exit _ _ Hinv Hx); congruence).
  destruct (st_dirty (pw_store w)) eqn:Hd.
  - destruct (to_loop d w Hinv Hne) as (w1&Hw1&Hl1); [by left|]. destruct (worksTo_inv d w w1 Hinv Hw1) as [d1 Hi1].
    destruct Hw1 as [Hr (E1&E2&E3)]. destruct (catches_up d1 w1 Hi1 Hl1) as (w'&[Hr' (F1&F2&F3)]&Hret); [congruence|].
    exists w'. split; [|done]. split; [by etrans|]. split_and!; congruence.
  - destruct (decide (pw_worker w = PIdle)) as [Hi|Hi].
    + exists w. split; [apply worksTo_refl|]. pose proof (pv_worker _ _ Hinv) as Hset. rewrite Hi in Hset.
      destruct (Hset Hd) as (?&?&?). split; [done|]. left. split; [done|lia].
    + destruct (to_loop d w Hinv Hne) as (w1&Hw1&Hl1); [done|]. destruct (worksTo_inv d w w1 Hinv Hw1) as [d1 Hi1].
      destruct Hw1 as [Hr (E1&E2&E3)]. destruct (catches_up d1 w1 Hi1 Hl1) as (w'&[Hr' (F1&F2&F3)]&Hret); [congruence|].
      exists w'. split; [|done]. split; [by etrans|]. split_and!; congruence.
Qed.

(** A [Close] that was begun ends. *)
Lemma begun_close_ends d w : pinv d w -> pw_closer w <> COpen -> exists w', rtc pstep w w' /\ pw_closer w' = CDone.
Proof.
  intros Hinv Hn. destruct (pw_closer w) as [| | |target|err| |] eqn:Hc; [done| | | | | |by exists w; split; [apply rtc_refl|]].
  - pose proof (ps_signal w Hc) as Hs. destruct (pstep_inv d w _ Hinv Hs) as (d1&_&Hi1).
    destruct (close_stops d1 _ Hi1 eq_refl) as (w'&Hr&Hret&_). exists w'. split; [by eapply rtc_l|done].
  - destruct (close_stops d w Hinv Hc) as (w'&Hr&Hret&_). by exists w'.
  - destruct (close_commits w) as (w'&Hr&Hret&_); [|by exists w']. exists target. split; [done|].
    pose proof (pv_closer _ _ Hinv) as Ht. rewrite Hc in Ht. destruct Ht as (_&->&_).
    eapply (Forall_lookup_1 _ (pw_versions w)); [apply (pv_measured _ _ Hinv)|apply (pv_now _ _ Hinv)].
  - eexists. split; [eapply rtc_l; [by apply (ps_close_report w err)|]; apply rtc_once; by apply ps_close_done|done].
  - eexists. split; [apply rtc_once; by apply ps_close_done|done].
Qed.

(** After [Close], unless it failed, the file is the document of the entries. *)
Lemma closed_durable d w :
  pinv d w -> pw_closer w = CDone -> st_lastErr (pw_store w) = None -> holds (pw_files w) (st_entries (pw_store w)).
Proof.
  intros Hinv Hc He. pose proof (pv_closer _ _ Hinv) as Hcl. rewrite Hc in Hcl. destruct Hcl as [_ Hd]. specialize (Hd He) as ->.
  destruct (pv_disk _ _ Hinv) as (v&Hv&Hh). rewrite (pv_now _ _ Hinv) in Hv. by injection Hv as ->.
Qed.

(** ** Claims *)

Section PersistClaims.
Context (entries : list retained) (f : files).
Hypothesis Hmeasured : Forall measured entries.
Hypothesis Hholds : holds f entries.

Lemma preachable_inv w : preachable entries f w -> exists d, pinv d w.
Proof.
  unfold preachable. intros Hr. pattern w. eapply rtc_ind_r; [| |exact Hr]; clear w Hr.
  - exists 0. by apply pstart_inv.
  - intros w w' _ Hs [d Hd]. destruct (pstep_inv d w w' Hd Hs) as (d'&_&Hd'). by exists d'.
Qed.

(** C16: when [Flush] or [Close] returns no error, the file on disk is the
    document of the entries the store holds, whatever mutations, failed commits
    and retries came before. *)
Theorem flush_durable w :
  preachable entries f w -> flushReturns w None \/ closeReturns w None ->
  holds (pw_files w) (st_entries (pw_store w)).
Proof.
  intros [d Hinv]%preachable_inv Hret. pose proof (pv_range _ _ Hinv) as [Hd Hg].
  assert (d = st_writeGen (pw_store w)) as ->.
  { assert (pw_closer w = CDone -> st_lastErr (pw_store w) = None -> d = st_writeGen (pw_store w)) as Hdone.
    { intros Hc He. pose proof (pv_closer _ _ Hinv) as Hcl. rewrite Hc in Hcl. by apply Hcl. }
    destruct Hret as [[He [[_ Hgen]|Hc]]|[Hc He]]; [|by apply Hdone|by apply Hdone].
    pose proof (pv_ok _ _ Hinv (eq_sym He)). lia. }
  destruct (pv_disk _ _ Hinv) as (v&Hv&Hh). rewrite (pv_now _ _ Hinv) in Hv. by injection Hv as ->.
Qed.


(** C26: persistence does not get stuck: from every reachable state of an open
    store the worker alone gets to where [Flush] returns without an error, and
    a [Close] returns without one, as soon as commits succeed again; failed
    commits are retried and no wake-up is lost. *)
Theorem persistence_completes w :
  preachable entries f w -> pw_closer w = COpen ->
  (exists w', worksTo w w' /\ flushReturns w' None) /\ (exists w', rtc pstep w w' /\ closeReturns w' None).
Proof.
  intros [d Hinv]%preachable_inv Hc. split; [by eapply flushes|by eapply close_ends].
Qed.

End PersistClaims.
