(* ===== verification/Reopen.v ===== *)
(** * internal/history: opening the store

    [decodeDocument] of [schema.go], [loadImage] of [image.go] and the decisions
    of [OpenAt] of [store.go].  The image directory is a parameter
    ([Sidecars]): the contents of its private regular files and what a stat
    call says of them.  [OpenAt] is given the outcome of reading and parsing
    the file, and of the calls it makes afterwards. *)
From stdpp Require Import gmap strings list.
From Stdlib Require Import ZArith Lia Ascii Strings.Byte.
From S2P Require Import Prelude GoLib Protocol Frame Notify History.
Local Open Scope string_scope.
Local Open Scope list_scope.
Local Open Scope Z_scope.

(** ** encoding/hex *)

Definition hexValue (c : ascii) : option Z :=
  let v := byteVal c in
  if (48 <=? v) && (v <=? 57) then Some (v - 48)
  else if (97 <=? v) && (v <=? 102) then Some (v - 87)
  else if (65 <=? v) && (v <=? 70) then Some (v - 55)
  else None.

(** [hex.DecodeString]; [None] for its errors. *)
Fixpoint hexDecode (s : string) : option (list Byte.byte) :=
  match s with
  | EmptyString => Some []
  | String a (String b s) =>
      h ← hexValue a; l ← hexValue b; rest ← hexDecode s; Some (byteOf (16 * h + l) :: rest)
  | String _ EmptyString => None
  end.

Lemma hexValue_digit n : 0 <= n < 16 -> hexValue (hexDigit n) = Some n.
Proof.
  intros Hn. assert (n ∈ seqZ 0 16) as Hin by (apply elem_of_seqZ; lia).
  revert n Hin Hn. apply (Forall_forall (fun n => 0 <= n < 16 -> hexValue (hexDigit n) = Some n)).
  by repeat constructor.
Qed.

Lemma hexDecode_hexEncode l : hexDecode (hexEncode l) = Some l.
Proof.
  induction l as [|b l IH]; [done|]. cbn [hexEncode hexDecode]. pose proof (byteZ_range b) as Hb. unfold byteZ in Hb.
  rewrite !hexValue_digit by (first [apply Z.mod_pos_bound; lia|split; [apply Z.div_pos; lia|apply Z.div_lt_upper_bound; lia]]).
  cbn [mbind option_bind]. rewrite IH. cbn. f_equal. f_equal. rewrite <-Z.div_mod by lia. apply byteOf_byteZ.
Qed.

(** ** image.go *)

(** The files of the image directory: [privateRegularFileInfo] and
    [os.ReadFile] by name. *)
Class Sidecars := {
  sidecarInfo : string -> error + FileInfo;
  sidecarData : string -> error + list Byte.byte }.

Section Opening.
Context `{Png, Sha256, Sidecars}.

Definition readPrivateRegularFile (name : string) (limit : Z) : error + list Byte.byte :=
  match sidecarInfo name with
  | inl e => inl e
  | inr info => if limit <? fi_Size info then inl ErrFileTooLarge else sidecarData name
  end.

Definition badReference (r : diskImage) : bool :=
  negb (slen (di_SHA256 r) =? 64) || (di_Width r =? 0) || (di_Height r =? 0) ||
  (historyImageLongEdge <? di_Width r) || (historyImageLongEdge <? di_Height r).

(** The checks of a sidecar's contents against its reference. *)
Definition checkSidecar (r : diskImage) (digest contents : list Byte.byte) : error + Image :=
  if negb (bool_decide (sha256_Sum256 contents = digest)) then inl (ErrNew "image digest mismatch")
  else
    let result := mkImage "image/png" (di_Width r) (di_Height r) contents in
    match png_Decode contents with
    | inl e => inl (ErrWrap "decode sidecar: %w" e)
    | inr decoded =>
        if negb (dc_Dx decoded =? di_Width r) || negb (dc_Dy decoded =? di_Height r)
        then inl (ErrNew "sidecar dimensions do not match reference")
        else match Image_Validate result with Some e => inl e | None => inr result end
    end.

Definition loadImage (reference : option diskImage) : error + (option Image * option imageMeta) :=
  match reference with
  | None => inr (None, None)
  | Some r =>
      if badReference r then inl (ErrNew "invalid image reference")
      else match hexDecode (di_SHA256 r) with
      | None => inl (ErrNew "invalid image digest")
      | Some digest =>
          if negb (String.eqb (hexEncode digest) (di_SHA256 r)) then inl (ErrNew "invalid image digest")
          else
            let name := String.append (di_SHA256 r) ".png" in
            match readPrivateRegularFile name MaxWireImageBytes with
            | inl e => inl e
            | inr contents =>
                match checkSidecar r digest contents with
                | inl e => inl e
                | inr result =>
                    match sidecarInfo name with
                    | inl e => inl e
                    | inr info =>
                        inr (Some result, Some (mkImageMeta (di_SHA256 r) (di_Width r) (di_Height r) (Some info)))
                    end
                end
            end
      end
  end.

(** ** schema.go *)

(** A broken sidecar costs only that entry's image. *)
Definition imageOf (entry : diskEntry) : option Image * option imageMeta :=
  match loadImage (de_Image entry) with inl _ => (None, None) | inr loaded => loaded end.

Definition entryOf (entry : diskEntry) : HistoryEntry :=
  mkHistoryEntry (de_ID entry) (de_Seen entry) (de_AppName entry) (de_AppIcon entry) (de_DesktopEntry entry)
    (de_Summary entry) (de_Body entry) (de_Urgency entry) (de_Category entry) (de_Timestamp entry) (imageOf entry).1.

Fixpoint decodeEntries (ids : gset Z) (l : list diskEntry) : error + list retained :=
  match l with
  | [] => inr []
  | entry :: l =>
      match HistoryEntry_Validate (entryOf entry) with
      | Some e => inl (ErrWrap "history: entry %d: %w" e)
      | None =>
          if decide (de_ID entry ∈ ids) then inl (ErrNew "history: duplicate ID %d")
          else match newRetained (entryOf entry) (imageOf entry).2 with
          | inl e => inl e
          | inr r =>
              match decodeEntries ({[de_ID entry]} ∪ ids) l with
              | inl e => inl e
              | inr rest => inr (r :: rest)
              end
          end
      end
  end.

Definition decodeDocument (doc : document) : error + list retained :=
  if negb (dc_Version doc =? schemaVersion) then inl (ErrNew "history: unsupported schema version %d")
  else if MaxHistoryEntries <? zlen (dc_Entries doc) then inl (ErrNew "history: too many entries")
  else decodeEntries ∅ (dc_Entries doc).

(** ** store.go *)

Definition opened (entries : list retained) : Store := mkStore entries false 0 0 false None false.

(** A file that cannot be used is moved aside. *)
Definition unusable (quarantined : option error) (err : error) : error + Store :=
  match quarantined with
  | Some e => inl (ErrJoin [ErrWrap "history: invalid committed file: %w" err; e])
  | None => inr (opened [])
  end.

(** Entries past their retention are dropped, and the file written again. *)
Definition retained_or_clean (entries : list retained) (now : Time) (committed cleaned : option error) : error + Store :=
  let kept := retain entries now in
  if negb (zlen kept =? zlen entries) then
    match committed with Some e => inl e | None => inr (opened kept) end
  else match cleaned with Some e => inl e | None => inr (opened entries) end.

Definition isFileTooLarge (e : error) : bool := match e with ErrFileTooLarge => true | _ => false end.

(** [OpenAt]: [read] is the outcome of reading the file and decoding its JSON,
    [quarantined], [committed] and [cleaned] those of the calls that follow. *)
Definition OpenAt (read : error + (error + document)) (now : Time) (quarantined committed cleaned : option error)
    : error + Store :=
  match read with
  | inl err =>
      if errors_Is isNotExist err then inr (opened [])
      else if negb (errors_Is isFileTooLarge err) then inl (ErrWrap "history: read: %w" err)
      else unusable quarantined err
  | inr (inl err) => unusable quarantined err
  | inr (inr doc) =>
      match decodeDocument doc with
      | inl err => unusable quarantined err
      | inr entries => retained_or_clean entries now committed cleaned
      end
  end.

End Opening.

(** ** What opening a store gives *)

Section OpeningFacts.
Context `{Png, Sha256Laws, Sidecars}.

Lemma decodeEntries_ok ids l entries :
  decodeEntries ids l = inr entries ->
  map entryID entries = map de_ID l /\ NoDup (map entryID entries) /\ Forall (fun id => id ∉ ids) (map entryID entries) /\
  Forall (fun e => HistoryEntry_Validate (re_entry e) = None) entries /\ Forall measured entries.
Proof.
  revert ids entries. induction l as [|entry l IH]; intros ids entries; cbn [decodeEntries].
  { intros [= <-]. split_and!; [done|apply NoDup_nil_2|constructor|constructor|constructor]. }
  destruct (HistoryEntry_Validate (entryOf entry)) eqn:Hv; [done|]. case_decide as Hid; [done|].
  destruct (newRetained (entryOf entry) (imageOf entry).2) as [e|r] eqn:Hn; [done|].
  destruct (decodeEntries ({[de_ID entry]} ∪ ids) l) as [e|rest] eqn:Hr; [done|]. intros [= <-].
  destruct (IH _ _ Hr) as (I1&I2&I3&I4&I5). apply newRetained_measured in Hn as (Hm&He&_).
  assert (entryID r = de_ID entry) as Hrid by (unfold entryID; by rewrite He).
  cbn [map]. rewrite Hrid, I1 in *. split_and!.
  - done.
  - apply NoDup_cons. split; [|done]. intros Hin. rewrite Forall_forall in I3. specialize (I3 _ Hin). set_solver.
  - constructor; [done|]. eapply Forall_impl; [exact I3|]. cbn. set_solver.
  - constructor; [by rewrite He|done].
  - by constructor.
Qed.

(** A store as it is when it was just opened, at [now]. *)
Record fresh_store (now : Time) (s : Store) : Prop := {
  fs_wf : store_wf s;
  fs_idle : st_dirty s = false /\ st_closed s = false /\ st_writeGen s = st_workerGen s /\ st_lastErr s = None;
  fs_recent : Forall (fun e => Before (h_Timestamp (re_entry e)) (AddTime now (- HistoryRetention)) = false) (st_entries s) }.

Lemma opened_empty now : fresh_store now (opened []).
Proof. split; [split; cbn; try done; constructor|done|constructor]. Qed.

Lemma unusable_fresh quarantined err now s : unusable quarantined err = inr s -> fresh_store now s.
Proof. unfold unusable. destruct quarantined; [done|]. intros [= <-]. apply opened_empty. Qed.

Lemma filter_length_all {A} (f : A -> bool) l : length (List.filter f l) = length l -> List.filter f l = l.
Proof.
  induction l as [|x l IH]; [done|]. cbn. pose proof (List.filter_length_le f l). destruct (f x); cbn; [intros [= ?]; by rewrite IH|lia].
Qed.

Lemma retained_fresh entries now committed cleaned s :
  store_wf (opened entries) -> retained_or_clean entries now committed cleaned = inr s -> fresh_store now s.
Proof.
  intros Hwf. unfold retained_or_clean.
  assert (fresh_store now (opened (retain entries now))) as Hf.
  { split; [|done|].
    - pose proof (store_wf_sub (opened entries) (retain entries now) Hwf (filter_sublist _ _)) as [? ? ? ? ?]. by split.
    - unfold retain. cbn. apply Forall_forall. intros e [_ He%negb_true_iff]%elem_of_list_filter_bool. done. }
  destruct (Z.eqb_spec (zlen (retain entries now)) (zlen entries)) as [Heq|Hne]; cbn [negb].
  - destruct cleaned; [done|]. intros [= <-]. assert (retain entries now = entries) as Hr.
    { apply filter_length_all. unfold zlen in Heq. unfold retain in Heq. lia. }
    by rewrite Hr in Hf.
  - destruct committed; [done|]. by intros [= <-].
Qed.

(** C34: whatever the history file holds, the store it opens as is well formed:
    at most as many entries as the limit, valid, with distinct ids and their
    sizes known, none past its retention, and nothing scheduled; this is what
    the owner's theorems ask of the store it starts with. *)
Theorem OpenAt_wf read now quarantined committed cleaned s :
  match read with inr (inr doc) => Forall is_u32 (map de_ID (dc_Entries doc)) | _ => True end ->
  OpenAt read now quarantined committed cleaned = inr s -> fresh_store now s.
Proof.
  intros Hids. unfold OpenAt. destruct read as [err|[err|doc]]; [|apply unusable_fresh|].
  { destruct (errors_Is _ err); [intros [= <-]; apply opened_empty|]. destruct (negb _); [done|apply unusable_fresh]. }
  destruct (decodeDocument doc) as [e|entries] eqn:Hd; [apply unusable_fresh|]. apply retained_fresh.
  unfold decodeDocument in Hd. destruct (negb _); [done|]. destruct (Z.ltb_spec MaxHistoryEntries (zlen (dc_Entries doc))) as [|Hle]; [done|].
  apply decodeEntries_ok in Hd as (Hm&Hn&_&Hv&Hme). split; unfold IDs, opened; cbn [st_entries]; try done.
  - apply (f_equal length) in Hm. rewrite !length_map in Hm. unfold zlen in *. lia.
  - by rewrite Hm.
Qed.

(** ** Round trip *)

(** The image of an entry is on disk under its digest. *)
Definition sidecar_ok (e : retained) : Prop :=
  match re_meta e, h_Image (re_entry e) with
  | None, None => True
  | Some m, Some image =>
      i_MediaType image = "image/png" /\ i_Width image = im_width m /\ i_Height image = im_height m /\
      im_digest m = hexEncode (sha256_Sum256 (i_Data image)) /\
      im_width m <= historyImageLongEdge /\ im_height m <= historyImageLongEdge /\
      (exists decoded, png_Decode (i_Data image) = inr decoded /\ dc_Dx decoded = im_width m /\ dc_Dy decoded = im_height m) /\
      (exists info, sidecarInfo (String.append (im_digest m) ".png") = inr info /\ fi_Size info <= MaxWireImageBytes) /\
      sidecarData (String.append (im_digest m) ".png") = inr (i_Data image)
  | _, _ => False
  end.

(** The same entry, but for what the store remembers about the file. *)
Definition same_retained (e e' : retained) : Prop :=
  re_entry e' = re_entry e /\ re_size e' = re_size e /\ imageReference (re_meta e') = imageReference (re_meta e).

Lemma loadImage_sidecar e :
  sidecar_ok e -> HistoryEntry_Validate (re_entry e) = None ->
  exists meta, loadImage (imageReference (re_meta e)) = inr (h_Image (re_entry e), meta) /\
    imageReference meta = imageReference (re_meta e).
Proof.
  unfold sidecar_ok. destruct (re_meta e) as [m|], (h_Image (re_entry e)) as [image|] eqn:Hi; try done; [|intros; by exists None].
  intros (M1&M2&M3&M4&M5&M6&(decoded&M7&M8&M9)&(info&M10&M11)&M12) Hv.
  unfold HistoryEntry_Validate in Hv. rewrite !firstErr_None, Hi in Hv. destruct Hv as (_&_&Hv). cbn [optImage_Validate] in Hv.
  assert (im_width m <> 0 /\ im_height m <> 0) as [Hw Hh].
  { revert Hv. unfold Image_Validate. rewrite !firstErr_None, !failIf_None, !orb_false_iff, !Z.eqb_neq. rewrite M2, M3. tauto. }
  set (meta := mkImageMeta (im_digest m) (im_width m) (im_height m) (Some info)). exists (Some meta). split; [|done].
  cbn [imageReference loadImage di_SHA256 di_Width di_Height].
  assert (badReference (mkDiskImage (im_digest m) (im_width m) (im_height m)) = false) as ->.
  { unfold badReference. cbn [di_SHA256 di_Width di_Height]. rewrite M4, slen_hexEncode, sha256_length.
    rewrite !(proj2 (Z.eqb_neq _ 0)), !(proj2 (Z.ltb_ge _ _)) by done. done. }
  rewrite M4 at 1. rewrite hexDecode_hexEncode. rewrite <-M4, String.eqb_refl. cbn [negb].
  unfold readPrivateRegularFile. rewrite M10, (proj2 (Z.ltb_ge _ _)), M12 by done.
  unfold checkSidecar. rewrite bool_decide_eq_true_2 by done. cbn [negb di_Width di_Height]. rewrite M7, M8, M9, !Z.eqb_refl. cbn [negb orb].
  assert (mkImage "image/png" (im_width m) (im_height m) (i_Data image) = image) as ->
    by (destruct image; cbn in *; congruence).
  by rewrite Hv.
Qed.

Lemma decodeEntries_encode l ids :
  Forall measured l -> Forall (fun e => HistoryEntry_Validate (re_entry e) = None) l -> Forall sidecar_ok l ->
  NoDup (map entryID l) -> Forall (fun id => id ∉ ids) (map entryID l) ->
  exists l', decodeEntries ids (map (fun e => diskEntryOf (re_entry e) (re_meta e)) l) = inr l' /\ Forall2 same_retained l l'.
Proof.
  intros Hm. revert ids. induction Hm as [|e l He _ IH]; intros ids Hv Hs Hn Hf; cbn [map decodeEntries].
  { exists []. split; [done|constructor]. }
  apply Forall_cons in Hv as [Hve Hv]. apply Forall_cons in Hs as [Hse Hs]. cbn [map] in Hn, Hf.
  apply NoDup_cons in Hn as [Hni Hn]. apply Forall_cons in Hf as [Hfe Hf].
  destruct (loadImage_sidecar e Hse Hve) as (meta&Hload&Href).
  set (d := diskEntryOf (re_entry e) (re_meta e)).
  assert (imageOf d = (h_Image (re_entry e), meta)) as Himg by (unfold imageOf; cbn [d diskEntryOf de_Image]; by rewrite Hload).
  assert (entryOf d = re_entry e) as Hent by (unfold entryOf; rewrite Himg; by destruct (re_entry e)).
  rewrite Hent, Himg, Hve. cbn [snd]. change (de_ID d) with (entryID e). rewrite decide_False by done.
  assert (newRetained (re_entry e) meta = inr (mkRetained (re_entry e) meta (re_size e))) as ->.
  { apply measured_json in He as (text&Hj&Hsz). unfold newRetained.
    replace (diskEntryOf (re_entry e) meta) with (diskEntryOf (re_entry e) (re_meta e)) by (unfold diskEntryOf; by rewrite Href).
    by rewrite Hj, Hsz. }
  destruct (IH ({[entryID e]} ∪ ids)) as (l'&->&Hl'); try done.
  { apply Forall_forall. intros id Hid. rewrite Forall_forall in Hf. specialize (Hf id Hid). set_solver. }
  eexists. split; [done|]. by constructor.
Qed.

(** A history that was committed opens as it was: decoding the document of
    a well-formed store whose sidecars are in place gives the same entries with
    the same images, in the same order and with the same sizes; only what is
    remembered about the sidecar files may differ. *)
Lemma reopen_roundtrip s :
  store_wf s -> Forall sidecar_ok (st_entries s) ->
  exists entries', decodeDocument (encodeDocument (st_entries s)) = inr entries' /\
    Forall2 same_retained (st_entries s) entries' /\ encodeDocument entries' = encodeDocument (st_entries s).
Proof.
  intros [Hn Hc Hv Hm _] Hs. unfold decodeDocument, encodeDocument. cbn [dc_Version dc_Entries]. rewrite Z.eqb_refl. cbn [negb].
  rewrite (proj2 (Z.ltb_ge _ _)) by (unfold zlen in *; by rewrite length_map).
  destruct (decodeEntries_encode (st_entries s) ∅ Hm Hv Hs Hn) as (l'&->&Hl').
  { apply Forall_forall. set_solver. }
  exists l'. split; [done|]. split; [done|]. f_equal. clear -Hl'. induction Hl' as [|e e' l l' (H1&_&H3) _ IH]; [done|].
  cbn [map]. rewrite IH. f_equal. unfold diskEntryOf. by rewrite H1, H3.
Qed.

End OpeningFacts.
