(* ===== verification/Sidecar.v ===== *)
(** * internal/history: the image sidecars

    [writeImage], [hashPrivateRegularFile], [sameSidecarInfo] and
    [cleanupImages] of [image.go], and the loop of [commit] that calls them,
    over a directory of files.  Another process may touch the directory while a
    sidecar is hashed and before it is linked; each attempt of [writeImage]
    takes what happens then, and the system calls may fail.

    The kernel's stat structure is the class [Kernel]. *)
From stdpp Require Import gmap strings list fin_maps.
From Stdlib Require Import ZArith Lia Ascii Strings.Byte.
From S2P Require Import Prelude GoLib Protocol Notify History Owner Persist Reopen.
Local Open Scope string_scope.
Local Open Scope list_scope.
Local Open Scope Z_scope.

(** ** The directory *)

(** A file: whether it is a regular file of mode 0600, what the kernel stamps
    it with (identity and times), and its bytes. *)
Record file := mkFile { f_private : bool; f_stamp : Z; f_data : list Byte.byte }.

#[global] Instance file_eq_dec : EqDecision file.
Proof. solve_decision. Defined.
#[global] Instance FileInfo_eq_dec : EqDecision FileInfo.
Proof. solve_decision. Defined.

Notation dir := (gmap string file).

Class Kernel := k_stat : Z -> list Byte.byte -> FileInfo.

(** The size is that of the file, and a file whose identity, size, modification
    time and change time are as they were has the bytes it had. *)
Class KernelLaws `{Kernel} := {
  k_size n data : fi_Size (k_stat n data) = zlen data;
  k_unchanged n a m b : k_stat n a = k_stat m b -> a = b }.

Definition sidecarName (digest : string) : string := String.append digest ".png".

(** [filepath.Ext] of a name without a separator: from the last dot on. *)
Fixpoint Ext (s : string) : string :=
  match s with
  | "" => ""
  | String c r => match Ext r with "" => if Ascii.eqb c "." then s else "" | e => e end
  end.

Inductive imageOp :=
  | ImgCreateTemp | ImgChmod | ImgWrite | ImgSync | ImgClose | ImgRename | ImgLink | ImgRemove | ImgSyncDirectory.

(** One attempt of [writeImage]: what another process does to the directory
    while the sidecar is hashed, the bytes read if the file changes under the
    reader, what it does before the link, the stamp of the new file, and the
    system calls that fail. *)
Record attempt := mkAttempt {
  at_during : dir -> dir;
  at_torn : list Byte.byte;
  at_before : dir -> dir;
  at_stamp : Z;
  at_faults : imageOp -> option error }.

(** An attempt nobody else interferes with. *)
Definition quiet (stamp : Z) (faults : imageOp -> option error) : attempt :=
  mkAttempt (fun d => d) [] (fun d => d) stamp faults.

Section Sidecar.
Context `{Kernel, Sha256}.

Definition fileInfo (f : file) : FileInfo := k_stat (f_stamp f) (f_data f).

Definition privateRegularFileInfo (d : dir) (name : string) : error + FileInfo :=
  match d !! name with
  | None => inl ErrNotExist
  | Some f => if f_private f then inr (fileInfo f) else inl (ErrNew "history: unsafe file %q")
  end.

(** [fileinfo_linux.go] *)
Definition sameFileChangeTime (a b : FileInfo) : bool := fi_Ctim a =? fi_Ctim b.

Definition sameSidecarInfo (verified : option FileInfo) (current : FileInfo) : bool :=
  match verified with
  | None => false
  | Some v => (fi_File v =? fi_File current) && (fi_Size v =? fi_Size current) &&
              (fi_ModTime v =? fi_ModTime current) && sameFileChangeTime v current
  end.

(** [d] is the directory when the file is opened, [d'] when it has been read. *)
Definition hashPrivateRegularFile (d d' : dir) (torn : list Byte.byte) (name : string) (limit : Z)
    : error + (list Byte.byte * FileInfo) :=
  match privateRegularFileInfo d name with
  | inl e => inl e
  | inr info =>
      if limit <? fi_Size info then inl (ErrWrap "%w: %q exceeds %d bytes" ErrFileTooLarge)
      else match d !! name with
      | None => inl ErrNotExist
      | Some opened =>
          if negb (f_private opened) || negb (fi_File info =? fi_File (fileInfo opened))
          then inl (ErrNew "history: unsafe file %q")
          else
            (* the open file is the one at the name, unless that was replaced *)
            let current := match d' !! name with
                           | Some f => if fi_File (fileInfo f) =? fi_File (fileInfo opened) then f else opened
                           | None => opened end in
            let read := if decide (fileInfo current = fileInfo opened) then f_data opened else torn in
            if limit <? zlen read then inl (ErrWrap "%w: %q exceeds %d bytes" ErrFileTooLarge)
            else match privateRegularFileInfo d' name with
            | inl e => inl e
            | inr pathInfo =>
                let currentInfo := fileInfo current in
                if negb (sameSidecarInfo (Some (fileInfo opened)) currentInfo) || negb (sameSidecarInfo (Some currentInfo) pathInfo)
                then inl (ErrNew "history: image sidecar changed during verification: %q")
                else inr (sha256_Sum256 read, pathInfo)
            end
      end
  end.

Definition set_fileInfo (info : FileInfo) (m : imageMeta) : imageMeta :=
  mkImageMeta (im_digest m) (im_width m) (im_height m) (Some info).

(** What [writeImage] finds under the name. *)
Inductive found :=
  | Trusted                       (* the verified file, unchanged *)
  | Verified (info : FileInfo)    (* changed, with the right digest *)
  | Missing
  | Foreign                       (* to be replaced *)
  | Failed (err : error).

Definition inspect (a : attempt) (name : string) (m : imageMeta) (d : dir) : found :=
  match privateRegularFileInfo d name with
  | inr info =>
      if sameSidecarInfo (im_fileInfo m) info then Trusted
      else match hashPrivateRegularFile d (at_during a d) (at_torn a) name MaxWireImageBytes with
      | inr (digest, verifiedInfo) =>
          if String.eqb (hexEncode digest) (im_digest m) then Verified verifiedInfo else Foreign
      | inl e =>
          if errors_Is isFileTooLarge e then Foreign
          else if negb (errors_Is isNotExist e) then Failed (ErrWrap "history: inspect image sidecar: %w" e)
          else Missing
      end
  | inl e => if negb (errors_Is isNotExist e) then Failed (ErrWrap "history: inspect image sidecar: %w" e) else Missing
  end.

Definition opText (op : imageOp) : string :=
  match op with
  | ImgCreateTemp => "history: create image temporary file: %w"
  | ImgChmod => "history: secure image temporary file: %w"
  | ImgWrite => "history: write image temporary file: %w"
  | ImgSync => "history: sync image temporary file: %w"
  | ImgClose => "history: close image temporary file: %w"
  | ImgRename => "history: restore image sidecar: %w"
  | ImgLink => "history: commit image: %w"
  | ImgRemove => "history: remove image temporary file: %w"
  | ImgSyncDirectory => "history: sync directory: %w"
  end.

(** The first of the calls that fails. *)
Definition firstFault (faults : imageOp -> option error) (ops : list imageOp) : option error :=
  firstErrOf (fun op => wrapErr (opText op) (faults op)) ops.

(** Looks at the new sidecar and remembers it. *)
Definition remember (d : dir) (name : string) (m : imageMeta) : imageMeta * option error :=
  match privateRegularFileInfo d name with inl e => (m, Some e) | inr info => (set_fileInfo info m, None) end.

(** [writeImage] of an image and its metadata.  The temporary file has a name
    that is not that of a sidecar and is gone in the end; what is left is its
    inode under the name of the sidecar. *)
Fixpoint writeImage (attempts : list attempt) (source : Image) (m : imageMeta) (d : dir) : dir * imageMeta * option error :=
  match attempts with
  | [] => (d, m, Some (ErrNew "no attempt left"))
  | a :: attempts =>
      let name := sidecarName (im_digest m) in
      let f := mkFile true (at_stamp a) (i_Data source) in
      let hashed := match privateRegularFileInfo d name with
                    | inr info => negb (sameSidecarInfo (im_fileInfo m) info) | inl _ => false end in
      let what := inspect a name m d in
      let d := if hashed then at_during a d else d in
      match what with
      | Trusted => (d, m, None)
      | Verified info => (d, set_fileInfo info m, None)
      | Failed err => (d, m, Some err)
      | Foreign =>
          match firstFault (at_faults a) [ImgCreateTemp; ImgChmod; ImgWrite; ImgSync; ImgClose; ImgRename] with
          | Some err => (d, m, Some err)
          | None =>
              let d := <[name := f]> d in
              match firstFault (at_faults a) [ImgSyncDirectory] with
              | Some err => (d, m, Some err)
              | None => let '(m, err) := remember d name m in (d, m, err)
              end
          end
      | Missing =>
          match firstFault (at_faults a) [ImgCreateTemp; ImgChmod; ImgWrite; ImgSync; ImgClose] with
          | Some err => (d, m, Some err)
          | None =>
              let d := at_before a d in
              match d !! name with
              | Some _ => writeImage attempts source m d
              | None =>
                  match firstFault (at_faults a) [ImgLink] with
                  | Some err => (d, m, Some err)
                  | None =>
                      let d := <[name := f]> d in
                      match firstFault (at_faults a) [ImgRemove; ImgSyncDirectory] with
                      | Some err => (d, m, Some err)
                      | None => let '(m, err) := remember d name m in (d, m, err)
                      end
                  end
              end
          end
      end
  end.

(** The loop of [commit], and [cleanupImages], which [commit] ends with. *)
Fixpoint writeImages (plan : nat -> list attempt) (entries : list retained) (d : dir) : dir * list retained * option error :=
  match entries with
  | [] => (d, [], None)
  | e :: entries =>
      match re_meta e, h_Image (re_entry e) with
      | Some m, Some image =>
          match writeImage (plan O) image m d with
          | (d, m, Some err) => (d, mkRetained (re_entry e) (Some m) (re_size e) :: entries, Some (ErrWrap "history: write image: %w" err))
          | (d, m, None) =>
              let '(d, rest, err) := writeImages (fun n => plan (S n)) entries d in
              (d, mkRetained (re_entry e) (Some m) (re_size e) :: rest, err)
          end
      | _, _ => let '(d, rest, err) := writeImages (fun n => plan (S n)) entries d in (d, e :: rest, err)
      end
  end.

Definition references (entries : list retained) : gset string :=
  list_to_set (omap (fun e => match re_meta e with Some m => Some (sidecarName (im_digest m)) | None => None end) entries).

(** The sidecars no entry refers to, in the order [os.ReadDir] lists them. *)
Definition orphans (entries : list retained) (names : list string) : list string :=
  List.filter (fun name => String.eqb (Ext name) ".png" && negb (bool_decide (name ∈ references entries))) names.

Fixpoint removeAll (faults : string -> option error) (names : list string) (d : dir) : dir * option error :=
  match names with
  | [] => (d, None)
  | name :: names =>
      match faults name with
      | Some err => (d, Some (ErrWrap "history: remove orphan image: %w" err))
      | None => removeAll faults names (delete name d)
      end
  end.

Definition cleanupImages (faults : string -> option error) (syncErr : option error) (entries : list retained)
    (listing : error + list string) (d : dir) : dir * option error :=
  match listing with
  | inl err => (d, Some (ErrWrap "history: list image directory: %w" err))
  | inr names =>
      match removeAll faults (orphans entries names) d with
      | (d, Some err) => (d, Some err)
      | (d, None) => (d, match orphans entries names with [] => None | _ => wrapErr "history: sync directory: %w" syncErr end)
      end
  end.

(** The directory as [loadImage] reads it. *)
Definition dirSidecars (d : dir) : Sidecars :=
  {| sidecarInfo := privateRegularFileInfo d;
     sidecarData := fun name => match d !! name with None => inl ErrNotExist | Some f => inr (f_data f) end |}.

End Sidecar.

(** ** One sidecar *)

Section Facts.
Context `{KernelLaws, Sha256Laws}.

Definition digestOf (data : list Byte.byte) : string := hexEncode (sha256_Sum256 data).

(** The sidecar of a digest is there, private, and has that digest. *)
Definition present (d : dir) (digest : string) : Prop :=
  exists f, d !! sidecarName digest = Some f /\ f_private f = true /\ digestOf (f_data f) = digest.

(** What an entry remembers of its sidecar belongs to contents of the digest. *)
Definition trusted (m : imageMeta) : Prop :=
  match im_fileInfo m with
  | None => True
  | Some info => exists n data, info = k_stat n data /\ digestOf data = im_digest m
  end.

Lemma sameSidecarInfo_eq v current : sameSidecarInfo (Some v) current = true <-> v = current.
Proof.
  unfold sameSidecarInfo, sameFileChangeTime. rewrite !andb_true_iff, !Z.eqb_eq. destruct v, current; cbn. intuition congruence.
Qed.

Lemma privateRegularFileInfo_Some d name info :
  privateRegularFileInfo d name = inr info <-> exists f, d !! name = Some f /\ f_private f = true /\ info = fileInfo f.
Proof.
  unfold privateRegularFileInfo. destruct (d !! name) as [f|]; [|split; [done|by intros (?&?&_)]]. destruct (f_private f) eqn:Hp.
  - split; [intros [= <-]; by exists f|by intros (g&[= <-]&_&->)].
  - split; [done|]. intros (g&[= <-]&?&_). congruence.
Qed.

Lemma hash_verified d d' torn name limit digest info :
  hashPrivateRegularFile d d' torn name limit = inr (digest, info) ->
  exists f, d' !! name = Some f /\ f_private f = true /\ info = fileInfo f /\ digest = sha256_Sum256 (f_data f).
Proof.
  unfold hashPrivateRegularFile. destruct (privateRegularFileInfo d name) as [|info0]; [done|]. destruct (_ <? _); [done|].
  destruct (d !! name) as [opened|]; [|done]. destruct (_ || _); [done|].
  set (current := match d' !! name with Some _ => _ | None => _ end). set (read := if decide _ then _ else _).
  destruct (_ <? _); [done|]. destruct (privateRegularFileInfo d' name) as [|pathInfo] eqn:Hp; [done|].
  apply privateRegularFileInfo_Some in Hp as (f&Hf&Hpr&->).
  destruct (negb _ || _) eqn:Hs; [done|]. apply orb_false_iff in Hs as [E1%negb_false_iff%sameSidecarInfo_eq E2%negb_false_iff%sameSidecarInfo_eq].
  intros [= <- <-]. exists f. split_and!; [done..|]. f_equal. unfold read. rewrite decide_True by done.
  eapply k_unchanged. unfold fileInfo in *. by rewrite E1, E2.
Qed.

Lemma firstFault_None faults ops : firstFault faults ops = None <-> Forall (fun op => faults op = None) ops.
Proof. unfold firstFault. rewrite firstErrOf_None. apply Forall_iff. intros op. apply wrapErr_None. Qed.

Lemma remember_new d name f m :
  f_private f = true -> remember (<[name := f]> d) name m = (set_fileInfo (fileInfo f) m, None).
Proof. intros Hp. unfold remember, privateRegularFileInfo. by rewrite lookup_insert_eq, Hp. Qed.

(** The outcomes of [writeImage]: nothing of the sidecar's own was changed, or
    it is the new file. *)
Definition wrote (source : Image) (m : imageMeta) (d0 d' : dir) (m' : imageMeta) (err : option error) : Prop :=
  im_digest m' = im_digest m /\ im_width m' = im_width m /\ im_height m' = im_height m /\ trusted m' /\
  (err = None -> present d' (im_digest m)) /\
  (d' = d0 \/ exists n, d' = <[sidecarName (im_digest m) := mkFile true n (i_Data source)]> d0).

Lemma wrote_new source m d n m' err :
  digestOf (i_Data source) = im_digest m -> trusted m ->
  let d' := <[sidecarName (im_digest m) := mkFile true n (i_Data source)]> d in
  (m', err) = (m, err) /\ err <> None \/ (m', err) = remember d' (sidecarName (im_digest m)) m ->
  wrote source m d d' m' err.
Proof.
  intros Hdig Ht d' [[[= ->] He]|Hr].
  - split_and!; try done; right; by exists n.
  - unfold d' in Hr. rewrite remember_new in Hr by done. injection Hr as -> ->. split_and!; try done.
    + unfold trusted. cbn. exists n, (i_Data source). done.
    + intros _. eexists. unfold d'. rewrite lookup_insert_eq. split; [done|]. by split.
    + right. by exists n.
Qed.

Lemma writeImage_spec attempts source m d d' m' err :
  digestOf (i_Data source) = im_digest m -> trusted m -> writeImage attempts source m d = (d', m', err) ->
  exists d0, wrote source m d0 d' m' err /\ (Forall (fun a => exists n faults, a = quiet n faults) attempts -> d0 = d).
Proof.
  intros Hdig Ht. revert d. induction attempts as [|a attempts IH]; intros d; cbn [writeImage].
  { intros [= <- <- <-]. exists d. split; [|done]. split_and!; try done. by left. }
  set (name := sidecarName (im_digest m)). set (hashed := match privateRegularFileInfo d name with inr _ => _ | inl _ => _ end).
  set (d1 := if hashed then at_during a d else d).
  assert (Forall (fun a => exists n faults, a = quiet n faults) (a :: attempts) -> d1 = d /\ at_before a = (fun d => d)) as Hquiet.
  { intros [(n&faults&->) _]%Forall_cons. unfold d1. by destruct hashed. }
  assert (forall m1 e, im_digest m1 = im_digest m -> im_width m1 = im_width m -> im_height m1 = im_height m -> trusted m1 ->
    (e = None -> present d1 (im_digest m)) -> (d1, m1, e) = (d', m', err) ->
    exists d0, wrote source m d0 d' m' err /\ (Forall (fun a => exists n faults, a = quiet n faults) (a :: attempts) -> d0 = d)) as Hsame.
  { intros m1 e Em Ew Eh Et Hpr [= <- <- <-]. exists d1. split; [|intros Hq; by apply Hquiet]. split_and!; try done. by left. }
  destruct (inspect a name m d) as [|info| | |e] eqn:Hwhat.
  - apply Hsame; try done. intros _. revert Hwhat. unfold inspect.
    destruct (privateRegularFileInfo d name) as [e0|info] eqn:Hp; [by destruct (negb _)|].
    destruct (sameSidecarInfo (im_fileInfo m) info) eqn:Hs; [intros _|by repeat case_match].
    assert (d1 = d) as -> by reflexivity.
    apply privateRegularFileInfo_Some in Hp as (f&Hf&Hpr&->). exists f. split_and!; try done.
    unfold trusted in Ht. destruct (im_fileInfo m) as [v|]; [|done]. apply sameSidecarInfo_eq in Hs as ->.
    destruct Ht as (n&data&Hk&<-). unfold fileInfo in Hk. apply k_unchanged in Hk. by rewrite Hk.
  - revert Hwhat. unfold inspect. destruct (privateRegularFileInfo d name) as [e0|info0] eqn:Hp; [by destruct (negb _)|].
    destruct (sameSidecarInfo (im_fileInfo m) info0) eqn:Hs; [done|].
    destruct (hashPrivateRegularFile _ _ _ _ _) as [e0|[digest verified]] eqn:Hh; [by repeat case_match|].
    destruct (String.eqb_spec (hexEncode digest) (im_digest m)) as [Heq|]; [|done]. intros [= ->].
    apply hash_verified in Hh as (f&Hf&Hpr&->&->). assert (d1 = at_during a d) as Ed by reflexivity.
    apply Hsame; try done.
    + by exists (f_stamp f), (f_data f).
    + intros _. rewrite Ed. by exists f.
  - destruct (firstFault _ _) as [e|]; [by apply Hsame|]. destruct (at_before a d1 !! name) eqn:Hnew.
    { intros Hw. apply IH in Hw as (d0&Hw&Hq). exists d0. split; [done|]. intros Hall. pose proof (Hquiet Hall) as [E1 E2].
      apply Forall_cons in Hall as [_ Hall]. rewrite (Hq Hall), E2. done. }
    destruct (firstFault _ [ImgLink]) as [e|].
    { intros [= <- <- <-]. exists (at_before a d1). split; [split_and!; try done; by left|]. intros Hall. by destruct (Hquiet Hall) as [-> ->]. }
    intros Hw. exists (at_before a d1). split; [|intros Hall; by destruct (Hquiet Hall) as [-> ->]].
    destruct (firstFault _ [ImgRemove; ImgSyncDirectory]) as [e|].
    + injection Hw as <- <- <-. apply wrote_new; try done. by left.
    + destruct (remember _ name m) as [m1 e1] eqn:Hrm. injection Hw as <- <- <-. apply wrote_new; try done. by right.
  - destruct (firstFault _ _) as [e|]; [by apply Hsame|].
    intros Hw. exists d1. split; [|intros Hall; by destruct (Hquiet Hall) as [-> _]].
    destruct (firstFault _ [ImgSyncDirectory]) as [e|].
    + injection Hw as <- <- <-. apply wrote_new; try done. by left.
    + destruct (remember _ name m) as [m1 e1] eqn:Hrm. injection Hw as <- <- <-. apply wrote_new; try done. by right.
  - by apply Hsame.
Qed.

(** ** The sidecars of a commit *)

Lemma append_suffix_inj a b suffix : String.append a suffix = String.append b suffix -> a = b.
Proof.
  revert b. induction a as [|x a IH]; intros [|y b] Heq; [done|..].
  - apply (f_equal slen) in Heq. rewrite !slen_app, slen_cons in Heq. pose proof (slen_nonneg b). change (slen "") with 0 in Heq. lia.
  - apply (f_equal slen) in Heq. rewrite !slen_app, slen_cons in Heq. pose proof (slen_nonneg a). change (slen "") with 0 in Heq. lia.
  - change (String x (String.append a suffix) = String y (String.append b suffix)) in Heq. injection Heq as -> Heq. f_equal. by apply IH.
Qed.

Lemma present_wrote source m d d' m' err g :
  digestOf (i_Data source) = im_digest m -> wrote source m d d' m' err -> present d g -> present d' g.
Proof.
  intros Hdig (_&_&_&_&_&[->|[n ->]]) (f&Hf&Hp&Hg); [by exists f|].
  destruct (decide (g = im_digest m)) as [->|Hne].
  - eexists. rewrite lookup_insert_eq. split; [done|]. by split.
  - exists f. rewrite lookup_insert_ne; [done|]. intros Heq. apply Hne. symmetry. by eapply append_suffix_inj.
Qed.

(** The image of an entry and what the entry remembers of it belong together:
    how [PrepareImage] makes them and [loadImage] reads them. *)
Definition image_kept `{Png} (e : retained) : Prop :=
  match re_meta e, h_Image (re_entry e) with
  | None, None => True
  | Some m, Some image =>
      i_MediaType image = "image/png" /\ i_Width image = im_width m /\ i_Height image = im_height m /\
      im_digest m = digestOf (i_Data image) /\
      im_width m <= historyImageLongEdge /\ im_height m <= historyImageLongEdge /\
      (exists decoded, png_Decode (i_Data image) = inr decoded /\ dc_Dx decoded = im_width m /\ dc_Dy decoded = im_height m) /\
      trusted m
  | _, _ => False
  end.

(** Nobody interferes, and no system call fails. *)
Definition calm (stamps : nat -> Z) (n : nat) : list attempt := [quiet (stamps n) (fun _ => None)].

(** The name of an entry's sidecar is free or belongs to a private file. *)
Definition usable (d : dir) (e : retained) : Prop :=
  match re_meta e with
  | Some m => match d !! sidecarName (im_digest m) with Some f => f_private f = true | None => True end
  | None => True
  end.

Lemma writeImage_calm n source m d :
  match d !! sidecarName (im_digest m) with Some f => f_private f = true | None => True end ->
  exists d' m', writeImage [quiet n (fun _ => None)] source m d = (d', m', None).
Proof.
  intros Hu. cbn [writeImage]. set (name := sidecarName (im_digest m)) in *. cbn [quiet at_during at_before at_torn at_faults at_stamp].
  set (hashed := match privateRegularFileInfo d name with inr _ => _ | inl _ => _ end).
  replace (if hashed then d else d) with d by (by destruct hashed). clear hashed. unfold inspect. cbn [quiet at_during at_torn]. unfold privateRegularFileInfo at 1.
  destruct (d !! name) as [f|] eqn:Hf; cbn [at_faults firstFault firstErrOf wrapErr].
  - rewrite Hu. destruct (sameSidecarInfo _ _); [by do 2 eexists|].
    unfold hashPrivateRegularFile, privateRegularFileInfo. rewrite Hf, Hu. cbn [negb orb]. rewrite Z.eqb_refl. cbn [negb orb].
    destruct (_ <? fi_Size _); cbn [errors_Is isFileTooLarge orb].
    + rewrite remember_new by done. by do 2 eexists.
    + rewrite decide_True by done. destruct (_ <? zlen _); cbn [errors_Is isFileTooLarge orb].
      * rewrite remember_new by done. by do 2 eexists.
      * rewrite !(proj2 (sameSidecarInfo_eq _ _)) by done. cbn [negb orb].
        destruct (String.eqb _ _); [by do 2 eexists|]. rewrite remember_new by done. by do 2 eexists.
  - cbn [errors_Is isNotExist negb orb]. cbn [firstErr]. rewrite remember_new by done. by do 2 eexists.
Qed.

Lemma usable_wrote source m d d' m' err e :
  wrote source m d d' m' err -> usable d e -> usable d' e.
Proof.
  intros (_&_&_&_&_&[->|[n ->]]); [done|]. unfold usable. destruct (re_meta e) as [m0|]; [|done].
  rewrite lookup_insert. by case_decide.
Qed.

Lemma calm_quiet stamps n : Forall (fun a => exists k faults, a = quiet k faults) (calm stamps n).
Proof. apply Forall_singleton. by do 2 eexists. Qed.

Lemma writeImages_calm `{Png} stamps entries d :
  Forall image_kept entries -> Forall (usable d) entries ->
  exists d' entries', writeImages (calm stamps) entries d = (d', entries', None) /\
    (forall g, present d g -> present d' g) /\
    Forall (fun e => match re_meta e with Some m => present d' (im_digest m) | None => True end) entries /\
    Forall image_kept entries' /\ Forall2 same_retained entries entries'.
Proof.
  revert stamps d. induction entries as [|e entries IH]; intros stamps d Hk Hu; cbn [writeImages].
  { exists d, []. by split_and!. }
  apply Forall_cons in Hk as [Hke Hk]. apply Forall_cons in Hu as [Hue Hu]. pose proof Hke as Hke'. unfold image_kept in Hke'.
  unfold usable in Hue. destruct (re_meta e) as [m|] eqn:Hm, (h_Image (re_entry e)) as [image|] eqn:Himg; try done.
  - destruct Hke' as (K1&K2&K3&K4&K5&K6&K7&K8).
    destruct (writeImage_calm (stamps 0%nat) image m d Hue) as (d1&m1&Hw). unfold calm at 1. rewrite Hw.
    destruct (writeImage_spec _ image m d d1 m1 None (eq_sym K4) K8 Hw) as (d0&Hwr&Hq). rewrite (Hq (calm_quiet stamps 0)) in Hwr.
    destruct (IH (fun n => stamps (S n)) d1 Hk) as (d'&entries'&Heq&Hpres&Hall&Hk'&Hsame).
    { eapply Forall_impl; [exact Hu|]. intros e0. by eapply usable_wrote. }
    change (fun n => calm stamps (S n)) with (calm (fun n => stamps (S n))). rewrite Heq.
    pose proof Hwr as (E1&E2&E3&Ht&Hp&_). eexists _, _. split; [done|]. split_and!.
    + intros g Hg. apply Hpres. eapply present_wrote; [symmetry; exact K4|exact Hwr|done].
    + constructor; [rewrite Hm; by apply Hpres, Hp|done].
    + constructor; [|done]. unfold image_kept. cbn [re_meta re_entry]. rewrite Himg, E1, E2, E3. by split_and!.
    + constructor; [|done]. unfold same_retained. cbn. rewrite Hm. cbn. by rewrite E1, E2, E3.
  - destruct (IH (fun n => stamps (S n)) d Hk Hu) as (d'&entries'&Heq&Hpres&Hall&Hk'&Hsame).
    change (fun n => calm stamps (S n)) with (calm (fun n => stamps (S n))). rewrite Heq.
    exists d', (e :: entries'). split_and!; try done; constructor; try done. by rewrite Hm.
Qed.

(** ** Every mutation keeps the images *)

(** What [image/png] encodes it decodes, with the dimensions, and it refuses
    an image of no width or height. *)
Class PngRoundtrip `{Png} := {
  png_positive data decoded : png_Decode data = inr decoded -> 0 < dc_Dx decoded /\ 0 < dc_Dy decoded;
  png_roundtrip w h pix data : png_Encode w h pix = inr data ->
    exists decoded, png_Decode data = inr decoded /\ dc_Dx decoded = w /\ dc_Dy decoded = h }.

Lemma prepared_kept `{PngRoundtrip} source p e :
  PrepareImage source = inr p -> h_Image (re_entry e) = pi_image p -> re_meta e = pi_meta p -> image_kept e.
Proof.
  unfold PrepareImage, image_kept. destruct source as [source|]; [|by intros [= <-] -> ->].
  destruct (normalizeHistoryImage source) as [|image] eqn:Hn; [done|]. intros [= <-] -> ->. cbn [pi_image pi_meta newImageMeta im_width im_height im_digest].
  unfold normalizeHistoryImage in Hn. destruct (Image_Validate source) eqn:Hv; [done|].
  destruct (png_Decode (i_Data source)) as [|decoded] eqn:Hdec; [done|]. destruct (negb _ || _) eqn:Hdim; [done|].
  apply orb_false_iff in Hdim as [Hw%negb_false_iff%Z.eqb_eq Hh%negb_false_iff%Z.eqb_eq].
  apply png_positive in Hdec as [Px Py]. unfold Image_Validate in Hv. rewrite !firstErr_None, !failIf_None, !orb_false_iff, !Z.eqb_neq, !Z.ltb_ge in Hv.
  destruct Hv as (_&(((Hw0&Hh0)&Hw1)&Hh1)&_).
  set (longest := Z.max _ _) in *. set (width := scaleTo _ _ (dc_Dx decoded)) in *. set (height := scaleTo _ _ (dc_Dy decoded)) in *.
  destruct (png_Encode width height _) as [|encoded] eqn:He; [done|]. injection Hn as <-. cbn.
  pose proof (scaleTo_range historyImageLongEdge longest (dc_Dx decoded) ltac:(done) ltac:(lia)) as Rw.
  pose proof (scaleTo_range historyImageLongEdge longest (dc_Dy decoded) ltac:(done) ltac:(lia)) as Rh.
  unfold historyImageLongEdge in *. fold width in Rw. fold height in Rh.
  rewrite !wrap32_small by (unfold is_u32; lia). apply png_roundtrip in He. split_and!; try done; lia.
Qed.

Lemma dropOldestWhile_sublist over l : (dropOldestWhile over l).1 `sublist_of` l.
Proof.
  induction l as [|e l IH]; cbn; [done|]. destruct (over (e :: l)); [|done].
  destruct (dropOldestWhile over l) as [kept removed]. by constructor.
Qed.

Lemma dropStale_sublist id cutoff l : (dropStale id cutoff l).1 `sublist_of` l.
Proof.
  induction l as [|e l IH]; cbn; [done|]. destruct (dropStale id cutoff l) as [kept removed]. destruct (_ || _); by constructor.
Qed.

Lemma newRetained_fields entry meta e : newRetained entry meta = inr e -> re_entry e = entry /\ re_meta e = meta.
Proof. unfold newRetained. destruct (diskEntry_json _); [done|]. by intros [= <-]. Qed.

Lemma shrunk_kept `{Png} s s' removed : shrunk s s' removed -> Forall image_kept (st_entries s) -> Forall image_kept (st_entries s').
Proof. intros ->%shrunk_entries. apply Forall_sublist, filter_sublist. Qed.

Lemma markLoop_kept `{Png} wanted l next changed :
  markLoop wanted l = inr (next, changed) -> Forall image_kept l -> Forall image_kept next.
Proof.
  revert next changed. induction l as [|e l IH]; intros next changed; cbn [markLoop]; [by intros [= <- _]|].
  intros Hm [Hke Hk]%Forall_cons. destruct (_ && _).
  - destruct (newRetained _ _) as [|r] eqn:Hr; [done|]. destruct (markLoop wanted l) as [|[rest changed']]; [done|]. injection Hm as <- _.
    apply newRetained_fields in Hr as [Er Em]. constructor; [|by eapply IH]. unfold image_kept in *. rewrite Er, Em. exact Hke.
  - destruct (markLoop wanted l) as [|[rest changed']]; [done|]. injection Hm as <- _. constructor; [done|by eapply IH].
Qed.

Lemma mutations_keep_images `{PngRoundtrip} s :
  store_wf s -> Forall image_kept (st_entries s) ->
  (forall entry source p now, PrepareImage source = inr p -> Forall image_kept (st_entries (AddPrepared s entry p now).1)) /\
  (forall entry now, Forall image_kept (st_entries (Store_Add s entry now).1)) /\
  (forall ids, Forall image_kept (st_entries (Remove s ids).1)) /\
  (forall now, Forall image_kept (st_entries (Sweep s now).1)) /\
  (forall ids, Forall image_kept (st_entries (MarkSeen s ids).1)) /\
  Forall image_kept (st_entries (Clear s).1).
Proof.
  intros Hwf Hk.
  assert (forall entry source p now, PrepareImage source = inr p -> Forall image_kept (st_entries (AddPrepared s entry p now).1)) as Hadd.
  { intros entry source p now Hp. unfold AddPrepared. destruct (HistoryEntry_Validate _); [done|]. destruct (Before _ _); [done|].
    pose proof (dropStale_sublist (h_ID (withImage entry (pi_image p))) (AddTime now (- HistoryRetention)) (st_entries s)) as S1.
    destruct (dropStale _ _ _) as [next removed]. destruct (newRetained _ _) as [|added] eqn:Hn; [done|].
    set (over := fun l => MaxHistoryEntries <? zlen l).
    pose proof (dropOldestWhile_sublist over (next ++ [added])) as S2. destruct (dropOldestWhile over _) as [next1 removed1].
    pose proof (dropOldestWhile_sublist (fun l => negb (documentBytes l <=? maxHistoryWriteBytes)) next1) as S3. fold (trimToBudget next1) in S3.
    destruct (trimToBudget next1) as [next2 removed2]. cbn [fst snd install st_entries] in *. eapply Forall_sublist; [exact S3|].
    eapply Forall_sublist; [exact S2|]. apply Forall_app. split; [by eapply Forall_sublist|]. apply Forall_singleton.
    apply newRetained_fields in Hn as [Er Em]. eapply prepared_kept; [exact Hp| |exact Em]. by rewrite Er. }
  split_and!; [exact Hadd| | | | |].
  - intros entry now. unfold Store_Add. destruct (PrepareImage _) as [|p] eqn:Hp; [done|]. by eapply Hadd.
  - intros ids. destruct (Remove s ids) as [s' r] eqn:Hr. apply Remove_spec in Hr as (removed&_&Hs&_); [|done]. by eapply shrunk_kept.
  - intros now. destruct (Sweep s now) as [s' r] eqn:Hr. apply Sweep_spec in Hr as (removed&_&Hs&_); [|done]. by eapply shrunk_kept.
  - intros ids. unfold MarkSeen. destruct (markLoop _ _) as [|[next changed]] eqn:Hm; [done|]. destruct (_ =? _); [done|].
    by eapply markLoop_kept.
  - destruct (Clear s) as [s' r] eqn:Hr. apply Clear_spec in Hr as (removed&_&Hs&_); [|done]. by eapply shrunk_kept.
Qed.

(** ** Cleaning up *)

Lemma elem_of_references entries name :
  name ∈ references entries <-> exists e m, e ∈ entries /\ re_meta e = Some m /\ name = sidecarName (im_digest m).
Proof.
  unfold references. rewrite elem_of_list_to_set, list_elem_of_omap. split.
  - intros (e&He&Hm). destruct (re_meta e) as [m|] eqn:Hem; [|done]. injection Hm as <-. by exists e, m.
  - intros (e&m&He&Hm&->). exists e. by rewrite Hm.
Qed.

Lemma removeAll_spec names d name :
  (removeAll (fun _ => None) names d).1 !! name = (if bool_decide (name ∈ names) then None else d !! name) /\
  (removeAll (fun _ => None) names d).2 = None.
Proof.
  revert d. induction names as [|n names IH]; intros d; cbn [removeAll fst snd]; [done|]. destruct (IH (delete n d)) as [-> ->].
  split; [|done]. rewrite lookup_delete. repeat case_bool_decide; try case_decide; set_solver.
Qed.

Lemma cleanupImages_spec entries names d :
  (forall name, name ∈ names <-> is_Some (d !! name)) ->
  exists d', cleanupImages (fun _ => None) None entries (inr names) d = (d', None) /\
    forall name, d' !! name = (if String.eqb (Ext name) ".png" && negb (bool_decide (name ∈ references entries)) then None else d !! name).
Proof.
  intros Hnames. unfold cleanupImages. exists (removeAll (fun _ => None) (orphans entries names) d).1. split.
  - destruct (removeAll _ _ d) as [d' err] eqn:Hr. pose proof (proj2 (removeAll_spec (orphans entries names) d "")) as He. rewrite Hr in *.
    cbn in He. subst err. by destruct (orphans entries names).
  - intros name. rewrite (proj1 (removeAll_spec _ _ _)). unfold orphans. case_bool_decide as Hin.
    + apply elem_of_list_filter_bool in Hin as [_ ->]. done.
    + destruct (_ && _) eqn:Hb; [|done]. destruct (d !! name) as [f|] eqn:Hf; [|done]. exfalso. apply Hin, elem_of_list_filter_bool.
      split; [apply Hnames; by rewrite Hf|done].
Qed.

Lemma same_retained_trans l1 l2 l3 : Forall2 same_retained l1 l2 -> Forall2 same_retained l2 l3 -> Forall2 same_retained l1 l3.
Proof.
  intros H12. revert l3. induction H12 as [|e1 e2 l1 l2 (A1&A2&A3) _ IH]; intros l3 H23; inversion H23 as [|? e3 ? l3' (B1&B2&B3) H23']; subst; constructor.
  - unfold same_retained. split_and!; congruence.
  - auto.
Qed.

(** What [loadImage] reads from the directory is kept. *)
Lemma loadImage_kept `{Png} d reference image meta :
  loadImage (H1 := dirSidecars d) reference = inr (image, meta) ->
  forall e, h_Image (re_entry e) = image -> re_meta e = meta -> image_kept e.
Proof.
  unfold loadImage. destruct reference as [r|]; [|intros [= <- <-] e Hi Hm; unfold image_kept; by rewrite Hi, Hm].
  destruct (badReference r) eqn:Hbad; [done|]. destruct (hexDecode _) as [digest|]; [|done].
  destruct (String.eqb_spec (hexEncode digest) (di_SHA256 r)) as [Hd|]; [|done]. cbn [negb].
  destruct (readPrivateRegularFile _ _) as [|contents] eqn:Hread; [done|].
  destruct (checkSidecar _ _ _) as [|result] eqn:Hch; [done|].
  destruct (sidecarInfo _) as [|info] eqn:Hinfo; [done|]. intros [= <- <-] e Hi Hm. unfold image_kept. rewrite Hi, Hm.
  unfold checkSidecar in Hch. case_bool_decide as Hsha; [|done]. cbn [negb] in Hch. destruct (png_Decode contents) as [|decoded] eqn:Hdec; [done|].
  destruct (negb _ || _) eqn:Hdim; [done|]. destruct (Image_Validate _); [done|]. injection Hch as <-.
  apply orb_false_iff in Hdim as [Hw%negb_false_iff%Z.eqb_eq Hh%negb_false_iff%Z.eqb_eq]. cbn [i_MediaType i_Width i_Height i_Data im_width im_height im_digest].
  unfold badReference in Hbad. rewrite !orb_false_iff, !Z.ltb_ge in Hbad. destruct Hbad as [[_ ?] ?].
  split_and!; try done.
  - unfold digestOf. by rewrite Hsha, Hd.
  - by exists decoded.
  - unfold trusted. cbn [im_fileInfo im_digest]. cbn in Hinfo. apply privateRegularFileInfo_Some in Hinfo as (f&Hf&_&->).
    exists (f_stamp f), (f_data f). split; [done|]. unfold readPrivateRegularFile in Hread. cbn in Hread.
    destruct (privateRegularFileInfo d _); [done|]. destruct (_ <? _); [done|]. unfold sidecarName in Hf. rewrite Hf in Hread.
    injection Hread as ->. unfold digestOf. by rewrite Hsha, Hd.
Qed.

Lemma decodeEntries_kept `{Png} d ids l entries :
  decodeEntries (H1 := dirSidecars d) ids l = inr entries -> Forall image_kept entries.
Proof.
  revert ids entries. induction l as [|entry l IH]; intros ids entries; cbn [decodeEntries]; [by intros [= <-]|].
  destruct (HistoryEntry_Validate _); [done|]. case_decide; [done|]. destruct (newRetained _ _) as [|r] eqn:Hr; [done|].
  destruct (decodeEntries _ l) as [|rest] eqn:Hrest; [done|]. intros [= <-]. constructor; [|by eapply IH].
  unfold newRetained in Hr. destruct (diskEntry_json _); [done|]. injection Hr as <-.
  unfold entryOf, imageOf. destruct (loadImage (de_Image entry)) as [|[image meta]] eqn:Hload; [done|].
  by eapply loadImage_kept.
Qed.

(** No file of the directory has the digest of an image and other contents. *)
Definition no_collision (d : dir) (entries : list retained) : Prop :=
  forall name f e image, d !! name = Some f -> e ∈ entries -> h_Image (re_entry e) = Some image ->
    digestOf (f_data f) = digestOf (i_Data image) -> f_data f = i_Data image.


End Facts.
