(* ===== verification/SnapshotFrame.v ===== *)
(** * internal/presenter: the frame of a snapshot

    [marshalSnapshot], [marshalSnapshotWithinCost], [wireImageCost] and
    [escapedJSONLen] of [server.go] and [marshalEnvelope] of [connection.go],
    over the JSON [encoding/json] writes for the protocol's types.  A list that
    Go leaves nil is written null. *)
From stdpp Require Import gmap strings list.
From Stdlib Require Import ZArith Lia Ascii Strings.Byte.
From S2P Require Import Prelude GoLib Protocol Frame.
Local Open Scope string_scope.
Local Open Scope list_scope.
Local Open Scope Z_scope.

(** ** encoding/base64 *)

Definition base64Char (n : Z) : ascii :=
  ascii_of_nat (Z.to_nat (
    if n <? 26 then 65 + n else if n <? 52 then 71 + n else if n <? 62 then n - 4 else if n =? 62 then 43 else 47)).

Fixpoint base64Encode (l : list Byte.byte) : string :=
  match l with
  | [] => ""
  | [a] =>
      let v := byteZ a * 65536 in
      String (base64Char (v / 262144)) (String (base64Char (v / 4096 mod 64)) "==")
  | [a; b] =>
      let v := byteZ a * 65536 + byteZ b * 256 in
      String (base64Char (v / 262144)) (String (base64Char (v / 4096 mod 64)) (String (base64Char (v / 64 mod 64)) "="))
  | a :: b :: c :: l =>
      let v := byteZ a * 65536 + byteZ b * 256 + byteZ c in
      String (base64Char (v / 262144)) (String (base64Char (v / 4096 mod 64)) (String (base64Char (v / 64 mod 64))
        (String (base64Char (v mod 64)) (base64Encode l))))
  end.

(** [base64.StdEncoding.EncodedLen] *)
Definition EncodedLen (n : Z) : Z := (n + 2) / 3 * 4.

(** ** encoding/json: the types of a snapshot *)

Definition jsonInt (n : Z) : string := if n <? 0 then String "-"%char (FormatUint (- n)) else FormatUint n.

Definition arrayOrNull (items : list string) : string := match items with [] => "null" | _ => jsonArray items end.

Definition omitEmptyList (name : string) (items : list string) : list (string * string) :=
  match items with [] => [] | _ => [(name, jsonArray items)] end.

Definition image_json (i : Image) : string :=
  jsonObject [("media_type", jsonString (i_MediaType i)); ("width", jsonUint (i_Width i));
              ("height", jsonUint (i_Height i)); ("data", quoted (base64Encode (i_Data i)))].

Definition action_json (a : Action) : string := jsonObject [("key", jsonString (a_Key a)); ("label", jsonString (a_Label a))].
Definition process_json (p : Process) : string := jsonObject [("pid", jsonUint (p_PID p)); ("start_time", jsonUint (p_StartTime p))].
Definition lifetime_json (l : Lifetime) : string :=
  jsonObject [("id", jsonUint (l_ID l)); ("duration_ms", jsonUint (l_DurationMS l));
              ("remaining_ms", jsonUint (l_RemainingMS l)); ("running", jsonBool (l_Running l))].

Definition imageField (i : option Image) : list (string * string) :=
  match i with Some i => [("image", image_json i)] | None => [] end.

(** The members of a record, in the order of the struct, given the encoded time. *)
Definition notification_fields (n : Notification) (timestamp : string) : list (string * string) :=
  [("id", jsonUint (n_ID n))] ++
  omitEmptyString "app_name" (n_AppName n) ++ omitEmptyString "app_icon" (n_AppIcon n) ++
  omitEmptyString "desktop_entry" (n_DesktopEntry n) ++ [("summary", jsonString (n_Summary n))] ++
  omitEmptyString "body" (n_Body n) ++ omitEmptyList "actions" (map action_json (n_Actions n)) ++
  [("urgency", jsonUint (n_Urgency n))] ++ omitEmptyString "category" (n_Category n) ++
  [("timestamp", timestamp); ("expire_timeout_ms", jsonInt (n_ExpireTimeoutMS n))] ++
  imageField (n_Image n) ++
  match n_Value n with Some v => [("value", jsonInt v)] | None => [] end ++
  (if n_InlineReply n then [("inline_reply", jsonBool true)] else []) ++
  omitEmptyString "reply_placeholder" (n_ReplyPlaceholder n) ++
  omitEmptyList "sender_lineage" (map process_json (n_SenderLineage n)).

Definition notification_json (n : Notification) : error + string :=
  match jsonTime (n_Timestamp n) with
  | inl e => inl e
  | inr timestamp => inr (jsonObject (notification_fields n timestamp))
  end.

(** The members of a record, in the order of the struct, given the encoded time. *)
Definition historyEntry_fields (h : HistoryEntry) (timestamp : string) : list (string * string) :=
  [("id", jsonUint (h_ID h)); ("seen", jsonBool (h_Seen h))] ++
  omitEmptyString "app_name" (h_AppName h) ++ omitEmptyString "app_icon" (h_AppIcon h) ++
  omitEmptyString "desktop_entry" (h_DesktopEntry h) ++ [("summary", jsonString (h_Summary h))] ++
  omitEmptyString "body" (h_Body h) ++ [("urgency", jsonUint (h_Urgency h))] ++
  omitEmptyString "category" (h_Category h) ++ [("timestamp", timestamp)] ++ imageField (h_Image h).

Definition historyEntry_json (h : HistoryEntry) : error + string :=
  match jsonTime (h_Timestamp h) with
  | inl e => inl e
  | inr timestamp => inr (jsonObject (historyEntry_fields h timestamp))
  end.

Fixpoint items_json {A} (f : A -> error + string) (l : list A) : error + list string :=
  match l with
  | [] => inr []
  | x :: l =>
      match f x with
      | inl e => inl e
      | inr s => match items_json f l with inl e => inl e | inr items => inr (s :: items) end
      end
  end.

(** The snapshot with copied record lists, which are nil when empty. *)
Definition snapshot_json (s : Snapshot) : error + string :=
  match items_json notification_json (s_Active s), items_json historyEntry_json (s_History s) with
  | inr active, inr history =>
      inr (jsonObject [("sequence", jsonUint (s_Sequence s)); ("active", arrayOrNull active);
        ("lifetimes", jsonArray (map lifetime_json (s_Lifetimes s))); ("history", arrayOrNull history)])
  | inl e, _ => inl e
  | _, inl e => inl e
  end.

Definition omitZero (name : string) (n : Z) : list (string * string) := if n =? 0 then [] else [(name, jsonUint n)].

Definition envelope_fields (kind : string) (requestID sequence : Z) (raw : string) : list (string * string) :=
  [("kind", jsonString kind)] ++ omitZero "request_id" requestID ++ omitZero "sequence" sequence ++ [("payload", raw)].

Definition marshalEnvelope (kind : string) (requestID sequence : Z) (payload : error + string) : error + string :=
  match payload with
  | inl e => inl e
  | inr raw => inr (jsonObject (envelope_fields kind requestID sequence raw))
  end.

(** ** server.go *)

Definition escapedJSONLen (s : string) : Z := slen (jsonString s) - 2.

(** The length of the text the source writes out: a comma, the key of the
    image and the punctuation of its object. *)
Definition objectOverhead : Z :=
  slen (String.concat "" [","; quoted "image"; ":{"; quoted "media_type"; ":"; quoted ""; ","; quoted "width"; ":,";
    quoted "height"; ":,"; quoted "data"; ":"; quoted ""; "}"]).

Definition wireImageCost (i : Image) : Z :=
  objectOverhead + escapedJSONLen (i_MediaType i) + slen (FormatUint (i_Width i)) + slen (FormatUint (i_Height i)) +
  EncodedLen (zlen (i_Data i)).

(** The record that carries an image. *)
Inductive slot := SActive (i : nat) | SHistory (i : nat).

Definition notificationImage (v : option Image) (n : Notification) : Notification :=
  mkNotification (n_ID n) (n_AppName n) (n_AppIcon n) (n_DesktopEntry n) (n_Summary n) (n_Body n) (n_Actions n)
    (n_Urgency n) (n_Category n) (n_Timestamp n) (n_ExpireTimeoutMS n) v (n_Value n) (n_InlineReply n)
    (n_ReplyPlaceholder n) (n_SenderLineage n).

Definition historyImage (v : option Image) (h : HistoryEntry) : HistoryEntry :=
  mkHistoryEntry (h_ID h) (h_Seen h) (h_AppName h) (h_AppIcon h) (h_DesktopEntry h) (h_Summary h) (h_Body h)
    (h_Urgency h) (h_Category h) (h_Timestamp h) v.

Definition withoutImages (s : Snapshot) : Snapshot :=
  mkSnapshot (s_Sequence s) (map (notificationImage None) (s_Active s)) (s_Lifetimes s)
    (map (historyImage None) (s_History s)).

Definition setImage (v : option Image) (k : slot) (s : Snapshot) : Snapshot :=
  match k with
  | SActive i => mkSnapshot (s_Sequence s) (alter (notificationImage v) i (s_Active s)) (s_Lifetimes s) (s_History s)
  | SHistory i => mkSnapshot (s_Sequence s) (s_Active s) (s_Lifetimes s) (alter (historyImage v) i (s_History s))
  end.

(** The images with the records they belong to, from the index [i] on. *)
Fixpoint imagesFrom {A} (image : A -> option Image) (mk : nat -> slot) (i : nat) (l : list A) : list (slot * Image) :=
  match l with
  | [] => []
  | x :: l => match image x with Some v => [(mk i, v)] | None => [] end ++ imagesFrom image mk (S i) l
  end.

Definition imagesOf (s : Snapshot) : list (slot * Image) :=
  imagesFrom n_Image SActive 0 (s_Active s) ++ imagesFrom h_Image SHistory 0 (s_History s).

(** The loop from the end of the list: the first image that does not fit ends
    it.  The kept images come out newest first. *)
Fixpoint takeFitting (cost : Image -> Z) (budget : Z) (l : list (slot * Image)) : list (slot * Image) :=
  match l with
  | [] => []
  | x :: l => if budget <? cost x.2 then [] else x :: takeFitting cost (budget - cost x.2) l
  end.

Definition attach (s : Snapshot) (kept : list (slot * Image)) : Snapshot :=
  fold_left (fun s x => setImage (Some x.2) x.1 s) kept s.

Definition marshalBodies (s : Snapshot) : error + string := marshalEnvelope "snapshot" 0 (s_Sequence s) (snapshot_json s).

Definition errTooLarge : error := ErrNew "presenter: snapshot exceeds frame size without images".

(** The loop that gives up the oldest image while the frame is too large. *)
Fixpoint backstop (limit : Z) (bodies : Snapshot) (frame : string) (kept : list (slot * Image)) : error + string :=
  match kept with
  | [] => if limit <? slen frame then inl errTooLarge else inr frame
  | x :: kept =>
      if limit <? slen frame then
        let bodies := setImage None x.1 bodies in
        match marshalBodies bodies with
        | inl e => inl e
        | inr frame => backstop limit bodies frame kept
        end
      else inr frame
  end.

Definition marshalSnapshotWithinCost (s : Snapshot) (limit : Z) (cost : Image -> Z) : error + string :=
  let bodies := withoutImages s in
  match marshalBodies bodies with
  | inl e => inl e
  | inr base =>
      if limit <? slen base then inl errTooLarge
      else
        let kept := rev (takeFitting cost (limit - slen base) (rev (imagesOf s))) in
        let bodies := attach bodies kept in
        match marshalBodies bodies with
        | inl e => inl e
        | inr frame => backstop limit bodies frame kept
        end
  end.

Definition marshalSnapshotWithin (s : Snapshot) (limit : Z) : error + string := marshalSnapshotWithinCost s limit wireImageCost.

Definition marshalSnapshot (s : Snapshot) : error + string := marshalSnapshotWithin s MaxFrameSize.

(** ** The cost model is exact *)

Lemma base64_length l : slen (base64Encode l) = EncodedLen (zlen l).
Proof.
  induction l as [l IH] using (induction_ltof1 _ (@length _)). unfold ltof in IH. unfold EncodedLen in *.
  destruct l as [|a [|b [|c l]]]; [done|done|done|]. cbn [base64Encode]. rewrite !slen_cons, IH by (cbn; lia).
  rewrite !zlen_cons. replace (1 + (1 + (1 + zlen l)) + 2) with (zlen l + 2 + 1 * 3) by lia. rewrite Z.div_add by lia. lia.
Qed.

Lemma image_json_length i : slen (image_json i) + 9 = wireImageCost i.
Proof.
  unfold image_json. rewrite slen_jsonObject. cbn [map sumLen foldr]. rewrite !slen_jsonField. cbn [fst snd].
  rewrite slen_quoted, base64_length. unfold wireImageCost, escapedJSONLen, jsonUint.
  change objectOverhead with 55. unfold zlen, slen. cbn. lia.
Qed.

#[local] Ltac measure := rewrite !slen_jsonObject, !map_app, !sumLen_app, !zlen_app; cbn [imageField map sumLen foldr];
  rewrite ?slen_jsonField; cbn [fst snd].

Lemma notification_cost i n s :
  n_Image n = None -> notification_json n = inr s ->
  exists s', notification_json (notificationImage (Some i) n) = inr s' /\ slen s' = slen s + wireImageCost i.
Proof.
  intros Hi. unfold notification_json, notificationImage. cbn [n_Timestamp]. destruct (jsonTime (n_Timestamp n)) as [e|t]; [done|].
  intros [= <-]. eexists. split; [done|]. unfold notification_fields. cbn [n_ID n_AppName n_AppIcon n_DesktopEntry n_Summary n_Body n_Actions n_Urgency n_Category n_ExpireTimeoutMS n_Image
    n_Value n_InlineReply n_ReplyPlaceholder n_SenderLineage]. rewrite Hi. measure. rewrite <-(image_json_length i).
  change (zlen [("id", jsonUint (n_ID n))]) with 1. change (zlen [("image", image_json i)]) with 1. change (@zlen (string * string) []) with 0.
  change (slen "image") with 5.
  repeat match goal with |- context [zlen ?l] => lazymatch goal with H : 0 <= zlen l |- _ => fail | _ => pose proof (zlen_nonneg l) end end.
  lia.
Qed.

Lemma history_cost i h s :
  h_Image h = None -> historyEntry_json h = inr s ->
  exists s', historyEntry_json (historyImage (Some i) h) = inr s' /\ slen s' = slen s + wireImageCost i.
Proof.
  intros Hi. unfold historyEntry_json, historyImage. cbn [h_Timestamp]. destruct (jsonTime (h_Timestamp h)) as [e|t]; [done|].
  intros [= <-]. eexists. split; [done|]. unfold historyEntry_fields. cbn [h_ID h_Seen h_AppName h_AppIcon h_DesktopEntry h_Summary h_Body h_Urgency h_Category h_Image]. rewrite Hi. measure. rewrite <-(image_json_length i).
  change (zlen [("id", jsonUint (h_ID h)); ("seen", jsonBool (h_Seen h))]) with 2. change (zlen [("image", image_json i)]) with 1.
  change (@zlen (string * string) []) with 0. change (slen "image") with 5.
  repeat match goal with |- context [zlen ?l] => lazymatch goal with H : 0 <= zlen l |- _ => fail | _ => pose proof (zlen_nonneg l) end end.
  lia.
Qed.

(** One record of a list that gains an image. *)
Lemma items_alter {A} (f : A -> error + string) (g : A -> A) (c : Z) l i x items :
  l !! i = Some x -> (forall s, f x = inr s -> exists s', f (g x) = inr s' /\ slen s' = slen s + c) ->
  items_json f l = inr items ->
  exists items', items_json f (alter g i l) = inr items' /\ length items' = length items /\ sumLen items' = sumLen items + c.
Proof.
  intros Hx Hc. revert i items Hx. induction l as [|y l IH]; intros i items Hx; [done|]. cbn [items_json].
  destruct (f y) as [e|s] eqn:Hy; [done|]. destruct (items_json f l) as [e|rest] eqn:Hr; [done|]. intros [= <-]. destruct i as [|i]; cbn in Hx.
  - injection Hx as ->. destruct (Hc s Hy) as (s'&Hs'&Hl). exists (s' :: rest). cbn. rewrite Hs', Hr. split; [done|]. split; [done|].
    unfold sumLen in *. lia.
  - destruct (IH i rest Hx eq_refl) as (items'&Hi&Hlen&Hsum). exists (s :: items').
    change (alter g (S i) (y :: l)) with (y :: alter g i l). cbn [items_json]. rewrite Hy, Hi. split; [done|]. cbn. split; [lia|].
    unfold sumLen in *. lia.
Qed.

Lemma arrayOrNull_length items items' c :
  items <> [] -> length items' = length items -> sumLen items' = sumLen items + c -> slen (arrayOrNull items') = slen (arrayOrNull items) + c.
Proof.
  intros Hne Hl Hs. destruct items as [|x items]; [done|]. destruct items' as [|y items']; [done|].
  cbn [arrayOrNull]. rewrite !slen_jsonArray. unfold zlen. rewrite Hl. lia.
Qed.

(** The record at a slot. *)
Definition slotImage (s : Snapshot) (k : slot) : option (option Image) :=
  match k with SActive i => n_Image <$> s_Active s !! i | SHistory i => h_Image <$> s_History s !! i end.

Lemma snapshot_cost i k s raw :
  slotImage s k = Some None -> snapshot_json s = inr raw ->
  exists raw', snapshot_json (setImage (Some i) k s) = inr raw' /\ slen raw' = slen raw + wireImageCost i.
Proof.
  unfold snapshot_json. destruct (items_json notification_json (s_Active s)) as [e|active] eqn:Ha; [done|].
  destruct (items_json historyEntry_json (s_History s)) as [e|history] eqn:Hh; [done|].
  destruct k as [j|j]; cbn [slotImage setImage s_Active s_History s_Sequence s_Lifetimes]; intros Hk%fmap_Some; destruct Hk as (x&Hx&Hi); intros [= <-].
  - destruct (items_alter notification_json (notificationImage (Some i)) (wireImageCost i) _ _ _ _ Hx
      ltac:(intros t; by apply notification_cost) Ha) as (items'&->&Hl&Hsum). rewrite Hh. eexists. split; [done|].
    rewrite !slen_jsonObject. cbn [map sumLen foldr]. rewrite !slen_jsonField. cbn [fst snd].
    rewrite (arrayOrNull_length active items' (wireImageCost i)); [|intros ->; by destruct (s_Active s); [|cbn in Ha; repeat case_match]|done|done].
    unfold zlen. cbn [length]. lia.
  - rewrite Ha. destruct (items_alter historyEntry_json (historyImage (Some i)) (wireImageCost i) _ _ _ _ Hx
      ltac:(intros t; by apply history_cost) Hh) as (items'&->&Hl&Hsum). eexists. split; [done|].
    rewrite !slen_jsonObject. cbn [map sumLen foldr]. rewrite !slen_jsonField. cbn [fst snd].
    rewrite (arrayOrNull_length history items' (wireImageCost i)); [|intros ->; by destruct (s_History s); [|cbn in Hh; repeat case_match]|done|done].
    unfold zlen. cbn [length]. lia.
Qed.

Lemma bodies_cost i k s frame :
  slotImage s k = Some None -> marshalBodies s = inr frame ->
  exists frame', marshalBodies (setImage (Some i) k s) = inr frame' /\ slen frame' = slen frame + wireImageCost i.
Proof.
  intros Hk. unfold marshalBodies. destruct (snapshot_json s) as [e|raw] eqn:Hr; [done|].
  destruct (snapshot_cost i k s raw Hk Hr) as (raw'&Hr'&Hl). replace (s_Sequence (setImage (Some i) k s)) with (s_Sequence s) by (by destruct k).
  rewrite Hr'. cbn [marshalEnvelope]. intros [= <-]. eexists. split; [done|].
  rewrite !slen_jsonObject. unfold envelope_fields. rewrite !map_app, !sumLen_app, !zlen_app. cbn [map sumLen foldr]. rewrite !slen_jsonField. cbn [fst snd].
  change (zlen [("payload", raw')]) with (zlen [("payload", raw)]). lia.
Qed.

(** ** Choosing the images *)

Definition costOf (cost : Image -> Z) (l : list (slot * Image)) : Z := foldr (fun x n => cost x.2 + n) 0 l.

Lemma costOf_app cost l k : costOf cost (l ++ k) = costOf cost l + costOf cost k.
Proof. unfold costOf. induction l as [|x l IH]; cbn; [done|]. rewrite IH. lia. Qed.

Lemma costOf_rev cost l : costOf cost (rev l) = costOf cost l.
Proof. induction l as [|x l IH]; [done|]. cbn [rev]. rewrite costOf_app, IH. unfold costOf. cbn [foldr]. lia. Qed.

Lemma takeFitting_spec cost budget l :
  0 <= budget -> exists rest, l = takeFitting cost budget l ++ rest /\ costOf cost (takeFitting cost budget l) <= budget /\
    match rest with [] => True | x :: _ => budget < costOf cost (takeFitting cost budget l) + cost x.2 end.
Proof.
  revert budget. induction l as [|x l IH]; intros budget Hb; cbn [takeFitting]; [by exists []|].
  destruct (Z.ltb_spec budget (cost x.2)) as [Hlt|Hge].
  - exists (x :: l). cbn. split; [done|]. split; [done|lia].
  - destruct (IH (budget - cost x.2) ltac:(lia)) as (rest&Hl&Hc&Hr). exists rest. cbn [app costOf foldr]. rewrite <-Hl. split; [done|].
    unfold costOf in *. split; [lia|]. destruct rest; [done|lia].
Qed.

#[global] Instance slot_eq_dec : EqDecision slot.
Proof. solve_decision. Defined.

Lemma slotImage_set k k' v s : k <> k' -> slotImage (setImage v k s) k' = slotImage s k'.
Proof.
  intros Hk. destruct k as [i|i], k' as [j|j]; cbn; try done;
    rewrite list_lookup_alter_ne by (intros ->; by apply Hk); done.
Qed.

Lemma attach_cost kept s frame :
  NoDup kept.*1 -> Forall (fun x => slotImage s x.1 = Some None) kept -> marshalBodies s = inr frame ->
  exists frame', marshalBodies (attach s kept) = inr frame' /\ slen frame' = slen frame + costOf wireImageCost kept.
Proof.
  revert s frame. induction kept as [|[k i] kept IH]; intros s frame Hn Hs Hf.
  { exists frame. split; [done|]. cbn. lia. }
  rewrite fmap_cons in Hn. apply NoDup_cons in Hn as [Hk Hn]. apply Forall_cons in Hs as [Hsk Hs]. cbn in Hsk, Hk.
  destruct (bodies_cost i k s frame Hsk Hf) as (frame1&Hf1&Hl1). cbn [attach fold_left fst snd].
  destruct (IH (setImage (Some i) k s) frame1 Hn) as (frame'&Hf'&Hl'); [|done|].
  { apply Forall_forall. intros x Hx. rewrite Forall_forall in Hs. rewrite slotImage_set by (intros ->; apply Hk, list_elem_of_fmap; eauto).
    by apply Hs. }
  exists frame'. split; [done|]. unfold costOf in *. cbn. lia.
Qed.

Lemma imagesFrom_elem {A} (image : A -> option Image) mk i l k v :
  (k, v) ∈ imagesFrom image mk i l -> exists j x, k = mk (i + j)%nat /\ l !! j = Some x /\ image x = Some v.
Proof.
  revert i. induction l as [|x l IH]; intros i; cbn [imagesFrom]; [by intros ?%not_elem_of_nil|].
  intros [Hx|Hx]%elem_of_app.
  - destruct (image x) as [w|] eqn:Hi; [|by apply not_elem_of_nil in Hx]. apply list_elem_of_singleton in Hx as [= -> ->].
    exists O, x. split; [f_equal; lia|done].
  - destruct (IH (S i) Hx) as (j&y&->&Hy&?). exists (S j), y. split; [f_equal; lia|done].
Qed.

Lemma imagesFrom_nodup {A} (image : A -> option Image) mk i l :
  (forall a b, mk a = mk b -> a = b) -> NoDup (imagesFrom image mk i l).*1.
Proof.
  intros Hmk. revert i. induction l as [|x l IH]; intros i; cbn [imagesFrom]; [apply NoDup_nil_2|].
  rewrite fmap_app. apply NoDup_app. split_and!; [|destruct (image x); [|intros k ?%not_elem_of_nil; done]|apply IH].
  - destruct (image x); [apply NoDup_singleton|apply NoDup_nil_2].
  - intros k Hk ([k' v]&->&Hin)%list_elem_of_fmap. apply list_elem_of_singleton in Hk. cbn in Hk.
    apply imagesFrom_elem in Hin as (j&y&->&_). apply Hmk in Hk. lia.
Qed.

Lemma imagesOf_nodup s : NoDup (imagesOf s).*1.
Proof.
  unfold imagesOf. rewrite fmap_app. apply NoDup_app. split_and!; [by apply imagesFrom_nodup; intros ? ? [= ->]| |by apply imagesFrom_nodup; intros ? ? [= ->]].
  intros k ([k1 v1]&->&H1)%list_elem_of_fmap ([k2 v2]&Hk&H2)%list_elem_of_fmap.
  apply imagesFrom_elem in H1 as (?&?&->&_). apply imagesFrom_elem in H2 as (?&?&->&_). done.
Qed.

Lemma imagesOf_slots s : Forall (fun x => slotImage (withoutImages s) x.1 = Some None) (imagesOf s).
Proof.
  apply Forall_forall. intros [k v] [Hin|Hin]%elem_of_app; apply imagesFrom_elem in Hin as (j&x&->&Hx&_); cbn;
    rewrite list_lookup_fmap, Hx; done.
Qed.

(** ** Putting all of them back gives the snapshot *)

Lemma attach_app s l k : attach s (l ++ k) = attach (attach s l) k.
Proof. apply fold_left_app. Qed.

Lemma attach_active sq lt h pre l :
  attach (mkSnapshot sq (pre ++ map (notificationImage None) l) lt h) (imagesFrom n_Image SActive (length pre) l) =
  mkSnapshot sq (pre ++ l) lt h.
Proof.
  revert pre. induction l as [|n l IH]; intros pre; cbn [map imagesFrom]; [done|]. rewrite attach_app.
  replace (pre ++ n :: l) with ((pre ++ [n]) ++ l) by (by rewrite <-app_assoc). rewrite <-IH.
  replace (length (pre ++ [n])) with (S (length pre)) by (rewrite length_app; cbn; lia). f_equal.
  destruct (n_Image n) as [v|] eqn:Hv; cbn [attach fold_left setImage fst snd s_Sequence s_Active s_Lifetimes s_History]; f_equal.
  - rewrite alter_app_r_alt by done. rewrite Nat.sub_diag. cbn. rewrite <-app_assoc. cbn. f_equal. f_equal. unfold notificationImage; destruct n; cbn in *; by subst.
  - rewrite <-app_assoc. cbn. f_equal. f_equal. unfold notificationImage; destruct n; cbn in *; by subst.
Qed.

Lemma attach_history sq lt a pre l :
  attach (mkSnapshot sq a lt (pre ++ map (historyImage None) l)) (imagesFrom h_Image SHistory (length pre) l) =
  mkSnapshot sq a lt (pre ++ l).
Proof.
  revert pre. induction l as [|h l IH]; intros pre; cbn [map imagesFrom]; [done|]. rewrite attach_app.
  replace (pre ++ h :: l) with ((pre ++ [h]) ++ l) by (by rewrite <-app_assoc). rewrite <-IH.
  replace (length (pre ++ [h])) with (S (length pre)) by (rewrite length_app; cbn; lia). f_equal.
  destruct (h_Image h) as [v|] eqn:Hv; cbn [attach fold_left setImage fst snd s_Sequence s_Active s_Lifetimes s_History]; f_equal.
  - rewrite alter_app_r_alt by done. rewrite Nat.sub_diag. cbn. rewrite <-app_assoc. cbn. f_equal. f_equal. unfold historyImage; destruct h; cbn in *; by subst.
  - rewrite <-app_assoc. cbn. f_equal. f_equal. unfold historyImage; destruct h; cbn in *; by subst.
Qed.

Lemma attach_all s : attach (withoutImages s) (imagesOf s) = s.
Proof.
  unfold withoutImages, imagesOf. rewrite attach_app.
  pose proof (attach_active (s_Sequence s) (s_Lifetimes s) (map (historyImage None) (s_History s)) [] (s_Active s)) as Ha.
  pose proof (attach_history (s_Sequence s) (s_Lifetimes s) (s_Active s) [] (s_History s)) as Hh.
  cbn [app length] in Ha, Hh. rewrite Ha, Hh. by destruct s.
Qed.

(** ** Without the images *)

Lemma map_alter_blank {A} (blank f : A -> A) i l : (forall x, blank (f x) = blank x) -> map blank (alter f i l) = map blank l.
Proof.
  intros Hf. revert i. induction l as [|x l IH]; intros [|i]; cbn; [done..|by rewrite Hf|]. f_equal. apply IH.
Qed.

Lemma withoutImages_idem s : withoutImages (withoutImages s) = withoutImages s.
Proof. unfold withoutImages. cbn. by rewrite !map_map. Qed.

Lemma withoutImages_set v k s : withoutImages (setImage v k s) = withoutImages s.
Proof. destruct k; unfold withoutImages; cbn; by rewrite map_alter_blank. Qed.

Lemma withoutImages_attach s kept : withoutImages (attach s kept) = withoutImages s.
Proof.
  unfold attach. revert s. induction kept as [|x kept IH]; intros s; cbn [fold_left]; [done|]. by rewrite IH, withoutImages_set.
Qed.

(** ** Claims *)

(** C19: a snapshot is framed within the limit whenever its texts fit: every
    record arrives, the images that go along are the newest ones, as many as
    fit, and the frame is exactly as long as the cost model says, so the loop
    that gives up images afterwards never runs; with room for all images the
    frame is the whole snapshot, and without room for the texts the call
    fails. *)
Theorem snapshot_frame_fits s limit :
  match marshalBodies (withoutImages s) with
  | inl e => marshalSnapshotWithinCost s limit wireImageCost = inl e
  | inr base =>
      if limit <? slen base then marshalSnapshotWithinCost s limit wireImageCost = inl errTooLarge
      else exists dropped kept frame,
        imagesOf s = dropped ++ kept /\ marshalSnapshotWithinCost s limit wireImageCost = inr frame /\
        marshalBodies (attach (withoutImages s) kept) = inr frame /\
        slen frame = slen base + costOf wireImageCost kept /\ slen frame <= limit /\
        (forall d x, dropped = d ++ [x] -> limit < slen frame + wireImageCost x.2) /\
        (dropped = [] -> marshalBodies s = inr frame)
  end.
Proof.
  unfold marshalSnapshotWithinCost. destruct (marshalBodies (withoutImages s)) as [e|base] eqn:Hb; [done|].
  destruct (Z.ltb_spec limit (slen base)) as [Hlt|Hge]; [done|].
  destruct (takeFitting_spec wireImageCost (limit - slen base) (rev (imagesOf s)) ltac:(lia)) as (rest&Hl&Hc&Hr).
  set (taken := takeFitting _ _ _) in *. apply (f_equal (@rev _)) in Hl. rewrite rev_involutive, rev_app_distr in Hl.
  pose proof (imagesOf_nodup s) as Hn. pose proof (imagesOf_slots s) as Hs. rewrite Hl in Hn, Hs.
  rewrite fmap_app in Hn. apply NoDup_app in Hn as (_&_&Hn). apply Forall_app in Hs as [_ Hs].
  destruct (attach_cost (rev taken) (withoutImages s) base Hn Hs Hb) as (frame&Hf&Hlen). rewrite costOf_rev in Hlen.
  exists (rev rest), (rev taken), frame. rewrite costOf_rev. split_and!; [done| |done|done|lia| |].
  - rewrite Hf. destruct (rev taken) as [|x l]; cbn [backstop]; by rewrite (proj2 (Z.ltb_ge _ _)) by lia.
  - intros d x Hd. apply (f_equal (@rev _)) in Hd. rewrite rev_involutive, rev_app_distr in Hd. subst rest. cbn in Hr. lia.
  - intros Hd. rewrite Hd in Hl. cbn [app] in Hl. rewrite <-Hl, attach_all in Hf. done.
Qed.
