(* ===== verification/Views.v ===== *)
(** * The view of a presenter

    Views compared up to their images, which a snapshot frame leaves out when
    they do not fit ([sameTexts]), the view some deltas later ([viewAfter]), and
    what the numbers in the owner's log of events say: the sequence number of a
    delta and of a snapshot counts the deltas before it. *)
From stdpp Require Import gmap strings list.
From Stdlib Require Import ZArith Lia Strings.Byte.
From S2P Require Import Prelude GoLib Protocol Notify History Owner OwnerInv SnapshotFrame.
Local Open Scope string_scope.
Local Open Scope list_scope.
Local Open Scope Z_scope.

(** ** Views without their images *)

Definition sameTexts (v v' : View) : Prop :=
  map (notificationImage None) (v_active v) = map (notificationImage None) (v_active v') /\
  map (historyImage None) (v_history v) = map (historyImage None) (v_history v').

#[global] Instance sameTexts_equivalence : Equivalence sameTexts.
Proof. unfold sameTexts. split; [by split|by intros v v' []|intros v1 v2 v3 [] []; split; congruence]. Qed.

(** A function on records that does not look at their images. *)
Lemma map_blind {A} (blank f g : A -> A) l l' :
  (forall x y, blank x = blank y -> blank (f x) = blank (g y)) -> map blank l = map blank l' -> map blank (map f l) = map blank (map g l').
Proof.
  intros Hf. revert l'. induction l as [|x l IH]; intros [|y l']; try done. cbn. intros [= Hx Hl]. f_equal; auto.
Qed.

Lemma filter_blind {A} (blank : A -> A) (keep : A -> bool) l l' :
  (forall x y, blank x = blank y -> keep x = keep y) -> map blank l = map blank l' ->
  map blank (List.filter keep l) = map blank (List.filter keep l').
Proof.
  intros Hk. revert l'. induction l as [|x l IH]; intros [|y l']; try done. cbn. intros [= Hx Hl]. rewrite (Hk x y Hx).
  destruct (keep y); cbn; [f_equal|]; auto.
Qed.

Lemma blank_n_ID n m : notificationImage None n = notificationImage None m -> n_ID n = n_ID m.
Proof. by intros [= ->]. Qed.

Lemma blank_h_ID h k : historyImage None h = historyImage None k -> h_ID h = h_ID k.
Proof. by intros [= ->]. Qed.

#[global] Instance applyDelta_proper d : Proper (sameTexts ==> sameTexts) (applyDelta d).
Proof.
  intros [act hist] [act' hist'] [Ha Hh]. cbn in Ha, Hh. unfold applyDelta, sameTexts.
  destruct (d_Kind d); cbn.
  - destruct (d_Notification d); [|done]. cbn. by rewrite !map_app, Ha.
  - destruct (d_Notification d) as [n|]; [|done]. cbn. split; [|done]. apply map_blind; [|done]. intros x y Hxy.
    rewrite (blank_n_ID _ _ Hxy). by destruct (_ =? _).
  - split; [|done]. apply filter_blind; [|done]. intros x y Hxy. by rewrite (blank_n_ID _ _ Hxy).
  - destruct (d_History d); [|done]. cbn. by rewrite !map_app, Hh.
  - split; [done|]. apply filter_blind; [|done]. intros x y Hxy. by rewrite (blank_h_ID _ _ Hxy).
  - split; [done|]. apply map_blind; [|done]. intros x y Hxy. rewrite (blank_h_ID _ _ Hxy). case_bool_decide; [|done].
    unfold withSeen, historyImage in *. cbn. by injection Hxy as -> _ -> -> -> -> -> -> -> ->.
  - done.
  - done.
Qed.

(** ** The owner's log *)

Definition deltasOf (evs : list Event) : list Delta := omap ev_Delta evs.

Lemma deltasOf_app evs evs' : deltasOf (evs ++ evs') = deltasOf evs ++ deltasOf evs'.
Proof. apply omap_app. Qed.

Lemma deltasOf_prefix evs evs' : evs `prefix_of` evs' -> deltasOf evs `prefix_of` deltasOf evs'.
Proof. intros [k ->]. rewrite deltasOf_app. by eexists. Qed.

(** The view [n] deltas later. *)
Definition viewAfter (v : View) (deltas : list Delta) (n : Z) : View :=
  fold_left (fun v d => applyDelta d v) (take (Z.to_nat n) deltas) v.

Lemma viewAfter_all v deltas : viewAfter v deltas (zlen deltas) = fold_left (fun v d => applyDelta d v) deltas v.
Proof. unfold viewAfter, zlen. by rewrite Nat2Z.id, take_ge. Qed.

Lemma viewAfter_prefix v deltas deltas' n :
  deltas `prefix_of` deltas' -> n <= zlen deltas -> viewAfter v deltas' n = viewAfter v deltas n.
Proof. intros [k ->] Hn. unfold viewAfter, zlen in *. by rewrite take_app_le by lia. Qed.

Lemma viewAfter_next v deltas n d :
  0 <= n -> deltas !! Z.to_nat n = Some d -> viewAfter v deltas (n + 1) = applyDelta d (viewAfter v deltas n).
Proof.
  intros Hn Hl. unfold viewAfter. replace (Z.to_nat (n + 1)) with (S (Z.to_nat n)) by lia.
  by rewrite (take_S_r _ _ _ Hl), fold_left_app.
Qed.

Lemma fold_deltas evs v : fold_left applyEvent evs v = fold_left (fun v d => applyDelta d v) (deltasOf evs) v.
Proof.
  revert v. induction evs as [|e evs IH]; intros v; cbn; [done|]. rewrite IH. unfold applyEvent. by destruct (ev_Delta e).
Qed.

(** Without a wrap the sequence number counts the deltas. *)
Lemma numbered_count seq evs seq' :
  numbered seq evs seq' -> 0 <= seq -> seq + zlen (deltasOf evs) < 18446744073709551616 -> seq' = seq + zlen (deltasOf evs).
Proof.
  revert seq. induction evs as [|e evs IH]; intros seq; cbn [numbered]; [intros ->; unfold deltasOf, zlen; cbn; lia|].
  unfold deltasOf in *. cbn. destruct (ev_Delta e) as [d|]; [|apply IH]. intros [_ Hn] Hpos.
  rewrite zlen_cons. intros Hlt. pose proof (zlen_nonneg (omap ev_Delta evs)).
  rewrite wrap64_small in Hn by (unfold is_u64; lia). rewrite (IH (seq + 1)); [lia|done|lia|lia].
Qed.

Lemma numbered_split seq evs evs' seq' :
  numbered seq (evs ++ evs') seq' -> exists seq1, numbered seq evs seq1 /\ numbered seq1 evs' seq'.
Proof.
  revert seq. induction evs as [|e evs IH]; intros seq; cbn; [by eexists|].
  destruct (ev_Delta e); [intros [He (s1&?&?)%IH]|intros (s1&?&?)%IH]; by exists s1.
Qed.

Lemma announced_split seq v evs evs' seq1 :
  announced seq v (evs ++ evs') -> numbered seq evs seq1 -> announced seq1 (fold_left applyEvent evs v) evs'.
Proof.
  revert seq v. induction evs as [|e evs IH]; intros seq v; cbn; [by intros ? ->|].
  intros [_ Ha] Hn. unfold sequenceAfter in Ha. destruct (ev_Delta e); [destruct Hn as [_ Hn]|]; by eapply IH.
Qed.

(** An event of a log that started at 0, and the deltas before it. *)
Section Log.
Context (v : View) (log : list Event) (seq : Z).
Hypothesis log_numbered : OwnerInv.numbered 0 log seq.
Hypothesis log_announced : announced 0 v log.
Hypothesis log_bound : zlen (deltasOf log) < 18446744073709551616.

Definition deltasBefore (k : nat) : list Delta := deltasOf (take k log).

Lemma log_split k e : log !! k = Some e ->
  log = take k log ++ e :: drop (S k) log /\
  zlen (deltasBefore k) + zlen (deltasOf (e :: drop (S k) log)) = zlen (deltasOf log) /\
  OwnerInv.numbered (zlen (deltasBefore k)) (e :: drop (S k) log) seq /\
  announced (zlen (deltasBefore k)) (viewAfter v (deltasBefore k) (zlen (deltasBefore k))) (e :: drop (S k) log).
Proof.
  intros Hk. assert (log = take k log ++ e :: drop (S k) log) as Hlog by (by rewrite take_drop_middle).
  assert (zlen (deltasBefore k) + zlen (deltasOf (e :: drop (S k) log)) = zlen (deltasOf log)) as Hlen.
  { rewrite <-zlen_app. unfold deltasBefore. by rewrite <-deltasOf_app, <-Hlog. }
  split; [done|]. split; [done|]. pose proof (zlen_nonneg (deltasOf (e :: drop (S k) log))).
  pose proof log_numbered as Hn. rewrite Hlog in Hn. apply numbered_split in Hn as (seq1&Hn1&Hn2).
  pose proof (numbered_count _ _ _ Hn1 ltac:(lia) ltac:(unfold deltasBefore in *; lia)) as ->. rewrite Z.add_0_l in Hn2.
  split; [done|]. pose proof log_announced as Ha. rewrite Hlog in Ha. pose proof (announced_split _ _ _ _ _ Ha Hn1) as Hd.
  rewrite Z.add_0_l, fold_deltas in Hd. by rewrite viewAfter_all.
Qed.

Lemma log_delta k e d :
  log !! k = Some e -> ev_Delta e = Some d ->
  ev_Sequence e = zlen (deltasBefore k) + 1 /\ deltasOf log !! length (deltasBefore k) = Some d /\
  deltasBefore (S k) = deltasBefore k ++ [d] /\ ev_Snapshot e = None.
Proof.
  intros Hk Hd. destruct (log_split k e Hk) as (Hlog&Hlen&Hn&Ha). cbn in Hn, Ha. rewrite Hd in Hn. destruct Hn as [Hs _].
  assert (deltasOf (e :: drop (S k) log) = d :: deltasOf (drop (S k) log)) as He by (unfold deltasOf; cbn; by rewrite Hd).
  rewrite He, zlen_cons in Hlen. pose proof (zlen_nonneg (deltasOf (drop (S k) log))). pose proof (zlen_nonneg (deltasBefore k)).
  split; [by rewrite Hs, wrap64_small by (unfold is_u64; lia)|]. split.
  - rewrite Hlog at 1. rewrite deltasOf_app, He. by rewrite lookup_app_r, Nat.sub_diag.
  - split; [|destruct Ha as [Ha _]; destruct (ev_Snapshot e); [destruct Ha as (_&_&?); congruence|done]].
    unfold deltasBefore. rewrite (take_S_r _ _ _ Hk), deltasOf_app. f_equal. unfold deltasOf. cbn. by rewrite Hd.
Qed.

Lemma log_snapshot k e sn :
  log !! k = Some e -> ev_Snapshot e = Some sn ->
  s_Sequence sn = zlen (deltasBefore k) /\ snapshotView sn = viewAfter v (deltasOf log) (zlen (deltasBefore k)) /\ ev_Delta e = None.
Proof.
  intros Hk Hsn. destruct (log_split k e Hk) as (Hlog&Hlen&Hn&Ha). cbn in Ha. rewrite Hsn in Ha. destruct Ha as [(->&->&?) _].
  split; [done|]. split; [|done]. symmetry. apply viewAfter_prefix; [|done]. apply deltasOf_prefix. eexists. exact Hlog.
Qed.

Lemma log_quiet k e : log !! k = Some e -> ev_Delta e = None -> deltasBefore (S k) = deltasBefore k.
Proof.
  intros Hk Hd. unfold deltasBefore. rewrite (take_S_r _ _ _ Hk), deltasOf_app. unfold deltasOf at 2. cbn. by rewrite Hd, app_nil_r.
Qed.

End Log.
