(* ===== verification/Publish.v ===== *)
(** * internal/presenter: what the owner's events do to the connections

    [Publish], [publishSnapshot] and [requestResync] of [server.go], over the
    JSON [encoding/json] writes for a delta.  The part of [Publish] under the
    server's mutex is one function on the connections; [publishSnapshot] reads
    the current connection under the mutex and hands it the frame after, so it
    is two. *)
From stdpp Require Import gmap strings list.
From Stdlib Require Import ZArith Lia Strings.Byte.
From S2P Require Import Prelude GoLib Protocol Frame Notify History Owner OwnerInv Connection Handover SnapshotFrame Views.
Local Open Scope string_scope.
Local Open Scope list_scope.
Local Open Scope Z_scope.

(** ** The frame of a delta *)

Definition deltaKind_text (k : DeltaKind) : string :=
  match k with
  | DeltaAdded => "added" | DeltaReplaced => "replaced" | DeltaClosed => "closed"
  | DeltaHistoryAdded => "history-added" | DeltaHistoryRemoved => "history-removed"
  | DeltaHistorySeen => "history-seen" | DeltaHistoryCleared => "history-cleared"
  | DeltaKindOther s => s
  end.

(** A member that is left out when the pointer is nil. *)
Definition optionField {A} (name : string) (f : A -> error + string) (x : option A) : error + list (string * string) :=
  match x with
  | None => inr []
  | Some x => match f x with inl e => inl e | inr text => inr [(name, text)] end
  end.

Definition delta_json (d : Delta) : error + string :=
  match optionField "notification" notification_json (d_Notification d), optionField "history" historyEntry_json (d_History d) with
  | inr notification, inr history =>
      inr (jsonObject ([("kind", jsonString (deltaKind_text (d_Kind d)))] ++ notification ++
        match d_Lifetime d with Some l => [("lifetime", lifetime_json l)] | None => [] end ++ history ++
        omitZero "id" (d_ID d) ++ omitEmptyList "ids" (map jsonUint (d_IDs d)) ++ omitZero "close_reason" (d_CloseReason d)))
  | inl e, _ => inl e
  | _, inl e => inl e
  end.

Definition bytesOfText (text : string) : list Byte.byte := String.list_byte_of_string text.

Definition marshalDelta (sequence : Z) (d : Delta) : error + outbound :=
  match marshalEnvelope (deltaKind_text (d_Kind d)) 0 sequence (delta_json d) with
  | inl e => inl e
  | inr payload => inr (mkOutbound (bytesOfText payload) sequence)
  end.

(** ** Publish *)

(** A method of the connection behind a pointer, which may be nil. *)
Definition visit {R} (i : option nat) (f : connection -> connection * R) (conns : gmap nat connection) :
    gmap nat connection * option (nat * R) :=
  match i ≫= fun i => (fun c => (i, c)) <$> conns !! i with
  | Some (i, c) => let '(c, r) := f c in (<[i := c]> conns, Some (i, r))
  | None => (conns, None)
  end.

(** The section under the mutex: the message goes to the connection that
    prepares and to the current one.  The answer is whether both took it, and
    the connection a resync goroutine is started for. *)
Definition publishMessage (message : outbound) (s : Server) (conns : gmap nat connection) :
    gmap nat connection * bool * option nat :=
  let '(conns, prepared) := visit (sv_preparing s) (prepare message) conns in
  let '(conns, current) := visit (sv_current s) (enqueueDelta message) conns in
  let prepared := match prepared with Some (_, ok) => ok | None => true end in
  match current with
  | Some (i, (published, resync)) =>
      (conns, prepared && published, if resync && negb (sv_closing s) then Some i else None)
  | None => (conns, prepared, None)
  end.

(** [Publish] of an event without a snapshot. *)
Definition presenter_Publish (event : Event) (s : Server) (conns : gmap nat connection) :
    gmap nat connection * bool * option nat :=
  match ev_Delta event with
  | None => (conns, true, None)
  | Some d =>
      if (ev_Sequence event =? 0) || match Delta_Validate d with Some _ => true | None => false end
      then (conns, false, None)
      else match marshalDelta (ev_Sequence event) d with
      | inl _ => (conns, false, None)
      | inr message => publishMessage message s conns
      end
  end.

(** [publishSnapshot] up to its read of the current connection: the connection
    and the frame for it, or the answer it returns with. *)
Definition snapshotTarget (generation : nat -> Z) (event : Event) (snap : Snapshot) (s : Server) :
    bool + nat * list Byte.byte :=
  match marshalSnapshot snap with
  | inl _ => inl false
  | inr frame =>
      match sv_current s with
      | None => inl true
      | Some i =>
          if negb (ev_Generation event =? 0) && negb (generation i =? ev_Generation event) then inl true
          else inr (i, bytesOfText frame)
      end
  end.

(** [requestResync]: its command, and the connection it fails when the owner
    could not publish the snapshot. *)
Definition resyncCommand (generation : Z) : Command :=
  mkCommand PresenterResync zeroCandidate None None 0 "" "" generation 0 [] [].

Definition resyncFailed (generation : nat -> Z) (g : Z) (s : Server) : option nat :=
  match sv_current s with Some i => if generation i =? g then Some i else None | None => None end.

(** ** What it does to each connection *)

(** The connections the server knows. *)
Definition attached (s : Server) (i : nat) : Prop := sv_preparing s = Some i \/ sv_current s = Some i.

#[global] Instance attached_dec s i : Decision (attached s i).
Proof. unfold attached. apply _. Defined.

Lemma visit_lookup {R} i (f : connection -> connection * R) conns j :
  (visit i f conns).1 !! j = (if decide (i = Some j) then (fun c => (f c).1) else id) <$> conns !! j.
Proof.
  unfold visit. destruct i as [i|]; cbn [mbind option_bind].
  - destruct (conns !! i) as [c|] eqn:Hc; cbn [fmap option_fmap option_map].
    + destruct (f c) as [c' r] eqn:Hf. cbn [fst]. destruct (decide (Some i = Some j)) as [[= ->]|Hne].
      * by rewrite lookup_insert_eq, Hc; cbn; rewrite Hf.
      * rewrite lookup_insert_ne by congruence. cbn [fst]. by destruct (conns !! j).
    + destruct (decide (Some i = Some j)) as [[= ->]|Hne]; [by rewrite Hc|]. cbn [fst]. by destruct (conns !! j).
  - rewrite decide_False by done. cbn [fst]. by destruct (conns !! j).
Qed.

(** What a message does to each connection. *)
Definition offered (message : outbound) (s : Server) (i : nat) (c : connection) : connection :=
  let c := if decide (sv_preparing s = Some i) then (prepare message c).1 else c in
  if decide (sv_current s = Some i) then (enqueueDelta message c).1 else c.

Lemma publishMessage_lookup message s conns i :
  (publishMessage message s conns).1.1 !! i = offered message s i <$> conns !! i.
Proof.
  unfold publishMessage, offered. pose proof (visit_lookup (sv_preparing s) (prepare message) conns i) as Hp.
  destruct (visit (sv_preparing s) _ conns) as [conns1 prepared]. cbn [fst] in Hp.
  pose proof (visit_lookup (sv_current s) (enqueueDelta message) conns1 i) as Hc.
  destruct (visit (sv_current s) _ conns1) as [conns2 current]. cbn [fst] in Hc.
  assert (forall x : gmap nat connection * bool * option nat, x.1.1 = conns2 -> x.1.1 !! i = conns2 !! i) as Hx by (by intros x ->).
  transitivity (conns2 !! i); [apply Hx; by destruct current as [[? [? ?]]|]|].
  rewrite Hc, Hp. destruct (conns !! i); cbn; repeat case_decide; done.
Qed.

(** ** What a snapshot frame keeps *)

(** Whatever images are given up, the texts of the snapshot arrive. *)
Lemma backstop_texts limit kept bodies base frame :
  marshalBodies bodies = inr base -> backstop limit bodies base kept = inr frame ->
  exists b, withoutImages b = withoutImages bodies /\ marshalBodies b = inr frame.
Proof.
  revert bodies base. induction kept as [|x kept IH]; intros bodies base Hb; cbn [backstop];
    (destruct (limit <? slen base); [|intros [= <-]; by exists bodies]); [done|].
  destruct (marshalBodies (setImage None x.1 bodies)) as [e|base'] eqn:Hb'; [done|]. intros Hf.
  destruct (IH _ _ Hb' Hf) as (b&Ht&?). exists b. split; [|done]. by rewrite Ht, withoutImages_set.
Qed.

Lemma marshalSnapshot_texts s frame :
  marshalSnapshot s = inr frame -> exists b, withoutImages b = withoutImages s /\ marshalBodies b = inr frame.
Proof.
  unfold marshalSnapshot, marshalSnapshotWithin, marshalSnapshotWithinCost. destruct (marshalBodies (withoutImages s)) as [e|base]; [done|].
  destruct (_ <? slen base); [done|]. set (kept := rev _). destruct (marshalBodies (attach _ _)) as [e|full] eqn:Hf; [done|].
  intros (b&Ht&?)%backstop_texts; [|done]. exists b. split; [|done]. by rewrite Ht, withoutImages_attach, withoutImages_idem.
Qed.

Lemma sameTexts_without b s : withoutImages b = withoutImages s -> sameTexts (snapshotView s) (snapshotView b).
Proof. intros [= _ Ha _ Hh]. by split. Qed.
