(* ===== verification/Listen.v ===== *)
(** * internal/presenter: the socket

    [listenRuntime] of [server.go] with the checks it makes, as programs over
    system calls: the runtime directory of a session is checked component by
    component, a directory of its own is made in it, a stale socket is removed,
    and the new socket is checked again once it is private.  What the calls
    answer is open: other processes may change the file system in between. *)
From stdpp Require Import base gmap list strings.
From Stdlib Require Import ZArith Lia Ascii.
From S2P Require Import Prelude GoLib Paths.
Local Open Scope string_scope.
Local Open Scope list_scope.
Local Open Scope Z_scope.

Definition socketName : string := "presenter.v1.sock".
Definition serviceDir : string := "sysc-notify".

(** ** The checks *)

(** [filepath.Abs] *)
Definition filepath_Abs (path : string) : prog (error + string) :=
  if IsAbs path then Ret (inr (filepath_Clean path))
  else wd ← sys SysGetwd; Ret (match wd with inl e => inl e | inr wd => inr (filepath_Join wd path) end).

Fixpoint rejectLoop (current : string) (parts : list string) : prog (option error) :=
  match parts with
  | [] => Ret None
  | part :: parts =>
      if String.eqb part "" || String.eqb part "." then rejectLoop current parts
      else
        let current := filepath_Join current part in
        info ← sys (SysLstat current);
        match info with
        | inl e => Ret (Some e)
        | inr info =>
            if hasMode ModeSymlink info then Ret (Some (ErrQuoted "presenter: symlink path component " current))
            else rejectLoop current parts
        end
  end.

(** [strings.TrimPrefix] of the separator. *)
Definition trimSlash (s : string) : string :=
  match s with String c s' => if Ascii.eqb c separator then s' else s | EmptyString => "" end.

Definition rejectSymlinkComponents (path : string) : prog (option error) :=
  rejectLoop (String separator "") (splitSlash (trimSlash (filepath_Clean path))).

Definition validateDirectory (path : string) (uid mode : Z) : prog (option error) :=
  info ← sys (SysLstat path);
  match info with
  | inl e => Ret (Some (ErrWrap "presenter: inspect directory: %w" e))
  | inr info =>
      if hasMode ModeSymlink info || negb (IsDir info) || negb (Perm info =? mode) || negb (sm_Uid info =? uid)
      then Ret (Some (ErrQuoted "presenter: unsafe runtime directory " path)) else Ret None
  end.

Definition unsafeSocket (uid : Z) (info : stat) : bool :=
  negb (hasMode ModeSocket info) || hasMode ModeSymlink info || negb (Perm info =? 384) || negb (sm_Uid info =? uid).

Definition validateSocket (path : string) (uid : Z) : prog (option error) :=
  info ← sys (SysLstat path);
  match info with
  | inl e => Ret (Some e)
  | inr info => if unsafeSocket uid info then Ret (Some (ErrQuoted "presenter: unsafe socket " path)) else Ret None
  end.

Definition removeStaleSocket (path : string) (uid : Z) : prog (option error) :=
  info ← sys (SysLstat path);
  match info with
  | inl e => if errors_Is isNotExist e then Ret None else Ret (Some e)
  | inr info =>
      if unsafeSocket uid info then Ret (Some (ErrQuoted "presenter: unsafe existing socket " path))
      else
        dialErr ← sys (SysDial path);
        match dialErr with
        | None => Ret (Some (ErrNew "presenter: socket already active"))
        | Some _ =>
            err ← sys (SysRemove path);
            Ret (match err with Some e => Some (ErrWrap "presenter: remove stale socket: %w" e) | None => None end)
        end
  end.

(** ** listenRuntime *)

(** A failure once there is a listener gives it up. *)
Definition giveUp (path : string) (e : error) : prog (error + string) :=
  _ ← sys SysCloseListener; _ ← sys (SysRemove path); Ret (inl e).

Definition listenAt (path : string) (uid : Z) : prog (error + string) :=
  err ← sys (SysListen path);
  match err with
  | Some e => Ret (inl (ErrWrap "presenter: listen: %w" e))
  | None =>
      err ← sys (SysChmod path 384);
      match err with
      | Some e => giveUp path (ErrWrap "presenter: secure socket: %w" e)
      | None =>
          err ← validateSocket path uid;
          match err with Some e => giveUp path e | None => Ret (inr path) end
      end
  end.

(** [os.Mkdir] of a directory that may be there. *)
Definition mkdirOnce (dir : string) (mode : Z) : prog (option error) :=
  err ← sys (SysMkdir dir mode);
  Ret (match err with
       | Some e => if errors_Is isExist e then None else Some (ErrWrap "presenter: create runtime directory: %w" e)
       | None => None
       end).

Definition listenRuntime (runtimeDir : string) (uid : Z) : prog (error + string) :=
  if String.eqb runtimeDir "" then Ret (inl (ErrNew "presenter: XDG_RUNTIME_DIR is empty"))
  else
    abs ← filepath_Abs runtimeDir;
    match abs with
    | inl e => Ret (inl e)
    | inr abs =>
        let dir := filepath_Join abs serviceDir in
        let path := filepath_Join dir socketName in
        andThen (rejectSymlinkComponents abs)
          (andThen (validateDirectory abs uid 448)
            (andThen (mkdirOnce dir 448)
              (andThen (validateDirectory dir uid 448)
                (andThen (removeStaleSocket path uid) (listenAt path uid)))))
    end.

(** ** What a trace does *)

(** Whether the listener is open. *)
Definition listenerAfter (open : bool) (c : called) : bool :=
  match c with
  | existT op a =>
      match op as op return answer op -> bool with
      | SysListen _ => fun err => match err with None => true | Some _ => open end
      | SysCloseListener => fun _ => false
      | _ => fun _ => open
      end a
  end.

(** Whether the file at [p] is a socket this program made. *)
Definition oursAfter (p : string) (ours : bool) (c : called) : bool :=
  match c with
  | existT op a =>
      match op as op return answer op -> bool with
      | SysListen q => fun err => match err with None => String.eqb p q || ours | Some _ => ours end
      | SysRemove q => fun _ => negb (String.eqb p q) && ours
      | _ => fun _ => ours
      end a
  end.

Definition listening (tr : list called) : bool := fold_left listenerAfter tr false.
Definition ours (p : string) (tr : list called) : bool := fold_left (oursAfter p) tr false.

Definition privateDir (uid mode : Z) (i : stat) : Prop :=
  hasMode ModeSymlink i = false /\ IsDir i = true /\ Perm i = mode /\ sm_Uid i = uid.
Definition privateSocket (uid : Z) (i : stat) : Prop :=
  hasMode ModeSocket i = true /\ hasMode ModeSymlink i = false /\ Perm i = 384 /\ sm_Uid i = uid.

(** A removal is of our own socket, or of a private one that nobody answers. *)
Definition removesSafely (uid : Z) (tr : list called) : Prop :=
  forall tr1 p a tr2, tr = tr1 ++ said (SysRemove p) a :: tr2 ->
    ours p tr1 = true \/ exists tr0 i e, tr1 = tr0 ++ [said (SysLstat p) (inr i); said (SysDial p) (Some e)] /\ privateSocket uid i.

(** Neither listens nor removes. *)
Definition calm (tr : list called) : Prop :=
  Forall (fun c => match projT1 c with SysListen _ | SysCloseListener | SysRemove _ => False | _ => True end) tr.

(** ** Facts about traces *)

Lemma listening_calm tr b : calm tr -> fold_left listenerAfter tr b = b.
Proof.
  intros Hc. revert b. induction Hc as [|[op a] tr Hop _ IH]; intros b; [done|]. cbn [fold_left]. rewrite IH. by destruct op.
Qed.

Lemma ours_calm p tr b : calm tr -> fold_left (oursAfter p) tr b = b.
Proof.
  intros Hc. revert b. induction Hc as [|[op a] tr Hop _ IH]; intros b; [done|]. cbn [fold_left]. rewrite IH. by destruct op.
Qed.

Lemma ours_mono p tr b : fold_left (oursAfter p) tr false = true -> fold_left (oursAfter p) tr b = true.
Proof.
  destruct b; [|done]. generalize false as b. induction tr as [|[op a] tr IH]; intros b; [done|]. cbn [fold_left].
  destruct op; cbn; try apply IH.
  - destruct (String.eqb p path); cbn; [done|apply IH].
  - destruct a; [apply IH|]. destruct (String.eqb p path); cbn; [done|apply IH].
Qed.

Lemma removesSafely_calm uid tr : calm tr -> removesSafely uid tr.
Proof. intros Hc tr1 p a tr2 ->. apply Forall_app in Hc as [_ Hc]. by apply Forall_cons in Hc as [Hc _]. Qed.

Lemma removesSafely_app uid tr tr' : removesSafely uid tr -> removesSafely uid tr' -> removesSafely uid (tr ++ tr').
Proof.
  intros Ht Ht' tr1 p a tr2 Heq. apply app_eq_inv in Heq as [(k&->&Heq)|(k&->&Heq)].
  - destruct k as [|c k].
    + cbn in Heq. destruct (Ht' [] p a tr2 (eq_sym Heq)) as [Ho|(tr0&i&e&Hnil&_)]; [done|by destruct tr0].
    + injection Heq as <- ->. by apply (Ht tr1 p a k).
  - destruct (Ht' k p a tr2 Heq) as [Ho|(tr0&i&e&->&Hp)].
    + left. unfold ours in *. rewrite fold_left_app. by apply ours_mono.
    + right. exists (tr ++ tr0), i, e. by rewrite app_assoc.
Qed.

(** ** What the checks do *)

Lemma rejectLoop_spec before parts tr r :
  Forall component before -> Forall component parts -> exec (rejectLoop (pathOf before) parts) tr r ->
  calm tr /\ (r = None -> forall k, (0 < k <= length parts)%nat ->
    exists i, said (SysLstat (pathOf (before ++ take k parts))) (inr i) ∈ tr /\ hasMode ModeSymlink i = false).
Proof.
  intros Hd Hp. revert before Hd tr. induction Hp as [|c parts Hc Hp IH]; intros before Hd tr; cbn [rejectLoop].
  - intros [-> ->]. split; [constructor|]. cbn. lia.
  - pose proof Hc as (_&H1%String.eqb_neq&H2%String.eqb_neq&_). rewrite H1, H2. cbn [orb]. rewrite Join_pathOf by done.
    intros ([e|i]&tr'&->&Hr)%exec_sys; [by destruct Hr as [-> ->]; split; [repeat constructor|]|].
    cbn [mbind prog_bind] in Hr. destruct (hasMode ModeSymlink i) eqn:Hs; [by destruct Hr as [-> ->]; split; [repeat constructor|]|].
    destruct (IH (before ++ [c]) ltac:(apply Forall_app; split; [done|by constructor]) tr' Hr) as [Hcalm Hall].
    split; [by constructor|]. intros -> [|k] Hk; [lia|]. destruct k as [|k].
    + exists i. split; [left|done].
    + destruct (Hall eq_refl (S k)) as (j&Hj&Hjs); [cbn in Hk; lia|]. exists j. rewrite <-app_assoc in Hj. split; [by right|done].
Qed.

Lemma trimSlash_pathOf cs : trimSlash (pathOf cs) = String.concat "/" cs.
Proof. done. Qed.

Lemma rejectSymlinkComponents_spec cs tr r :
  Forall component cs -> exec (rejectSymlinkComponents (pathOf cs)) tr r ->
  calm tr /\ (r = None -> forall k, (0 < k <= length cs)%nat ->
    exists i, said (SysLstat (pathOf (take k cs))) (inr i) ∈ tr /\ hasMode ModeSymlink i = false).
Proof.
  intros Hcs. unfold rejectSymlinkComponents. rewrite Clean_pathOf, trimSlash_pathOf by done.
  destruct (decide (cs = [])) as [->|Hne]; [cbn; intros [-> ->]; split; [constructor|lia]|].
  rewrite splitSlash_concat by done. by apply (rejectLoop_spec []).
Qed.

Lemma validateDirectory_spec path uid mode tr r :
  exec (validateDirectory path uid mode) tr r ->
  calm tr /\ (r = None -> exists i, tr = [said (SysLstat path) (inr i)] /\ privateDir uid mode i).
Proof.
  intros ([e|i]&tr'&->&Hr)%exec_sys; [by destruct Hr as [-> ->]; split; [repeat constructor|]|].
  cbn [mbind prog_bind] in Hr. destruct (_ || _) eqn:Hx in Hr; destruct Hr as [-> ->]; (split; [repeat constructor|]); [done|]. intros _. exists i. split; [done|].
  apply orb_false_iff in Hx as [[[Hs Hd]%orb_false_iff Hp]%orb_false_iff Hu]. apply negb_false_iff in Hd, Hp, Hu.
  by apply Z.eqb_eq in Hp, Hu.
Qed.

Lemma unsafeSocket_false uid i : unsafeSocket uid i = false -> privateSocket uid i.
Proof.
  unfold unsafeSocket. intros [[[Hs Hd]%orb_false_iff Hp]%orb_false_iff Hu]%orb_false_iff. apply negb_false_iff in Hs, Hp, Hu.
  by apply Z.eqb_eq in Hp, Hu.
Qed.

Lemma validateSocket_spec path uid tr r :
  exec (validateSocket path uid) tr r ->
  calm tr /\ (r = None -> exists i, tr = [said (SysLstat path) (inr i)] /\ privateSocket uid i).
Proof.
  intros ([e|i]&tr'&->&Hr)%exec_sys; [by destruct Hr as [-> ->]; split; [repeat constructor|]|].
  cbn [mbind prog_bind] in Hr. destruct (unsafeSocket uid i) eqn:Hx; destruct Hr as [-> ->]; (split; [repeat constructor|]); [done|]. intros _. exists i.
  split; [done|by apply unsafeSocket_false].
Qed.

Lemma mkdirOnce_calm dir mode tr r : exec (mkdirOnce dir mode) tr r -> calm tr.
Proof. intros (a&tr'&->&->&_)%exec_sys. repeat constructor. Qed.

Lemma removeStaleSocket_spec path uid tr r :
  exec (removeStaleSocket path uid) tr r ->
  removesSafely uid tr /\ listening tr = false /\ forall p, ours p tr = false.
Proof.
  intros ([e|i]&tr'&->&Hr)%exec_sys.
  { cbn [mbind prog_bind] in Hr. assert (tr' = []) as -> by (destruct (errors_Is _ _); by destruct Hr). split_and!; [apply removesSafely_calm; repeat constructor|done|done]. }
  cbn [mbind prog_bind] in Hr. destruct (unsafeSocket uid i) eqn:Hx.
  { destruct Hr as [-> ->]. split_and!; [apply removesSafely_calm; repeat constructor|done|done]. }
  destruct Hr as ([e|]&tr2&->&Hr).
  - destruct Hr as (a&tr3&->&->&_). split_and!; [|done|intros p; cbn; by rewrite andb_false_r].
    intros tr1 p b tr4 Heq. right. destruct tr1 as [|c1 [|c2 [|c3 tr1]]]; try discriminate Heq.
    + apply (f_equal (map (fun c => (c, projT1 c)))) in Heq as Hops. cbn in Hops. assert (path = p) as <- by congruence.
      exists [], i, e. split; [cbn in *; congruence|by apply unsafeSocket_false].
    + apply (f_equal length) in Heq. cbn in Heq. rewrite length_app in Heq. cbn in Heq. lia.
  - destruct Hr as [-> ->]. split_and!; [apply removesSafely_calm; repeat constructor|done|done].
Qed.

(** The working directory the kernel names is absolute. *)
Definition getwdAbsolute (tr : list called) : Prop := forall wd, said SysGetwd (inr wd) ∈ tr -> IsAbs wd = true.

Lemma noGetwd tr : forallb (fun c => match projT1 c with SysGetwd => false | _ => true end) tr = true -> getwdAbsolute tr.
Proof. rewrite forallb_forall. intros Hall wd Hin%list_elem_of_In. by specialize (Hall _ Hin). Qed.

Lemma filepath_Abs_spec path tr r :
  exec (filepath_Abs path) tr r -> getwdAbsolute tr ->
  calm tr /\ match r with inl _ => True | inr abs => exists cs, Forall component cs /\ abs = pathOf cs end.
Proof.
  unfold filepath_Abs. destruct (IsAbs path) eqn:Ha.
  - intros [-> ->] _. split; [constructor|]. destruct (Clean_abs path Ha) as (cs&Hcs&->). by exists cs.
  - intros ([e|wd]&tr'&->&->&->)%exec_sys Hwd; (split; [repeat constructor|]); [done|].
    specialize (Hwd wd (list_elem_of_here _ _)). unfold filepath_Join. destruct wd as [|c wd]; [done|]. cbn [String.eqb].
    destruct (Clean_abs (String.append (String c wd) (String separator path))) as (cs&Hcs&->); [exact Hwd|by exists cs].
Qed.

Lemma removesSafely_snoc uid tr p a :
  removesSafely uid tr -> ours p tr = true -> removesSafely uid (tr ++ [said (SysRemove p) a]).
Proof.
  intros Htr Ho tr1 q b tr2 Heq. destruct tr2 as [|c tr2 _] using rev_ind.
  - apply app_inj_tail in Heq as [<- Heq]. apply (f_equal projT1) in Heq as [= <-]. by left.
  - rewrite app_comm_cons, app_assoc in Heq. apply app_inj_tail in Heq as [-> _]. by eapply Htr.
Qed.

(** What a listener that is given up leaves. *)
Lemma givenUp uid path tr a b :
  calm tr -> let all := (said (SysListen path) None :: tr ++ [said SysCloseListener a]) ++ [said (SysRemove path) b] in
  removesSafely uid all /\ listening all = false /\ forall p, ours p all = false.
Proof.
  intros Hc all. assert (removesSafely uid (said (SysListen path) None :: tr ++ [said SysCloseListener a])) as Hsafe.
  { intros tr1 p x tr2 Heq. destruct tr1 as [|c tr1]; [by apply (f_equal (map projT1)) in Heq|]. injection Heq as _ Heq.
    assert (said (SysRemove p) x ∈ tr ++ [said SysCloseListener a]) as [Hin|Hin]%elem_of_app by (rewrite Heq; apply elem_of_app; right; left).
    - unfold calm in Hc. rewrite Forall_forall in Hc. by apply Hc in Hin.
    - apply list_elem_of_singleton in Hin. by apply (f_equal projT1) in Hin. }
  split_and!.
  - apply removesSafely_snoc; [done|]. unfold ours. cbn [fold_left]. rewrite fold_left_app, (ours_calm _ tr) by done. cbn. by rewrite String.eqb_refl.
  - unfold all, listening. rewrite fold_left_app. cbn [fold_left]. rewrite fold_left_app. done.
  - intros p. unfold all, ours. rewrite fold_left_app. cbn [fold_left]. rewrite fold_left_app, (ours_calm _ tr) by done. cbn.
    by destruct (String.eqb p path).
Qed.

Lemma listenAt_spec path uid tr r :
  exec (listenAt path uid) tr r ->
  removesSafely uid tr /\
  match r with
  | inl _ => listening tr = false /\ forall p, ours p tr = false
  | inr p => p = path /\ exists i, tr = [said (SysListen path) None; said (SysChmod path 384) None; said (SysLstat path) (inr i)] /\
      privateSocket uid i
  end.
Proof.
  assert (forall c, match projT1 c with SysRemove _ => False | _ => True end -> forall tr, calm tr -> removesSafely uid (c :: tr)) as Hone.
  { clear. intros c Hc tr Ht tr1 p a tr2 Heq. exfalso. destruct tr1 as [|d tr1]; injection Heq as -> Heq; [done|].
    subst tr. apply Forall_app in Ht as [_ Ht]. by apply Forall_cons in Ht as [Ht _]. }
  assert (forall tr e r, exec (giveUp path e) tr r -> exists a b, tr = [said SysCloseListener a; said (SysRemove path) b] /\ r = inl e) as Hgive.
  { clear. intros tr e r (a&tr1&->&b&tr2&->&->&->). by exists a, b. }
  intros ([e|]&tr1&->&Hr)%exec_sys; cbn [mbind prog_bind] in Hr.
  { destruct Hr as [-> ->]. split_and!; [|done|done]. apply Hone; [done|constructor]. }
  apply exec_sys in Hr as ([e|]&tr2&->&Hr); cbn [mbind prog_bind] in Hr.
  { apply Hgive in Hr as (a&b&->&->). apply (givenUp uid path [said (SysChmod path 384) (Some e)] a b). repeat constructor. }
  apply exec_bind in Hr as (tr3&tr4&err&->&Hv&Hr). destruct (validateSocket_spec _ _ _ _ Hv) as [Hc Hok]. destruct err as [e|].
  - apply Hgive in Hr as (a&b&->&->). pose proof (givenUp uid path (said (SysChmod path 384) None :: tr3) a b) as Hg. cbn zeta in Hg.
    rewrite <-app_comm_cons, <-app_assoc in Hg. apply Hg. by constructor.
  - destruct Hr as [-> ->]. destruct (Hok eq_refl) as (i&->&Hp). split; [apply Hone; [done|repeat constructor]|]. split; [done|]. by exists i.
Qed.

Lemma serviceDir_component : component serviceDir.
Proof. by split_and!. Qed.

Lemma socketName_component : component socketName.
Proof. by split_and!. Qed.

(** A trace before there is a listener, and what it was for. *)
Definition harmless (uid : Z) (tr : list called) : Prop := removesSafely uid tr /\ listening tr = false /\ forall p, ours p tr = false.

Lemma harmless_calm uid tr : calm tr -> harmless uid tr.
Proof. intros Hc. split_and!; [by apply removesSafely_calm|by apply listening_calm|intros p; by apply ours_calm]. Qed.

Lemma harmless_app uid tr tr' : harmless uid tr -> harmless uid tr' -> harmless uid (tr ++ tr').
Proof.
  intros (H1&H2&H3) (H1'&H2'&H3'). unfold harmless, listening, ours in *.
  split_and!; [by apply removesSafely_app|by rewrite fold_left_app, H2|intros p; by rewrite fold_left_app, H3].
Qed.

(** ** On a disk that nobody else changes *)

(** A runtime directory as a session has it. *)
Record ready (cs : list string) (uid : Z) (d : disk) : Prop := {
  rd_uid : dk_uid d = uid;
  rd_links k : (0 < k <= length cs)%nat -> exists i, dk_files d !! pathOf (take k cs) = Some i /\ hasMode ModeSymlink i = false;
  rd_root : exists i, dk_files d !! pathOf cs = Some i /\ privateDir uid 448 i;
  rd_service i : dk_files d !! pathOf (cs ++ [serviceDir]) = Some i -> privateDir uid 448 i }.

Lemma rejectLoop_quiet before parts d :
  Forall component before -> Forall component parts ->
  (forall k, (0 < k <= length parts)%nat -> exists i, dk_files d !! pathOf (before ++ take k parts) = Some i /\ hasMode ModeSymlink i = false) ->
  runOn quietDisk (rejectLoop (pathOf before) parts) d = (d, None).
Proof.
  intros Hb Hp. revert before Hb. induction Hp as [|c parts Hc Hp IH]; intros before Hb Hall; [done|]. cbn [rejectLoop].
  pose proof Hc as (_&H1%String.eqb_neq&H2%String.eqb_neq&_). rewrite H1, H2. cbn [orb]. rewrite Join_pathOf by done.
  cbn [mbind prog_bind sys runOn quietDisk]. destruct (Hall 1%nat) as (i&Hi&Hs); [cbn; lia|]. cbn [take] in Hi. rewrite take_0 in Hi.
  rewrite Hi, Hs. apply IH; [apply Forall_app; split; [done|by constructor]|]. intros k Hk.
  destruct (Hall (S k)) as (j&Hj&Hjs); [cbn; lia|]. exists j. by rewrite <-app_assoc.
Qed.

Lemma validateDirectory_quiet path uid mode d i :
  dk_files d !! path = Some i -> privateDir uid mode i -> runOn quietDisk (validateDirectory path uid mode) d = (d, None).
Proof.
  intros Hi (Hs&Hd&Hp&Hu). unfold validateDirectory. cbn [mbind prog_bind sys runOn quietDisk].
  rewrite Hi, Hs, Hd, Hp, Hu, !Z.eqb_refl. done.
Qed.

Lemma private_unsafe uid i : privateSocket uid i -> unsafeSocket uid i = false.
Proof. intros (Hk&Hs&Hp&Hu). unfold unsafeSocket. by rewrite Hk, Hs, Hp, Hu, !Z.eqb_refl. Qed.

(** The service's directory is there afterwards, and private. *)
Lemma mkdirOnce_quiet cs uid d :
  Forall component cs -> ready cs uid d ->
  exists d', runOn quietDisk (mkdirOnce (pathOf (cs ++ [serviceDir])) 448) d = (d', None) /\
    (exists i, dk_files d' !! pathOf (cs ++ [serviceDir]) = Some i /\ privateDir uid 448 i) /\
    dk_uid d' = uid /\ dk_live d' = dk_live d /\
    forall p, p <> pathOf (cs ++ [serviceDir]) -> dk_files d' !! p = dk_files d !! p.
Proof.
  intros Hcs [Hu _ (i&Hi&Hri) Hsv]. unfold mkdirOnce. cbn [mbind prog_bind sys runOn quietDisk].
  destruct (dk_files d !! pathOf (cs ++ [serviceDir])) as [j|] eqn:Hj.
  - unfold newFile. rewrite Hj. cbn. exists d. split_and!; [done| |done|done|done]. exists j. split; [done|]. by apply Hsv.
  - rewrite newFile_free; [|done|apply serviceDir_component|done|].
    + cbn. eexists. split; [done|]. cbn. split_and!; [|done|done|intros p Hp; by rewrite lookup_insert_ne].
      eexists. rewrite lookup_insert_eq. split; [done|]. by rewrite Hu.
    + unfold isDirAt. rewrite Hi. destruct Hri as (_&->&_). apply orb_true_r.
Qed.

Lemma listenAt_quiet cs uid d i :
  Forall component cs -> dk_uid d = uid -> dk_files d !! pathOf (cs ++ [serviceDir]) = Some i -> privateDir uid 448 i ->
  dk_files d !! pathOf (cs ++ [serviceDir; socketName]) = None ->
  exists d', runOn quietDisk (listenAt (pathOf (cs ++ [serviceDir; socketName])) uid) d = (d', inr (pathOf (cs ++ [serviceDir; socketName]))) /\
    exists j, dk_files d' !! pathOf (cs ++ [serviceDir; socketName]) = Some j /\ privateSocket uid j.
Proof.
  intros Hcs Hu Hi (_&Hd&_) Hn. replace (cs ++ [serviceDir; socketName]) with ((cs ++ [serviceDir]) ++ [socketName]) in * by (by rewrite <-app_assoc).
  assert (Forall component (cs ++ [serviceDir])) as Hcd by (apply Forall_app; split; [done|repeat constructor; apply serviceDir_component]).
  unfold listenAt. cbn [mbind prog_bind sys runOn quietDisk].
  rewrite newFile_free; [|done|apply socketName_component|done|unfold isDirAt; rewrite Hi, Hd; apply orb_true_r].
  cbn [runOn quietDisk dk_files set_files]. rewrite lookup_insert_eq. cbn [runOn].
  unfold validateSocket. cbn [mbind prog_bind sys runOn quietDisk dk_files set_files]. rewrite insert_insert_eq, lookup_insert_eq.
  set (j := chmodded 384 (mkStat (Z.lor ModeSocket 493) (dk_uid d))). assert (privateSocket uid j) as Hj by (subst; by split_and!).
  rewrite (private_unsafe uid j Hj). cbn [runOn]. eexists. split; [done|]. exists j. cbn. by rewrite lookup_insert_eq.
Qed.

Lemma listenRuntime_quiet cs uid d :
  Forall component cs -> ready cs uid d ->
  let path := pathOf (cs ++ [serviceDir; socketName]) in
  ((forall i, dk_files d !! path = Some i -> privateSocket uid i /\ dk_live d path = false) ->
    exists d', runOn quietDisk (listenRuntime (pathOf cs) uid) d = (d', inr path) /\
      exists i, dk_files d' !! path = Some i /\ privateSocket uid i) /\
  (forall i, dk_files d !! path = Some i -> privateSocket uid i -> dk_live d path = true ->
    exists d' e, runOn quietDisk (listenRuntime (pathOf cs) uid) d = (d', inl e) /\ dk_files d' !! path = Some i).
Proof.
  intros Hcs Hready path. destruct (mkdirOnce_quiet cs uid d Hcs Hready) as (d1&Hmk&(i1&Hi1&Hp1)&Hu1&Hl1&Hsame).
  assert (Forall component (cs ++ [serviceDir])) as Hcd by (apply Forall_app; split; [done|repeat constructor; apply serviceDir_component]).
  assert (path <> pathOf (cs ++ [serviceDir])) as Hne.
  { unfold path. intros Hx%pathOf_inj; [apply (f_equal length) in Hx; rewrite !length_app in Hx; cbn in Hx; lia| |done].
    apply Forall_app; split; [done|]. repeat constructor; first [apply serviceDir_component|apply socketName_component]. }
  assert (runOn quietDisk (listenRuntime (pathOf cs) uid) d =
    runOn quietDisk (andThen (removeStaleSocket path uid) (listenAt path uid)) d1) as Hrun.
  { destruct Hready as [Hu Hlinks (i&Hi&Hri) _]. unfold listenRuntime. change (String.eqb (pathOf cs) "") with false. cbn iota.
    unfold filepath_Abs. change (IsAbs (pathOf cs)) with true. cbn [mbind prog_bind]. rewrite Clean_pathOf by done.
    rewrite Join_pathOf by (done || apply serviceDir_component). rewrite Join_pathOf by (done || apply socketName_component).
    rewrite <-app_assoc. cbn [app]. fold path. rewrite runOn_andThen. unfold rejectSymlinkComponents.
    rewrite Clean_pathOf, trimSlash_pathOf by done.
    assert (runOn quietDisk (rejectLoop (String separator "") (splitSlash (String.concat "/" cs))) d = (d, None)) as ->.
    { destruct (decide (cs = [])) as [->|Hn]; [done|]. rewrite splitSlash_concat by done. apply (rejectLoop_quiet []); [apply List.Forall_nil|done|done]. }
    rewrite runOn_andThen, (validateDirectory_quiet _ _ _ _ _ Hi Hri), runOn_andThen, Hmk, runOn_andThen.
    by rewrite (validateDirectory_quiet _ _ _ _ _ Hi1 Hp1). }
  rewrite Hrun, runOn_andThen. unfold removeStaleSocket. cbn [mbind prog_bind sys runOn quietDisk]. rewrite Hsame by done. split.
  - intros Hstale. destruct (dk_files d !! path) as [j|] eqn:Hj; [|cbn; eapply listenAt_quiet; try done; unfold path in *; by rewrite Hsame].
    destruct (Hstale j eq_refl) as [Hpj Hlive]. rewrite (private_unsafe uid j Hpj). cbn [runOn quietDisk]. rewrite Hl1, Hlive.
    cbn [runOn quietDisk]. rewrite Hsame, Hj by done. cbn [runOn]. eapply listenAt_quiet; [done|done| |exact Hp1|]; cbn.
    + by rewrite lookup_delete_ne.
    + by rewrite lookup_delete_eq.
  - intros i Hi Hpi Hlive. rewrite Hi, (private_unsafe uid i Hpi). cbn [runOn quietDisk]. rewrite Hl1, Hlive. cbn [runOn].
    eexists d1, _. split; [done|]. by rewrite Hsame.
Qed.

(** What a run of [listenRuntime] has done, whatever the file system answered. *)
Lemma listenRuntime_spec runtimeDir uid tr r :
  exec (listenRuntime runtimeDir uid) tr r -> getwdAbsolute tr ->
  removesSafely uid tr /\
  match r with
  | inl _ => listening tr = false /\ forall p, ours p tr = false
  | inr path => exists cs before i, Forall component cs /\ path = pathOf (cs ++ [serviceDir; socketName]) /\
      tr = before ++ [said (SysListen path) None; said (SysChmod path 384) None; said (SysLstat path) (inr i)] /\ privateSocket uid i /\
      (forall k, (0 < k <= length cs)%nat -> exists i, said (SysLstat (pathOf (take k cs))) (inr i) ∈ before /\ hasMode ModeSymlink i = false) /\
      (exists i, said (SysLstat (pathOf cs)) (inr i) ∈ before /\ privateDir uid 448 i) /\
      (exists i, said (SysLstat (pathOf (cs ++ [serviceDir]))) (inr i) ∈ before /\ privateDir uid 448 i)
  end.
Proof.
  unfold listenRuntime. destruct (String.eqb runtimeDir ""); [intros [-> ->] _; apply harmless_calm, List.Forall_nil|].
  intros Hr Hwd. apply exec_bind in Hr as (tr0&tr1&abs&->&Habs&Hr).
  destruct (filepath_Abs_spec _ _ _ Habs) as [Hc0 Hcs]; [intros wd Hin; apply Hwd, elem_of_app; by left|].
  apply (harmless_calm uid) in Hc0. destruct abs as [e|abs]; [destruct Hr as [-> ->]; by rewrite app_nil_r|].
  destruct Hcs as (cs&Hcs&->). rewrite Join_pathOf, Join_pathOf in Hr
    by first [done|apply serviceDir_component|apply socketName_component|apply Forall_app; split; [done|by constructor; [apply serviceDir_component|]]].
  rewrite <-app_assoc in Hr. cbn [app] in Hr.
  apply exec_andThen in Hr as [(e&->&Hm)|(tr2&tr3&->&Hm&Hr)]; destruct (rejectSymlinkComponents_spec _ _ _ Hcs Hm) as [Hc2 Hlinks];
    apply (harmless_calm uid) in Hc2; [by apply (harmless_app uid)|].
  apply exec_andThen in Hr as [(e&->&Hm2)|(tr4&tr5&->&Hm2&Hr)]; destruct (validateDirectory_spec _ _ _ _ _ Hm2) as [Hc4 Hroot];
    apply (harmless_calm uid) in Hc4; [by repeat apply (harmless_app uid)|].
  apply exec_andThen in Hr as [(e&->&Hm3)|(tr6&tr7&->&Hm3&Hr)]; pose proof (mkdirOnce_calm _ _ _ _ Hm3) as Hc6;
    apply (harmless_calm uid) in Hc6; [by repeat apply (harmless_app uid)|].
  apply exec_andThen in Hr as [(e&->&Hm4)|(tr8&tr9&->&Hm4&Hr)]; destruct (validateDirectory_spec _ _ _ _ _ Hm4) as [Hc8 Hdir];
    apply (harmless_calm uid) in Hc8; [by repeat apply (harmless_app uid)|].
  apply exec_andThen in Hr as [(e&->&Hm5)|(tr10&tr11&->&Hm5&Hr)]; pose proof (removeStaleSocket_spec _ _ _ _ Hm5) as Hc10;
    [by repeat apply (harmless_app uid)|].
  destruct (listenAt_spec _ _ _ _ Hr) as [Hsafe Hend].
  assert (harmless uid (tr0 ++ tr2 ++ tr4 ++ tr6 ++ tr8 ++ tr10)) as Hbefore by (by repeat apply harmless_app).
  set (before := tr0 ++ tr2 ++ tr4 ++ tr6 ++ tr8 ++ tr10) in *.
  assert (tr0 ++ tr2 ++ tr4 ++ tr6 ++ tr8 ++ tr10 ++ tr11 = before ++ tr11) as -> by (unfold before; by rewrite <-!app_assoc).
  split; [apply removesSafely_app; [apply Hbefore|done]|]. destruct r as [e|path].
  - destruct Hend as [Hl Ho]. assert (harmless uid (before ++ tr11)) as (_&?&?); [|done]. by apply harmless_app.
  - destruct Hend as (->&i&->&Hi). exists cs, before, i. split_and!; [done|done|done|done| | |].
    + intros k Hk. destruct (Hlinks eq_refl k Hk) as (j&Hj&Hjs). exists j. split; [|done]. unfold before. rewrite !elem_of_app. auto.
    + destruct (Hroot eq_refl) as (j&->&Hj). exists j. split; [|done]. unfold before. rewrite !elem_of_app, list_elem_of_singleton. auto.
    + destruct (Hdir eq_refl) as (j&->&Hj). exists j. split; [|done]. unfold before. rewrite !elem_of_app, list_elem_of_singleton. auto 8.
Qed.

(** ** Claims *)

