(* ===== verification/StateDir.v ===== *)
(** * internal/history: the directories of the store

    The part of [OpenAt] of [store.go] that makes the directories, with
    [makePath] and [splitPath], as programs over system calls.  What [OpenAt]
    does once the directories are there is in [OpenStore]. *)
From stdpp Require Import base gmap list strings.
From Stdlib Require Import ZArith Lia Ascii.
From S2P Require Import Prelude GoLib Paths Listen.
Local Open Scope string_scope.
Local Open Scope list_scope.
Local Open Scope Z_scope.

(** ** splitPath *)

(** The loop takes the last element off; [fuel] bounds the rounds.  On Unix a
    path has no volume name. *)
Fixpoint splitPathLoop (fuel : nat) (path : string) (parts : list string) : option (list string) :=
  if String.eqb path "/" || String.eqb path "." || String.eqb path "" then Some parts
  else match fuel with
  | O => None
  | S fuel =>
      let '(dir, base) := filepath_Split path in
      splitPathLoop fuel (filepath_Clean dir) (if String.eqb base "" then parts else base :: parts)
  end.

Definition splitPath (path : string) : option (list string) := splitPathLoop (String.length path) path [].

(** ** makePath *)

Fixpoint makeLoop (current : string) (parts : list string) : prog (option error) :=
  match parts with
  | [] => Ret None
  | part :: parts =>
      let current := filepath_Join current part in
      let inspect (info : error + stat) : prog (option error) :=
        match info with
        | inl e => Ret (Some (ErrWrap "history: inspect %q: %w" e))
        | inr info =>
            if hasMode ModeSymlink info || negb (IsDir info) then Ret (Some (ErrQuoted "history: unsafe path component " current))
            else makeLoop current parts
        end in
      info ← sys (SysLstat current);
      match info with
      | inl e =>
          if errors_Is isNotExist e then
            err ← sys (SysMkdir current 448);
            match err with
            | Some e =>
                if errors_Is isExist e then info ← sys (SysLstat current); inspect info
                else Ret (Some (ErrWrap "history: create %q: %w" e))
            | None => info ← sys (SysLstat current); inspect info
            end
          else inspect (inl e)
      | inr info => inspect (inr info)
      end
  end.

(** [None] when [splitPath] does not end. *)
Definition makePath (path : string) : option (prog (option error)) :=
  makeLoop (String separator "") <$> splitPath (filepath_Clean path).

(** ** OpenAt, up to reading the file *)

Definition wrapped (text : string) (err : option error) : option error := ErrWrap text <$> err.

(** [os.Chmod], with the error's text around it. *)
Definition secure (text path : string) : prog (option error) :=
  err ← sys (SysChmod path 448); Ret (wrapped text err).

(** [makePath] before the rest; [makePath_pathOf] shows that it always ends on
    the path [filepath.Abs] gives. *)
Definition chain (m : option (prog (option error))) (k : prog (error + (string * string))) : prog (error + (string * string)) :=
  match m with Some m => andThen m k | None => Ret (inl (ErrNew "splitPath does not end")) end.

(** The store's directory and its image directory. *)
Definition openDirs (stateHome : string) : prog (error + (string * string)) :=
  abs ← filepath_Abs stateHome;
  match abs with
  | inl e => Ret (inl (ErrWrap "history: resolve state path: %w" e))
  | inr abs =>
      let dir := filepath_Join abs serviceDir in
      let imageDir := filepath_Join dir "images" in
      chain (makePath abs)
        (chain (makePath dir)
          (andThen (secure "history: secure state directory: %w" dir)
            (chain (makePath imageDir)
              (andThen (secure "history: secure image directory: %w" imageDir)
                (Ret (inr (dir, imageDir)))))))
  end.

(** ** splitPath takes a clean path apart *)

Lemma splitPathLoop_pathOf cs fuel parts :
  Forall component cs -> (length cs <= fuel)%nat -> splitPathLoop fuel (pathOf cs) parts = Some (cs ++ parts).
Proof.
  revert fuel parts. induction cs as [|c cs IH] using rev_ind; intros fuel parts Hcs Hf; [by destruct fuel|].
  apply Forall_app in Hcs as [Hcs Hc]. apply Forall_cons in Hc as [Hc _]. rewrite length_app in Hf. cbn in Hf.
  destruct fuel as [|fuel]; [lia|]. cbn [splitPathLoop].
  assert (String.eqb (pathOf (cs ++ [c])) "/" = false) as ->.
  { apply String.eqb_neq. intros Heq. apply (pathOf_inj _ []) in Heq; [by destruct cs|apply Forall_app; split; [done|by constructor]|by apply List.Forall_nil]. }
  change (String.eqb (pathOf (cs ++ [c])) ".") with false. change (String.eqb (pathOf (cs ++ [c])) "") with false. cbn [orb].
  rewrite Split_pathOf, Clean_dir by done. destruct Hc as (_&Hne&_). rewrite (proj2 (String.eqb_neq c "")) by done.
  rewrite IH by (done || lia). by rewrite <-app_assoc.
Qed.

Lemma pathOf_length cs : Forall component cs -> (length cs <= String.length (pathOf cs))%nat.
Proof.
  assert (forall s t, String.length (String.append s t) = (String.length s + String.length t)%nat) as Happ.
  { clear. intros s t. induction s as [|c s IH]; [done|]. change (String.append (String c s) t) with (String c (String.append s t)). cbn. by rewrite IH. }
  induction cs as [|c cs IH] using rev_ind; intros Hcs; [cbn; lia|]. apply Forall_app in Hcs as [Hcs _]. specialize (IH Hcs).
  rewrite length_app. cbn [length pathOf String.length]. unfold pathOf in IH. cbn [String.length] in IH.
  destruct (decide (cs = [])) as [->|Hne]; [cbn; lia|]. rewrite concat_snoc, Happ by done. cbn. lia.
Qed.

Lemma splitPath_pathOf cs : Forall component cs -> splitPath (pathOf cs) = Some cs.
Proof. intros Hcs. unfold splitPath. rewrite splitPathLoop_pathOf, app_nil_r by (try done; by apply pathOf_length). done. Qed.

Lemma makePath_pathOf cs : Forall component cs -> makePath (pathOf cs) = Some (makeLoop (pathOf []) cs).
Proof. intros Hcs. unfold makePath. by rewrite Clean_pathOf, splitPath_pathOf. Qed.

(** ** What makePath does *)

Definition realDir (i : stat) : Prop := hasMode ModeSymlink i = false /\ IsDir i = true.

(** A directory is made private, and only where there was nothing. *)
Definition makesSafely (tr : list called) : Prop :=
  forall tr1 p mode a tr2, tr = tr1 ++ said (SysMkdir p mode) a :: tr2 ->
    mode = 448 /\ exists tr0 e, tr1 = tr0 ++ [said (SysLstat p) (inl e)] /\ errors_Is isNotExist e = true.

(** No directory is made. *)
Definition makesNone (tr : list called) : Prop := Forall (fun c => match projT1 c with SysMkdir _ _ => False | _ => True end) tr.

Lemma makesSafely_none tr : makesNone tr -> makesSafely tr.
Proof. intros Hn tr1 p mode a tr2 ->. apply Forall_app in Hn as [_ Hn]. by apply Forall_cons in Hn as [Hn _]. Qed.

Lemma makesSafely_app tr tr' : makesSafely tr -> makesSafely tr' -> makesSafely (tr ++ tr').
Proof.
  intros Ht Ht' tr1 p mode a tr2 Heq. apply app_eq_inv in Heq as [(k&->&Heq)|(k&->&Heq)].
  - destruct k as [|c k]; [|injection Heq as <- ->; by apply (Ht tr1 p mode a k)].
    destruct (Ht' [] p mode a tr2 (eq_sym Heq)) as [_ (tr0&e&Hnil&_)]. by destruct tr0.
  - destruct (Ht' k p mode a tr2 Heq) as [? (tr0&e&->&?)]. split; [done|]. exists (tr ++ tr0), e. by rewrite app_assoc.
Qed.

(** One round, with the directory made. *)
Lemma makesSafely_made p e a : errors_Is isNotExist e = true -> makesSafely [said (SysLstat p) (inl e); said (SysMkdir p 448) a].
Proof.
  intros He tr1 q mode b tr2 Heq. destruct tr1 as [|c1 [|c2 tr1]].
  - by apply (f_equal (map projT1)) in Heq.
  - apply (f_equal (map (fun c => (c, projT1 c)))) in Heq as Hops. cbn in Hops. assert (mode = 448) as -> by congruence.
    assert (q = p) as -> by congruence. split; [done|]. exists [], e. split; [cbn in *; congruence|done].
  - apply (f_equal length) in Heq. cbn in Heq. rewrite length_app in Heq. cbn in Heq. lia.
Qed.

Lemma makeLoop_spec before parts tr r :
  Forall component before -> Forall component parts -> exec (makeLoop (pathOf before) parts) tr r ->
  makesSafely tr /\ (r = None -> forall k, (0 < k <= length parts)%nat ->
    exists i, said (SysLstat (pathOf (before ++ take k parts))) (inr i) ∈ tr /\ realDir i).
Proof.
  intros Hb Hp. revert before Hb tr. induction Hp as [|c parts Hc Hp IH]; intros before Hb tr; cbn [makeLoop].
  { intros [-> ->]. split; [apply makesSafely_none, List.Forall_nil|]. cbn. lia. }
  rewrite Join_pathOf by done. set (p := pathOf (before ++ [c])).
  assert (Forall component (before ++ [c])) as Hbc by (apply Forall_app; split; [done|by constructor]).
  (* what follows the last look at the component *)
  assert (forall info tr2, exec (match info with
      | inl e => Ret (Some (ErrWrap "history: inspect %q: %w" e))
      | inr info => if hasMode ModeSymlink info || negb (IsDir info) then Ret (Some (ErrQuoted "history: unsafe path component " p))
                    else makeLoop p parts
      end) tr2 r -> forall tr1, makesSafely tr1 -> said (SysLstat p) info ∈ tr1 ->
    makesSafely (tr1 ++ tr2) /\ (r = None -> forall k, (0 < k <= length (c :: parts))%nat ->
      exists i, said (SysLstat (pathOf (before ++ take k (c :: parts)))) (inr i) ∈ tr1 ++ tr2 /\ realDir i)) as Hrest.
  { intros [e|i] tr2 Hr tr1 H1 Hin; [by destruct Hr as [-> ->]; rewrite app_nil_r|].
    destruct (hasMode ModeSymlink i || negb (IsDir i)) eqn:Hbad; [by destruct Hr as [-> ->]; rewrite app_nil_r|].
    apply orb_false_iff in Hbad as [Hs Hd%negb_false_iff]. destruct (IH _ Hbc tr2 Hr) as [H2 Hall].
    split; [by apply makesSafely_app|]. intros -> [|[|k]] Hk; [lia| |].
    - exists i. split; [apply elem_of_app; by left|done].
    - destruct (Hall eq_refl (S k)) as (j&Hj&Hjd); [cbn in Hk; lia|]. exists j. rewrite <-app_assoc in Hj.
      split; [apply elem_of_app; by right|done]. }
  assert (forall op a, match op with SysMkdir _ _ => False | _ => True end -> makesSafely [said op a]) as Hone.
  { intros op a Hop. apply makesSafely_none. constructor; [done|apply List.Forall_nil]. }
  intros (info&tr1&->&Hr)%exec_sys. cbn [mbind prog_bind] in Hr.
  destruct info as [e|i]; [|apply (Hrest (inr i) tr1 Hr [said (SysLstat p) (inr i)]); [by apply Hone|left]].
  destruct (errors_Is isNotExist e) eqn:He; [|apply (Hrest (inl e) tr1 Hr [said (SysLstat p) (inl e)]); [by apply Hone|left]].
  apply exec_sys in Hr as (err&tr2&->&Hr). cbn [mbind prog_bind] in Hr. pose proof (makesSafely_made p e err He) as Hmade.
  assert (forall info, makesSafely ([said (SysLstat p) (inl e); said (SysMkdir p 448) err] ++ [said (SysLstat p) info])) as Htwo.
  { intros info. apply makesSafely_app; [done|by apply Hone]. }
  destruct err as [e'|]; [destruct (errors_Is isExist e') eqn:Hx|].
  - apply exec_sys in Hr as (info&tr3&->&Hr). eapply (Hrest info tr3 Hr _ (Htwo info)). right; right; left.
  - destruct Hr as [-> ->]. split; [done|done].
  - apply exec_sys in Hr as (info&tr3&->&Hr). eapply (Hrest info tr3 Hr _ (Htwo info)). right; right; left.
Qed.

(** ** What makePath makes on a disk of its own *)

(** [d'] is [d] with new private directories at paths of [made]. *)
Record extends (made : string -> Prop) (d d' : disk) : Prop := {
  ex_old : dk_files d ⊆ dk_files d';
  ex_new p i : dk_files d' !! p = Some i -> dk_files d !! p = None -> made p /\ i = mkStat (Z.lor ModeDir 448) (dk_uid d);
  ex_rest : dk_live d' = dk_live d /\ dk_uid d' = dk_uid d /\ dk_wd d' = dk_wd d }.

Lemma extends_refl made d : extends made d d.
Proof. split; [done| |done]. congruence. Qed.

Lemma extends_trans made d1 d2 d3 : extends made d1 d2 -> extends made d2 d3 -> extends made d1 d3.
Proof.
  intros [O12 N12 (?&U12&?)] [O23 N23 (?&?&?)]. split; [by etrans| |split_and!; congruence].
  intros p i Hi Hn. destruct (dk_files d2 !! p) as [j|] eqn:Hj.
  - assert (j = i) as -> by (pose proof (lookup_weaken _ _ _ _ Hj O23); congruence). by apply N12.
  - rewrite <-U12. by apply N23.
Qed.

Lemma isDirAt_real p i d : dk_files d !! p = Some i -> realDir i -> isDirAt p d = true.
Proof. intros Hi [_ Hd]. unfold isDirAt. rewrite Hi, Hd. apply orb_true_r. Qed.

Lemma newDir_real uid : realDir (mkStat (Z.lor ModeDir 448) uid) /\ Perm (mkStat (Z.lor ModeDir 448) uid) = 448.
Proof. by split. Qed.

(** What is there already of a path is directories. *)
Definition realPrefixes (before parts : list string) (d : disk) : Prop :=
  forall k i, (0 < k <= length parts)%nat -> dk_files d !! pathOf (before ++ take k parts) = Some i -> realDir i.

Lemma makeLoop_quiet before parts d :
  Forall component before -> Forall component parts -> isDirAt (pathOf before) d = true -> realPrefixes before parts d ->
  exists d', runOn quietDisk (makeLoop (pathOf before) parts) d = (d', None) /\
    extends (fun p => exists k, (0 < k <= length parts)%nat /\ p = pathOf (before ++ take k parts)) d d' /\
    forall k, (0 < k <= length parts)%nat -> exists i, dk_files d' !! pathOf (before ++ take k parts) = Some i /\ realDir i.
Proof.
  intros Hb Hp. revert before Hb d. induction Hp as [|c parts Hc Hp IH]; intros before Hb d Hdir Hreal; cbn [makeLoop].
  { exists d. split; [done|]. split; [apply extends_refl|]. cbn. lia. }
  rewrite Join_pathOf by done. set (p := pathOf (before ++ [c])).
  assert (Forall component (before ++ [c])) as Hbc by (apply Forall_app; split; [done|by constructor]).
  (* once the component is there *)
  assert (forall d1 i, dk_files d1 !! p = Some i -> realDir i -> extends (fun q => q = p) d d1 ->
    exists d', runOn quietDisk (if hasMode ModeSymlink i || negb (IsDir i) then Ret (Some (ErrQuoted "history: unsafe path component " p))
        else makeLoop p parts) d1 = (d', None) /\
      extends (fun q => exists k, (0 < k <= length (c :: parts))%nat /\ q = pathOf (before ++ take k (c :: parts))) d d' /\
      forall k, (0 < k <= length (c :: parts))%nat -> exists i, dk_files d' !! pathOf (before ++ take k (c :: parts)) = Some i /\ realDir i) as Hrest.
  { intros d1 i Hi Hri Hex. destruct Hri as [Hs Hd] eqn:Hrd. rewrite Hs, Hd. cbn [orb negb].
    destruct (IH _ Hbc d1) as (d'&Hrun&Hext&Hall).
    - by eapply isDirAt_real.
    - intros k j Hk Hj. destruct (dk_files d !! pathOf ((before ++ [c]) ++ take k parts)) as [j'|] eqn:Hold.
      + rewrite <-app_assoc in Hold. apply (Hreal (S k) j); [cbn; lia|]. cbn [take].
        rewrite <-app_assoc in Hj. pose proof (lookup_weaken _ _ _ _ Hold (ex_old _ _ _ Hex)) as Hj'.
        change ([c] ++ take k parts) with (c :: take k parts) in *. congruence.
      + by destruct (ex_new _ _ _ Hex _ _ Hj Hold) as [_ ->].
    - exists d'. split; [exact Hrun|]. split.
      + apply (extends_trans _ d d1).
        * destruct Hex as [E1 E2 E3]. split; [done| |done]. intros q j Hq Hn. destruct (E2 q j Hq Hn) as [-> ->]. split; [|done].
          exists 1%nat. cbn. split; [lia|]. by rewrite take_0.
        * destruct Hext as [E1 E2 E3]. split; [done| |done]. intros q j Hq Hn. destruct (E2 q j Hq Hn) as [(k&Hk&->) ->]. split; [|done].
          exists (S k). cbn. split; [lia|]. by rewrite <-app_assoc.
      + intros [|[|k]] Hk; [lia| |].
        * exists i. cbn [take]. rewrite take_0. split; [|done]. by eapply lookup_weaken, (ex_old _ _ _ Hext).
        * destruct (Hall (S k)) as (j&Hj&Hjd); [cbn in Hk; lia|]. exists j. rewrite <-app_assoc in Hj. done. }
  cbn [mbind prog_bind sys runOn quietDisk]. destruct (dk_files d !! p) as [i|] eqn:Hi.
  - apply Hrest; [done| |apply extends_refl]. apply (Hreal 1%nat i); [cbn; lia|]. cbn [take]. by rewrite take_0.
  - cbn [errors_Is errNoSuchFile isNotExist orb runOn quietDisk]. unfold p in Hi. rewrite (newFile_free d before c) by done. fold p.
    cbn [runOn quietDisk dk_files set_files]. rewrite lookup_insert_eq. apply Hrest.
    + cbn. by rewrite lookup_insert_eq.
    + apply newDir_real.
    + split; cbn; [by apply insert_subseteq| |done]. intros q j [[<- <-]|[Hne Hj]]%lookup_insert_Some Hn; [done|congruence].
Qed.

Lemma images_component : component "images".
Proof. by split_and!. Qed.

Lemma chmodded_real i : realDir i -> realDir (chmodded 448 i) /\ Perm (chmodded 448 i) = 448.
Proof.
  intros [Hs Hd]. split; [split|by apply chmodded_perm].
  - unfold ModeSymlink. by rewrite chmodded_mode by lia.
  - unfold IsDir, ModeDir. by rewrite chmodded_mode by lia.
Qed.

Lemma secure_spec text path tr r : exec (secure text path) tr r -> makesSafely tr /\ (r = None -> said (SysChmod path 448) None ∈ tr).
Proof.
  intros (a&tr'&->&->&->)%exec_sys. split; [apply makesSafely_none; by repeat constructor|]. destruct a; [done|]. intros _. left.
Qed.

Lemma andThen_makes {A} m (k : prog (error + A)) tr r (Q : list called -> Prop) :
  exec (andThen m k) tr r -> (forall tr e, exec m tr e -> makesSafely tr /\ (e = None -> Q tr)) ->
  (exists e, r = inl e /\ makesSafely tr) \/
  (exists tr1 tr2, tr = tr1 ++ tr2 /\ makesSafely tr1 /\ Q tr1 /\ exec k tr2 r).
Proof.
  intros Hr Hm. apply exec_andThen in Hr as [(e&->&Hx)|(tr1&tr2&->&Hx&Hr)]; destruct (Hm _ _ Hx) as [Hs HQ]; [left; eauto|].
  right. exists tr1, tr2. auto.
Qed.

(** ** Claims *)

(** The directories of the store under a state home. *)
Definition storeDir (cs : list string) : string := pathOf (cs ++ [serviceDir]).
Definition storeImages (cs : list string) : string := pathOf (cs ++ [serviceDir; "images"]).

Lemma openDirs_chain cs :
  Forall component cs ->
  (let dir := filepath_Join (pathOf cs) serviceDir in let imageDir := filepath_Join dir "images" in
   chain (makePath (pathOf cs)) (chain (makePath dir) (andThen (secure "history: secure state directory: %w" dir)
     (chain (makePath imageDir) (andThen (secure "history: secure image directory: %w" imageDir) (Ret (inr (dir, imageDir)))))))) =
  andThen (makeLoop (pathOf []) cs) (andThen (makeLoop (pathOf []) (cs ++ [serviceDir]))
    (andThen (secure "history: secure state directory: %w" (storeDir cs))
      (andThen (makeLoop (pathOf []) (cs ++ [serviceDir; "images"]))
        (andThen (secure "history: secure image directory: %w" (storeImages cs)) (Ret (inr (storeDir cs, storeImages cs))))))).
Proof.
  intros Hcs. cbn zeta. assert (Forall component (cs ++ [serviceDir])) as Hd.
  { apply Forall_app; split; [done|]. constructor; [apply serviceDir_component|apply List.Forall_nil]. }
  rewrite Join_pathOf by (done || apply serviceDir_component). rewrite Join_pathOf by (done || apply images_component).
  rewrite <-app_assoc. cbn [app]. rewrite !makePath_pathOf; [done| |done|done].
  apply Forall_app; split; [done|]. constructor; [apply serviceDir_component|constructor; [apply images_component|apply List.Forall_nil]].
Qed.

Lemma store_components cs : Forall component cs -> Forall component (cs ++ [serviceDir]) /\ Forall component (cs ++ [serviceDir; "images"]).
Proof.
  intros Hcs. split; (apply Forall_app; split; [done|]); repeat constructor; first [apply serviceDir_component|apply images_component].
Qed.

(** On a quiet disk. *)
Lemma realPrefixes_extends made parts d d' : extends made d d' -> realPrefixes [] parts d -> realPrefixes [] parts d'.
Proof.
  intros Hex Hr k i Hk Hi. cbn [app] in *. destruct (dk_files d !! pathOf (take k parts)) as [j|] eqn:Hj.
  - pose proof (lookup_weaken _ _ _ _ Hj (ex_old _ _ _ Hex)) as Hj'. assert (j = i) as -> by congruence. by apply (Hr k).
  - by destruct (ex_new _ _ _ Hex _ _ Hi Hj) as [_ ->].
Qed.

Lemma realPrefixes_take parts more d : realPrefixes [] (parts ++ more) d -> realPrefixes [] parts d.
Proof. intros Hr k i Hk Hi. apply (Hr k i); [rewrite length_app; lia|]. cbn [app] in *. by rewrite take_app_le by lia. Qed.

Lemma secure_quiet text path d i :
  dk_files d !! path = Some i -> runOn quietDisk (secure text path) d = (set_files (<[path := chmodded 448 i]> (dk_files d)) d, None).
Proof. intros Hi. unfold secure. cbn [mbind prog_bind sys runOn quietDisk]. by rewrite Hi. Qed.

Lemma realPrefixes_chmod parts d p i :
  dk_files d !! p = Some i -> realDir i -> realPrefixes [] parts d ->
  realPrefixes [] parts (set_files (<[p := chmodded 448 i]> (dk_files d)) d).
Proof.
  intros Hi Hri Hr k j Hk. cbn. intros [[_ <-]|[_ Hj]]%lookup_insert_Some; [by apply chmodded_real|by apply (Hr k)].
Qed.

(** [makePath] and the mode of what it made, on a quiet disk. *)
Lemma make_and_secure text parts more d :
  Forall component parts -> parts <> [] -> realPrefixes [] (parts ++ more) d ->
  exists d', (forall A (k : prog (error + A)), runOn quietDisk (andThen (makeLoop (pathOf []) parts) (andThen (secure text (pathOf parts)) k)) d =
      runOn quietDisk k d') /\ realPrefixes [] (parts ++ more) d' /\
    (exists i, dk_files d' !! pathOf parts = Some i /\ realDir i /\ Perm i = 448) /\
    forall p i, dk_files d !! p = Some i -> p <> pathOf parts -> dk_files d' !! p = Some i.
Proof.
  intros Hp Hne Hr. destruct (makeLoop_quiet [] parts d (List.Forall_nil _) Hp eq_refl (realPrefixes_take _ _ _ Hr)) as (d1&Hrun&Hex&Hall).
  destruct (Hall (length parts)) as (i&Hi&Hri); [destruct parts; [done|cbn; lia]|]. cbn [app] in Hi. rewrite firstn_all in Hi.
  exists (set_files (<[pathOf parts := chmodded 448 i]> (dk_files d1)) d1). split; [|split_and!].
  - intros A k. by rewrite runOn_andThen, Hrun, runOn_andThen, (secure_quiet _ _ _ _ Hi).
  - apply realPrefixes_chmod; [done|done|]. by eapply realPrefixes_extends.
  - exists (chmodded 448 i). cbn. rewrite lookup_insert_eq. split; [done|]. by apply chmodded_real.
  - intros p j Hj Hpp. cbn. rewrite lookup_insert_ne by done. by eapply lookup_weaken, (ex_old _ _ _ Hex).
Qed.

Lemma openDirs_quiet cs d :
  Forall component cs -> realPrefixes [] (cs ++ [serviceDir; "images"]) d ->
  exists d', runOn quietDisk (openDirs (pathOf cs)) d = (d', inr (storeDir cs, storeImages cs)) /\
    (forall p, p = storeDir cs \/ p = storeImages cs -> exists i, dk_files d' !! p = Some i /\ realDir i /\ Perm i = 448) /\
    (forall p i, dk_files d !! p = Some i -> p <> storeDir cs -> p <> storeImages cs -> dk_files d' !! p = Some i).
Proof.
  intros Hcs Hr. pose proof (store_components cs Hcs) as [Hd Himg]. unfold openDirs, filepath_Abs.
  change (IsAbs (pathOf cs)) with true. cbn [mbind prog_bind]. rewrite Clean_pathOf, openDirs_chain by done.
  destruct (makeLoop_quiet [] cs d (List.Forall_nil _) Hcs eq_refl (realPrefixes_take _ _ _ Hr)) as (d1&Hrun1&Hex1&_).
  rewrite runOn_andThen, Hrun1. apply (realPrefixes_extends _ _ _ _ Hex1) in Hr.
  replace (cs ++ [serviceDir; "images"]) with ((cs ++ [serviceDir]) ++ ["images"]) in * by (by rewrite <-app_assoc).
  destruct (make_and_secure "history: secure state directory: %w" (cs ++ [serviceDir]) ["images"] d1 Hd) as (d2&Hrun2&Hr2&Hdir&Hold2);
    [by destruct cs|done|].
  unfold storeDir at 1. rewrite Hrun2. unfold storeImages at 1. replace (cs ++ [serviceDir; "images"]) with ((cs ++ [serviceDir]) ++ ["images"]) by (by rewrite <-app_assoc).
  destruct (make_and_secure "history: secure image directory: %w" ((cs ++ [serviceDir]) ++ ["images"]) [] d2 Himg) as (d3&Hrun3&_&Himgs&Hold3);
    [by destruct cs|by rewrite app_nil_r|].
  rewrite Hrun3. exists d3.
  assert (storeImages cs = pathOf ((cs ++ [serviceDir]) ++ ["images"])) as Heq by (unfold storeImages; by rewrite <-app_assoc).
  assert (storeDir cs <> storeImages cs) as Hne.
  { rewrite Heq. intros Hx%pathOf_inj; [|done|done]. apply (f_equal length) in Hx. rewrite !length_app in Hx. cbn in Hx. lia. }
  split; [done|]. split.
  - intros p [-> | ->]; [|by rewrite Heq]. destruct Hdir as (i&Hi&Hri). exists i. split; [|done]. apply Hold3; [done|by rewrite <-Heq].
  - intros p i Hi H1 H2. apply Hold3; [|by rewrite <-Heq]. apply Hold2; [|done]. by eapply lookup_weaken, (ex_old _ _ _ Hex1).
Qed.

(** Whatever the file system answers. *)
Lemma openDirs_spec stateHome tr r :
  exec (openDirs stateHome) tr r -> getwdAbsolute tr ->
  makesSafely tr /\
  match r with
  | inl _ => True
  | inr (dir, imageDir) => exists cs, Forall component cs /\ dir = storeDir cs /\ imageDir = storeImages cs /\
      said (SysChmod dir 448) None ∈ tr /\ said (SysChmod imageDir 448) None ∈ tr /\
      forall k, (0 < k <= length cs + 2)%nat -> exists i,
        said (SysLstat (pathOf (take k (cs ++ [serviceDir; "images"])))) (inr i) ∈ tr /\ realDir i
  end.
Proof.
  intros Hr Hwd. unfold openDirs in Hr. apply exec_bind in Hr as (tr0&tr1&abs&->&Habs&Hr).
  destruct (filepath_Abs_spec _ _ _ Habs) as [_ Hcs]; [intros wd Hin; apply Hwd, elem_of_app; by left|].
  assert (makesSafely tr0) as H0.
  { revert Habs. unfold filepath_Abs. destruct (IsAbs stateHome); [intros [-> _]; apply makesSafely_none, List.Forall_nil|].
    intros (a&tr'&->&->&_). apply makesSafely_none. by repeat constructor. }
  destruct abs as [e|abs]; [destruct Hr as [-> ->]; by rewrite app_nil_r|]. destruct Hcs as (cs&Hcs&->).
  pose proof (store_components cs Hcs) as [Hd Himg]. rewrite openDirs_chain in Hr by done.
  assert (forall parts tr e, Forall component parts -> exec (makeLoop (pathOf []) parts) tr e -> makesSafely tr /\ (e = None ->
    forall k, (0 < k <= length parts)%nat -> exists i, said (SysLstat (pathOf (take k parts))) (inr i) ∈ tr /\ realDir i)) as Hmake.
  { intros parts tr e Hp. by apply (makeLoop_spec []); [apply List.Forall_nil|]. }
  apply (andThen_makes _ _ _ _ (fun _ => True)) in Hr as [(e&->&Hs)|(tr2&tr3&->&Hs2&_&Hr)];
    [by split; [apply makesSafely_app|]| |intros tr e Hx; split; [by apply (Hmake cs tr e)|done]].
  apply (andThen_makes _ _ _ _ (fun _ => True)) in Hr as [(e&->&Hs)|(tr4&tr5&->&Hs4&_&Hr)];
    [by split; [repeat apply makesSafely_app|]| |intros tr e Hx; split; [by apply (Hmake _ tr e Hd)|done]].
  apply (andThen_makes _ _ _ _ (fun tr => said (SysChmod (storeDir cs) 448) None ∈ tr)) in Hr as [(e&->&Hs)|(tr6&tr7&->&Hs6&Hc6&Hr)];
    [by split; [repeat apply makesSafely_app|]| |intros tr e; apply secure_spec].
  apply (andThen_makes _ _ _ _ (fun tr => forall k, (0 < k <= length (cs ++ [serviceDir; "images"]))%nat ->
    exists i, said (SysLstat (pathOf (take k (cs ++ [serviceDir; "images"])))) (inr i) ∈ tr /\ realDir i)) in Hr as [(e&->&Hs)|(tr8&tr9&->&Hs8&Hc8&Hr)];
    [by split; [repeat apply makesSafely_app|]| |intros tr e; by apply Hmake].
  apply (andThen_makes _ _ _ _ (fun tr => said (SysChmod (storeImages cs) 448) None ∈ tr)) in Hr as [(e&->&Hs)|(tr10&tr11&->&Hs10&Hc10&Hr)];
    [by split; [repeat apply makesSafely_app|]| |intros tr e; apply secure_spec].
  destruct Hr as [-> ->]. rewrite app_nil_r. split; [by repeat apply makesSafely_app|]. exists cs.
  split_and!; [done|done|done|rewrite !elem_of_app; auto 8|rewrite !elem_of_app; auto 8|].
  intros k Hk. destruct (Hc8 k) as (i&Hi&Hri); [rewrite length_app; cbn; lia|]. exists i. split; [rewrite !elem_of_app; auto 8|done].
Qed.
