(* ===== verification/OpenStore.v ===== *)
(** * internal/history: [OpenAt] as a whole

    [OpenAt] and [quarantine] of [store.go] as a program over system calls: it
    makes the directories, decides by what it read of the file, and moves a
    file it cannot use aside.  Reading and decoding the file, the commit that
    drops old entries and the cleaning up of the images are arguments, as in
    [Reopen]; the commit and the images are followed in [Persist] and
    [Sidecar]. *)
From stdpp Require Import base gmap list strings.
From Stdlib Require Import ZArith Lia Ascii Strings.Byte.
From S2P Require Import Prelude GoLib Paths Listen Protocol Frame Notify History Reopen StateDir.
Local Open Scope string_scope.
Local Open Scope list_scope.
Local Open Scope Z_scope.

(** ** quarantine *)

Definition historyFilename : string := "history.json".

(** [now.UTC().Format("20060102T150405.000000000Z")], for a year of four digits. *)
Definition quarantineStamp (now : Time) : string :=
  let '(y, m, d) := civil (now / (24 * Hour)) in
  let secs := now mod (24 * Hour) / Second in
  fixedDigits 4 y (fixedDigits 2 m (fixedDigits 2 d (String "T"%char
    (fixedDigits 2 (secs / 3600) (fixedDigits 2 (secs / 60 mod 60) (fixedDigits 2 (secs mod 60)
      (String "."%char (fixedDigits 9 (now mod Second) "Z")))))))).

Definition quarantineName (now : Time) (random : list Byte.byte) : string :=
  String.concat "" ["history.quarantine-"; quarantineStamp now; "-"; hexEncode random; ".json"].

(** The new name, which is empty when the file was not moved, and the error. *)
Definition quarantine (dir : string) (now : Time) : prog (string * option error) :=
  random ← sys (SysRandom 6);
  match random with
  | inl e => Ret ("", Some (ErrWrap "history: generate quarantine name: %w" e))
  | inr random =>
      let name := quarantineName now random in
      err ← sys (SysRename (filepath_Join dir historyFilename) (filepath_Join dir name));
      match err with
      | Some e => Ret ("", Some (ErrWrap "history: quarantine invalid file: %w" e))
      | None =>
          err ← sys (SysSyncDir dir);
          Ret (name, wrapped "history: quarantine moved file to %s: %w" err)
      end
  end.

(** ** OpenAt *)

Section OpenStore.
Context `{Png, Sha256, Sidecars}.

(** Why the file is moved aside, if it is. *)
Definition unusableErr (read : error + (error + document)) : option error :=
  match read with
  | inl err => if errors_Is isNotExist err || negb (errors_Is isFileTooLarge err) then None else Some err
  | inr (inl err) => Some err
  | inr (inr doc) => match decodeDocument doc with inl err => Some err | inr _ => None end
  end.

(** [read] is what reading and decoding a file gives. *)
Definition openStore (stateHome : string) (read : string -> error + (error + document)) (now : Time)
    (committed cleaned : option error) : prog (error + Store) :=
  dirs ← openDirs stateHome;
  match dirs with
  | inl e => Ret (inl e)
  | inr (dir, _) =>
      let read := read (filepath_Join dir historyFilename) in
      quarantined ← match unusableErr read with Some _ => quarantine dir now | None => Ret ("", None) end;
      Ret (OpenAt read now quarantined.2 committed cleaned)
  end.

(** [Open]: [env] is XDG_STATE_HOME, [home] the answer of [os.UserHomeDir]. *)
Definition Open (env : string) (home : error + string) (read : string -> error + (error + document)) (now : Time)
    (committed cleaned : option error) : prog (error + Store) :=
  if negb (String.eqb env "") then openStore env read now committed cleaned
  else match home with
  | inl e => Ret (inl (ErrWrap "history: resolve home: %w" e))
  | inr home => openStore (filepath_Join (filepath_Join home ".local") "state") read now committed cleaned
  end.

(** A file is only moved aside when it cannot be used, and then nothing else
    is done with it. *)
Lemma OpenAt_usable read now quarantined quarantined' committed cleaned :
  unusableErr read = None -> OpenAt read now quarantined committed cleaned = OpenAt read now quarantined' committed cleaned.
Proof.
  unfold unusableErr, OpenAt. destruct read as [err|[err|doc]]; [|done|by destruct (decodeDocument doc)].
  by destruct (errors_Is isNotExist err); [|destruct (negb _)].
Qed.

Lemma OpenAt_unusable read now err quarantined committed cleaned :
  unusableErr read = Some err -> OpenAt read now quarantined committed cleaned = unusable quarantined err.
Proof.
  unfold unusableErr, OpenAt. destruct read as [e|[e|doc]].
  - destruct (errors_Is isNotExist e); [done|]. destruct (negb _); [done|]. by intros [= ->].
  - by intros [= ->].
  - destruct (decodeDocument doc); [|done]. by intros [= ->].
Qed.

End OpenStore.

(** ** What it does with files *)

(** Neither removes nor renames. *)
Definition keepsFiles (op : sysop) : Prop := match op with SysRemove _ | SysRename _ _ => False | _ => True end.

Lemma makeLoop_keeps current parts : calls keepsFiles (makeLoop current parts).
Proof.
  revert current. induction parts as [|part parts IH]; intros current; cbn; [done|]. split; [done|]. intros info.
  assert (forall info : error + stat, calls keepsFiles (match info with
      | inl e => Ret (Some (ErrWrap "history: inspect %q: %w" e))
      | inr info => if hasMode ModeSymlink info || negb (IsDir info) then Ret (Some (ErrQuoted "history: unsafe path component " (filepath_Join current part)))
                    else makeLoop (filepath_Join current part) parts end)) as Hlook.
  { intros [e|i]; [done|]. by destruct (_ || _). }
  destruct info as [e|i]; [|apply (Hlook (inr i))]. destruct (errors_Is isNotExist e); [|done]. split; [done|].
  intros [e'|]; [destruct (errors_Is isExist e'); [|done]|]; (split; [done|apply Hlook]).
Qed.

Lemma openDirs_keeps stateHome : calls keepsFiles (openDirs stateHome).
Proof.
  unfold openDirs. apply calls_bind; [unfold filepath_Abs; by destruct (Paths.IsAbs stateHome)|]. intros [e|abs]; [done|].
  assert (forall path k, calls keepsFiles k -> calls keepsFiles (chain (makePath path) k)) as Hchain.
  { intros path k Hk. unfold chain, makePath. destruct (splitPath _); [|done]. cbn [fmap option_fmap option_map]. apply calls_andThen; [apply makeLoop_keeps|done]. }
  assert (forall text path, calls keepsFiles (secure text path)) as Hsecure by done.
  cbn zeta. repeat first [apply Hchain|apply calls_andThen; [apply Hsecure|]]. done.
Qed.

(** Moves the file under [dir] aside, and does nothing else to files. *)
Definition movesAside (dir : string) (now : Time) (op : sysop) : Prop :=
  match op with
  | SysRemove _ | SysMkdir _ _ => False
  | SysRename from to => from = filepath_Join dir historyFilename /\ exists random, to = filepath_Join dir (quarantineName now random)
  | _ => True
  end.

Lemma quarantine_moves dir now : calls (movesAside dir now) (quarantine dir now).
Proof.
  split; [done|]. intros [e|random]; [done|]. split; [split; [done|by exists random]|]. by intros [e|].
Qed.

Lemma quarantine_spec dir now tr name err :
  exec (quarantine dir now) tr (name, err) -> err = None ->
  exists random, name = quarantineName now random /\
    said (SysRename (filepath_Join dir historyFilename) (filepath_Join dir name)) None ∈ tr /\ said (SysSyncDir dir) None ∈ tr.
Proof.
  intros (random&tr1&->&Hr)%exec_sys ->. cbn [mbind prog_bind] in Hr. destruct random as [e|random]; [by destruct Hr|].
  apply exec_sys in Hr as ([e|]&tr2&->&Hr); cbn [mbind prog_bind] in Hr; [by destruct Hr|].
  apply exec_sys in Hr as ([e|]&tr3&->&Hr); cbn [mbind prog_bind] in Hr; destruct Hr as [-> [= ->]].
  exists random. split; [done|]. rewrite !elem_of_cons. auto.
Qed.

(** The name of a quarantined file is one of a file in the directory, and not
    that of the file itself. *)
Lemma noSlash_append a b : noSlash (String.append a b) = noSlash a && noSlash b.
Proof.
  induction a as [|c a IH]; [done|]. change (String.append (String c a) b) with (String c (String.append a b)). cbn [noSlash].
  by rewrite IH, andb_assoc.
Qed.

Lemma digit_plain n : Ascii.eqb (digit n) separator = false.
Proof.
  unfold digit. pose proof (Z.mod_pos_bound n 10 ltac:(lia)) as Hn. set (d := n mod 10) in *. clearbody d.
  assert (d ∈ seqZ 0 10) as Hin by (apply elem_of_seqZ; lia). clear Hn. revert d Hin.
  apply (Forall_forall (fun d => Ascii.eqb (ascii_of_nat (48 + Z.to_nat d)) separator = false)). by repeat constructor.
Qed.

Lemma noSlash_fixedDigits w n acc : noSlash (fixedDigits w n acc) = noSlash acc.
Proof. revert n acc. induction w as [|w IH]; intros n acc; [done|]. cbn [fixedDigits]. rewrite IH. cbn [noSlash]. by rewrite digit_plain. Qed.

Lemma hexDigit_plain n : 0 <= n < 16 -> Ascii.eqb (hexDigit n) separator = false.
Proof.
  intros Hn. assert (n ∈ seqZ 0 16) as Hin by (apply elem_of_seqZ; lia). clear Hn. revert n Hin.
  apply (Forall_forall (fun n => Ascii.eqb (hexDigit n) separator = false)). by repeat constructor.
Qed.

Lemma noSlash_hexEncode l : noSlash (hexEncode l) = true.
Proof.
  induction l as [|b l IH]; [done|]. cbn [hexEncode noSlash]. pose proof (byteZ_range b) as Hb. unfold byteZ in Hb.
  rewrite !hexDigit_plain by (first [apply Z.mod_pos_bound; lia|split; [apply Z.div_pos; lia|apply Z.div_lt_upper_bound; lia]]). done.
Qed.

Lemma quarantineName_component now random : component (quarantineName now random) /\ quarantineName now random <> historyFilename.
Proof.
  assert (exists rest, quarantineName now random = String.append "history.quarantine-" rest /\ noSlash rest = true) as (rest&->&Hrest).
  { eexists. split; [reflexivity|]. cbn [String.concat]. rewrite !noSlash_append, noSlash_hexEncode, andb_true_r.
    unfold quarantineStamp. destruct (civil _) as [[y m] d]. rewrite !noSlash_fixedDigits. cbn [noSlash].
    rewrite !noSlash_fixedDigits. cbn [noSlash]. by rewrite noSlash_fixedDigits. }
  split; [|done]. split_and!; [by rewrite noSlash_append|done|done|done].
Qed.

Lemma historyFilename_component : component historyFilename.
Proof. by split_and!. Qed.

(** A file of the store. *)
Definition storeFile (cs : list string) (name : string) : string := pathOf (cs ++ [serviceDir; name]).

Lemma Join_storeDir cs name : Forall component cs -> component name -> filepath_Join (storeDir cs) name = storeFile cs name.
Proof.
  intros Hcs Hn. unfold storeDir. rewrite Join_pathOf; [by rewrite <-app_assoc| |done].
  by apply store_components.
Qed.

Lemma storeFile_inj cs a b : Forall component cs -> component a -> component b -> storeFile cs a = storeFile cs b -> a = b.
Proof.
  intros Hcs Ha Hb. unfold storeFile. assert (forall c, component c -> Forall component (cs ++ [serviceDir; c])) as Hall.
  { intros c Hc. apply Forall_app. split; [done|]. constructor; [apply serviceDir_component|by constructor]. }
  intros Heq%pathOf_inj; [|by apply Hall..]. apply app_inv_head in Heq. by injection Heq.
Qed.

Lemma storeFile_dir cs name : Forall component cs -> component name -> storeFile cs name <> storeDir cs.
Proof.
  intros Hcs Hn. unfold storeFile, storeDir. replace (cs ++ [serviceDir; name]) with ((cs ++ [serviceDir]) ++ [name]) by (by rewrite <-app_assoc).
  pose proof (proj1 (store_components cs Hcs)) as Hd. intros Heq%pathOf_inj; [|apply Forall_app; split; [done|by constructor]|done].
  apply (f_equal length) in Heq. rewrite !length_app in Heq. cbn in Heq. lia.
Qed.

Section OpenStoreFacts.
Context `{Png, Sha256, Sidecars}.
Variables (read : string -> error + (error + document)) (now : Time) (committed cleaned : option error).

(** Whatever the file system answers. *)
Lemma openStore_spec stateHome tr r :
  exec (openStore stateHome read now committed cleaned) tr r -> getwdAbsolute tr ->
  makesSafely tr /\
  match r with
  | inl _ => (exists dir, Forall (fun c => keepsFiles (projT1 c) \/ movesAside dir now (projT1 c)) tr)
  | inr s => exists cs, Forall component cs /\
      said (SysChmod (storeDir cs) 448) None ∈ tr /\ said (SysChmod (storeImages cs) 448) None ∈ tr /\
      (forall k, (0 < k <= length cs + 2)%nat -> exists i,
        said (SysLstat (pathOf (take k (cs ++ [serviceDir; "images"])))) (inr i) ∈ tr /\ realDir i) /\
      let file := storeFile cs historyFilename in
      match unusableErr (read file) with
      | None => OpenAt (read file) now None committed cleaned = inr s /\ Forall (fun c => keepsFiles (projT1 c)) tr
      | Some _ => s = opened [] /\ Forall (fun c => keepsFiles (projT1 c) \/ movesAside (storeDir cs) now (projT1 c)) tr /\
          exists random, said (SysRename file (storeFile cs (quarantineName now random))) None ∈ tr /\ said (SysSyncDir (storeDir cs)) None ∈ tr
      end
  end.
Proof.
  intros Hr Hwd. unfold openStore in Hr. apply exec_bind in Hr as (tr1&tr2&dirs&->&Hdirs&Hr).
  pose proof (calls_exec _ _ _ _ (openDirs_keeps stateHome) Hdirs) as Hk.
  assert (forall dir, Forall (fun c => keepsFiles (projT1 c) \/ movesAside dir now (projT1 c)) tr1) as Hk1.
  { intros dir. eapply Forall_impl; [exact Hk|]. auto. }
  apply openDirs_spec in Hdirs as [Hmk Hdirs]; [|intros wd Hin; apply Hwd, elem_of_app; by left].
  destruct dirs as [e|[dir imageDir]]; [destruct Hr as [-> ->]; rewrite app_nil_r; split; [done|by exists ""]|].
  destruct Hdirs as (cs&Hcs&->&->&Hc1&Hc2&Hall). rewrite Join_storeDir in Hr by (done || apply historyFilename_component).
  apply exec_bind in Hr as (tr3&tr4&[name err]&->&Hq&[-> ->]). rewrite app_nil_r. cbn [snd] in *.
  assert (makesSafely tr3) as Hmk3.
  { apply makesSafely_none. destruct (unusableErr _); [|destruct Hq as [-> _]; apply List.Forall_nil].
    eapply Forall_impl; [exact (calls_exec _ _ _ _ (quarantine_moves _ _) Hq)|]. intros [[] a]; cbn; tauto. }
  split; [by apply makesSafely_app|]. destruct (unusableErr (read (storeFile cs historyFilename))) as [e|] eqn:Hu.
  - pose proof (calls_exec _ _ _ _ (quarantine_moves _ _) Hq) as Hmv.
    assert (Forall (fun c => keepsFiles (projT1 c) \/ movesAside (storeDir cs) now (projT1 c)) (tr1 ++ tr3)) as Hboth.
    { apply Forall_app. split; [done|]. eapply Forall_impl; [exact Hmv|]. auto. }
    rewrite (OpenAt_unusable _ _ e) by done. unfold unusable. destruct err as [e'|]; [by exists (storeDir cs)|].
    destruct (quarantine_spec _ _ _ _ _ Hq eq_refl) as (random&->&Hren&Hsync).
    rewrite !Join_storeDir in Hren by (done || apply historyFilename_component || apply quarantineName_component).
    exists cs. rewrite Hu. split_and!; [done|apply elem_of_app; by left..| |done|done|].
    + intros k Hk'. destruct (Hall k Hk') as (i&Hi&Hri). exists i. split; [apply elem_of_app; by left|done].
    + exists random. rewrite !elem_of_app. auto.
  - destruct Hq as [-> [= -> ->]]. rewrite app_nil_r. destruct (OpenAt _ _ _ _ _) as [e|s] eqn:Hopen; [by exists ""|].
    exists cs. by rewrite Hu.
Qed.

(** Without XDG_STATE_HOME the store is under the home directory. *)
Lemma Open_default cs : Forall component cs ->
  Open "" (inr (pathOf cs)) read now committed cleaned = openStore (pathOf (cs ++ [".local"; "state"])) read now committed cleaned.
Proof.
  intros Hcs. unfold Open. cbn [String.eqb negb]. assert (component ".local" /\ component "state") as [Hlocal Hstate] by (by repeat split).
  assert (Forall component (cs ++ [".local"])) as Hcl by (apply Forall_app; split; [done|by constructor]).
  by rewrite (Join_pathOf cs), Join_pathOf, <-app_assoc by done.
Qed.

(** On a disk that nobody else changes. *)
Lemma openStore_quiet cs d :
  Forall component cs -> realPrefixes [] (cs ++ [serviceDir; "images"]) d ->
  let file := storeFile cs historyFilename in
  match unusableErr (read file) with
  | None => exists d', runOn quietDisk (openStore (pathOf cs) read now committed cleaned) d = (d', OpenAt (read file) now None committed cleaned) /\
      forall p i, dk_files d !! p = Some i -> p <> storeDir cs -> p <> storeImages cs -> dk_files d' !! p = Some i
  | Some _ => forall i, dk_files d !! file = Some i ->
      exists d' name, runOn quietDisk (openStore (pathOf cs) read now committed cleaned) d = (d', inr (opened [])) /\
        name <> historyFilename /\ dk_files d' !! storeFile cs name = Some i /\ dk_files d' !! file = None /\
        forall p j, dk_files d !! p = Some j -> p <> storeDir cs -> p <> storeImages cs -> p <> file -> p <> storeFile cs name ->
          dk_files d' !! p = Some j
  end.
Proof.
  intros Hcs Hr file. destruct (openDirs_quiet cs d Hcs Hr) as (d1&Hrun&_&Hold). unfold openStore. rewrite runOn_bind, Hrun.
  rewrite Join_storeDir by (done || apply historyFilename_component). fold file. rewrite runOn_bind.
  destruct (unusableErr (read file)) as [e|] eqn:Hu; [|by exists d1].
  intros i Hi. unfold quarantine. cbn [mbind prog_bind sys runOn quietDisk].
  set (name := quarantineName now _). destruct (quarantineName_component now (replicate (Z.to_nat 6) x00)) as [Hc Hne]. fold name in Hc, Hne.
  rewrite !Join_storeDir by (done || apply historyFilename_component). fold file.
  assert (file <> storeDir cs) as Hfd by (by apply storeFile_dir, historyFilename_component).
  assert (file <> storeImages cs) as Hfi by (intros Heq%storeFile_inj; [done|done|apply historyFilename_component|apply images_component]).
  rewrite (Hold file i) by done. cbn [runOn quietDisk snd wrapped fmap option_fmap option_map]. rewrite (OpenAt_unusable _ _ e) by done.
  eexists _, name. split; [reflexivity|]. cbn. split_and!; [done|by rewrite lookup_insert_eq| |].
  - rewrite lookup_insert_ne, lookup_delete_eq; [done|]. intros Heq%storeFile_inj; [done|done|done|apply historyFilename_component].
  - intros p j Hj Hp1 Hp2 Hp3 Hp4. rewrite lookup_insert_ne, lookup_delete_ne by done. by apply Hold.
Qed.

End OpenStoreFacts.

(** ** Claims *)

