(* ===== verification/Serving.v ===== *)
(** * internal/presenter: the life of the server

    [Serve], [Close] and [acceptLoop] of [server.go] with the lifetime of every
    [handle] and of the goroutines that ask the owner for a snapshot: they
    interleave as the step relation [vstep], with a rule for each critical
    section, channel operation, system call and change of the wait group.  What a handle does between its registration and its
    return is in [Handover]; here it may return at any time, and must be able
    to once its socket is closed: the reads and writes of a closed socket fail,
    and the writer and the owner's answers do not block it ([Connection],
    [OwnerCalls]).  The program calls [Serve] and [Close] one after the other
    ([App]); [orderly] says so. *)
From stdpp Require Import base gmap list strings fin_sets relations.
From Stdlib Require Import ZArith Lia Wellfounded.
From S2P Require Import Prelude GoLib Listen.
Local Open Scope string_scope.
Local Open Scope list_scope.
Local Open Scope Z_scope.

(** ** Data *)

(** A goroutine of [handle]: started; registered in [conns]; in its deferred
    function, its socket closed; returned. *)
Inductive life := Spawned | Registered | Leaving | Ended.

#[global] Instance life_eq_dec : EqDecision life.
Proof. solve_decision. Defined.

Record handle := mkHandle { hd_open : bool; hd_life : life }.

(** [acceptLoop]: not started; in [Accept], with the pause after the next
    error; in its pause; returned. *)
Inductive loopPhase := LoopNone | LoopAccept (backoff : Duration) | LoopPause (backoff : Duration) | LoopEnded.

(** [Serve]: not called; in [listenRuntime]; with a listener; the listener in
    its field; done. *)
Inductive servePhase := ServeNone | ServeListen | ServeListened | ServeInstalled | ServeDone (err : option error).

(** [Close]: not called; [stop] closed; closing the listener it saw; failing the
    connections it saw; waiting; removing the socket; done.  The errors are
    those it joins. *)
Inductive closePhase :=
  | CloseNone
  | CloseStopped
  | CloseListener (listener path : bool) (conns : list nat)
  | CloseFail (path : bool) (conns : list nat) (errs : list error)
  | CloseRemove (path : bool) (errs : list error)
  | CloseDone (errs : list error).

Record pserver := mkPserver {
  pv_serve : servePhase;
  pv_started : bool;
  pv_closing : bool;
  pv_stop : bool;              (** whether the channel is closed *)
  pv_done : bool;
  pv_listener : option bool;   (** the field, and whether it is open *)
  pv_socket : bool;            (** whether the socket file is there *)
  pv_loop : loopPhase;
  pv_handles : list handle;
  pv_conns : gset nat;
  pv_wg : Z;
  pv_close : closePhase;
  pv_resyncs : nat             (** the goroutines of [requestResync] *) }.

Definition vstart : pserver := mkPserver ServeNone false false false false None false LoopNone [] ∅ 0 CloseNone 0.

Definition ps_serve (p : servePhase) (started : bool) (w : pserver) : pserver :=
  mkPserver p started (pv_closing w) (pv_stop w) (pv_done w) (pv_listener w) (pv_socket w) (pv_loop w) (pv_handles w) (pv_conns w) (pv_wg w) (pv_close w) (pv_resyncs w).
Definition ps_listen (l : option bool) (socket : bool) (w : pserver) : pserver :=
  mkPserver (pv_serve w) (pv_started w) (pv_closing w) (pv_stop w) (pv_done w) l socket (pv_loop w) (pv_handles w) (pv_conns w) (pv_wg w) (pv_close w) (pv_resyncs w).
Definition ps_loop (l : loopPhase) (wg : Z) (w : pserver) : pserver :=
  mkPserver (pv_serve w) (pv_started w) (pv_closing w) (pv_stop w) (pv_done w) (pv_listener w) (pv_socket w) l (pv_handles w) (pv_conns w) wg (pv_close w) (pv_resyncs w).
Definition ps_handles (hs : list handle) (conns : gset nat) (wg : Z) (w : pserver) : pserver :=
  mkPserver (pv_serve w) (pv_started w) (pv_closing w) (pv_stop w) (pv_done w) (pv_listener w) (pv_socket w) (pv_loop w) hs conns wg (pv_close w) (pv_resyncs w).
Definition ps_close (p : closePhase) (w : pserver) : pserver :=
  mkPserver (pv_serve w) (pv_started w) (pv_closing w) (pv_stop w) (pv_done w) (pv_listener w) (pv_socket w) (pv_loop w) (pv_handles w) (pv_conns w) (pv_wg w) p (pv_resyncs w).

(** ** Serve *)

(** The first critical section; a second call is refused. *)
Definition beginPServe (w : pserver) : error + pserver :=
  if pv_started w then inl (ErrNew "presenter: server already started") else inr (ps_serve ServeListen true w).

(** [listenRuntime] returned; the listener is not in its field yet. *)
Definition pListened (err : option error) (w : pserver) : pserver :=
  match err with
  | Some e => ps_serve (ServeDone (Some e)) (pv_started w) w
  | None => ps_serve ServeListened (pv_started w) (ps_listen (pv_listener w) true w)
  end.

(** The second critical section. *)
Definition pInstall (w : pserver) : pserver := ps_serve ServeInstalled (pv_started w) (ps_listen (Some true) (pv_socket w) w).

(** [wg.Add(1)] and the goroutine. *)
Definition pGo (w : pserver) : pserver :=
  ps_serve (ServeDone None) (pv_started w) (ps_loop (LoopAccept Millisecond) (pv_wg w + 1) w).

(** ** acceptLoop *)

(** An accepted connection gets its goroutine. *)
Definition pAccepted (w : pserver) : pserver :=
  ps_handles (pv_handles w ++ [mkHandle true Spawned]) (pv_conns w) (pv_wg w + 1) (ps_loop (LoopAccept Millisecond) (pv_wg w) w).

(** Whether the channel [stop] is closed. *)
Definition stopping (w : pserver) : bool := pv_stop w.

(** An error: the end when the server stops, a pause otherwise. *)
Definition pAcceptFailed (backoff : Duration) (w : pserver) : pserver :=
  if stopping w then ps_loop LoopEnded (pv_wg w - 1) w else ps_loop (LoopPause backoff) (pv_wg w) w.

Definition nextBackoff (backoff : Duration) : Duration := if backoff <? Second then backoff * 2 else backoff.

(** ** handle *)

(** Registration, unless the server closes. *)
Definition pRegister (i : nat) (w : pserver) : pserver :=
  if pv_closing w then ps_handles (<[i := mkHandle false Ended]> (pv_handles w)) (pv_conns w) (pv_wg w - 1) w
  else ps_handles (<[i := mkHandle true Registered]> (pv_handles w)) ({[i]} ∪ pv_conns w) (pv_wg w) w.

(** [c.fail]: the socket is closed; idempotent. *)
Definition failHandle (h : handle) : handle := mkHandle false (hd_life h).

Definition pLeave (i : nat) (w : pserver) : pserver :=
  ps_handles (<[i := mkHandle false Leaving]> (pv_handles w)) (pv_conns w) (pv_wg w) w.

(** [connectionDone], the rest of the deferred function and [wg.Done]. *)
Definition pEnd (i : nat) (w : pserver) : pserver :=
  ps_handles (<[i := mkHandle false Ended]> (pv_handles w)) (pv_conns w ∖ {[i]}) (pv_wg w - 1) w.

(** ** Close *)

Definition pStop (w : pserver) : pserver :=
  mkPserver (pv_serve w) (pv_started w) (pv_closing w) true (pv_done w) (pv_listener w) (pv_socket w) (pv_loop w) (pv_handles w) (pv_conns w) (pv_wg w) CloseStopped (pv_resyncs w).

(** The critical section: the path is set together with the listener. *)
Definition pClosing (w : pserver) : pserver :=
  let known := match pv_listener w with Some _ => true | None => false end in
  mkPserver (pv_serve w) (pv_started w) true (pv_stop w) (pv_done w) (pv_listener w) (pv_socket w) (pv_loop w) (pv_handles w) (pv_conns w) (pv_wg w)
    (CloseListener known known (elements (pv_conns w))) (pv_resyncs w).

(** [errors.Join(result, err)] *)
Definition joinErr (errs : list error) (err : option error) : list error := match err with Some e => errs ++ [e] | None => errs end.

(** [listener.Close]; the library may remove the file of the socket. *)
Definition pCloseListener (path : bool) (conns : list nat) (err : option error) (unlinked : bool) (w : pserver) : pserver :=
  ps_close (CloseFail path conns (joinErr [] err)) (ps_listen (Some false) (pv_socket w && negb unlinked) w).

Definition pFail (path : bool) (i : nat) (conns : list nat) (errs : list error) (w : pserver) : pserver :=
  ps_close (CloseFail path conns errs) (ps_handles (alter failHandle i (pv_handles w)) (pv_conns w) (pv_wg w) w).

(** [os.Remove] of the socket and [close(s.done)]. *)
Definition pRemove (err : option error) (errs : list error) (w : pserver) : pserver :=
  let reported := match err with Some e => if errors_Is isNotExist e then None else Some e | None => None end in
  mkPserver (pv_serve w) (pv_started w) (pv_closing w) (pv_stop w) true (pv_listener w)
    (match err with None => false | Some _ => pv_socket w end) (pv_loop w) (pv_handles w) (pv_conns w) (pv_wg w) (CloseDone (joinErr errs reported)) (pv_resyncs w).

(** With no path there is nothing to remove. *)
Definition pNoPath (errs : list error) (w : pserver) : pserver :=
  mkPserver (pv_serve w) (pv_started w) (pv_closing w) (pv_stop w) true (pv_listener w) (pv_socket w) (pv_loop w) (pv_handles w) (pv_conns w) (pv_wg w) (CloseDone errs) (pv_resyncs w).

(** ** Publish *)

(** A delta that the current connection has no room for starts a goroutine that
    asks the owner for a snapshot; its counting is under the lock that guards
    [closing].  It is done when the owner has answered. *)
Definition ps_resyncs (n : nat) (wg : Z) (w : pserver) : pserver :=
  mkPserver (pv_serve w) (pv_started w) (pv_closing w) (pv_stop w) (pv_done w) (pv_listener w) (pv_socket w) (pv_loop w) (pv_handles w) (pv_conns w) wg
    (pv_close w) n.

Definition pResync (w : pserver) : pserver := ps_resyncs (S (pv_resyncs w)) (pv_wg w + 1) w.
Definition pResynced (n : nat) (w : pserver) : pserver := ps_resyncs n (pv_wg w - 1) w.

(** ** The goroutines together *)

(** A step is the server's own when nothing outside it has to happen for it. *)
Inductive vstep : bool -> pserver -> pserver -> Prop :=
  | ps_begin w w' : pv_serve w = ServeNone -> beginPServe w = inr w' -> vstep false w w'
  | ps_listened w err : pv_serve w = ServeListen -> vstep false w (pListened err w)
  | ps_install w : pv_serve w = ServeListened -> vstep true w (pInstall w)
  | ps_go w : pv_serve w = ServeInstalled -> vstep true w (pGo w)
  | ps_accepted w b : pv_loop w = LoopAccept b -> pv_listener w = Some true -> vstep false w (pAccepted w)
  | ps_accept_failed w b :
      pv_loop w = LoopAccept b -> vstep (negb (bool_decide (pv_listener w = Some true))) w (pAcceptFailed b w)
  | ps_pause_over w b : pv_loop w = LoopPause b -> vstep true w (ps_loop (LoopAccept (nextBackoff b)) (pv_wg w) w)
  | ps_pause_stopped w b : pv_loop w = LoopPause b -> pv_stop w = true -> vstep true w (ps_loop LoopEnded (pv_wg w - 1) w)
  | ps_register w i h : pv_handles w !! i = Some h -> hd_life h = Spawned -> vstep true w (pRegister i w)
  | ps_leave w i h : pv_handles w !! i = Some h -> hd_life h = Registered -> vstep (negb (hd_open h)) w (pLeave i w)
  | ps_end w i h : pv_handles w !! i = Some h -> hd_life h = Leaving -> vstep true w (pEnd i w)
  (* the current connection is one of [conns] *)
  | ps_resync w : pv_closing w = false -> pv_conns w <> ∅ -> vstep false w (pResync w)
  | ps_resynced w n : pv_resyncs w = S n -> vstep true w (pResynced n w)
  | ps_stop w : pv_close w = CloseNone -> vstep false w (pStop w)
  | ps_closing w : pv_close w = CloseStopped -> vstep true w (pClosing w)
  | ps_close_listener w path conns err unlinked :
      pv_close w = CloseListener true path conns -> vstep true w (pCloseListener path conns err unlinked w)
  | ps_no_listener w path conns :
      pv_close w = CloseListener false path conns -> vstep true w (ps_close (CloseFail path conns []) w)
  | ps_fail w path i conns errs : pv_close w = CloseFail path (i :: conns) errs -> vstep true w (pFail path i conns errs w)
  | ps_waited w path errs : pv_close w = CloseFail path [] errs -> pv_wg w = 0 -> vstep true w (ps_close (CloseRemove path errs) w)
  | ps_removed w err errs :
      pv_close w = CloseRemove true errs -> (err = None -> pv_socket w = true) ->
      (forall e, err = Some e -> errors_Is isNotExist e = true -> pv_socket w = false) ->
      vstep true w (pRemove err errs w)
  | ps_nothing w errs : pv_close w = CloseRemove false errs -> vstep true w (pNoPath errs w).

(** [Close] does not overlap with [Serve], and [Serve] does not follow it. *)
Definition orderly (w : pserver) : Prop :=
  pv_close w = CloseNone \/ match pv_serve w with ServeNone | ServeDone _ => True | _ => False end.

Definition servingStep (own : bool) (w w' : pserver) : Prop := vstep own w w' /\ orderly w'.

Definition vreachable (w : pserver) : Prop := rtc (fun w w' => exists own, servingStep own w w') vstart w.

(** ** The invariant *)

Definition running (h : handle) : bool := match hd_life h with Ended => false | _ => true end.

Definition countRunning (hs : list handle) : Z := zlen (List.filter running hs).

Definition loopRuns (l : loopPhase) : Z := match l with LoopAccept _ | LoopPause _ => 1 | _ => 0 end.

Definition backoffOf (l : loopPhase) : option Duration := match l with LoopAccept b | LoopPause b => Some b | _ => None end.

(** The pauses: 1 ms, doubled up to 1.024 s. *)
Definition backoffOk (b : Duration) : Prop := exists k, 0 <= k <= 10 /\ b = 2 ^ k * Millisecond.

(** The connections that [Close] has still to fail. *)
Definition toFail (p : closePhase) : list nat := match p with CloseListener _ _ conns | CloseFail _ conns _ => conns | _ => [] end.

Definition pathOfClose (p : closePhase) : option bool :=
  match p with CloseListener _ path _ | CloseFail path _ _ | CloseRemove path _ => Some path | _ => None end.

Record vinv (w : pserver) : Prop := {
  pi_wg : pv_wg w = loopRuns (pv_loop w) + countRunning (pv_handles w) + Z.of_nat (pv_resyncs w);
  pi_stop : pv_stop w = match pv_close w with CloseNone => false | _ => true end;
  pi_closing : pv_closing w = match pv_close w with CloseNone | CloseStopped => false | _ => true end;
  pi_done : pv_done w = match pv_close w with CloseDone _ => true | _ => false end;
  pi_conns i : i ∈ pv_conns w <-> exists h, pv_handles w !! i = Some h /\ (hd_life h = Registered \/ hd_life h = Leaving);
  pi_open i h : pv_handles w !! i = Some h -> hd_open h = true ->
    match hd_life h with Spawned => True | Registered => pv_closing w = false \/ i ∈ toFail (pv_close w) | _ => False end;
  pi_loop : pv_loop w = LoopEnded -> pv_stop w = true;
  pi_backoff b : backoffOf (pv_loop w) = Some b -> backoffOk b;
  pi_serve : match pv_serve w with
    | ServeNone | ServeListen => pv_loop w = LoopNone /\ pv_listener w = None /\ pv_socket w = false
    | ServeListened => pv_loop w = LoopNone /\ pv_listener w = None
    | ServeInstalled => pv_loop w = LoopNone /\ pv_listener w = Some true
    | ServeDone (Some _) => pv_loop w = LoopNone /\ pv_listener w = None /\ pv_socket w = false
    | ServeDone None => pv_loop w <> LoopNone /\ pv_listener w <> None
    end;
  pi_listener : match pv_close w with
    | CloseNone | CloseStopped => pv_listener w <> Some false
    | CloseListener known _ _ => known = true <-> pv_listener w = Some true
    | _ => pv_listener w <> Some true
    end;
  pi_path path : pathOfClose (pv_close w) = Some path -> path = match pv_listener w with Some _ => true | None => false end;
  pi_gone : match pv_close w with
    | CloseRemove _ _ | CloseDone _ => pv_wg w = 0
    | _ => True end;
  pi_socket errs : pv_close w = CloseDone errs -> pv_socket w = false \/ errs <> [];
  pi_orderly : orderly w }.

Lemma countRunning_insert hs i h h' :
  hs !! i = Some h -> countRunning (<[i := h']> hs) = countRunning hs - Z.b2z (running h) + Z.b2z (running h').
Proof.
  unfold countRunning, zlen. revert i. induction hs as [|x hs IH]; intros [|i]; [done..| |].
  - intros [= ->]. cbn. destruct (running h), (running h'); cbn; lia.
  - intros Hi. specialize (IH i Hi). change (<[S i := h']> (x :: hs)) with (x :: <[i := h']> hs). cbn [List.filter].
    destruct (running x); cbn [length]; lia.
Qed.

Lemma countRunning_snoc hs h : countRunning (hs ++ [h]) = countRunning hs + Z.b2z (running h).
Proof. unfold countRunning, zlen. rewrite List.filter_app, length_app. cbn. destruct (running h); cbn; lia. Qed.

Lemma alter_fail (hs : list handle) (i : nat) : alter failHandle i hs = match hs !! i with Some h => <[i := failHandle h]> hs | None => hs end.
Proof.
  revert i. induction hs as [|h hs IH]; intros [|i]; try done. change (alter failHandle (S i) (h :: hs)) with (h :: alter failHandle i hs).
  rewrite IH. cbn. by destruct (hs !! i).
Qed.

Lemma countRunning_fail hs (i : nat) : countRunning (alter failHandle i hs) = countRunning hs.
Proof.
  rewrite alter_fail. destruct (hs !! i) as [h|] eqn:Hi; [|done]. rewrite (countRunning_insert _ _ _ _ Hi).
  change (running (failHandle h)) with (running h). lia.
Qed.

Lemma countRunning_nonneg hs : 0 <= countRunning hs.
Proof. unfold countRunning, zlen. lia. Qed.

Lemma countRunning_none hs : countRunning hs = 0 -> Forall (fun h => hd_life h = Ended) hs.
Proof.
  unfold countRunning, zlen. induction hs as [|h hs IH]; cbn; [constructor|]. unfold running at 1.
  destruct (hd_life h) eqn:Hl; cbn; [lia..|]. intros Hz. constructor; [done|]. by apply IH.
Qed.

Lemma vinv_start : vinv vstart.
Proof. split; cbn; try done; try set_solver. by left. Qed.

Lemma backoffOk_first : backoffOk Millisecond.
Proof. exists 0. split; [lia|done]. Qed.

Lemma backoffOk_next b : backoffOk b -> backoffOk (nextBackoff b).
Proof.
  intros (k&Hk&->). unfold nextBackoff. destruct (Z.ltb_spec (2 ^ k * Millisecond) Second) as [Hlt|]; [|by exists k].
  exists (k + 1). rewrite Z.pow_add_r by lia. split; [|lia]. split; [lia|].
  assert (k = 10 \/ k < 10) as [->|] by lia; [|lia]. exfalso. revert Hlt. by vm_compute.
Qed.

(** The rules of [Serve] and [acceptLoop], and those of [Close] that leave the
    handles alone, are checked field by field. *)
Ltac fields :=
  match goal with H : vinv ?w |- _ => destruct w, H; cbn in *; subst end; destruct_and?; subst;
  constructor; cbn in *; try solve [assumption | congruence | intros; simplify_eq; intuition (eauto using backoffOk_first; congruence || lia) |
    match goal with |- context [match ?c with CloseNone => _ | _ => _ end] => destruct c end; done].

Lemma vinv_serve w w' :
  vinv w -> orderly w' ->
  (pv_serve w = ServeNone /\ beginPServe w = inr w') \/ (exists err, pv_serve w = ServeListen /\ w' = pListened err w) \/
  (pv_serve w = ServeListened /\ w' = pInstall w) \/ (pv_serve w = ServeInstalled /\ w' = pGo w) -> vinv w'.
Proof.
  intros Hinv Ho Hcases. assert (pv_close w = CloseNone) as Hc.
  { pose proof (pi_orderly w Hinv) as Hw. unfold orderly in *. destruct Hcases as [[Hs Hb]|[(err&Hs&->)|[[Hs ->]|[Hs ->]]]]; rewrite Hs in Hw;
      [|by destruct Hw..]. unfold beginPServe in Hb. destruct (pv_started w); [done|]. injection Hb as <-. by destruct Ho. }
  destruct Hcases as [[Hs Hb]|[(err&Hs&->)|[[Hs ->]|[Hs ->]]]].
  - unfold beginPServe in Hb. destruct (pv_started w); [done|]. injection Hb as <-. fields.
  - destruct err; fields.
  - fields.
  - fields.
Qed.

(** While the loop runs, [Serve] has succeeded and [Close] has not passed its
    wait. *)
Lemma loop_runs w : vinv w -> loopRuns (pv_loop w) = 1 ->
  pv_serve w = ServeDone None /\ match pv_close w with CloseRemove _ _ | CloseDone _ => False | _ => True end.
Proof.
  intros [Hwg _ _ _ _ _ _ _ Hs _ _ Hg _ _] Hl. split.
  - destruct (pv_serve w) as [| | | |[e|]]; [..|done]; destruct Hs as [Hs _]; by rewrite Hs in Hl.
  - pose proof (countRunning_nonneg (pv_handles w)). destruct (pv_close w); [done..| |]; lia.
Qed.

Lemma vinv_loop w w' :
  vinv w -> (exists b, pv_loop w = LoopAccept b /\ w' = pAcceptFailed b w) \/
  (exists b, pv_loop w = LoopPause b /\ w' = ps_loop (LoopAccept (nextBackoff b)) (pv_wg w) w) \/
  (exists b, pv_loop w = LoopPause b /\ pv_stop w = true /\ w' = ps_loop LoopEnded (pv_wg w - 1) w) -> vinv w'.
Proof.
  intros Hinv [(b&Hl&->)|[(b&Hl&->)|(b&Hl&Hs&->)]]; pose proof (pi_backoff w Hinv b) as Hb; rewrite Hl in Hb; specialize (Hb eq_refl);
    (destruct (loop_runs w Hinv) as [Hserve Hclose]; [by rewrite Hl|]).
  - unfold pAcceptFailed, stopping. destruct (pv_stop w) eqn:Hs; fields.
  - apply backoffOk_next in Hb. fields.
  - fields.
Qed.

(** A handle that runs keeps [Close] at its wait. *)
Lemma handle_runs w i h : vinv w -> pv_handles w !! i = Some h -> running h = true ->
  match pv_close w with CloseRemove _ _ | CloseDone _ => False | _ => True end.
Proof.
  intros [Hwg _ _ _ _ _ _ _ _ _ _ Hg _ _] Hi Hr. pose proof (countRunning_insert _ i h (mkHandle false Ended) Hi) as Hc. rewrite Hr in Hc.
  pose proof (countRunning_nonneg (<[i := mkHandle false Ended]> (pv_handles w))). cbn [running hd_life Z.b2z] in Hc.
  assert (0 <= loopRuns (pv_loop w)) by (by destruct (pv_loop w)). destruct (pv_close w); [done..| |]; lia.
Qed.

Lemma vinv_handle w i h h' conns wg :
  vinv w -> pv_handles w !! i = Some h -> running h = true -> wg = pv_wg w - 1 + Z.b2z (running h') ->
  (forall j, j ∈ conns <-> if decide (j = i) then hd_life h' = Registered \/ hd_life h' = Leaving else j ∈ pv_conns w) ->
  (hd_open h' = true -> match hd_life h' with Spawned => True | Registered => pv_closing w = false | _ => False end) ->
  vinv (ps_handles (<[i := h']> (pv_handles w)) conns wg w).
Proof.
  intros Hinv Hi Hr -> Hconns Hopen. pose proof (handle_runs w i h Hinv Hi Hr) as Hlive. pose proof (lookup_lt_Some _ _ _ Hi) as Hlt.
  pose proof (countRunning_insert _ i h h' Hi) as Hcount. rewrite Hr in Hcount. cbn [Z.b2z] in Hcount. destruct Hinv. constructor; try done; cbn.
  - lia.
  - intros j. rewrite Hconns. case_decide as Hj; [subst j|by rewrite list_lookup_insert_ne].
    rewrite list_lookup_insert_eq by done. naive_solver.
  - intros j g Hg Hgo. apply list_lookup_insert_Some in Hg as [(<-&<-&_)|[_ Hg]]; [|by eapply pi_open0].
    specialize (Hopen Hgo). destruct (hd_life h'); auto.
  - destruct (pv_close w); done.
Qed.

Lemma vinv_accepted w b : vinv w -> pv_loop w = LoopAccept b -> pv_listener w = Some true -> vinv (pAccepted w).
Proof.
  intros Hinv Hl Hlis. destruct (loop_runs w Hinv) as [Hserve Hclose]; [by rewrite Hl|]. destruct Hinv. rewrite Hserve, Hl in *.
  constructor; try done; cbn.
  - rewrite countRunning_snoc. cbn in *. lia.
  - intros j. rewrite pi_conns0. split; intros (h&Hh&Hlife); exists h; (split; [|done]).
    + by apply lookup_app_l_Some.
    + apply lookup_app_Some in Hh as [Hh|[_ Hh]]; [done|]. apply list_lookup_singleton_Some in Hh as [_ <-]. by destruct Hlife.
  - intros j h Hh Ho. apply lookup_app_Some in Hh as [Hh|[_ Hh]]; [by eapply pi_open0|]. by apply list_lookup_singleton_Some in Hh as [_ <-].
  - intros b' [= <-]. apply backoffOk_first.
  - rewrite Hserve. by destruct pi_serve0.
  - destruct (pv_close w); done.
Qed.

Lemma vinv_handles w w' :
  vinv w ->
  (exists i h, pv_handles w !! i = Some h /\ hd_life h = Spawned /\ w' = pRegister i w) \/
  (exists i h, pv_handles w !! i = Some h /\ hd_life h = Registered /\ w' = pLeave i w) \/
  (exists i h, pv_handles w !! i = Some h /\ hd_life h = Leaving /\ w' = pEnd i w) -> vinv w'.
Proof.
  intros Hinv [(i&h&Hi&Hl&->)|[(i&h&Hi&Hl&->)|(i&h&Hi&Hl&->)]]; assert (running h = true) as Hr by (unfold running; by rewrite Hl);
    (assert (i ∈ pv_conns w <-> hd_life h = Registered \/ hd_life h = Leaving) as Hin by (rewrite (pi_conns w Hinv); naive_solver)); rewrite Hl in Hin.
  - unfold pRegister. destruct (pv_closing w) eqn:Hc; (eapply vinv_handle; [done|done|done|cbn; lia| |try done]);
      intros j; case_decide; set_solver.
  - eapply vinv_handle; [done|done|done|cbn; lia| |done]. intros j. case_decide; set_solver.
  - eapply vinv_handle; [done|done|done|cbn; lia| |done]. intros j. case_decide; set_solver.
Qed.

Lemma vinv_stop w : vinv w -> orderly (pStop w) -> pv_close w = CloseNone -> vinv (pStop w).
Proof. intros Hinv Ho Hc. fields. Qed.

Lemma orderly_closing w : vinv w -> pv_close w <> CloseNone -> match pv_serve w with ServeNone | ServeDone _ => True | _ => False end.
Proof. intros Hinv Hc. by destruct (pi_orderly w Hinv). Qed.

Lemma vinv_closing w : vinv w -> pv_close w = CloseStopped -> vinv (pClosing w).
Proof.
  intros Hinv Hc. pose proof (orderly_closing w Hinv) as Ho. rewrite Hc in Ho. specialize (Ho ltac:(done)).
  destruct Hinv. rewrite Hc in *. constructor; try done; cbn.
  - intros i h Hh Hop. specialize (pi_open0 i h Hh Hop). destruct (hd_life h) eqn:Hl; [done| |done..]. right. apply elem_of_elements, pi_conns0. eauto.
  - destruct (pv_listener w) as [[]|]; naive_solver.
  - by intros path [= <-].
  - by right.
Qed.

(** The listener is closed, if there is one. *)
Lemma vinv_close_listener w known path conns err unlinked :
  vinv w -> pv_close w = CloseListener known path conns ->
  vinv (if known then pCloseListener path conns err unlinked w else ps_close (CloseFail path conns []) w).
Proof.
  intros Hinv Hc. pose proof (orderly_closing w Hinv) as Ho. rewrite Hc in Ho. specialize (Ho ltac:(done)).
  destruct Hinv. rewrite Hc in *. destruct known; constructor; try done; cbn; try (by right).
  - assert (pv_listener w = Some true) as Hl by (by apply pi_listener0). rewrite Hl in *. destruct (pv_serve w) as [| | | |[]]; try done; naive_solver.
  - intros p Hp. rewrite (pi_path0 p Hp). assert (pv_listener w = Some true) as -> by (by apply pi_listener0). done.
  - intros Hl. by apply pi_listener0 in Hl.
Qed.

Lemma vinv_fail w path i conns errs : vinv w -> pv_close w = CloseFail path (i :: conns) errs -> vinv (pFail path i conns errs w).
Proof.
  intros Hinv Hc. pose proof (orderly_closing w Hinv) as Ho. rewrite Hc in Ho. specialize (Ho ltac:(done)).
  destruct Hinv. rewrite Hc in *. assert (forall j h, alter failHandle i (pv_handles w) !! j = Some h ->
    exists g, pv_handles w !! j = Some g /\ hd_life h = hd_life g /\ (hd_open h = true -> hd_open g = true /\ j <> i)) as Halter.
  { intros j h Hh. destruct (decide (j = i)) as [->|Hj].
    - rewrite list_lookup_alter_eq in Hh. destruct (pv_handles w !! i) as [g|]; [|done]. injection Hh as <-. exists g. split_and!; [done|done|]. intros Hgo. discriminate Hgo.
    - rewrite list_lookup_alter_ne in Hh by done. by exists h. }
  constructor; try done; cbn; try (by right).
  - by rewrite countRunning_fail.
  - intros j. rewrite pi_conns0. split.
    + intros (h&Hh&Hl). destruct (decide (j = i)) as [->|Hj]; [|exists h; by rewrite list_lookup_alter_ne].
      exists (failHandle h). by rewrite list_lookup_alter_eq, Hh.
    + intros (h&Hh&Hl). destruct (Halter j h Hh) as (g&Hg&Hlife&_). exists g. by rewrite <-Hlife.
  - intros j h Hh Hop. destruct (Halter j h Hh) as (g&Hg&->&Hx). destruct (Hx Hop) as [Hgo Hj].
    specialize (pi_open0 j g Hg Hgo). cbn in pi_open0. destruct (hd_life g); [done| |done..]. destruct pi_open0 as [|Hin%elem_of_cons]; [by left|right].
    by destruct Hin.
Qed.

Lemma vinv_remove w w' :
  vinv w ->
  (exists path errs, pv_close w = CloseFail path [] errs /\ pv_wg w = 0 /\ w' = ps_close (CloseRemove path errs) w) \/
  (exists err errs, pv_close w = CloseRemove true errs /\ (forall e, err = Some e -> errors_Is isNotExist e = true -> pv_socket w = false) /\
    w' = pRemove err errs w) \/
  (exists errs, pv_close w = CloseRemove false errs /\ w' = pNoPath errs w) -> vinv w'.
Proof.
  intros Hinv Hcases. assert (pv_close w <> CloseNone) as Hn.
  { destruct Hcases as [(p&errs&->&_)|[(err&errs&->&_)|(errs&->&_)]]; done. }
  pose proof (orderly_closing w Hinv Hn) as Ho. destruct Hinv.
  destruct Hcases as [(path&errs&Hc&Hwg&->)|[(err&errs&Hc&Herr&->)|(errs&Hc&->)]]; rewrite Hc in *; constructor; try done; cbn; try (by right).
  - specialize (pi_path0 true eq_refl). destruct (pv_serve w) as [| | | |[e|]]; try done; destruct pi_serve0 as (Hl&Hlis&Hsock);
      by rewrite Hlis in pi_path0.
  - intros errs' [= <-]. destruct err as [e|]; [|by left]. destruct (errors_Is isNotExist e) eqn:He; [left; by eapply Herr|right].
    cbn. by destruct errs.
  - intros errs' _. specialize (pi_path0 false eq_refl). left. destruct (pv_serve w) as [| | | |[e|]]; try done; destruct pi_serve0 as (Hl&Hlis); [naive_solver..|].
    by destruct (pv_listener w).
Qed.

(** Goroutines that ask for a snapshot. *)
Lemma vinv_resyncs w n :
  vinv w -> match pv_close w with CloseRemove _ _ | CloseDone _ => False | _ => True end ->
  vinv (ps_resyncs n (pv_wg w + Z.of_nat n - Z.of_nat (pv_resyncs w)) w).
Proof.
  intros [] Hlive. constructor; try done; cbn; [lia|]. by destruct (pv_close w).
Qed.

Lemma resync_live w n : vinv w -> pv_resyncs w = S n -> match pv_close w with CloseRemove _ _ | CloseDone _ => False | _ => True end.
Proof.
  intros [Hwg _ _ _ _ _ _ _ _ _ _ Hg _ _] Hn. pose proof (countRunning_nonneg (pv_handles w)).
  assert (0 <= loopRuns (pv_loop w)) by (by destruct (pv_loop w)). destruct (pv_close w); [done..| |]; lia.
Qed.

Lemma vinv_step own w w' : vinv w -> servingStep own w w' -> vinv w'.
Proof.
  intros Hinv [Hstep Ho]. destruct Hstep.
  - apply (vinv_serve w); auto.
  - apply (vinv_serve w); eauto 6.
  - apply (vinv_serve w); auto 6.
  - apply (vinv_serve w); auto 6.
  - by eapply vinv_accepted.
  - apply (vinv_loop w); eauto.
  - apply (vinv_loop w); eauto.
  - apply (vinv_loop w); eauto 7.
  - apply (vinv_handles w); eauto 7.
  - apply (vinv_handles w); eauto 7.
  - apply (vinv_handles w); eauto 8.
  - unfold pResync. replace (pv_wg w + 1) with (pv_wg w + Z.of_nat (S (pv_resyncs w)) - Z.of_nat (pv_resyncs w)) by lia. apply vinv_resyncs; [done|].
    pose proof (pi_closing w Hinv). destruct (pv_close w); done || congruence.
  - unfold pResynced. replace (pv_wg w - 1) with (pv_wg w + Z.of_nat n - Z.of_nat (pv_resyncs w)) by lia. apply vinv_resyncs; [done|by eapply resync_live].
  - by apply vinv_stop.
  - by apply vinv_closing.
  - by apply (vinv_close_listener w true).
  - by apply (vinv_close_listener w false path conns None false).
  - by apply vinv_fail.
  - apply (vinv_remove w); eauto 7.
  - apply (vinv_remove w); [done|]. right; left. by exists err, errs.
  - apply (vinv_remove w); eauto 7.
Qed.

Lemma vinv_reachable w : vreachable w -> vinv w.
Proof.
  intros Hr. unfold vreachable in Hr. remember vstart as w0 eqn:H0. assert (vinv w0) as Hinv by (subst; apply vinv_start). clear H0.
  induction Hr as [|w1 w2 w3 [own Hs] _ IH]; [done|]. apply IH. by eapply vinv_step.
Qed.

(** ** Close comes to its end *)

(** [Close] has closed the listener, or seen that there is none. *)
Definition listenerClosed (w : pserver) : Prop :=
  match pv_close w with CloseFail _ _ _ | CloseRemove _ _ | CloseDone _ => True | _ => False end.

Definition handleWork (h : handle) : nat := match hd_life h with Spawned => 3 | Registered => 2 | Leaving => 1 | Ended => 0 end.

(** The steps that are left, at most. *)
Definition closeWork (w : pserver) : nat :=
  (match pv_close w with CloseFail _ conns _ => 2 + length conns | CloseRemove _ _ => 1 | _ => 0 end +
   match pv_loop w with LoopPause _ => 2 | LoopAccept _ => 1 | _ => 0 end + sum_list_with handleWork (pv_handles w) + pv_resyncs w)%nat.

Lemma handleWork_insert hs i h h' :
  hs !! i = Some h -> (handleWork h' < handleWork h)%nat ->
  (sum_list_with handleWork (<[i := h']> hs) < sum_list_with handleWork hs)%nat.
Proof.
  revert i. induction hs as [|x hs IH]; intros [|i]; [done..| |]; [intros [= ->] Hlt; cbn; lia|].
  intros Hi Hlt. specialize (IH i Hi Hlt). change (<[S i := h']> (x :: hs)) with (x :: <[i := h']> hs). cbn [sum_list_with]. lia.
Qed.

Lemma handleWork_fail hs (i : nat) : sum_list_with handleWork (alter failHandle i hs) = sum_list_with handleWork hs.
Proof.
  revert i. induction hs as [|x hs IH]; intros [|i]; [done..|]. change (alter failHandle (S i) (x :: hs)) with (x :: alter failHandle i hs).
  cbn [sum_list_with]. by rewrite IH.
Qed.

(** A handle goes on: there is less left to do. *)
Ltac handles_down Hi Hl h' :=
  match type of Hi with pv_handles ?w !! _ = Some ?h =>
    pose proof (handleWork_insert _ _ h h' Hi) as Hw; unfold handleWork at 1 2 in Hw;
    rewrite Hl in Hw; cbn [hd_life] in Hw; specialize (Hw ltac:(lia));
    let Hp := fresh in destruct (pv_close w) eqn:Hp; try done; cbn; rewrite Hp; (split; [done|lia])
  end.

Lemma closeWork_decreases own w w' :
  vinv w -> listenerClosed w -> servingStep own w w' -> listenerClosed w' /\ (closeWork w' < closeWork w)%nat.
Proof.
  intros Hinv Hc [Hstep Ho]. pose proof (orderly_closing w Hinv) as Hserve. unfold listenerClosed in *.
  assert (pv_close w <> CloseNone) as Hn by (by destruct (pv_close w)). specialize (Hserve Hn).
  pose proof (pi_stop w Hinv) as Hstop. pose proof (pi_closing w Hinv) as Hclosing. pose proof (pi_listener w Hinv) as Hlis.
  unfold closeWork. destruct Hstep as [w w' Hs Hb|w err Hs|w Hs|w Hs|w b Hl Hx|w b Hl|w b Hl|w b Hl Hs|w i h Hi Hl|w i h Hi Hl|w i h Hi Hl|w Hx Hk|w n Hx|w Hp|w Hp
    |w path conns err unlinked Hp|w path conns Hp|w path i conns errs Hp|w path errs Hp Hwg|w err errs Hp H1 H2|w errs Hp].
  all: try (rewrite Hp in *; done). all: try (by rewrite Hs in Hserve).
  - unfold beginPServe in Hb. destruct (pv_started w); [done|]. injection Hb as <-. exfalso. unfold orderly in Ho. cbn in Ho. by destruct Ho.
  - exfalso. by destruct (pv_close w).
  - unfold pAcceptFailed, stopping. rewrite Hstop. destruct (pv_close w) eqn:Hp; try done; cbn; rewrite Hp, Hl; (split; [done|lia]).
  - cbn. split; [by destruct (pv_close w)|]. rewrite Hl. lia.
  - cbn. split; [by destruct (pv_close w)|]. rewrite Hl. lia.
  - unfold pRegister. rewrite Hclosing. handles_down Hi Hl (mkHandle false Ended).
  - handles_down Hi Hl (mkHandle false Leaving).
  - handles_down Hi Hl (mkHandle false Ended).
  - destruct (pv_close w); try done; congruence.
  - cbn. split; [by destruct (pv_close w)|]. rewrite Hx. lia.
  - split; [done|]. rewrite Hp. cbn. rewrite handleWork_fail. lia.
  - split; [done|]. rewrite Hp. cbn. lia.
  - split; [done|]. rewrite Hp. cbn. lia.
  - split; [done|]. rewrite Hp. cbn. lia.
Qed.

(** Somebody is still counted by the wait group. *)
Lemma loop_or_handle w :
  vinv w -> pv_wg w <> 0 ->
  (exists b, pv_loop w = LoopAccept b \/ pv_loop w = LoopPause b) \/
  (exists i h, pv_handles w !! i = Some h /\ hd_life h <> Ended) \/ exists n, pv_resyncs w = S n.
Proof.
  intros [Hwg _ _ _ _ _ _ _ _ _ _ _ _ _] Hnz.
  destruct (pv_resyncs w) as [|n] eqn:Hn; [|right; right; by exists n].
  destruct (decide (Forall (fun h => hd_life h = Ended) (pv_handles w))) as [Hall|Hsome].
  - left. assert (countRunning (pv_handles w) = 0) as Hz.
    { clear -Hall. unfold countRunning, zlen. induction Hall as [|h hs Hh _ IH]; [done|]. cbn. unfold running at 1. by rewrite Hh. }
    destruct (pv_loop w); [cbn in Hwg; lia|eauto|eauto|cbn in Hwg; lia].
  - right. left. apply not_Forall_Exists, Exists_exists in Hsome as (h&Hin&Hh); [|apply _].
    apply list_elem_of_lookup in Hin as [i Hi]. eauto.
Qed.

(** A [Close] that has closed the listener can always go on by itself. *)
Lemma close_goes_on w :
  vinv w -> listenerClosed w -> (exists errs, pv_close w = CloseDone errs) \/ exists w', servingStep true w w'.
Proof.
  intros Hinv Hlc. assert (pv_close w <> CloseNone) as Hn by (unfold listenerClosed in Hlc; by destruct (pv_close w)).
  pose proof (orderly_closing w Hinv Hn) as Hserve.
  assert (forall w', vstep true w w' -> pv_serve w' = pv_serve w -> exists w', servingStep true w w') as Hgo.
  { intros w' Hs Hsv. exists w'. split; [done|]. right. by rewrite Hsv. }
  unfold listenerClosed in Hlc. pose proof Hinv as [Hwg _ Hclosing _ _ Hopen _ _ _ Hlis _ _ _ _].
  destruct (pv_close w) as [| | |path [|i conns] errs|[] errs|errs] eqn:Hc; [done..| | | | |]; [right..|left; by exists errs].
  - destruct (decide (pv_wg w = 0)) as [Hz|Hnz]; [by eapply Hgo; [eapply ps_waited|]|].
    destruct (loop_or_handle w Hinv Hnz) as [(b&[Hl|Hl])|[(i&h&Hi&Hr)|(n&Hn')]].
    + eapply Hgo; [pose proof (ps_accept_failed w b Hl) as Hs; rewrite bool_decide_eq_false_2 in Hs by done; exact Hs|].
      unfold pAcceptFailed, stopping. by destruct (pv_stop w).
    + by eapply Hgo; [eapply ps_pause_over|].
    + destruct (hd_life h) eqn:Hl; [| | |done].
      * eapply Hgo; [by eapply ps_register|]. unfold pRegister. by destruct (pv_closing w).
      * destruct (hd_open h) eqn:Ho; [specialize (Hopen i h Hi Ho); rewrite Hl, Hclosing in Hopen; by destruct Hopen as [|Hin%elem_of_nil]|].
        by eapply Hgo; [pose proof (ps_leave w i h Hi Hl) as Hs; rewrite Ho in Hs; exact Hs|].
      * by eapply Hgo; [eapply ps_end|].
    + by eapply Hgo; [eapply ps_resynced|].
  - by eapply Hgo; [eapply ps_fail|].
  - destruct (pv_socket w) eqn:Hsock.
    + by eapply Hgo; [eapply (ps_removed _ None)|].
    + by eapply Hgo; [eapply (ps_removed _ (Some ErrNotExist))|].
  - by eapply Hgo; [eapply ps_nothing|].
Qed.

Lemma close_runs n w :
  vinv w -> listenerClosed w -> closeWork w = n -> exists w' errs, rtc (servingStep true) w w' /\ pv_close w' = CloseDone errs.
Proof.
  revert w. induction (lt_wf n) as [n _ IH]. intros w Hinv Hlc <-. destruct (close_goes_on w Hinv Hlc) as [(errs&Hd)|(w'&Hs)]; [by exists w, errs|].
  destruct (closeWork_decreases _ _ _ Hinv Hlc Hs) as [Hlc' Hlt].
  destruct (IH _ Hlt w' (vinv_step _ _ _ Hinv Hs) Hlc' eq_refl) as (w''&errs&Hr&Hd). exists w'', errs. split; [by eapply rtc_l|done].
Qed.

Lemma close_from_start w :
  vinv w -> pv_close w <> CloseNone -> exists w' errs, rtc (servingStep true) w w' /\ pv_close w' = CloseDone errs.
Proof.
  intros Hinv Hn. pose proof (orderly_closing w Hinv Hn) as Hserve.
  assert (forall listener path conns v, vinv v -> pv_serve v = pv_serve w -> pv_close v = CloseListener listener path conns ->
    exists w' errs, rtc (servingStep true) v w' /\ pv_close w' = CloseDone errs) as Hlisten.
  { intros listener path conns v Hv Hsv Hc. assert (exists v', servingStep true v v' /\ listenerClosed v') as (v'&Hs&Hlc).
    { destruct listener; eexists; (split; [split; [by econstructor|right; cbn; by rewrite Hsv]|done]). Unshelve. exact None. exact false. }
    destruct (close_runs _ v' (vinv_step _ _ _ Hv Hs) Hlc eq_refl) as (w'&errs&Hr&Hd). exists w', errs. split; [by eapply rtc_l|done]. }
  destruct (pv_close w) eqn:Hc; [done| |by eapply Hlisten|by eapply close_runs; [|unfold listenerClosed; rewrite Hc|]..].
  assert (servingStep true w (pClosing w)) as Hs by (split; [by apply ps_closing|by right]).
  destruct (Hlisten _ _ _ (pClosing w) (vinv_step _ _ _ Hinv Hs) eq_refl eq_refl) as (w'&errs&Hr&Hd).
  exists w', errs. split; [by eapply rtc_l|done].
Qed.

(** From then on every schedule ends. *)
Lemma close_terminates n w : vinv w -> listenerClosed w -> closeWork w = n -> Acc (fun w2 w1 => exists own, servingStep own w1 w2) w.
Proof.
  revert w. induction (lt_wf n) as [n _ IH]. intros w Hinv Hlc <-. constructor. intros w' [own Hs].
  destruct (closeWork_decreases _ _ _ Hinv Hlc Hs) as [Hlc' Hlt]. eapply IH; [exact Hlt|by eapply vinv_step|done|done].
Qed.

(** What is left when [Close] returns. *)
Lemma closed_clean w errs :
  vinv w -> pv_close w = CloseDone errs ->
  pv_wg w = 0 /\ pv_resyncs w = 0%nat /\ backoffOf (pv_loop w) = None /\
  Forall (fun h => h = mkHandle false Ended) (pv_handles w) /\ pv_conns w = ∅ /\
  pv_listener w <> Some true /\ pv_done w = true /\ (pv_socket w = false \/ errs <> []).
Proof.
  intros [Hwg _ _ Hdone Hconns Hopen _ _ _ Hlis _ Hg Hsock _] Hc. rewrite Hc in *. rewrite Hg in Hwg.
  pose proof (countRunning_nonneg (pv_handles w)). assert (0 <= loopRuns (pv_loop w)) by (by destruct (pv_loop w)).
  assert (countRunning (pv_handles w) = 0) as Hz by lia. apply countRunning_none in Hz. rewrite Forall_lookup in Hz.
  split_and!; [done|lia| | | |done|done|by apply Hsock].
  - destruct (pv_loop w); cbn in *; [done|lia|lia|done].
  - apply Forall_lookup. intros i [[] l] Hi; specialize (Hz i _ Hi); cbn in Hz; subst l; [by destruct (Hopen i _ Hi)|done].
  - apply set_eq. intros i. split; [|set_solver]. intros (h&Hh&Hl)%Hconns. specialize (Hz i h Hh). destruct Hl; congruence.
Qed.

(** Nothing is added to a wait group that [Close] may have seen at zero. *)
Lemma no_late_add w : vinv w -> pv_closing w = true -> pv_wg w = 0 -> forall own w', servingStep own w w' -> pv_wg w' = 0.
Proof.
  intros Hinv Hclosing Hz own w' [Hs Ho]. assert (pv_close w <> CloseNone) as Hn by (intros Hc; pose proof (pi_closing w Hinv); rewrite Hc in *; congruence).
  pose proof (orderly_closing w Hinv Hn) as Hserve. pose proof (pi_wg w Hinv) as Hwg. pose proof (countRunning_nonneg (pv_handles w)).
  assert (0 <= loopRuns (pv_loop w)) by (by destruct (pv_loop w)).
  assert (Forall (fun h => hd_life h = Ended) (pv_handles w)) as Hended by (apply countRunning_none; lia). rewrite Forall_lookup in Hended.
  destruct Hs as [w w' Hs Hb|w err Hs|w Hs|w Hs|w b Hl Hx|w b Hl|w b Hl|w b Hl Hs|w i h Hi Hl|w i h Hi Hl|w i h Hi Hl|w Hx Hk|w n Hx|w Hp|w Hp
    |w path conns err unlinked Hp|w path conns Hp|w path i conns errs Hp|w path errs Hp Hwg'|w err errs Hp H1 H2|w errs Hp].
  all: try (specialize (Hended _ _ Hi); congruence). all: try (rewrite Hl in Hwg; cbn in Hwg; lia). all: try (by rewrite Hs in Hserve). all: try done.
  - unfold beginPServe in Hb. destruct (pv_started w); [done|]. by injection Hb as <-.
  - congruence.
  - lia.
Qed.

(** [Serve] does not look at [closing]: after a [Close] it opens a listener that
    nothing closes any more.  [orderly] leaves this run out. *)
Lemma late_serve_stays w :
  w = pGo (pInstall (pListened None (ps_serve ServeListen true
    (pNoPath [] (ps_close (CloseRemove false []) (ps_close (CloseFail false [] []) (pClosing (pStop vstart)))))))) ->
  rtc (fun w w' => exists own, vstep own w w') vstart w /\ pv_close w = CloseDone [] /\ pv_listener w = Some true /\ pv_loop w = LoopAccept Millisecond.
Proof.
  intros ->. split; [|done].
  eapply rtc_l; [exists false; by apply ps_stop|]. eapply rtc_l; [exists true; by apply ps_closing|].
  eapply rtc_l; [exists true; by eapply ps_no_listener|]. eapply rtc_l; [exists true; by eapply ps_waited|].
  eapply rtc_l; [exists true; by eapply ps_nothing|]. eapply rtc_l; [exists false; by eapply ps_begin|].
  eapply rtc_l; [exists false; by apply (ps_listened _ None)|]. eapply rtc_l; [exists true; by apply ps_install|].
  apply rtc_once. exists true. by apply ps_go.
Qed.

(** ** Claims *)

(** C32: the server serves until it is closed, and a [Close] always ends with
    nothing left: in every run in which [Close] does not overlap with [Serve],
    the accept loop ends for no error of [Accept] but only once the server
    stops, and the pause after an error is one millisecond doubled at most ten
    times; a [Close] that began can reach its end by the server's own steps,
    whatever the connections are in the middle of, and once it has closed the
    listener every schedule ends; no goroutine is added to a wait group that
    was at zero; when it returns, the loop, every handle and every goroutine
    that asks for a snapshot have returned, every socket is closed, the wait
    group is at zero, and the file of the socket is gone or an error reported. *)
Theorem Close_ends w :
  vreachable w ->
  (pv_loop w = LoopEnded -> pv_stop w = true) /\
  (forall b, backoffOf (pv_loop w) = Some b -> exists k, 0 <= k <= 10 /\ b = 2 ^ k * Millisecond) /\
  (pv_close w <> CloseNone -> exists w' errs, rtc (servingStep true) w w' /\ pv_close w' = CloseDone errs) /\
  (listenerClosed w -> Acc (fun w2 w1 => exists own, servingStep own w1 w2) w) /\
  (pv_closing w = true -> pv_wg w = 0 -> forall own w', servingStep own w w' -> pv_wg w' = 0) /\
  (forall errs, pv_close w = CloseDone errs ->
    pv_wg w = 0 /\ pv_resyncs w = 0%nat /\ backoffOf (pv_loop w) = None /\
    Forall (fun h => h = mkHandle false Ended) (pv_handles w) /\ pv_conns w = ∅ /\
    pv_listener w <> Some true /\ pv_done w = true /\ (pv_socket w = false \/ errs <> [])).
Proof.
  intros Hr%vinv_reachable. split_and!; [by apply pi_loop|by apply pi_backoff|by apply close_from_start|intros Hlc; by eapply close_terminates|by apply no_late_add|].
  intros errs. by apply closed_clean.
Qed.
