(* ===== verification/Reader.v ===== *)
(** * internal/presenter: the requests of a connection

    [readLoop] of [connection.go], [readHello] and [hasCapability] of
    [server.go], and [Envelope.Validate] of [validate.go].  The reader takes
    frames off the socket one after the other; between its calls the owner and
    the connection change under other goroutines, which [rstep] interleaves.

    The socket is the bytes its peer will ever have sent.  What [encoding/json]
    finds in a text is in the classes of [Strict]; what Go's types guarantee of
    a decoded value is [JsonTyped]. *)
From stdpp Require Import gmap strings list sorting.
From Stdlib Require Import ZArith Lia Strings.Byte.
From S2P Require Import Prelude GoLib Protocol Frame Strict Notify History Owner OwnerInv OwnerOps OwnerAdd OwnerCmd OwnerTime OwnerRun Connection Commands SnapshotFrame.
Local Open Scope string_scope.
Local Open Scope list_scope.
Local Open Scope Z_scope.

(** ** protocol: envelopes *)

Definition KindHello : string := "hello".
Definition KindSnapshot : string := "snapshot".
Definition KindCommand : string := "command".
Definition KindReply : string := "reply".

(** [KindAdded] to [KindHistoryCleared] *)
Definition stateKinds : list string :=
  ["added"; "replaced"; "closed"; "history-added"; "history-removed"; "history-seen"; "history-cleared"].

Record Envelope := mkEnvelope { ev_Kind : string; ev_RequestID : Z; ev_EnvSequence : Z; ev_Payload : string }.

(** [json.Valid] *)
Class JsonValid := json_Valid : string -> bool.

Definition Envelope_Validate `{JsonValid} (e : Envelope) : option error :=
  if (slen (ev_Payload e) =? 0) || negb (json_Valid (ev_Payload e)) then Some (ErrNew "protocol: envelope has invalid payload")
  else if String.eqb (ev_Kind e) KindHello then
    failIf (negb (ev_RequestID e =? 0) || negb (ev_EnvSequence e =? 0)) (ErrNew "protocol: hello has correlation fields")
  else if String.eqb (ev_Kind e) KindSnapshot then
    failIf (negb (ev_RequestID e =? 0)) (ErrNew "protocol: snapshot has a request ID")
  else if existsb (String.eqb (ev_Kind e)) stateKinds then
    failIf ((ev_EnvSequence e =? 0) || negb (ev_RequestID e =? 0)) (ErrNew "protocol: state message has invalid sequence")
  else if String.eqb (ev_Kind e) KindCommand || String.eqb (ev_Kind e) KindReply then
    failIf ((ev_RequestID e =? 0) || negb (ev_EnvSequence e =? 0)) (ErrNew "protocol: request message has invalid request ID")
  else Some (ErrQuoted "protocol: unknown message kind " (ev_Kind e)).

(** ** encoding/json: a reply *)

Definition errorCode_text (code : ErrorCode) : string :=
  match code with
  | ErrorInvalid => "invalid" | ErrorNotFound => "not_found" | ErrorStale => "stale"
  | ErrorBusy => "busy" | ErrorUnavailable => "unavailable" | ErrorCodeOther s => s
  end.

Definition protocolError_json (e : ProtocolError) : string :=
  jsonObject ([("code", jsonString (errorCode_text (e_Code e)))] ++ omitEmptyString "message" (e_Message e)).

Definition reply_json (r : Reply) : string :=
  jsonObject ([("ok", jsonBool (rp_OK r))] ++
    match rp_Error r with Some e => [("error", protocolError_json e)] | None => [] end ++
    omitEmptyList "lifetimes" (map lifetime_json (rp_Lifetimes r)) ++ omitZero "id" (rp_ID r) ++
    (if rp_Replaced r then [("replaced", jsonBool true)] else [])).

(** ** The hello *)

Section Reading.
Context `{Tokenizer, Decode Envelope, Decode Hello, Decode WireCommand, JsonValid}.

(** A frame decoded strictly; running out of fuel, which does not happen, is an
    error as well. *)
Definition decodeFrame {A} `{Decode A} (data : string) : error + A := default (inl (ErrNew "out of fuel")) (DecodeStrict data).

Definition readHello (conn : list Byte.byte) : error + Hello :=
  match (ReadFrame conn).1 with
  | inl err => inl err
  | inr frame =>
      match decodeFrame (A := Envelope) (String.string_of_list_byte frame) with
      | inl err => inl err
      | inr envelope =>
          match Envelope_Validate envelope with
          | Some _ => inl (ErrNew "presenter: expected hello")
          | None =>
              if negb (String.eqb (ev_Kind envelope) KindHello) then inl (ErrNew "presenter: expected hello")
              else match decodeFrame (A := Hello) (ev_Payload envelope) with
              | inl err => inl err
              | inr hello => match Hello_Validate hello RolePresenter with Some err => inl err | None => inr hello end
              end
          end
      end
  end.

Definition hasCapability (capabilities : list string) (required : string) : bool :=
  existsb (fun capability => String.eqb capability required) capabilities.

(** ** The read loop *)

(** A frame as the reader sees it: the request of a valid command whose number
    is past the last one's. *)
Definition requestOf (lastRequestID : Z) (frame : list Byte.byte) : option (Z * WireCommand) :=
  match decodeFrame (A := Envelope) (String.string_of_list_byte frame) with
  | inl _ => None
  | inr envelope =>
      if match Envelope_Validate envelope with Some _ => true | None => false end ||
         negb (String.eqb (ev_Kind envelope) KindCommand) then None
      else if ev_RequestID envelope <=? lastRequestID then None
      else match decodeFrame (A := WireCommand) (ev_Payload envelope) with
      | inl _ => None
      | inr command =>
          match WireCommand_Validate command with Some _ => None | None => Some (ev_RequestID envelope, command) end
      end
  end.

(** The top of the loop: the next request, and what is left to read. *)
Definition nextRequest (lastRequestID : Z) (conn : list Byte.byte) : option (Z * WireCommand * list Byte.byte) :=
  match ReadFrame conn with
  | (inl _, _) => None
  | (inr frame, rest) => match requestOf lastRequestID frame with Some r => Some (r, rest) | None => None end
  end.

(** The answer to a request as it is queued. *)
Definition replyMessage (requestID : Z) (reply : Reply) : error + outbound :=
  match marshalEnvelope KindReply requestID 0 (inr (reply_json reply)) with
  | inl err => inl err
  | inr payload => inr (mkOutbound (String.list_byte_of_string payload) 0)
  end.

(** Where the reader is: at the top of its loop, in [Owner.Do], queueing the
    answer, returned. *)
Inductive rphase :=
  | RReading | RExecuting (requestID : Z) (command : WireCommand) | RQueueing (requestID : Z) (reply : Reply) | RReturned.

(** The reader with the owner and the connection it shares, and two logs: the
    requests handed to the owner and the answers queued. *)
Record rworld := mkRWorld {
  rw_conn : list Byte.byte;
  rw_phase : rphase;
  rw_lastRequestID : Z;
  rw_connection : connection;
  rw_owner : ownerState;
  rw_executed : list (Z * WireCommand);
  rw_replied : list (Z * Reply) }.

Definition at_rphase (p : rphase) (w : rworld) : rworld :=
  mkRWorld (rw_conn w) p (rw_lastRequestID w) (rw_connection w) (rw_owner w) (rw_executed w) (rw_replied w).

Section Steps.
Context `{Clock, Sink, Png, Sha256, ErrorText} (generation : Z) (producer : bool).

Inductive rstep : rworld -> rworld -> Prop :=
  | rs_read w requestID command rest :
      rw_phase w = RReading -> nextRequest (rw_lastRequestID w) (rw_conn w) = Some (requestID, command, rest) ->
      rstep w (mkRWorld rest (RExecuting requestID command) requestID (rw_connection w) (rw_owner w) (rw_executed w) (rw_replied w))
  | rs_refuse w :
      rw_phase w = RReading -> nextRequest (rw_lastRequestID w) (rw_conn w) = None -> rstep w (at_rphase RReturned w)
  | rs_execute w requestID command d o reply :
      rw_phase w = RExecuting requestID command ->
      executeCommandForConnection d generation producer command (rw_owner w) = (o, reply) ->
      rstep w (mkRWorld (rw_conn w) (RQueueing requestID reply) (rw_lastRequestID w) (rw_connection w) o
        (rw_executed w ++ [(requestID, command)]) (rw_replied w))
  | rs_reply w requestID reply message c :
      rw_phase w = RQueueing requestID reply -> replyMessage requestID reply = inr message ->
      enqueue message (rw_connection w) = Some (c, true) ->
      rstep w (mkRWorld (rw_conn w) RReading (rw_lastRequestID w) c (rw_owner w) (rw_executed w) (rw_replied w ++ [(requestID, reply)]))
  | rs_reply_failed w requestID reply :
      rw_phase w = RQueueing requestID reply ->
      (forall message, replyMessage requestID reply = inr message -> exists c, enqueue message (rw_connection w) = Some (c, false)) ->
      rstep w (at_rphase RReturned w)
  (* the socket fails under the reader *)
  | rs_broken w : rw_phase w = RReading -> rstep w (at_rphase RReturned w)
  (* other goroutines *)
  | rs_connection w c :
      rstep w (mkRWorld (rw_conn w) (rw_phase w) (rw_lastRequestID w) c (rw_owner w) (rw_executed w) (rw_replied w))
  | rs_owner w l o :
      label_typed l -> step (rw_owner w) l o ->
      rstep w (mkRWorld (rw_conn w) (rw_phase w) (rw_lastRequestID w) (rw_connection w) o (rw_executed w) (rw_replied w)).

Definition rstart (conn : list Byte.byte) (c : connection) (o : ownerState) : rworld :=
  mkRWorld conn RReading 0 c o [] [].

End Steps.

(** ** The requests of a stream *)

(** The requests among the first frames, up to the first that is refused. *)
Fixpoint accepted (lastRequestID : Z) (frames : list (list Byte.byte)) : list (Z * WireCommand) :=
  match frames with
  | [] => []
  | frame :: frames =>
      match requestOf lastRequestID frame with
      | Some (requestID, command) => (requestID, command) :: accepted requestID frames
      | None => []
      end
  end.

End Reading.

(** ** What the reader hands to the owner *)

(** The values [encoding/json] decodes have the widths of their Go types. *)
Class JsonTyped `{Decode WireCommand} := {
  decode_typed data dec command : json_Decode data = (dec, inr command) -> wire_typed command }.

Section ReaderFacts.
Context `{Tokenizer, Decode Envelope, Decode Hello, JsonTyped, JsonValid}.

Lemma decodeFrame_inr {A} `{Decode A} data v : decodeFrame (A := A) data = inr v -> exists dec, json_Decode data = (dec, inr v).
Proof.
  unfold decodeFrame, DecodeStrict. destruct (negb _); [done|]. destruct (rejectDuplicateKeys _) as [[e|]|]; try done. cbn.
  destruct (json_Decode data) as [dec [e|x]]; [done|]. destruct (Strict.requireEOF dec); [done|]. intros [= ->]. by exists dec.
Qed.

Lemma requestOf_Some lastRequestID frame requestID command :
  requestOf lastRequestID frame = Some (requestID, command) ->
  lastRequestID < requestID /\ WireCommand_Validate command = None /\ wire_typed command.
Proof.
  unfold requestOf. destruct (decodeFrame _) as [e|envelope]; [done|]. destruct (_ || _); [done|].
  destruct (Z.leb_spec (ev_RequestID envelope) lastRequestID); [done|].
  destruct (decodeFrame (ev_Payload envelope)) as [e|c] eqn:Hc; [done|]. destruct (WireCommand_Validate c) eqn:Hv; [done|].
  intros [= <- <-]. apply decodeFrame_inr in Hc as [dec Hc]. split_and!; [lia|done|by eapply decode_typed].
Qed.

(** The number of the last request of a list, or that of the one before it. *)
Definition lastId (lastRequestID : Z) (l : list (Z * WireCommand)) : Z := default lastRequestID (last (map fst l)).

Lemma lastId_cons n r l : lastId n (r :: l) = lastId r.1 l.
Proof. unfold lastId. cbn [map]. rewrite last_cons. by destruct (last (map fst l)). Qed.

Lemma accepted_snoc n frames frame r :
  length (accepted n frames) = length frames -> requestOf (lastId n (accepted n frames)) frame = Some r ->
  accepted n (frames ++ [frame]) = accepted n frames ++ [r].
Proof.
  revert n. induction frames as [|f frames IH]; intros n; cbn [accepted app length].
  - unfold lastId. cbn. intros _ ->. by destruct r.
  - destruct (requestOf n f) as [[id c]|]; [|done]. rewrite lastId_cons. cbn [length fst]. intros [= Hl] Hr. by rewrite (IH _ Hl Hr).
Qed.

Lemma lastId_snoc n l r : lastId n (l ++ [r]) = r.1.
Proof. unfold lastId. rewrite map_app. cbn [map]. by rewrite last_snoc. Qed.

Lemma accepted_sorted n frames :
  StronglySorted Z.lt (n :: map fst (accepted n frames)) /\ Forall (fun r => WireCommand_Validate r.2 = None) (accepted n frames).
Proof.
  revert n. induction frames as [|f frames IH]; intros n; cbn [accepted]; [split; [by repeat constructor|constructor]|].
  destruct (requestOf n f) as [[id c]|] eqn:Hr; [|split; [by repeat constructor|constructor]].
  apply requestOf_Some in Hr as (Hlt&Hv&_). destruct (IH id) as [Hs Hf]. split; [|by constructor].
  cbn [map fst]. constructor; [exact Hs|]. constructor; [done|]. apply StronglySorted_inv in Hs as [_ Hs].
  eapply Forall_impl; [exact Hs|]. cbn. lia.
Qed.

(** The answers are those to the first requests, and at most one is owed. *)
Definition owed (executed : list (Z * WireCommand)) (replied : list (Z * Reply)) (l : list Z) : Prop :=
  map fst executed = map fst replied ++ l.

(** The stream up to where the reader is, and what it took from it. *)
Record rinv (conn : list Byte.byte) (w : rworld) : Prop := {
  ri_taken : exists frames, conn = concat (map frameOf frames) ++ rw_conn w /\ Forall frameable frames /\
    length (accepted 0 frames) = length frames /\ rw_lastRequestID w = lastId 0 (accepted 0 frames) /\
    match rw_phase w with
    | RExecuting requestID command => accepted 0 frames = rw_executed w ++ [(requestID, command)] /\ wire_typed command
    | _ => accepted 0 frames = rw_executed w
    end;
  ri_replied :
    match rw_phase w with
    | RQueueing requestID _ => owed (rw_executed w) (rw_replied w) [requestID]
    | RReturned => owed (rw_executed w) (rw_replied w) [] \/ exists requestID, owed (rw_executed w) (rw_replied w) [requestID]
    | _ => owed (rw_executed w) (rw_replied w) []
    end }.

Section Run.
Context `{MonotonicClock, Sink, PngLaws, Sha256Laws, ErrorText} (generation : Z) (producer : bool).

Notation rreachable conn c o := (rtc (rstep generation producer) (rstart conn c o)).

Lemma rstep_inv conn w w' : rinv conn w -> rstep generation producer w w' -> rinv conn w'.
Proof.
  intros [(frames&Hconn&Hf&Hl&Hlast&Htk) Hrep] Hs.
  destruct Hs as [w id c rest Hp Hn|w Hp Hn|w id c d o reply Hp Hex|w id reply msg cn Hp Hm He|w id reply Hp Hm|w Hp|w cn|w l o Hty Hs];
    try rewrite Hp in *; cbn in *.
  - unfold nextRequest in Hn. destruct (ReadFrame (rw_conn w)) as [[e|frame] rest'] eqn:Hr; [done|].
    destruct (requestOf _ frame) as [[id' c']|] eqn:Hreq; [|done]. injection Hn as -> -> ->. apply ReadFrame_inr in Hr as [Hfr Hrest].
    pose proof (proj2 (proj2 (requestOf_Some _ _ _ _ Hreq))) as Hty. rewrite Hlast in Hreq. pose proof (accepted_snoc 0 frames frame (id, c) Hl Hreq) as Hacc.
    split; cbn; [|done]. exists (frames ++ [frame]). rewrite Hacc, lastId_snoc, Htk, !length_app, map_app, concat_app, <-Htk, Hl. cbn.
    split_and!; try done; [rewrite Hconn, Hrest, <-app_assoc; unfold frameOf; cbn; by rewrite app_nil_r|]. apply Forall_app. by split; [|constructor].
  - split; cbn; [by exists frames|by left].
  - destruct Htk as [Htk _]. split; cbn; [by exists frames|]. unfold owed in *. rewrite map_app, Hrep. cbn. by rewrite app_nil_r.
  - split; cbn; [by exists frames|]. unfold owed in *. rewrite Hrep, map_app. cbn. by rewrite app_nil_r.
  - split; cbn; [by exists frames|]. right. by exists id.
  - split; cbn; [by exists frames|by left].
  - split; cbn; [by exists frames|done].
  - split; cbn; [by exists frames|done].
Qed.

Lemma rstep_reachable sink store conn w w' :
  start_store_ok store -> is_u64 generation -> rinv conn w -> reachable sink store (rw_owner w) ->
  rstep generation producer w w' -> reachable sink store (rw_owner w').
Proof.
  intros Hst Hg [(frames&_&_&_&_&Htk) _] Hr Hs. destruct Hs as [w id c rest Hp Hn|w Hp Hn|w id c d o reply Hp Hex|w id reply msg cn Hp Hm He|
    w id reply Hp Hm|w Hp|w cn|w l o Hty Hs]; cbn; try done.
  - rewrite Hp in Htk. destruct Htk as [_ Hty]. by eapply command_reachable.
  - by eapply reachable_step.
Qed.


End Run.
End ReaderFacts.
