(* ===== verification/Handshake.v ===== *)
(** * internal/presenter: who gets in, and what it is told first

    [handle] of [server.go] before the hand-over and right after it: [peerUID],
    the deadlines, [readHello] with the capabilities it asks for, and the two
    frames a peer reads before its deltas.  The answers of the system about a
    socket are [peerSocket]; the socket itself is the bytes its peer will ever
    have sent and a stream that takes what is written. *)
From stdpp Require Import gmap strings list.
From Stdlib Require Import ZArith Lia Strings.Byte.
From S2P Require Import Prelude GoLib Protocol Frame Strict Notify History Owner Commands SnapshotFrame Publish Reader.
Local Open Scope string_scope.
Local Open Scope list_scope.
Local Open Scope Z_scope.

Definition RequiredCapability : string := "notification-state".
Definition RequiredLifetimeCapability : string := "presentation-lifetime".

(** ** The peer of a socket *)

(** [SyscallConn]; [Control] of the raw connection; SO_PEERCRED; the two calls
    of [SetDeadline] around the hello and the two of [SetWriteDeadline] around
    the greeting; and what the peer sends. *)
Record peerSocket := mkPeerSocket {
  pk_raw : option error;
  pk_control : option error;
  pk_credential : error + Z;
  pk_deadline : option error;
  pk_cleared : option error;
  pk_writeDeadline : option error;
  pk_writeCleared : option error;
  pk_bytes : list Byte.byte }.

Definition peerUID (socket : peerSocket) : error + Z :=
  match pk_raw socket with
  | Some err => inl err
  | None =>
      match pk_control socket with
      | Some err => inl err
      | None => pk_credential socket
      end
  end.

Section Handshake.
Context `{Tokenizer, Decode Envelope, Decode Hello, JsonValid}.

(** [handle] up to its second critical section: whether the connection is a
    producer, and what is left to read; [None] when it returns. *)
Definition handshake (uid : Z) (socket : peerSocket) : option (bool * list Byte.byte) :=
  match peerUID socket with
  | inl _ => None
  | inr peer =>
      if negb (peer =? uid) then None
      else match pk_deadline socket with
      | Some _ => None
      | None =>
          match readHello (pk_bytes socket) with
          | inl _ => None
          | inr hello =>
              if negb (hasCapability (hl_Capabilities hello) RequiredCapability) ||
                 negb (hasCapability (hl_Capabilities hello) RequiredLifetimeCapability) then None
              else match pk_cleared socket with
              | Some _ => None
              | None => Some (hasCapability (hl_Capabilities hello) CapabilityBatteryProducer, (ReadFrame (pk_bytes socket)).2)
              end
          end
      end
  end.

End Handshake.

(** ** The greeting *)

Definition serviceHello : Hello :=
  mkHello ProtocolMajor ProtocolMinor RolePresenter
    [RequiredCapability; RequiredLifetimeCapability; CapabilityBatteryProducer; "actions"; "history"; "inline-reply"].

(** [json.Marshal] of a [Hello]; a nil slice is [null]. *)
Definition hello_json (h : Hello) : string :=
  jsonObject [("major", jsonUint (hl_Major h)); ("minor", jsonUint (hl_Minor h)); ("role", jsonString (hl_Role h));
    ("capabilities", arrayOrNull (map jsonString (hl_Capabilities h)))].

Definition helloFrame : error + string := marshalEnvelope KindHello 0 0 (inr (hello_json serviceHello)).

(** The two frames, once the connection is current and its generation bound. *)
Definition greet {W} `{Writer W} (socket : peerSocket) (snapshotFrame : string) (w : W) : W * bool :=
  match helloFrame with
  | inl _ => (w, false)
  | inr hello =>
      match pk_writeDeadline socket with
      | Some _ => (w, false)
      | None =>
          match WriteFrame w (bytesOfText hello) with
          | (w, Some _) => (w, false)
          | (w, None) =>
              match WriteFrame w (bytesOfText snapshotFrame) with
              | (w, Some _) => (w, false)
              | (w, None) => (w, match pk_writeCleared socket with Some _ => false | None => true end)
              end
          end
      end
  end.

(** ** Lemmas *)

Lemma hasCapability_true capabilities required : hasCapability capabilities required = true <-> required ∈ capabilities.
Proof.
  unfold hasCapability. rewrite existsb_exists. setoid_rewrite String.eqb_eq. setoid_rewrite <-list_elem_of_In. split; [by intros (c&?&->)|eauto].
Qed.

Lemma peerUID_inr socket uid : peerUID socket = inr uid <-> pk_raw socket = None /\ pk_control socket = None /\ pk_credential socket = inr uid.
Proof. unfold peerUID. destruct (pk_raw socket), (pk_control socket); naive_solver. Qed.

Section HandshakeFacts.
Context `{Tokenizer, Decode Envelope, Decode Hello, JsonValid}.

(** What [readHello] takes: one frame, whose text is a valid envelope around a
    valid hello. *)
Lemma readHello_inr bytes hello :
  readHello bytes = inr hello <->
  exists frame rest envelope, bytes = frameOf frame ++ rest /\ frameable frame /\
    decodeFrame (A := Envelope) (String.string_of_list_byte frame) = inr envelope /\ Envelope_Validate envelope = None /\
    ev_Kind envelope = KindHello /\ decodeFrame (A := Hello) (ev_Payload envelope) = inr hello /\ Hello_Validate hello RolePresenter = None.
Proof.
  unfold readHello. split.
  - destruct (ReadFrame bytes) as [[e|frame] rest] eqn:Hf; [done|]. apply ReadFrame_inr in Hf as [Hok ->]. cbn.
    destruct (decodeFrame _) as [e|envelope] eqn:He; [done|]. destruct (Envelope_Validate envelope) eqn:Hv; [done|].
    destruct (String.eqb_spec (ev_Kind envelope) KindHello) as [Hk|]; [|done]. cbn.
    destruct (decodeFrame (ev_Payload envelope)) as [e|h] eqn:Hh; [done|]. destruct (Hello_Validate h RolePresenter) eqn:Hhv; [done|].
    intros [= ->]. by exists frame, rest, envelope.
  - intros (frame&rest&envelope&->&Hok&He&Hv&Hk&Hh&Hhv). rewrite ReadFrame_frameOf by done. cbn. by rewrite He, Hv, Hk, String.eqb_refl, Hh, Hhv.
Qed.

Lemma handshake_spec uid socket producer rest :
  handshake uid socket = Some (producer, rest) <->
  peerUID socket = inr uid /\ pk_deadline socket = None /\ pk_cleared socket = None /\ (ReadFrame (pk_bytes socket)).2 = rest /\
  exists hello, readHello (pk_bytes socket) = inr hello /\ RequiredCapability ∈ hl_Capabilities hello /\
    RequiredLifetimeCapability ∈ hl_Capabilities hello /\ producer = bool_decide (CapabilityBatteryProducer ∈ hl_Capabilities hello).
Proof.
  assert (forall c l, hasCapability l c = bool_decide (c ∈ l)) as Hcap.
  { intros c l. apply eq_true_iff_eq. by rewrite hasCapability_true, bool_decide_eq_true. }
  unfold handshake. destruct (peerUID socket) as [e|peer] eqn:Hp; [naive_solver|]. destruct (Z.eqb_spec peer uid) as [->|Hne]; [|naive_solver]. cbn [negb].
  destruct (pk_deadline socket); [naive_solver|]. destruct (readHello _) as [e|hello]; [naive_solver|].
  rewrite !Hcap. destruct (decide (RequiredCapability ∈ hl_Capabilities hello)) as [H1'|H1'];
    [rewrite bool_decide_eq_true_2 by done|rewrite bool_decide_eq_false_2 by done; cbn; naive_solver].
  destruct (decide (RequiredLifetimeCapability ∈ hl_Capabilities hello)) as [H2'|H2'];
    [rewrite bool_decide_eq_true_2 by done|rewrite bool_decide_eq_false_2 by done; cbn; naive_solver].
  cbn [negb orb]. destruct (pk_cleared socket); naive_solver.
Qed.

End HandshakeFacts.

(** The service's own hello is one that a service like it lets in, and its
    frame is far below the limit. *)
Lemma serviceHello_valid : Hello_Validate serviceHello RolePresenter = None.
Proof. vm_compute. reflexivity. Qed.

Lemma greet_spec {W} `{WriterContract W} socket snapshotFrame (w w' : W) :
  greet socket snapshotFrame w = (w', true) ->
  exists hello, helloFrame = inr hello /\ frameable (bytesOfText hello) /\ frameable (bytesOfText snapshotFrame) /\
    written w' = written w ++ frameOf (bytesOfText hello) ++ frameOf (bytesOfText snapshotFrame).
Proof.
  unfold greet. destruct helloFrame as [e|hello]; [done|]. destruct (pk_writeDeadline socket); [done|].
  destruct (WriteFrame w _) as [w1 [e|]] eqn:E1; [done|]. destruct (WriteFrame w1 _) as [w2 [e|]] eqn:E2; [done|].
  apply WriteFrame_None in E1 as [F1 Hw1], E2 as [F2 Hw2]. intros [= <- _]. exists hello. split_and!; [done..|]. by rewrite Hw2, Hw1, <-app_assoc.
Qed.

(** ** Claims *)

Section HandshakeClaims.
Context `{Tokenizer, Decode Envelope, Decode Hello, JsonValid}.

(** C30: only presenters of the same user get in: a connection gets past the
    handshake exactly when the system says that its peer has the server's user,
    what the peer sends begins with one frame that holds a valid envelope of a
    valid hello, with the program's major version, no later minor version and
    the role of a presenter, which lists both capabilities a presenter must
    have, and no deadline could not be set; it is a producer exactly when it
    says so, and its requests are read from after that frame on.  What it reads,
    before its deltas, is the service's hello, which passes the same
    validation, and the snapshot. *)
Theorem handshake_admits {W} `{WriterContract W} uid socket producer rest (w w' : W) snapshotFrame :
  (handshake uid socket = Some (producer, rest) <->
   (pk_raw socket = None /\ pk_control socket = None /\ pk_credential socket = inr uid) /\ pk_deadline socket = None /\ pk_cleared socket = None /\
   exists frame envelope hello, pk_bytes socket = frameOf frame ++ rest /\ frameable frame /\
     decodeFrame (A := Envelope) (String.string_of_list_byte frame) = inr envelope /\ Envelope_Validate envelope = None /\
     ev_Kind envelope = KindHello /\ decodeFrame (A := Hello) (ev_Payload envelope) = inr hello /\ Hello_Validate hello RolePresenter = None /\
     (hl_Major hello = ProtocolMajor /\ hl_Minor hello <= ProtocolMinor /\ hl_Role hello = RolePresenter) /\
     RequiredCapability ∈ hl_Capabilities hello /\ RequiredLifetimeCapability ∈ hl_Capabilities hello /\
     producer = bool_decide (CapabilityBatteryProducer ∈ hl_Capabilities hello)) /\
  (greet socket snapshotFrame w = (w', true) ->
   exists hello bytes, helloFrame = inr hello /\ written w' = written w ++ bytes /\ Hello_Validate serviceHello RolePresenter = None /\
     forall deltas, readFrames 2 (bytes ++ deltas) = (inr [bytesOfText hello; bytesOfText snapshotFrame], deltas)).
Proof.
  split.
  - rewrite handshake_spec, peerUID_inr. split.
    + intros (Hp&Hd&Hc&Hrest&hello&(frame&rest'&envelope&Hb&Hf&He&Hv&Hk&Hh&Hhv)%readHello_inr&H1'&H2'&Hpr). split_and!; try apply Hp; try done.
      rewrite Hb, ReadFrame_frameOf in Hrest by done. cbn in Hrest. subst rest'. exists frame, envelope, hello. split_and!; try done; revert Hhv; clear;
        unfold Hello_Validate; destruct (Z.eqb_spec (hl_Major hello) ProtocolMajor), (Z.ltb_spec ProtocolMinor (hl_Minor hello)), (String.eqb_spec (hl_Role hello) RolePresenter); done.
    + intros (Hp&Hd&Hc&frame&envelope&hello&Hb&Hf&He&Hv&Hk&Hh&Hhv&_&H1'&H2'&Hpr). split_and!; try apply Hp; try done.
      * by rewrite Hb, ReadFrame_frameOf.
      * exists hello. split_and!; try done. apply readHello_inr. by exists frame, rest, envelope.
  - intros (hello&Hh&F1&F2&Hw)%greet_spec. exists hello, (frameOf (bytesOfText hello) ++ frameOf (bytesOfText snapshotFrame)).
    split_and!; [done|done|apply serviceHello_valid|]. intros deltas.
    pose proof (readFrames_frames [bytesOfText hello; bytesOfText snapshotFrame] deltas
      ltac:(apply List.Forall_cons; [exact F1|apply List.Forall_cons; [exact F2|apply List.Forall_nil]])) as Hr.
    cbn [length map concat] in Hr. by rewrite app_nil_r in Hr.
Qed.

End HandshakeClaims.
