(* ===== verification/App.v ===== *)
(** * internal/app: putting the program together

    [Run], [shutdown] and [eventSink] of [run.go].  A run is the list of the
    parts it creates and closes, in order, with the error it returns; what the
    calls of the other packages and of the system answer is given by the
    environment [env].  [main] of [cmd/sysc-notify] is what the process says and
    its exit status. *)
From stdpp Require Import sets list strings gmap.
From Stdlib Require Import ZArith Lia.
From S2P Require Import Prelude Owner.
Local Open Scope string_scope.
Local Open Scope list_scope.

(** ** The sinks of the owner's events *)

Section Sinks.
Context {W : Type}.

(** [eventSink.Publish]: every sink gets the event, whatever the ones before
    it answered. *)
Definition publishTo (event : Event) (acc : W * bool) (sink : Event -> W -> W * bool) : W * bool :=
  let '(w, ok) := acc in
  let '(w, delivered) := sink event w in (w, if delivered then ok else false).

Definition eventSink_Publish (sinks : list (Event -> W -> W * bool)) (event : Event) (w : W) : W * bool :=
  fold_left (publishTo event) sinks (w, true).

(** [eventSink.add] *)
Definition eventSink_add (sink : Event -> W -> W * bool) (sinks : list (Event -> W -> W * bool)) := sinks ++ [sink].

(** Every sink gets the event, in the state the sinks before it left. *)
Lemma eventSink_Publish_all sinks event w :
  (eventSink_Publish sinks event w).1 = fold_left (fun w sink => (sink event w).1) sinks w.
Proof.
  unfold eventSink_Publish. generalize true. revert w. induction sinks as [|sink sinks IH]; intros w ok; cbn [fold_left]; [done|].
  cbn [publishTo]. destruct (sink event w) as [w' delivered]. apply IH.
Qed.

End Sinks.

(** ** The parts of a run *)

Inductive part := History | Presentation | StateOwner | Service | Connection.

#[global] Instance part_eq_dec : EqDecision part.
Proof. solve_decision. Defined.

(** A part comes into being, or is closed; between the two, [config.Ready] is
    closed. *)
Inductive action := Created (p : part) | Announced | Closed (p : part).

(** Why the run stops waiting: the context is done, or one of the two servers
    says so, with an error or by closing its channel. *)
Inductive stopCause := ContextDone | PresenterDone (err : option (option error)) | ServiceDone (err : option (option error)).

Record Config := mkConfig {
  cf_RuntimeDir : string;
  cf_StateHome : string;
  cf_ProcRoot : string;
  cf_Ready : bool  (** there is a channel to close *) }.

Record env := mkEnv {
  en_context : option (option error);  (** no context, or what its [Err] answers *)
  en_runtimeDir : string;              (** XDG_RUNTIME_DIR *)
  en_open : option error;              (** [history.Open] *)
  en_openAt : string -> option error;  (** [history.OpenAt] *)
  en_servePresenter : string -> option error;  (** [Serve] of [presenter.NewAt] *)
  en_connect : option error;           (** [dbus.ConnectSessionBus] *)
  en_serveBus : string -> option error;  (** [Serve] of [fdo.NewAtWithOrder] *)
  en_stop : stopCause;
  en_close : part -> option error }.

(** The directories a run works with. *)
Definition runtimeDirOf (e : env) (config : Config) : string :=
  if String.eqb (cf_RuntimeDir config) "" then en_runtimeDir e else cf_RuntimeDir config.
Definition procRootOf (config : Config) : string := if String.eqb (cf_ProcRoot config) "" then "/proc" else cf_ProcRoot config.
Definition openHistory (e : env) (config : Config) : option error :=
  if String.eqb (cf_StateHome config) "" then en_open e else en_openAt e (cf_StateHome config).

(** Closes the parts that are there, one after the other. *)
Definition closeParts (e : env) (there : part -> bool) (parts : list part) : list action * option error :=
  fold_left (fun acc p =>
    let '(trace, err) := acc in
    if there p then (trace ++ [Closed p], errors_Join err (en_close e p)) else acc) parts ([], None).

Definition shutdown (e : env) (there : part -> bool) : list action * option error :=
  closeParts e there [Presentation; Service; StateOwner; History; Connection].

(** [errors.Join(err, shutdown(...))] after the parts [created] and what was
    said. *)
Definition stopRun (e : env) (created : list part) (said : list action) (err : option error) : list action * option error :=
  let '(trace, closed) := shutdown e (fun p => bool_decide (p ∈ created)) in
  (map Created created ++ said ++ trace, errors_Join err closed).

Definition runErr (cause : stopCause) : option error :=
  match cause with
  | ContextDone => None
  | PresenterDone (Some err) | ServiceDone (Some err) => err
  | PresenterDone None => Some (ErrNew "app: presenter stopped")
  | ServiceDone None => Some (ErrNew "app: D-Bus service stopped")
  end.

Definition Run (e : env) (config : Config) : list action * option error :=
  match en_context e with
  | None => ([], Some (ErrNew "app: missing context"))
  | Some (Some err) => ([], Some err)
  | Some None =>
      match openHistory e config with
      | Some err => ([], Some err)
      | None =>
          match en_servePresenter e (runtimeDirOf e config) with
          | Some err => stopRun e [History; Presentation; StateOwner] [] (Some err)
          | None =>
              match en_connect e with
              | Some err => stopRun e [History; Presentation; StateOwner] [] (Some err)
              | None =>
                  let parts := [History; Presentation; StateOwner; Connection; Service] in
                  match en_serveBus e (procRootOf config) with
                  | Some err => stopRun e parts [] (Some err)
                  | None => stopRun e parts (if cf_Ready config then [Announced] else []) (runErr (en_stop e))
                  end
              end
          end
      end
  end.

(** [main]: what is logged, with its format, and the exit status.  The context
    is that of [signal.NotifyContext]. *)
Definition zeroConfig : Config := mkConfig "" "" "" false.

Definition main (e : env) : list action * option (string * error) * Z :=
  match Run e zeroConfig with
  | (trace, Some err) => (trace, Some ("sysc-notify: %v", err), 1%Z)
  | (trace, None) => (trace, None, 0%Z)
  end.

(** ** What a run leaves behind *)

Definition created (trace : list action) : list part := omap (fun a => match a with Created p => Some p | _ => None end) trace.
Definition closed (trace : list action) : list part := omap (fun a => match a with Closed p => Some p | _ => None end) trace.

(** The order in which a run gives its parts up: whoever calls the owner goes
    before it, and what the owner writes to goes after it. *)
Definition closingOrder : list part := [Presentation; Service; StateOwner; History; Connection].

(** Whatever [errors.Is] finds in [err], it finds in what the run returns. *)
Definition reported (err returned : option error) : Prop :=
  forall target x, err = Some x -> errors_Is target x = true -> exists y, returned = Some y /\ errors_Is target y = true.

Lemma reported_join_l a b : reported a (errors_Join a b).
Proof.
  intros target x -> Hx. destruct b; (eexists; split; [done|]); cbn; rewrite Hx; by rewrite ?orb_true_r.
Qed.

Lemma reported_join_r a b : reported b (errors_Join a b).
Proof.
  intros target x -> Hx. destruct a; (eexists; split; [done|]); cbn; rewrite Hx; by rewrite ?orb_true_r.
Qed.

Lemma reported_trans a b c : reported a b -> reported b c -> reported a c.
Proof. intros Hab Hbc target x Ha Hx. destruct (Hab target x Ha Hx) as (y&Hb&Hy). by eapply Hbc. Qed.

Lemma errors_Join_None a b : errors_Join a b = None <-> a = None /\ b = None.
Proof. destruct a, b; naive_solver. Qed.

(** The parts that are there are closed, in the order of the list. *)
Lemma closeParts_spec e there parts trace err :
  closeParts e there parts = (trace, err) ->
  trace = map Closed (filter there parts) /\ (err = None <-> Forall (fun p => en_close e p = None) (filter there parts)) /\
  forall p, p ∈ filter there parts -> reported (en_close e p) err.
Proof.
  unfold closeParts. induction parts as [|p parts IH] using rev_ind in trace, err |- *.
  { intros [= <- <-]. split_and!; [done| |by intros p ?%not_elem_of_nil]. by split. }
  rewrite fold_left_app, filter_app, filter_cons, filter_nil. cbn [fold_left]. destruct (fold_left _ parts _) as [trace0 err0].
  destruct (IH _ _ eq_refl) as (->&Hn&Hrep). destruct (there p) eqn:Hp; intros [= <- <-].
  - rewrite decide_True by done. split_and!.
    + by rewrite map_app.
    + rewrite errors_Join_None, Hn, Forall_app, Forall_singleton. done.
    + intros q [Hq|Hq%list_elem_of_singleton]%elem_of_app; [|subst q; apply reported_join_r].
      eapply reported_trans; [by apply Hrep|apply reported_join_l].
  - rewrite decide_False by (by intros []). by rewrite app_nil_r.
Qed.

Lemma stopRun_spec e parts said err trace returned :
  stopRun e parts said err = (trace, returned) ->
  trace = map Created parts ++ said ++ map Closed (filter (fun p => p ∈ parts) closingOrder) /\
  (returned = None <-> err = None /\ Forall (fun p => en_close e p = None) (filter (fun p => p ∈ parts) closingOrder)) /\
  reported err returned /\ forall p, p ∈ parts -> reported (en_close e p) returned.
Proof.
  unfold stopRun, shutdown. destruct (closeParts _ _ _) as [t c] eqn:Hc. intros [= <- <-].
  apply closeParts_spec in Hc as (->&Hn&Hrep). rewrite (list_filter_iff _ (fun p => p ∈ parts)) in * by (intros p; apply bool_decide_spec).
  split_and!; [done| |apply reported_join_l|].
  - by rewrite errors_Join_None, Hn.
  - intros p Hp. eapply reported_trans; [apply Hrep|apply reported_join_r]. apply list_elem_of_filter. split; [done|]. destruct p; set_solver.
Qed.

Lemma closingOrder_NoDup : NoDup closingOrder.
Proof. by apply (bool_decide_unpack _). Qed.

Lemma closing_all parts : NoDup parts -> parts ≡ₚ filter (fun p => p ∈ parts) closingOrder.
Proof.
  intros Hn. apply NoDup_Permutation; [done|apply NoDup_filter, closingOrder_NoDup|]. intros p. rewrite list_elem_of_filter.
  split; [|tauto]. intros Hp. split; [done|]. destruct p; set_solver.
Qed.

(** What every run leaves behind. *)
Record released (e : env) (said : list action) (trace : list action) (returned : option error) : Prop := {
  re_trace : trace = map Created (created trace) ++ said ++ map Closed (closed trace);
  re_all : created trace ≡ₚ closed trace;
  re_once : NoDup (closed trace);
  re_order : closed trace `sublist_of` closingOrder;
  re_errors p : p ∈ created trace -> reported (en_close e p) returned }.

Lemma released_nothing e err : released e [] [] (Some err).
Proof. split; cbn; try done; [apply NoDup_nil_2|apply sublist_nil_l|by intros p ?%not_elem_of_nil]. Qed.

Lemma traced l said k :
  said = [] \/ said = [Announced] -> created (map Created l ++ said ++ map Closed k) = l /\ closed (map Created l ++ said ++ map Closed k) = k.
Proof.
  intros Hs. unfold created, closed. rewrite !omap_app.
  induction l as [|p l [IH1 IH2]]; cbn [map omap list_omap app]; [|split; [cbn; by f_equal|exact IH2]].
  assert (omap (fun a => match a with Created p => Some p | _ => None end) (map Closed k) = [] /\
    omap (fun a => match a with Closed p => Some p | _ => None end) (map Closed k) = k) as [-> ->].
  { induction k as [|p k [IH1 IH2]]; cbn in *; [done|]. split; [done|by f_equal]. }
  by destruct Hs as [-> | ->].
Qed.

Lemma stopRun_released e parts said err trace returned :
  stopRun e parts said err = (trace, returned) -> NoDup parts -> said = [] \/ said = [Announced] ->
  released e said trace returned /\ (returned = None <-> err = None /\ Forall (fun p => en_close e p = None) parts).
Proof.
  intros Hs Hparts%closing_all Hsaid. apply stopRun_spec in Hs as (->&Hn&_&Hrep). rewrite <-Hparts in Hn at 1. split; [|done].
  destruct (traced parts said (filter (fun p => p ∈ parts) closingOrder) Hsaid) as [Hc Hd].
  split; rewrite ?Hc, ?Hd; [done|done|apply NoDup_filter, closingOrder_NoDup|apply sublist_filter|done].
Qed.

(** C38: a run gives up everything it took, on every path: the parts it created
    are the parts it closes, each once, after the last was created, the servers
    before the owner they call and the owner before the history it writes to;
    in between it says that it is ready at most once, and only if both servers
    serve.  It returns no error only if it was asked to stop and every part
    closed without one, and every error of a part on the way out is in what it
    returns; the process exits with status zero exactly then, and logs the
    error otherwise. *)
Theorem run_releases e config trace returned :
  Run e config = (trace, returned) ->
  (exists said, released e said trace returned /\
    (said <> [] <-> cf_Ready config = true /\ en_context e = Some None /\ openHistory e config = None /\
       en_servePresenter e (runtimeDirOf e config) = None /\ en_connect e = None /\ en_serveBus e (procRootOf config) = None)) /\
  (returned = None <-> en_context e = Some None /\ openHistory e config = None /\
     en_servePresenter e (runtimeDirOf e config) = None /\ en_connect e = None /\ en_serveBus e (procRootOf config) = None /\
     runErr (en_stop e) = None /\ forall p, en_close e p = None) /\
  (config = zeroConfig ->
     main e = (trace, match returned with Some err => Some ("sysc-notify: %v", err) | None => None end,
       match returned with Some _ => 1%Z | None => 0%Z end)).
Proof.
  intros Hrun. split; [|split; [|intros ->; unfold main; rewrite Hrun; by destruct returned]].
  all: unfold Run in Hrun; destruct (en_context e) as [[err|]|]; [injection Hrun as <- <-| |injection Hrun as <- <-].
  all: try (exists []; split; [apply released_nothing|naive_solver]).
  all: try naive_solver.
  all: destruct (openHistory e config) as [err|]; [injection Hrun as <- <-; try (exists []; split; [apply released_nothing|naive_solver]); naive_solver|].
  all: destruct (en_servePresenter e (runtimeDirOf e config)) as [err|];
    [apply stopRun_released in Hrun as [Hrel Hn]; [|by apply (bool_decide_unpack _)|by left]; try (exists []; split; [done|naive_solver]); naive_solver|].
  all: destruct (en_connect e) as [err|];
    [apply stopRun_released in Hrun as [Hrel Hn]; [|by apply (bool_decide_unpack _)|by left]; try (exists []; split; [done|naive_solver]); naive_solver|].
  all: destruct (en_serveBus e (procRootOf config)) as [err|]; apply stopRun_released in Hrun as [Hrel Hn];
    try (by apply (bool_decide_unpack _)); try (by left); try (by destruct (cf_Ready config); auto).
  - exists []. split; [done|naive_solver].
  - eexists. split; [done|]. destruct (cf_Ready config); naive_solver.
  - naive_solver.
  - rewrite Hn, Forall_forall.
    assert ((forall p, p ∈ [History; Presentation; StateOwner; Connection; Service] -> en_close e p = None) <-> forall p, en_close e p = None) as ->.
    { split; [|auto]. intros Hall p. apply Hall. destruct p; set_solver. }
    naive_solver.
Qed.
