(* ===== verification/Shutdown.v ===== *)
(** * internal/app: closing the parts of the program

    [shutdown] of [run.go] closes the parts one after the other, each call
    waiting for goroutines of the part, while the goroutines of all of them run
    on.  What it needs of a part is the class [Stoppable] with its laws; the
    presenter's server ([Serving]), the D-Bus server ([BusName]), the owner
    ([OwnerCalls]) and the history ([Persist]) have them.  [Owner.Close] does not
    return before the history was flushed: that is what the history has to have
    been waited for ([so_drained]).

    What the parts do to one another is left open in each part's own model,
    where callers and peers may do anything at any time. *)
From stdpp Require Import gmap strings list relations.
From Stdlib Require Import ZArith Lia.
From S2P Require Import Prelude GoLib Protocol Notify History Owner OwnerInv OwnerOps OwnerAdd OwnerCmd OwnerTime OwnerRun Connection Commands OwnerCalls CallOrder Fdo BusName Persist Serving App.
Local Open Scope string_scope.
Local Open Scope list_scope.
Local Open Scope Z_scope.

(** ** What a part promises *)

(** The steps of its goroutines and callers, without the call of [Close]; that
    call; whether it has not been made and may be; whether what comes before it
    was waited for; whether it was made; whether it has returned. *)
Class Stoppable (W : Type) := {
  so_ok : W -> Prop;
  so_step : W -> W -> Prop;
  so_call : W -> W -> Prop;
  so_open : W -> Prop;
  so_drained : W -> Prop;
  so_begun : W -> Prop;
  so_closed : W -> Prop }.

Class StoppableLaws (W : Type) `{Stoppable W} := {
  so_step_ok w w' : so_ok w -> so_step w w' -> so_ok w';
  so_step_open w w' : so_ok w -> so_open w -> so_step w w' -> so_open w';
  so_step_begun w w' : so_begun w -> so_step w w' -> so_begun w';
  so_step_closed w w' : so_ok w -> so_closed w -> so_step w w' -> so_closed w';
  so_call_ok w w' : so_ok w -> so_call w w' -> so_ok w' /\ so_begun w';
  so_drains w : so_ok w -> so_open w -> exists w', rtc so_step w w' /\ so_drained w';
  so_calls w : so_ok w -> so_open w -> exists w', so_call w w';
  so_ends w : so_ok w -> so_begun w -> exists w', rtc so_step w w' /\ so_closed w' }.

(** A step relation can be narrowed to what its steps keep. *)
Lemma rtc_narrow {W} (R S : W -> W -> Prop) (P : W -> Prop) w w' :
  (forall w w', P w -> R w w' -> P w' /\ S w w') -> P w -> rtc R w w' -> rtc S w w'.
Proof.
  intros Hk Hp Hr. induction Hr as [|w w1 w' Hs _ IH]; [apply rtc_refl|]. destruct (Hk _ _ Hp Hs) as [Hp' Hs'].
  eapply rtc_l; [exact Hs'|by apply IH].
Qed.

(** ** Closing them one after the other *)

Record running := mkRunning {
  ru_part : part;
  ru_W : Type;
  ru_stop : Stoppable ru_W;
  ru_laws : StoppableLaws ru_W;
  ru_state : ru_W }.
#[local] Existing Instances ru_stop ru_laws.

Definition ru_set (r : running) (w : ru_W r) : running := mkRunning (ru_part r) (ru_W r) (ru_stop r) (ru_laws r) w.

(** The parts in the order in which they are closed; whose turn it is, and
    whether its [Close] was called. *)
Record shutting := mkShutting { sd_parts : list running; sd_turn : nat; sd_called : bool }.

Inductive sdstep : shutting -> shutting -> Prop :=
  | sd_move w i r v :
      sd_parts w !! i = Some r -> so_step (ru_state r) v ->
      sdstep w (mkShutting (<[i := ru_set r v]> (sd_parts w)) (sd_turn w) (sd_called w))
  | sd_call w r v :
      sd_parts w !! sd_turn w = Some r -> sd_called w = false -> so_drained (ru_state r) -> so_call (ru_state r) v ->
      sdstep w (mkShutting (<[sd_turn w := ru_set r v]> (sd_parts w)) (sd_turn w) true)
  | sd_return w r :
      sd_parts w !! sd_turn w = Some r -> sd_called w = true -> so_closed (ru_state r) ->
      sdstep w (mkShutting (sd_parts w) (S (sd_turn w)) false).

(** Where a part is when it is the turn of [turn]. *)
Definition standing (turn : nat) (called : bool) (i : nat) (r : running) : Prop :=
  so_ok (ru_state r) /\ ((i < turn)%nat -> so_closed (ru_state r)) /\
  (i = turn -> if called then so_begun (ru_state r) else so_open (ru_state r)) /\ ((turn < i)%nat -> so_open (ru_state r)).

Definition sdinv (w : shutting) : Prop := forall i r, sd_parts w !! i = Some r -> standing (sd_turn w) (sd_called w) i r.

Lemma standing_step turn called i r v : standing turn called i r -> so_step (ru_state r) v -> standing turn called i (ru_set r v).
Proof.
  intros (Hok&Hc&Ht&Ho) Hs. split; [by eapply so_step_ok|]. cbn. split_and!.
  - intros Hi. eapply so_step_closed; [exact Hok|by apply Hc|exact Hs].
  - intros Hi. specialize (Ht Hi). destruct called; [by eapply so_step_begun|by eapply so_step_open].
  - intros Hi. eapply so_step_open; [exact Hok|by apply Ho|exact Hs].
Qed.

Lemma sdinv_insert w i r turn called :
  sdinv w -> is_Some (sd_parts w !! i) -> standing turn called i r ->
  (forall j s, j <> i -> standing (sd_turn w) (sd_called w) j s -> standing turn called j s) ->
  sdinv (mkShutting (<[i := r]> (sd_parts w)) turn called).
Proof.
  intros Hw Hi%lookup_lt_is_Some Hr Hrest j s. cbn. destruct (decide (i = j)) as [<-|Hne].
  - rewrite list_lookup_insert_eq by done. by intros [= <-].
  - rewrite list_lookup_insert_ne by done. intros Hj. apply Hrest; [congruence|by apply Hw].
Qed.

Lemma sdinv_step w w' : sdinv w -> sdstep w w' -> sdinv w'.
Proof.
  intros Hw Hs. destruct Hs as [w i r v Hi Hs|w r v Hi Hc Hd Hs|w r Hi Hc Hd].
  - eapply sdinv_insert; [done|by eexists|eapply standing_step; [by apply Hw|done]|done].
  - destruct (Hw _ _ Hi) as (Hok&_&_&_). destruct (so_call_ok _ _ Hok Hs) as [Hok' Hb].
    eapply sdinv_insert; [exact Hw|by eexists|split_and!; [exact Hok'|lia|intros _; exact Hb|lia]|].
    intros j s Hj (H1&H2&_&H4). split_and!; auto. intros Hx. by destruct Hj.
  - intros j s Hj. cbn in *. destruct (Hw _ _ Hj) as (H1&H2&H3&H4). split_and!; [exact H1| |intros Hx; apply H4; lia|intros Hlt; apply H4; lia].
    intros Hlt. destruct (decide (j = sd_turn w)) as [Hx|]; [|apply H2; lia]. rewrite Hx in Hj. rewrite Hi in Hj. injection Hj as <-. exact Hd.
Qed.

Lemma sdinv_steps w w' : sdinv w -> rtc sdstep w w' -> sdinv w'.
Proof. intros Hw Hr. induction Hr as [|w w1 w' Hs _ IH]; [done|]. by apply IH, (sdinv_step w). Qed.

(** What one part does on its own. *)
Lemma sd_moves parts turn called i r v :
  parts !! i = Some r -> rtc so_step (ru_state r) v ->
  rtc sdstep (mkShutting parts turn called) (mkShutting (<[i := ru_set r v]> parts) turn called).
Proof.
  intros Hi Hr. pattern v. eapply rtc_ind_r; [| |exact Hr]; clear v Hr.
  - destruct r. cbn. rewrite list_insert_id by done. apply rtc_refl.
  - intros v v' _ Hs IH. eapply rtc_r; [exact IH|].
    assert (Hl : <[i := ru_set r v]> parts !! i = Some (ru_set r v)) by (apply list_lookup_insert_eq; by eapply lookup_lt_Some).
    pose proof (sd_move (mkShutting (<[i := ru_set r v]> parts) turn called) i (ru_set r v) v' Hl Hs) as Hm.
    cbn in Hm. by rewrite list_insert_insert_eq in Hm.
Qed.

(** The part whose turn it is can be closed by its own goroutines alone. *)
Lemma turn_ends w r :
  sdinv w -> sd_parts w !! sd_turn w = Some r ->
  exists v, rtc sdstep w (mkShutting (<[sd_turn w := ru_set r v]> (sd_parts w)) (S (sd_turn w)) false).
Proof.
  destruct w as [parts turn called]. cbn. intros Hw Hr. assert (turn < length parts)%nat as Hlt by (by eapply lookup_lt_Some).
  assert (forall r, sdinv (mkShutting parts turn true) -> parts !! turn = Some r ->
    exists v, rtc sdstep (mkShutting parts turn true) (mkShutting (<[turn := ru_set r v]> parts) (S turn) false)) as Hcalled.
  { clear. intros r Hw Hr. destruct (Hw _ _ Hr) as (Hok&_&Hb&_). destruct (so_ends _ Hok (Hb eq_refl)) as (v&Hs&Hc). exists v.
    eapply rtc_r; [by eapply sd_moves|]. apply (sd_return (mkShutting (<[turn := ru_set r v]> parts) turn true) (ru_set r v)); [|done|exact Hc].
    cbn. apply list_lookup_insert_eq. by eapply lookup_lt_Some. }
  destruct called; [by apply Hcalled|]. destruct (Hw _ _ Hr) as (Hok&_&Ho&_). specialize (Ho eq_refl). cbn in Ho, Hok.
  destruct (so_drains _ Hok Ho) as (v1&Hs1&Hd). pose proof (sd_moves parts turn false turn r v1 Hr Hs1) as Hm1.
  pose proof (sdinv_steps _ _ Hw Hm1) as Hw1.
  assert (<[turn := ru_set r v1]> parts !! turn = Some (ru_set r v1)) as Hr1 by (by apply list_lookup_insert_eq).
  destruct (Hw1 _ _ Hr1) as (Hok1&_&Ho1&_). specialize (Ho1 eq_refl). cbn in Ho1, Hok1.
  destruct (so_calls _ Hok1 Ho1) as (v2&Hs2).
  pose proof (sd_call (mkShutting (<[turn := ru_set r v1]> parts) turn false) (ru_set r v1) v2 Hr1 eq_refl Hd Hs2) as Hm2.
  cbn in Hm2. rewrite list_insert_insert_eq in Hm2. pose proof (sdinv_step _ _ Hw1 Hm2) as Hw2.
  assert (<[turn := ru_set r v2]> parts !! turn = Some (ru_set r v2)) as Hr2 by (by apply list_lookup_insert_eq).
  assert (exists v3, rtc sdstep (mkShutting (<[turn := ru_set r v2]> parts) turn true)
    (mkShutting (<[turn := ru_set r v3]> (<[turn := ru_set r v2]> parts)) (S turn) false)) as (v3&Hm3).
  { destruct (Hw2 _ _ Hr2) as (Hok2&_&Hb2&_). specialize (Hb2 eq_refl). cbn in Hb2, Hok2. destruct (so_ends _ Hok2 Hb2) as (v3&Hs3&Hc3). exists v3.
    pose proof (sd_moves (<[turn := ru_set r v2]> parts) turn true turn (ru_set r v2) v3 Hr2 Hs3) as Hm3.
    eapply rtc_r; [exact Hm3|]. eapply (sd_return (mkShutting _ turn true)); [cbn; apply list_lookup_insert_eq; by rewrite length_insert|done|exact Hc3]. }
  exists v3. rewrite list_insert_insert_eq in Hm3. etrans; [exact Hm1|]. eapply rtc_l; [exact Hm2|exact Hm3].
Qed.

(** Whatever the parts have done so far, the rest of them can be closed. *)
Lemma shutdown_proceeds w :
  sdinv w -> (sd_turn w <= length (sd_parts w))%nat -> exists w', rtc sdstep w w' /\ sd_turn w' = length (sd_parts w').
Proof.
  remember (length (sd_parts w) - sd_turn w)%nat as n eqn:Hn. revert w Hn. induction n as [|n IH]; intros w Hn Hw Hle.
  - exists w. split; [apply rtc_refl|lia].
  - destruct (lookup_lt_is_Some_2 (sd_parts w) (sd_turn w)) as [r Hr]; [lia|]. destruct (turn_ends w r Hw Hr) as (v&Hs).
    pose proof (sdinv_steps _ _ Hw Hs) as Hw1.
    destruct (IH (mkShutting (<[sd_turn w := ru_set r v]> (sd_parts w)) (S (sd_turn w)) false)) as (w'&Hs'&Ht);
      [cbn; rewrite length_insert; lia|exact Hw1|cbn; rewrite length_insert; lia|].
    exists w'. split; [by etrans|done].
Qed.

(** ** The parts *)

#[export] Instance presenter_stoppable : Stoppable pserver := {
  so_ok := vinv;
  so_step w w' := (exists own, servingStep own w w') /\ (pv_close w = CloseNone -> pv_close w' = CloseNone);
  so_call w w' := pv_close w = CloseNone /\ (exists err, pv_serve w = ServeDone err) /\ w' = pStop w;
  so_open w := pv_close w = CloseNone /\ exists err, pv_serve w = ServeDone err;
  so_drained _ := True;
  so_begun w := pv_close w <> CloseNone;
  so_closed w := exists errs, pv_close w = CloseDone errs }.

Lemma serve_done_step own w w' err : pv_serve w = ServeDone err -> vstep own w w' -> pv_serve w' = ServeDone err.
Proof.
  intros Hd Hs. destruct Hs; try (unfold pAcceptFailed, stopping, pRegister; repeat case_match; cbn in *; congruence).
Qed.

Lemma close_begun_step own w w' : pv_close w <> CloseNone -> vstep own w w' -> pv_close w' <> CloseNone.
Proof.
  intros Hd Hs. destruct Hs as [w w' Hn Hb| | | | | | | | | | | | | | | | | | | | ];
    try (unfold pListened, pAcceptFailed, stopping, pRegister; repeat case_match; cbn in *; congruence).
  unfold beginPServe in Hb. repeat case_match; simplify_eq; done.
Qed.

Lemma close_done_step own w w' errs : pv_close w = CloseDone errs -> vstep own w w' -> pv_close w' = CloseDone errs.
Proof.
  intros Hd Hs. destruct Hs as [w w' Hn Hb| | | | | | | | | | | | | | | | | | | | ];
    try (unfold pListened, pAcceptFailed, stopping, pRegister; repeat case_match; cbn in *; congruence).
  unfold beginPServe in Hb. repeat case_match; simplify_eq; done.
Qed.

#[export] Instance presenter_stoppable_laws : StoppableLaws pserver.
Proof.
  split; cbn.
  - intros w w' Hw [[own Hs] _]. by eapply vinv_step.
  - intros w w' _ [Hc [err Hd]] [[own [Hs _]] Hk]. split; [by apply Hk|]. exists err. by eapply serve_done_step.
  - intros w w' Hb [[own [Hs _]] _]. by eapply close_begun_step.
  - intros w w' _ [errs Hc] [[own [Hs _]] _]. exists errs. by eapply close_done_step.
  - intros w w' Hw (Hc&[err Hd]&->). split; [|done].
    eapply (vinv_step false w); [exact Hw|]. split; [by apply Serving.ps_stop|]. right. cbn. by rewrite Hd.
  - intros w _ _. exists w. split; [apply rtc_refl|done].
  - intros w _ [Hc Hd]. by eexists.
  - intros w Hw Hb. destruct (close_from_start w Hw Hb) as (w'&errs&Hr&Hc). exists w'. split; [|by exists errs].
    eapply (rtc_narrow _ _ (fun w => pv_close w <> CloseNone)); [|exact Hb|exact Hr].
    intros w1 w2 Hb1 Hs. split; [by eapply close_begun_step, Hs|]. split; [by exists true|done].
Qed.

Section Bus.
Variable uniqueName : string.

#[local] Instance bus_stoppable : Stoppable bworld := {
  so_ok w := binv w /\ ds_conn (bw_server w) = true;
  so_step w w' := bstep uniqueName w w' /\ (bw_close w = CIdle -> bw_close w' = CIdle);
  so_call w w' := bw_close w = CIdle /\ w' = with_close CFlagged (with_server (setClosing (bw_server w)) w);
  so_open w := bw_close w = CIdle;
  so_drained _ := True;
  so_begun w := bw_close w <> CIdle;
  so_closed w := exists served result, bw_close w = CReturned served result }.

Lemma conn_step w w' : bstep uniqueName w w' -> ds_conn (bw_server w') = ds_conn (bw_server w).
Proof.
  intros Hs. destruct Hs; cbn; try done; unfold beginServe in *; repeat case_match; simplify_eq; done.
Qed.

Lemma bus_begun_step w w' : bw_close w <> CIdle -> bstep uniqueName w w' -> bw_close w' <> CIdle.
Proof. intros Hc Hs. destruct Hs; cbn; try done. by destruct calls. Qed.

#[local] Instance bus_stoppable_laws : StoppableLaws bworld.
Proof.
  split; cbn.
  - intros w w' [Hw Hc] [Hs _]. split; [by eapply binv_step|]. by rewrite (conn_step _ _ Hs).
  - intros w w' _ Hc [_ Hk]. by apply Hk.
  - intros w w' Hb [Hs _]. by eapply bus_begun_step.
  - intros w w' _ (served&result&Hc) [Hs _]. exists served, result. destruct Hs; cbn; congruence.
  - intros w w' [Hw Hc] [Ho ->]. split; [|done]. split; [|done]. by eapply (binv_step uniqueName w), bs_flag.
  - intros w _ _. exists w. split; [apply rtc_refl|done].
  - intros w _ Ho. by eexists.
  - intros w [Hw _] Hb. destruct (bus_close_ends uniqueName w Hw Hb) as (w'&served&result&Hr&Hc). exists w'. split; [|by eexists _, _].
    eapply (rtc_narrow _ _ (fun w => bw_close w <> CIdle)); [|exact Hb|exact Hr].
    intros w1 w2 Hb1 Hs. split; [by eapply bus_begun_step|by split].
Qed.

End Bus.

Section StateOwner.
Context `{MonotonicClock, Sink, PngLaws, Sha256Laws}.
Context (sink : option (list Event)) (store : option Store).

#[local] Instance owner_stoppable : Stoppable mworld := {
  so_ok := mworld_ok sink store;
  so_step w w' := mstep w w' /\ mw_stop w' = mw_stop w;
  so_call w w' := w' = mkMWorld (mw_state w) (mw_loop w) true (mw_calls w) (mw_trace w);
  so_open w := mw_stop w = false;
  so_drained _ := True;
  so_begun w := mw_stop w = true;
  so_closed w := mw_loop w = LoopDone }.

Lemma stop_begun_step w w' : mw_stop w = true -> mstep w w' -> mw_stop w' = true.
Proof. intros Hc Hs. by destruct Hs. Qed.

#[local] Instance owner_stoppable_laws : StoppableLaws mworld.
Proof.
  split; cbn.
  - intros w w' Hw [Hs _]. by eapply mstep_ok.
  - intros w w' _ Ho [_ ->]. done.
  - intros w w' Hb [_ ->]. done.
  - intros w w' _ Hc [Hs _]. destruct Hs; cbn in *; congruence.
  - intros w w' Hw ->. split; [|done]. eapply mstep_ok; [exact Hw|apply ms_close].
  - intros w _ _. exists w. split; [apply rtc_refl|done].
  - intros w _ _. by eexists.
  - intros w Hw Hb. destruct (loop_stops sink store w Hw Hb) as (w'&Hr&Hc). exists w'. split; [|done].
    eapply (rtc_narrow _ _ (fun w => mw_stop w = true)); [|exact Hb|exact Hr].
    intros w1 w2 Hb1 Hs. assert (mw_stop w2 = true) as Hb2 by (by eapply stop_begun_step). split; [done|]. split; [done|congruence].
Qed.

End StateOwner.

#[export] Instance history_stoppable : Stoppable pworld := {
  so_ok w := exists d, pinv d w;
  so_step w w' := pstep w w' /\ (pw_closer w = COpen -> pw_closer w' = COpen);
  so_call w w' := pw_closer w = COpen /\ w' = with_closer CClosing (with_store (set_closed true (pw_store w)) w);
  so_open w := pw_closer w = COpen;
  so_drained w := exists err, flushReturns w err;
  so_begun w := pw_closer w <> COpen;
  so_closed w := pw_closer w = CDone }.

Lemma closer_begun_step w w' : pw_closer w <> COpen -> pstep w w' -> pw_closer w' <> COpen.
Proof. intros Hc Hs. destruct Hs; cbn; try done. by destruct (st_dirty _). Qed.

(** Work that leaves the store open leaves it open at every step. *)
Lemma works_open w w' : rtc pstep w w' -> pw_closer w' = COpen -> rtc so_step w w' /\ pw_closer w = COpen.
Proof.
  intros Hr Ho. induction Hr as [|w w1 w' Hs _ IH]; [by split; [apply rtc_refl|]|]. destruct (IH Ho) as [Hr1 Ho1].
  split; [|destruct (pw_closer w) eqn:Hc; try done; exfalso; by eapply (closer_begun_step w w1); [rewrite Hc|..]].
  eapply rtc_l; [|exact Hr1]. by split.
Qed.

#[export] Instance history_stoppable_laws : StoppableLaws pworld.
Proof.
  split; cbn.
  - intros w w' [d Hw] [Hs _]. destruct (pstep_inv d w w' Hw Hs) as (d'&_&?). by exists d'.
  - intros w w' _ Hc [_ Hk]. by apply Hk.
  - intros w w' Hb [Hs _]. by eapply closer_begun_step.
  - intros w w' _ Hc [Hs _]. destruct Hs; cbn in *; congruence.
  - intros w w' [d Hw] [Ho ->]. split; [|done]. destruct (pstep_inv d w _ Hw (Persist.ps_close w Ho)) as (d'&_&?). by exists d'.
  - intros w [d Hw] Ho. destruct (flushes d w Hw Ho) as (w'&[Hr (?&?&?)]&Hf). exists w'. split; [|by eexists].
    apply works_open; [done|congruence].
  - intros w _ Ho. by eexists.
  - intros w [d Hw] Hb. destruct (begun_close_ends d w Hw Hb) as (w'&Hr&Hc). exists w'. split; [|done].
    eapply (rtc_narrow _ _ (fun w => pw_closer w <> COpen)); [|exact Hb|exact Hr].
    intros w1 w2 Hb1 Hs. split; [by eapply closer_begun_step|by split].
Qed.

(** ** The program *)

Section Program.
Context `{MonotonicClock, Sink, PngLaws, Sha256Laws}.
Context (uniqueName : string) (sink : option (list Event)) (store : option Store).

#[local] Existing Instances owner_stoppable owner_stoppable_laws bus_stoppable bus_stoppable_laws.

(** What [shutdown] closes, in its order; the connection to the bus, which it
    closes after them, is the library's. *)
Definition partsOf (v : pserver) (b : bworld) (o : mworld) (p : pworld) : list running :=
  [mkRunning Presentation pserver _ _ v; mkRunning Service bworld (bus_stoppable uniqueName) _ b;
   mkRunning StateOwner mworld (owner_stoppable sink store) _ o; mkRunning History pworld _ _ p].

Definition shutdownOf (v : pserver) (b : bworld) (o : mworld) (p : pworld) : shutting := mkShutting (partsOf v b o p) 0 false.

Lemma partsOf_order v b o p : map ru_part (partsOf v b o p) ++ [Connection] = closingOrder.
Proof. done. Qed.

Lemma partsOf_set v b o p i r (x : ru_W r) :
  partsOf v b o p !! i = Some r -> exists v' b' o' p', <[i := ru_set r x]> (partsOf v b o p) = partsOf v' b' o' p'.
Proof.
  destruct i as [|[|[|[|i]]]]; cbn; [| | | |done]; intros Hr; injection Hr as <-; cbn in x; unfold partsOf.
  - by exists x, b, o, p.
  - by exists v, x, o, p.
  - by exists v, b, x, p.
  - by exists v, b, o, x.
Qed.

Lemma shutdown_shape w w' :
  (exists v b o p, sd_parts w = partsOf v b o p) -> rtc sdstep w w' -> exists v b o p, sd_parts w' = partsOf v b o p.
Proof.
  intros Hw Hr. induction Hr as [|w w1 w' Hs _ IH]; [done|]. apply IH. destruct Hw as (v&b&o&p&Hw).
  destruct Hs as [w i r x Hi Hs|w r x Hi Hc Hd Hs|w r Hi Hc Hd]; cbn; rewrite ?Hw in *; [by eapply partsOf_set..|by exists v, b, o, p].
Qed.

Lemma breachable_conn b : breachable uniqueName b -> ds_conn (bw_server b) = true.
Proof.
  intros [order Hr]. remember (bstart (NewAtWithOrder true order)) as b0 eqn:Hb0. assert (ds_conn (bw_server b0) = true) as Hc by (by subst).
  clear Hb0. induction Hr as [|b1 b2 b3 Hs _ IH]; [done|]. apply IH. by rewrite (conn_step uniqueName _ _ Hs).
Qed.

(** Nothing is closing yet. *)
Record untouched (v : pserver) (b : bworld) (o : mworld) (p : pworld) : Prop := {
  un_presenter : vreachable v /\ pv_close v = CloseNone /\ exists err, pv_serve v = ServeDone err;
  un_bus : breachable uniqueName b /\ bw_close b = CIdle;
  un_owner : mreachable sink store o /\ mw_stop o = false;
  un_history : (exists entries f, Forall measured entries /\ holds f entries /\ preachable entries f p) /\ pw_closer p = COpen }.

Lemma untouched_inv v b o p : untouched v b o p -> sdinv (shutdownOf v b o p).
Proof.
  intros [(Hv&Hvc&Hvs) [Hb Hbc] [Ho Hoc] [(entries&f&Hm&Hf&Hp) Hpc]] i r. unfold shutdownOf, partsOf. cbn [sd_parts sd_turn sd_called].
  destruct i as [|[|[|[|i]]]]; cbn [lookup list_lookup]; [| | | |done]; intros Hr; injection Hr as <-; unfold standing; cbn;
    (split; [|split_and!; try lia; try done]).
  - by apply vinv_reachable.
  - split; [by eapply breachable_inv|by apply breachable_conn].
  - by apply mreachable_ok.
  - by eapply preachable_inv.
Qed.

(** C28: closing the program ends, whatever its parts do meanwhile: at every
    point of a shutdown that began while nothing was closing, the parts alone
    can go on until all four have been closed.  The D-Bus server is closed after
    the presenter's server, the owner is stopped after both, and the history is
    closed after the owner has stopped, flushed before that; when it is closed
    and no error was recorded, the file on disk is the document of its
    entries. *)
Theorem shutdown_ends v b o p w :
  untouched v b o p -> rtc sdstep (shutdownOf v b o p) w ->
  exists v1 b1 o1 p1, sd_parts w = partsOf v1 b1 o1 p1 /\
  (bw_close b1 <> CIdle -> exists errs, pv_close v1 = CloseDone errs) /\
  (mw_stop o1 = true -> exists served result, bw_close b1 = CReturned served result) /\
  (pw_closer p1 <> COpen -> mw_loop o1 = LoopDone) /\
  (pw_closer p1 = CDone -> st_lastErr (pw_store p1) = None -> holds (pw_files p1) (st_entries (pw_store p1))) /\
  exists w' v2 b2 o2 p2, rtc sdstep w w' /\ sd_parts w' = partsOf v2 b2 o2 p2 /\
    (exists errs, pv_close v2 = CloseDone errs) /\ (exists served result, bw_close b2 = CReturned served result) /\
    mw_loop o2 = LoopDone /\ pw_closer p2 = CDone.
Proof.
  intros Hun Hr. pose proof (sdinv_steps _ _ (untouched_inv _ _ _ _ Hun) Hr) as Hw.
  assert (exists v b o p, sd_parts w = partsOf v b o p) as Hsh by (eapply shutdown_shape; [|exact Hr]; by eexists _, _, _, _).
  assert (forall w', rtc sdstep w w' -> (sd_turn w' <= length (sd_parts w'))%nat) as Hturn.
  { intros w' Hr'. assert (rtc sdstep (shutdownOf v b o p) w') as Hall by (by etrans). revert Hall. clear.
    intros Hall. pattern w'. eapply rtc_ind_r; [| |exact Hall]; [cbn; lia|]. clear. intros w1 w2 _ Hs IH.
    destruct Hs as [?|?|? ? Hi]; cbn; rewrite ?length_insert; [done|done|]. apply lookup_lt_Some in Hi. lia. }
  destruct (shutdown_proceeds w Hw (Hturn w (rtc_refl _ _))) as (w'&Hr'&Hend). pose proof (sdinv_steps _ _ Hw Hr') as Hw'.
  destruct (shutdown_shape _ _ Hsh Hr') as (v2&b2&o2&p2&Hsh2). destruct Hsh as (v1&b1&o1&p1&Hsh1).
  unfold sdinv in Hw, Hw'. rewrite Hsh1 in Hw. rewrite Hend, Hsh2 in Hw'. exists v1, b1, o1, p1. split; [done|].
  destruct (Hw 0%nat _ eq_refl) as (_&Hv1&Hv2&Hv3), (Hw 1%nat _ eq_refl) as (_&Hb1&Hb2&Hb3), (Hw 2%nat _ eq_refl) as (_&Ho1&Ho2&Ho3),
    (Hw 3%nat _ eq_refl) as ([d Hp]&Hp1&Hp2&Hp3). cbn in *.
  split_and!.
  - intros Hc. apply Hv1. destruct (decide (0 < sd_turn w)%nat); [done|]. exfalso. apply Hc, Hb3. lia.
  - intros Hc. apply Hb1. destruct (decide (1 < sd_turn w)%nat); [done|]. rewrite Ho3 in Hc by lia. done.
  - intros Hc. apply Ho1. destruct (decide (2 < sd_turn w)%nat); [done|]. exfalso. apply Hc, Hp3. lia.
  - intros Hc He. by eapply closed_durable.
  - destruct (Hw' 0%nat _ eq_refl) as (_&Hv4&_), (Hw' 1%nat _ eq_refl) as (_&Hb4&_), (Hw' 2%nat _ eq_refl) as (_&Ho4&_), (Hw' 3%nat _ eq_refl) as (_&Hp4&_).
    cbn in *. exists w', v2, b2, o2, p2. split_and!; [done|done|apply Hv4; lia|apply Hb4; lia|apply Ho4; lia|apply Hp4; lia].
Qed.

End Program.
