(* ===== verification/CatchUp.v ===== *)
(** * internal/presenter: a slow presenter catches up

    The writer of a live connection can always bring its presenter to the
    owner's sequence number: it empties the queue, writes the snapshot of a
    resync, asked for and answered if the queue overflowed, and what was held
    behind it. *)
From stdpp Require Import gmap strings list.
From Stdlib Require Import ZArith Lia Strings.Byte.
From S2P Require Import Prelude GoLib Protocol Owner OwnerInv Connection.
Local Open Scope string_scope.
Local Open Scope list_scope.
Local Open Scope Z_scope.

Section CatchUp.
Context `{Encoding} (seq : Z).

(** The owner can be asked for a snapshot at any time. *)
Context (owner_answers : forall n, exists data, isSnapshot n data).

(** A connection that works, with its writer at [v], and what it has to write. *)
Record working (v : writer) (q : list outbound) (f : option (list Byte.byte)) (needed : bool) (w : world) : Prop := {
  wk_inv : cinv seq w;
  wk_writer : w_writer w = Some v;
  wk_failed : cn_failed (w_conn w) = false;
  wk_queue : cn_queue (w_conn w) = q;
  wk_frame : cn_resyncFrame (w_conn w) = f;
  wk_needed : cn_resyncNeeded (w_conn w) = needed }.

(** The owner hands out nothing new on the way. *)
Definition goesTo (w w' : world) : Prop := rtc cstep w w' /\ w_seq w' = w_seq w.

Lemma goesTo_refl w : goesTo w w.
Proof. split; [apply rtc_refl|done]. Qed.

Lemma goesTo_trans w1 w2 w3 : goesTo w1 w2 -> goesTo w2 w3 -> goesTo w1 w3.
Proof. intros [H12 E12] [H23 E23]. split; [by etrans|congruence]. Qed.

(** One step with its effect on what is left to write. *)
Lemma goes_step v q f needed w w' v' q' f' needed' :
  working v q f needed w -> cstep w w' -> w_seq w' = w_seq w -> w_writer w' = Some v' -> cn_failed (w_conn w') = false ->
  cn_queue (w_conn w') = q' -> cn_resyncFrame (w_conn w') = f' -> cn_resyncNeeded (w_conn w') = needed' ->
  goesTo w w' /\ working v' q' f' needed' w'.
Proof.
  intros [Hinv _ _ _ _ _] Hs Heq ? ? ? ? ?. split; [split; [by apply rtc_once|done]|]. split; try done. by eapply cinv_step.
Qed.

Lemma from_reply q f needed w :
  working WReply q f needed w -> exists w', goesTo w w' /\ working WResync q f needed w'.
Proof.
  intros Hw. assert (forall w, working WReply q f needed w -> cn_replyHold (w_conn w) = None ->
    exists w', goesTo w w' /\ working WResync q f needed w') as Hnone.
  { clear. intros w Hw Hh. pose proof Hw as [_ Hwr Hf Hq Hfr Hn]. eexists.
    eapply goes_step; [exact Hw|apply cs_local, (ls_no_reply w (w_conn w)); [done|unfold takeReply; by rewrite Hh]|..]; done. }
  destruct (cn_replyHold (w_conn w)) as [data|] eqn:Hh; [|by apply Hnone].
  pose proof Hw as [_ Hwr Hf Hq Hfr Hn].
  destruct (goes_step WReply q f needed w (write (FReply data) (set_conn (cset_replyHold None (w_conn w)) w)) WReply q f needed Hw)
    as [Hgo Hw1]; try (destruct w as [[] ? ? ? ?]; done).
  { apply cs_local, ls_take_reply; [done|]. unfold takeReply. by rewrite Hh. }
  destruct (Hnone _ Hw1) as (w'&Hgo'&Hw'); [by destruct w as [[] ? ? ? ?]|]. exists w'. split; [by eapply goesTo_trans|done].
Qed.

(** The writer pops a message and releases it. *)
Lemma from_select m q f needed w :
  working WSelect (m :: q) f needed w -> exists w', goesTo w w' /\ working WReply q f needed w'.
Proof.
  intros Hw. pose proof Hw as [_ Hwr Hf Hq Hfr Hn].
  destruct (goes_step WSelect (m :: q) f needed w (set_writer (WWritten m) (write (FQueued m) (set_conn (cset_queue q (w_conn w)) w)))
    (WWritten m) q f needed Hw) as [Hgo Hw1]; try (destruct w as [[] ? ? ? ?]; done); [by apply cs_local, ls_pop|].
  set (w1 := set_writer _ _) in *. pose proof Hw1 as [_ Hwr1 Hf1 Hq1 Hfr1 Hn1].
  destruct (goes_step (WWritten m) q f needed w1 (set_writer WReply (set_conn (release m (w_conn w1)) w1)) WReply q f needed Hw1)
    as [Hgo' Hw2]; [by apply cs_local, ls_release|done|done|unfold release; by destruct w as [[] ? ? ? ?]..|].
  eexists. split; [by eapply goesTo_trans|exact Hw2].
Qed.

Lemma from_resync_busy m q f needed w :
  working WResync (m :: q) f needed w -> exists w', goesTo w w' /\ working WReply q f needed w'.
Proof.
  intros Hw. pose proof Hw as [Hinv Hwr Hf Hq Hfr Hn].
  destruct (goes_step WResync (m :: q) f needed w (set_writer WSelect (set_conn (w_conn w) w)) WSelect (m :: q) f needed Hw) as [Hgo Hw1]; try done.
  { apply cs_local, ls_no_resync; [done|]. rewrite (takeResync_spec seq w Hinv Hwr), Hq. by destruct (cn_resyncFrame _). }
  destruct (from_select m q f needed _ Hw1) as (w'&Hgo'&Hw'). exists w'. split; [by eapply goesTo_trans|done].
Qed.

(** The queue can be written out. *)
Lemma drain q f needed w :
  working WReply q f needed w -> exists w', goesTo w w' /\ working WResync [] f needed w'.
Proof.
  revert w. induction q as [|m q IH]; intros w Hw; destruct (from_reply _ _ _ w Hw) as (w1&Hgo1&Hw1); [by exists w1|].
  destruct (from_resync_busy m q f needed w1 Hw1) as (w2&Hgo2&Hw2). destruct (IH w2 Hw2) as (w3&Hgo3&Hw3).
  exists w3. split; [|done]. eapply goesTo_trans; [exact Hgo1|]. by eapply goesTo_trans.
Qed.

(** The snapshot of a resync goes out once the queue is empty. *)
Lemma rebase f needed w :
  working WResync [] (Some f) needed w -> exists q w', goesTo w w' /\ working WReply q None false w'.
Proof.
  intros Hw. pose proof Hw as [Hinv Hwr Hf Hq Hfr Hn]. pose proof (takeResync_spec seq w Hinv Hwr) as Htk. rewrite Hq, Hfr in Htk.
  exists (cn_resyncTail (w_conn w)). eexists. eapply goes_step; [exact Hw|by eapply cs_local, ls_take_resync|done|done|..]; by destruct w as [[] ? ? ? ?].
Qed.

(** The owner answers a request for a snapshot. *)
Lemma answer v q w : 
  working v q None true w ->
  exists f w', goesTo w w' /\ working v q (Some f) true w' /\ cn_wake (w_conn w') = true.
Proof.
  intros Hw. destruct (owner_answers (w_seq w)) as [data Hdata]. pose proof Hw as [Hinv Hwr Hf Hq Hfr Hn]. destruct (writer_live seq w v Hinv Hwr) as [Ha _].
  set (c := cset_wake true (cset_frame (Some data) (w_seq w) (w_conn w))).
  destruct (goes_step v q None true w (set_conn c w) v q (Some data) true Hw) as [Hgo Hw1];
    try (unfold c; destruct w as [[] ? ? ? ?]; done).
  { apply (cs_resync w data c true); [done|]. unfold enqueueSnapshot. by rewrite Hf, Ha, Hn, Hfr. }
  exists data, (set_conn c w). split_and!; [done|done|]. unfold c. by destruct w as [[] ? ? ? ?].
Qed.

(** With nothing left to write, the presenter is where the owner is. *)
Lemma nothing_left v w : working v [] None false w -> wireRuns 0 (w_wire w) (w_seq w).
Proof.
  intros [Hinv Hwr Hf Hq Hfr Hn]. destruct (writer_live seq w v Hinv Hwr) as [_ [_ (last&_&Ho&Hruns) _ _ Hres]].
  unfold resync_ok in Hres. rewrite Hfr in Hres. destruct Hres as (_&_&Hl). rewrite Hq in Hruns. cbn in Hruns.
  unfold onWire in Ho. rewrite Hwr in Ho. rewrite <-(Hl Hf Hn), Hruns. done.
Qed.

Lemma catch_reply q f needed w :
  working WReply q f needed w -> exists w', goesTo w w' /\ wireRuns 0 (w_wire w') (w_seq w').
Proof.
  assert (forall q w, working WReply q None false w -> exists w', goesTo w w' /\ wireRuns 0 (w_wire w') (w_seq w')) as Hlast.
  { clear. intros q w Hw. destruct (drain _ _ _ w Hw) as (w1&Hgo&Hw1). exists w1. split; [done|by eapply nothing_left]. }
  assert (forall f needed w, working WResync [] (Some f) needed w -> exists w', goesTo w w' /\ wireRuns 0 (w_wire w') (w_seq w')) as Hframe.
  { clear -Hlast. intros f needed w Hw. destruct (rebase f needed w Hw) as (q&w1&Hgo&Hw1). destruct (Hlast q w1 Hw1) as (w2&Hgo2&?).
    exists w2. split; [by eapply goesTo_trans|done]. }
  intros Hw. destruct (drain _ _ _ w Hw) as (w1&Hgo1&Hw1). destruct f as [f|].
  - destruct (Hframe _ _ _ Hw1) as (w2&Hgo2&?). exists w2. split; [by eapply goesTo_trans|done].
  - destruct needed; [|exists w1; split; [done|by eapply nothing_left]].
    destruct (answer _ _ w1 Hw1) as (f&w2&Hgo2&Hw2&_). destruct (Hframe _ _ _ Hw2) as (w3&Hgo3&?).
    exists w3. split; [|done]. eapply goesTo_trans; [exact Hgo1|]. by eapply goesTo_trans.
Qed.

Lemma catch_wake f needed w :
  working WSelect [] f needed w -> cn_wake (w_conn w) = true -> exists w', goesTo w w' /\ wireRuns 0 (w_wire w') (w_seq w').
Proof.
  intros Hw Hwake. pose proof Hw as [_ Hwr Hf Hq Hfr Hn].
  destruct (goes_step WSelect [] f needed w (set_writer WReply (set_conn (cset_wake false (w_conn w)) w)) WReply [] f needed Hw)
    as [Hgo Hw1]; try (destruct w as [[] ? ? ? ?]; done); [by apply cs_local, ls_wake|].
  destruct (catch_reply _ _ _ _ Hw1) as (w2&Hgo2&?). exists w2. split; [by eapply goesTo_trans|done].
Qed.

Lemma catch_select q f needed w :
  working WSelect q f needed w -> exists w', goesTo w w' /\ wireRuns 0 (w_wire w') (w_seq w').
Proof.
  intros Hw. destruct q as [|m q].
  - destruct (cn_wake (w_conn w)) eqn:Hwake; [by eapply catch_wake|]. destruct f as [f|].
    + pose proof Hw as [Hinv Hwr Hf Hq Hfr Hn]. pose proof (ci_awake _ _ Hinv) as Haw. unfold awake in Haw. rewrite Hwr in Haw.
      destruct Haw as [_ Haw]. rewrite Haw in Hwake; [done|congruence|done].
    + destruct needed; [|exists w; split; [apply goesTo_refl|by eapply nothing_left]].
      destruct (answer _ _ w Hw) as (f&w1&Hgo1&Hw1&Hwake1). destruct (catch_wake _ _ w1 Hw1 Hwake1) as (w2&Hgo2&?).
      exists w2. split; [by eapply goesTo_trans|done].
  - destruct (from_select m q f needed w Hw) as (w1&Hgo1&Hw1). destruct (catch_reply _ _ _ _ Hw1) as (w2&Hgo2&?).
    exists w2. split; [by eapply goesTo_trans|done].
Qed.


End CatchUp.
