(* ===== verification/System.v ===== *)
(** * The presenter side as a whole

    [owner.go] and [server.go], [connection.go] together: one owner, the server
    with its mutex, and any number of connections, each with its [handle], its
    reader and its writer.  The owner hands its events to [Publish] one at a
    time and takes no request while one of them is under way; what was handed
    and not yet published is the rest of its log.  [sstep] has a rule for each
    critical section of the server, each call to the owner, each event, and the
    steps of a connection on its own ([lstep]).

    Two projections connect it with the parts: to the hand-over ([hstep]) and,
    for each connection, to the connection with its surroundings ([cstep]).
    With them the theorems about the parts hold for the whole, and a presenter
    that applies what is on its wire follows the owner. *)
From stdpp Require Import gmap strings list fin_maps.
From Stdlib Require Import ZArith Lia Strings.Byte.
From S2P Require Import Prelude GoLib Protocol Frame Notify History Owner OwnerInv OwnerOps OwnerAdd OwnerCmd OwnerTime OwnerRun OwnerGen Connection Commands Handover SnapshotFrame Views Publish.
Local Open Scope string_scope.
Local Open Scope list_scope.
Local Open Scope Z_scope.

(** ** The world *)

(** A connection: its queue, writer and wire, and the snapshot frame its
    [handle] has ready. *)
Record link := mkLink { lk_world : world; lk_frame : list Byte.byte }.

Definition set_world (w : world) (l : link) : link := mkLink w (lk_frame l).
Definition set_link (c : connection) (l : link) : link := set_world (set_conn c (lk_world l)) l.

(** The hand-over's world; the connections; how many of the owner's events
    [Publish] has returned from; the frame [publishSnapshot] is about to hand
    over, with its number; and the resync goroutines, before and after an
    owner's answer that was an error. *)
Record sworld := mkSWorld {
  sy_hand : hworld;
  sy_links : gmap nat link;
  sy_published : nat;
  sy_sending : option (nat * list Byte.byte * Z);
  sy_requests : list Z;
  sy_failing : list Z }.

Definition sy_server (w : sworld) : Server := hw_server (sy_hand w).
Definition sy_conns (w : sworld) : gmap nat hconn := hw_conns (sy_hand w).
Definition sy_owner (w : sworld) : ownerState := hw_owner (sy_hand w).
Definition sy_log (w : sworld) : list Event := default [] (s_sink (sy_owner w)).

(** The number of the last delta that was published. *)
Definition sy_seq (w : sworld) : Z := zlen (deltasBefore (sy_log w) (sy_published w)).

(** The owner waits for a request: nothing is left to publish. *)
Definition quiet (w : sworld) : Prop := sy_published w = length (sy_log w).

Definition with_hand (h : hworld) (w : sworld) : sworld :=
  mkSWorld h (sy_links w) (sy_published w) (sy_sending w) (sy_requests w) (sy_failing w).
Definition with_links (links : gmap nat link) (w : sworld) : sworld :=
  mkSWorld (sy_hand w) links (sy_published w) (sy_sending w) (sy_requests w) (sy_failing w).
Definition with_link (i : nat) (l : link) (w : sworld) : sworld := with_links (<[i := l]> (sy_links w)) w.
Definition with_owner (o : ownerState) (h : hworld) : hworld := mkHWorld (hw_server h) (hw_conns h) o.
Definition with_conn (i : nat) (c : hconn) (h : hworld) : hworld := mkHWorld (hw_server h) (<[i := c]> (hw_conns h)) (hw_owner h).
Definition with_serv (s : Server) (h : hworld) : hworld := mkHWorld s (hw_conns h) (hw_owner h).
Definition next_event (w : sworld) : sworld :=
  mkSWorld (sy_hand w) (sy_links w) (S (sy_published w)) None (sy_requests w) (sy_failing w).
Definition sending (x : nat * list Byte.byte * Z) (w : sworld) : sworld :=
  mkSWorld (sy_hand w) (sy_links w) (sy_published w) (Some x) (sy_requests w) (sy_failing w).
Definition with_requests (requests failing : list Z) (w : sworld) : sworld :=
  mkSWorld (sy_hand w) (sy_links w) (sy_published w) (sy_sending w) requests failing.

Definition generationAt (conns : gmap nat hconn) (i : nat) : Z := generationOf conns (Some i).

(** [Publish] changes the connections and moves the number of those it offered
    the delta to. *)
Definition offeredTo (conns : gmap nat connection) (s : Server) (seq : Z) (links : gmap nat link) : gmap nat link :=
  map_imap (fun i l =>
    let c := default (w_conn (lk_world l)) (conns !! i) in
    let w := lk_world l in
    Some (set_world (mkWorld c (if decide (attached s i) then seq else w_seq w) (w_snap w) (w_writer w) (w_wire w)) l)) links.

Definition linkConns (links : gmap nat link) : gmap nat connection := (fun l => w_conn (lk_world l)) <$> links.

(** What the D-Bus side and the timer ask of the owner: everything but resyncs,
    which only their goroutines ask for. *)
Definition outsideLabel (l : label) : Prop :=
  serviceLabel l /\ match l with LDo c _ _ => cm_Kind c <> PresenterResync | _ => True end.

Section System.
Context `{Clock, Sink, Png, Sha256, ErrorText}.

Inductive sstep : sworld -> sworld -> Prop :=
  (* [handle], up to the hand-over *)
  | ss_accept w i s :
      sy_conns w !! i = None -> registerConn i (sy_server w) = Some s ->
      sstep w (with_link i (mkLink (mkWorld newConnection 0 None None []) [])
        (with_hand (with_conn i (mkHConn 0 false HHandshake) (with_serv s (sy_hand w))) w))
  | ss_hello w i c l s g producer :
      sy_conns w !! i = Some c -> hc_phase c = HHandshake -> sy_links w !! i = Some l ->
      beginPrepare i (sy_server w) = Some (s, g) -> sv_nextGen (sy_server w) + 1 < 18446744073709551616 ->
      sstep w (with_link i (set_world (mkWorld (w_conn (lk_world l)) (sy_seq w) None None []) l)
        (with_hand (with_conn i (mkHConn g producer HPreparing) (with_serv s (sy_hand w))) w))
  | ss_snapshot w i c l snap o frame :
      sy_conns w !! i = Some c -> hc_phase c = HPreparing -> sy_links w !! i = Some l -> quiet w ->
      step (sy_owner w) (LSnapshot snap) o -> Snapshot_Validate snap = None -> marshalSnapshot snap = inr frame ->
      let v := lk_world l in
      sstep w (with_link i (mkLink (mkWorld (w_conn v) (w_seq v) (Some (s_Sequence snap)) (w_writer v) (w_wire v)) (bytesOfText frame))
        (with_hand (with_conn i (at_hphase HReady c) (with_owner o (sy_hand w))) w))
  | ss_commit w i c l n conn activated s r :
      sy_conns w !! i = Some c -> hc_phase c = HReady -> sy_links w !! i = Some l -> w_snap (lk_world l) = Some n ->
      (if sv_closing (sy_server w) || negb (bool_decide (sv_preparing (sy_server w) = Some i))
       then conn = w_conn (lk_world l) /\ activated = false
       else activate n (w_conn (lk_world l)) = Some (conn, activated)) ->
      commitHandoff i activated (sy_server w) = (s, r) ->
      let p := match r with Some old => HCurrent (generationOf (sy_conns w) old) | None => HLeaving end in
      sstep w (with_link i (set_link conn l) (with_hand (with_conn i (at_hphase p c) (with_serv s (sy_hand w))) w))
  (* [handle], after the hand-over *)
  | ss_bind w i c previous :
      sy_conns w !! i = Some c -> hc_phase c = HCurrent previous -> quiet w ->
      sstep w (with_hand (with_conn i (at_hphase HBound c)
        (with_owner (Do (lostCommand previous (hc_generation c)) (sy_owner w)).1 (sy_hand w))) w)
  | ss_serve w i c l n :
      sy_conns w !! i = Some c -> hc_phase c = HBound -> sy_links w !! i = Some l -> w_snap (lk_world l) = Some n ->
      let v := lk_world l in
      sstep w (with_link i (set_world (mkWorld (w_conn v) (w_seq v) (w_snap v) (Some WReply) (w_wire v ++ [FSnapshot (lk_frame l) n])) l)
        (with_hand (with_conn i (at_hphase HServing c) (sy_hand w)) w))
  | ss_command w i c d command o reply :
      sy_conns w !! i = Some c -> hc_phase c = HServing -> quiet w -> WireCommand_Validate command = None -> wire_typed command ->
      executeCommandForConnection d (hc_generation c) (hc_producer c) command (sy_owner w) = (o, reply) ->
      sstep w (with_hand (with_owner o (sy_hand w)) w)
  | ss_leave w i c :
      sy_conns w !! i = Some c -> mayLeave (hc_phase c) = true ->
      sstep w (with_hand (with_conn i (at_hphase HLeaving c) (sy_hand w)) w)
  | ss_done w i c s wasCurrent :
      sy_conns w !! i = Some c -> hc_phase c = HLeaving -> connectionDone i (sy_server w) = (s, wasCurrent) ->
      sstep w (with_hand (with_conn i (at_hphase (if wasCurrent then HLost else HDone) c) (with_serv s (sy_hand w))) w)
  | ss_lost w i c :
      sy_conns w !! i = Some c -> hc_phase c = HLost -> quiet w ->
      sstep w (with_hand (with_conn i (at_hphase HDone c)
        (with_owner (Do (lostCommand (hc_generation c) 0) (sy_owner w)).1 (sy_hand w))) w)
  (* a connection on its own *)
  | ss_local w i l v :
      sy_links w !! i = Some l -> lstep (lk_world l) v -> sstep w (with_link i (set_world v l) w)
  (* the owner's other callers and its timer *)
  | ss_owner w l o :
      quiet w -> outsideLabel l -> step (sy_owner w) l o -> sstep w (with_hand (with_owner o (sy_hand w)) w)
  (* the owner's events *)
  | ss_publish w e conns ok planned :
      sy_log w !! sy_published w = Some e -> ev_Snapshot e = None -> sy_sending w = None ->
      presenter_Publish e (sy_server w) (linkConns (sy_links w)) = (conns, ok, planned) ->
      let seq := zlen (deltasBefore (sy_log w) (S (sy_published w))) in
      sstep w (next_event (with_links (offeredTo conns (sy_server w) seq (sy_links w))
        (with_requests (match planned with Some i => generationAt (sy_conns w) i :: sy_requests w | None => sy_requests w end)
          (sy_failing w) w)))
  | ss_snapshot_returned w e snap ok :
      sy_log w !! sy_published w = Some e -> ev_Snapshot e = Some snap -> sy_sending w = None ->
      snapshotTarget (generationAt (sy_conns w)) e snap (sy_server w) = inl ok -> sstep w (next_event w)
  | ss_snapshot_target w e snap i frame :
      sy_log w !! sy_published w = Some e -> ev_Snapshot e = Some snap -> sy_sending w = None ->
      snapshotTarget (generationAt (sy_conns w)) e snap (sy_server w) = inr (i, frame) ->
      sstep w (sending (i, frame, s_Sequence snap) w)
  | ss_snapshot_sent w i frame n l c ok :
      sy_sending w = Some (i, frame, n) -> sy_links w !! i = Some l -> enqueueSnapshot frame n (w_conn (lk_world l)) = (c, ok) ->
      sstep w (next_event (with_link i (set_link c l) w))
  (* resync goroutines *)
  | ss_resync w g l1 l2 r err o :
      sy_requests w = l1 ++ g :: l2 -> quiet w -> is_u64 g -> step (sy_owner w) (LDo (resyncCommand g) r err) o ->
      sstep w (with_requests (l1 ++ l2) (match err with Some _ => g :: sy_failing w | None => sy_failing w end)
        (with_hand (with_owner o (sy_hand w)) w))
  | ss_resync_failed w g l1 l2 i l :
      sy_failing w = l1 ++ g :: l2 -> resyncFailed (generationAt (sy_conns w)) g (sy_server w) = Some i -> sy_links w !! i = Some l ->
      sstep w (with_link i (set_link (fail (w_conn (lk_world l))) l) (with_requests (sy_requests w) (l1 ++ l2) w))
  | ss_resync_moot w g l1 l2 :
      sy_failing w = l1 ++ g :: l2 -> resyncFailed (generationAt (sy_conns w)) g (sy_server w) = None ->
      sstep w (with_requests (sy_requests w) (l1 ++ l2) w)
  (* [Server.Close] *)
  | ss_close w s conns :
      closeServer (sy_server w) = (s, conns) -> sstep w (with_hand (with_serv s (sy_hand w)) w).

Definition systart (store : option Store) : sworld := mkSWorld (hstart (Some []) store) ∅ 0 None [] [].

Definition sreachable (store : option Store) (w : sworld) : Prop := rtc sstep (systart store) w.

End System.

(** ** The hand-over's part *)

Section Projections.
Context `{MonotonicClock, Sink, PngLaws, Sha256Laws, ErrorText}.

Lemma resyncCommand_typed g : is_u64 g -> command_typed (resyncCommand g).
Proof. by split. Qed.

Lemma sstep_hand w w' : sstep w w' -> rtc hstep (sy_hand w) (sy_hand w').
Proof.
  destruct 1 as [w i s Hi Hs|w i c l s g producer Hi Hp Hl Hs Hn|w i c l snap o frame Hi Hp Hl Hq Hs Hv Hm v|w i c l n conn act s r Hi Hp Hl Hn Ha Hs p|
    w i c previous Hi Hp Hq|w i c l n Hi Hp Hl Hn v|w i c d command o reply Hi Hp Hq Hv Ht Hx|w i c Hi Hm|w i c s was Hi Hp Hs|w i c Hi Hp Hq| |
    w l o Hq [Hl _] Hs| | | | |w g l1 l2 r err o Hr Hq Hg Hs| | |w s conns Hs]; try apply rtc_refl; apply rtc_once.
  - by apply (hs_accept (sy_hand w)).
  - by apply (hs_hello (sy_hand w) i c).
  - by apply (hs_snapshot (sy_hand w) i c snap).
  - subst p. destruct r as [old|]; [by apply (hs_commit (sy_hand w) i c act s old)|by apply (hs_commit_refused (sy_hand w) i c act)].
  - by apply (hs_bind (sy_hand w)).
  - by apply (hs_serve (sy_hand w)).
  - by apply (hs_command (sy_hand w) i c d command o reply).
  - by apply (hs_leave (sy_hand w)).
  - by apply (hs_done (sy_hand w)).
  - by apply (hs_lost (sy_hand w)).
  - by apply (hs_owner (sy_hand w) l).
  - apply (hs_owner (sy_hand w) (LDo (resyncCommand g) r err)); [|done]. split; [by apply resyncCommand_typed|done].
  - by apply (hs_close (sy_hand w) s conns).
Qed.

Lemma ssteps_hand w w' : rtc sstep w w' -> rtc hstep (sy_hand w) (sy_hand w').
Proof. induction 1 as [|w1 w2 w3 Hs _ IH]; [done|]. etrans; [by apply sstep_hand|done]. Qed.

End Projections.

(** ** What the methods leave alone *)

Lemma prepare_active m c : cn_active (prepare m c).1 = cn_active c.
Proof. unfold prepare, reserve, fail. destruct c; cbn. by repeat case_match; simplify_eq/=. Qed.

Lemma activateLoop_active sequence pending c r :
  activateLoop sequence pending c = Some r -> match r with inl c' | inr c' => cn_active c' = cn_active c end.
Proof.
  revert c. induction pending as [|m pending IH]; intros c; cbn [activateLoop]; [by intros [= <-]|].
  destruct (_ <=? sequence); [intros Hr%IH; by destruct r, c|]. destruct (ValidateNextSequence _ _); [by intros [= <-]|].
  unfold send. destruct (_ <? _); [|done]. intros Hr%IH. by destruct r, c.
Qed.

Lemma activate_active n c c' ok : activate n c = Some (c', ok) -> cn_active c' = ok || cn_active c.
Proof.
  unfold activate. destruct (cn_failed c); [by intros [= <- <-]|].
  destruct (activateLoop _ _ _) as [[c1|c1]|] eqn:Hl; [|by intros [= <- <-]; destruct c1|done].
  intros [= <- <-]. apply activateLoop_active in Hl. by destruct c, c1.
Qed.

Lemma enqueueSnapshot_active frame n c c' ok : enqueueSnapshot frame n c = (c', ok) -> cn_active c' = cn_active c.
Proof. unfold enqueueSnapshot. destruct (_ || _); intros [= <- _]; by destruct c. Qed.

Lemma moveTail_active tail c c' : moveTail tail c = Some c' -> cn_active c' = cn_active c.
Proof.
  revert c. induction tail as [|m tail IH]; intros c; cbn [moveTail]; [by intros [= <-]|].
  unfold send. destruct (_ <? _); [|done]. intros Hr%IH. by destruct c.
Qed.

(** What a connection does on its own changes neither of its numbers, nor
    whether it is active, nor starts the writer. *)
Lemma lstep_frame w w' : lstep w w' ->
  w_seq w' = w_seq w /\ w_snap w' = w_snap w /\ cn_active (w_conn w') = cn_active (w_conn w) /\ (w_writer w = None -> w_writer w' = None).
Proof.
  destruct 1 as [w data c ok He|w c data Hv Ht|w c Hv Ht|w c data Hv Ht|w c Hv Ht|w Hv Hk|w m queue Hv Hq|w m Hv|w|w v Hv Hf];
    (split; [done|]); (split; [done|]); cbn; try rewrite Hv.
  - split; [|done]. revert He. unfold enqueue, reserve, send, fail. destruct (w_conn w); cbn.
    repeat (case_match; simplify_eq/=); intros; by simplify_eq/=.
  - split; [|done]. revert Ht. unfold takeReply. destruct (cn_replyHold _); [|done]. intros [= <- _]. by destruct (w_conn w).
  - split; [|done]. revert Ht. unfold takeReply. destruct (cn_replyHold _); [done|]. by intros [= <-].
  - split; [|done]. revert Ht. unfold takeResync. destruct (cn_resyncFrame _); [|done]. destruct (negb _); [done|].
    destruct (moveTail _ _) as [c1|] eqn:Hm; [|done]. intros [= <- _]. apply moveTail_active in Hm. by destruct c1, (w_conn w).
  - split; [|done]. revert Ht. unfold takeResync. destruct (cn_resyncFrame _); [|by intros [= <-]]. destruct (negb _); [by intros [= <-]|].
    by destruct (moveTail _ _).
  - split; [|done]. by destruct (w_conn w).
  - split; [|done]. by destruct (w_conn w).
  - split; [|done]. by destruct (w_conn w).
  - split; [|done]. by destruct (w_conn w).
  - done.
Qed.

(** ** The owner's log *)

Section Log.
Context `{MonotonicClock, Sink, PngLaws, Sha256Laws, ErrorText}.

(** What the log of a reachable owner says. *)
Record log_ok (store : option Store) (o : ownerState) (log : list Event) : Prop := {
  lo_sink : s_sink o = Some log;
  lo_numbered : OwnerInv.numbered 0 log (s_sequence o);
  lo_announced : announced 0 (view (start (Some []) store)) log;
  lo_events : Forall event_ok log;
  lo_view : view o = fold_left applyEvent log (view (start (Some []) store));
  lo_fits : fits (view (start (Some []) store)) log }.

Lemma owner_log store o : start_store_ok store -> reachable (Some []) store o -> exists log, log_ok store o log.
Proof.
  intros Hst (ls&Hls&Hs). destruct (start_ok (Some []) store Hst) as (Hwf&Hp&Hk&Hq&_).
  destruct (steps_ok _ _ _ Hwf Hp Hls Hs) as [[[evs [Ek En Eo Ev Ea Ef]] _ _] _]. rewrite Hk in Ek. rewrite Hq in En, Ea.
  by exists evs.
Qed.

(** The log only grows. *)
Definition grows (o o' : ownerState) : Prop := exists evs, s_sink o' = (fun log => log ++ evs) <$> s_sink o.

Lemma grows_refl o : grows o o.
Proof. exists []. destruct (s_sink o); cbn; [by rewrite app_nil_r|done]. Qed.

Lemma grows_trans o1 o2 o3 : grows o1 o2 -> grows o2 o3 -> grows o1 o3.
Proof. intros [e1 H12] [e2 H23]. exists (e1 ++ e2). rewrite H23, H12. destruct (s_sink o1); cbn; [by rewrite app_assoc|done]. Qed.

Lemma step_grows sink store o l o' :
  start_store_ok store -> reachable sink store o -> label_typed l -> step o l o' -> grows o o'.
Proof.
  intros Hst Hr Hl Hs. destruct (reachable_ok sink store o Hst Hr) as [Hwf Hp].
  destruct (step_ok o l o' Hwf Hp Hl Hs) as [[[evs [Hk _ _ _ _ _]] _ _] _]. by exists evs.
Qed.

Lemma Do_grows sink store o c : start_store_ok store -> reachable sink store o -> command_typed c -> grows o (Do c o).1.
Proof.
  intros Hst Hr Hc. unfold Do. destruct (do_ c o) as [[s r] err] eqn:Hd.
  by eapply (step_grows sink store o (LDo c r err)); [done|done|done|constructor].
Qed.

Lemma hstep_grows store w w' :
  start_store_ok store -> nextGen_ok w -> hworld_ok (Some []) store w -> hstep w w' -> grows (hw_owner w) (hw_owner w').
Proof.
  intros Hst Hn [Ho _ [last Hi]] Hs.
  destruct Hs as [w i s Hi0 Hs|w i c s g producer Hc Hph Hs Hlt|w i c snap o Hc Hph Hs|w i c act s old Hc Hph Hs|
    w i c act s Hc Hph Hs|w i c previous Hc Hph|w i c Hc Hph|w i c d command o reply Hc Hph Hv Ht Hex|w i c Hc Hm|
    w i c s was Hc Hph Hs|w i c Hc Hph|w l o Hsl Hs|w s conns Hs]; cbn [hw_owner]; try apply grows_refl.
  - by eapply (step_grows _ _ _ (LSnapshot snap)).
  - eapply Do_grows; [done|done|]. apply lostCommand_typed.
    pose proof (hv_previous _ _ _ _ Hi i c previous Hc ltac:(by rewrite Hph)). pose proof (hv_gen _ _ _ _ Hi i c Hc).
    unfold nextGen_ok, is_u64 in *. lia.
  - assert (command_typed (stateCommand (hc_generation c) command)) as Hty.
    { split; cbn; try done; [by destruct (producerKind _)|]. by eapply hinv_u64. }
    revert Hex. unfold executeCommandForConnection. destruct (_ && _); [intros [= <- _]; apply grows_refl|]. unfold ownerDo.
    pose proof (Do_grows _ _ _ _ Hst Ho Hty) as Hd.
    destruct d; [|intros [= <- _]; apply grows_refl|intros [= <- _]; exact Hd].
    destruct (Do _ _) as [o1 res]. by intros [= <- _].
  - eapply Do_grows; [done|done|]. apply lostCommand_typed. by eapply hinv_u64.
  - destruct (serviceLabel_gens _ _ _ Hsl Hs) as [Hty _]. by eapply step_grows.
Qed.

(** ** What holds of the hand-over's part *)

Record shand_ok (store : option Store) (w : sworld) : Prop := {
  sh_hand : hworld_ok (Some []) store (sy_hand w);
  sh_gen : nextGen_ok (sy_hand w);
  sh_log : log_ok store (sy_owner w) (sy_log w);
  sh_published : (sy_published w <= length (sy_log w))%nat;
  sh_sending : is_Some (sy_sending w) -> is_Some (sy_log w !! sy_published w) }.

Lemma log_ok_log store o : start_store_ok store -> reachable (Some []) store o -> log_ok store o (default [] (s_sink o)).
Proof. intros Hst Hr. destruct (owner_log store o Hst Hr) as [log Hl]. by rewrite (lo_sink _ _ _ Hl). Qed.

Lemma sstep_events w w' : sstep w w' ->
  (sy_published w' = sy_published w /\ (sy_sending w' = sy_sending w \/ is_Some (sy_log w !! sy_published w))) \/
  (sy_published w' = S (sy_published w) /\ sy_sending w' = None /\
   (is_Some (sy_log w !! sy_published w) \/ is_Some (sy_sending w))).
Proof. destruct 1; cbn; auto 6. Qed.

Lemma hsteps_ok store w w' :
  start_store_ok store -> nextGen_ok w -> hworld_ok (Some []) store w -> rtc hstep w w' ->
  nextGen_ok w' /\ hworld_ok (Some []) store w' /\ grows (hw_owner w) (hw_owner w').
Proof.
  intros Hst Hn Hw Hr. induction Hr as [w|w w1 w2 Hs _ IH]; [split_and!; [done|done|apply grows_refl]|].
  destruct (hstep_ok _ _ _ _ Hst Hn Hw Hs) as [Hn1 Hw1]. destruct (IH Hn1 Hw1) as (?&?&?). split_and!; [done|done|].
  eapply grows_trans; [by eapply hstep_grows|done].
Qed.

(** The events before those that were published stay where they are. *)
Lemma sstep_log store w w' :
  start_store_ok store -> shand_ok store w -> sstep w w' ->
  hworld_ok (Some []) store (sy_hand w') /\ nextGen_ok (sy_hand w') /\ log_ok store (sy_owner w') (sy_log w') /\
  sy_log w `prefix_of` sy_log w'.
Proof.
  intros Hst [Hh Hn Hl _ _] Hs. destruct (hsteps_ok store _ _ Hst Hn Hh (sstep_hand _ _ Hs)) as (Hn'&Hh'&[evs Hg]).
  split_and!; [done|done|apply log_ok_log; [done|by apply Hh']|]. unfold sy_log, sy_owner in *. rewrite Hg.
  destruct (s_sink (hw_owner (sy_hand w))); cbn; by eexists.
Qed.

Lemma sstart_ok store : start_store_ok store -> shand_ok store (systart store).
Proof.
  intros Hst. pose proof (hstart_ok (Some []) store) as Hh. destruct (start_ok (Some []) store Hst) as (_&_&Hk&_&_).
  split; [done|done|apply log_ok_log; [done|by apply Hh]| |by intros [? [=]]]. cbn. lia.
Qed.

Lemma sstep_ok store w w' : start_store_ok store -> shand_ok store w -> sstep w w' -> shand_ok store w'.
Proof.
  intros Hst Hw Hs. destruct (sstep_log store w w' Hst Hw Hs) as (Hh&Hn&Hl&Hpre). destruct Hw as [_ _ _ Hp Hsend].
  pose proof (prefix_length _ _ Hpre) as Hlen.
  assert (forall e, sy_log w !! sy_published w = Some e -> sy_log w' !! sy_published w = Some e) as Hlog by (intros e He; by eapply prefix_lookup_Some).
  destruct (sstep_events w w' Hs) as [(Hpub&Hse)|(Hpub&Hse&Hev)]; (split; [done|done|done|rewrite Hpub|]).
  - lia.
  - rewrite Hpub. intros Hsome. destruct Hse as [Hse|[e He]]; [rewrite Hse in Hsome; destruct (Hsend Hsome) as [e He]|]; eauto.
  - assert (is_Some (sy_log w !! sy_published w)) as Hlt%lookup_lt_is_Some by (destruct Hev; auto). lia.
  - rewrite Hse. by intros [? [=]].
Qed.

Lemma sreachable_ok store w : start_store_ok store -> sreachable store w -> shand_ok store w.
Proof. intros Hst. apply (rtc_ind_r (shand_ok store)); [by apply sstart_ok|]. intros w1 w2 _ Hs Hw. by eapply sstep_ok. Qed.

End Log.
