(* ===== verification/SystemInv.v ===== *)
(** * The presenter side as a whole: its invariant

    Next to the server's mutex and the owner's stream, every connection goes
    through the steps of [cstep] ([link_ok]): the connection that prepares and
    the current one have been offered every delta that [Publish] got to, the
    frames they are given are snapshots of the owner's, numbered with the
    deltas before them.  [linv_step] is the projection from the whole
    ([sstep]) to each connection. *)
From stdpp Require Import gmap strings list fin_maps.
From Stdlib Require Import ZArith Lia Strings.Byte.
From S2P Require Import Prelude GoLib Protocol Frame Notify History Owner OwnerInv OwnerOps OwnerAdd OwnerCmd OwnerTime OwnerRun OwnerGen Connection Commands Handover SnapshotFrame Views Publish System.
Local Open Scope string_scope.
Local Open Scope list_scope.
Local Open Scope Z_scope.

(** ** The frames of a run *)

(** What a presenter is shown before the first delta. *)
Definition startView `{Clock, Sink, Png, Sha256} (store : option Store) : View := view (start (Some []) store).

(** The frames of the deltas [D], after a view, and of the snapshots taken
    between them. *)
Definition runEncoding (v : View) (D : list Delta) : Encoding := {|
  deltaBytes n := match D !! Z.to_nat (n - 1) with
                  | Some d => match marshalDelta n d with inr m => ob_data m | inl _ => [] end
                  | None => [] end;
  isSnapshot n data := exists snap frame,
    s_Sequence snap = n /\ snapshotView snap = viewAfter v D n /\ marshalSnapshot snap = inr frame /\ data = bytesOfText frame |}.

(** Every delta has a JSON text: its times are in the range JSON can say. *)
Definition marshals (D : list Delta) : Prop :=
  forall n d, D !! n = Some d -> exists m, marshalDelta (Z.of_nat n + 1) d = inr m.

Section Links.
Context `{MonotonicClock, Sink, PngLaws, Sha256Laws, ErrorText}.
Context (store : option Store) (start_ok : start_store_ok store).
Context (D : list Delta) (D_bound : zlen D < 18446744073709551615) (D_marshals : marshals D).

#[local] Instance systemEncoding : Encoding := runEncoding (startView store) D.

(** A connection next to the server and the owner's stream: it went through
    the steps of a connection, and while the server knows it, it has been
    offered every delta that was published. *)
Record link_ok (s : Server) (seq : Z) (i : nat) (p : hphase) (l : link) : Prop := {
  lk_run : exists seq0, 0 <= seq0 < 18446744073709551615 /\ creachable seq0 (lk_world l);
  lk_seq : attached s i -> w_seq (lk_world l) = seq;
  lk_preparing : sv_preparing s = Some i -> cn_active (w_conn (lk_world l)) = false;
  lk_current : sv_current s = Some i -> cn_active (w_conn (lk_world l)) = true;
  lk_phase : match p with
             | HHandshake => w_conn (lk_world l) = newConnection \/ w_conn (lk_world l) = fail newConnection
             | HPreparing => w_snap (lk_world l) = None
             | HReady => exists n, w_snap (lk_world l) = Some n /\ isSnapshot n (lk_frame l)
             | HCurrent _ | HBound => cn_active (w_conn (lk_world l)) = true /\ w_writer (lk_world l) = None /\
                 exists n, w_snap (lk_world l) = Some n /\ isSnapshot n (lk_frame l)
             | _ => True
             end;
  lk_upto : w_seq (lk_world l) <= seq }.

Record linv (w : sworld) : Prop := {
  li_links i c : sy_conns w !! i = Some c ->
    exists l, sy_links w !! i = Some l /\ link_ok (sy_server w) (sy_seq w) i (hc_phase c) l;
  li_conns i l : sy_links w !! i = Some l -> is_Some (sy_conns w !! i);
  li_sending i frame n : sy_sending w = Some (i, frame, n) ->
    (exists e snap, sy_log w !! sy_published w = Some e /\ ev_Snapshot e = Some snap) /\
    n = sy_seq w /\ isSnapshot n frame /\ exists l, sy_links w !! i = Some l /\ w_seq (lk_world l) = n }.

(** A step that publishes nothing. *)
Record stays (w w' : sworld) : Prop := {
  st_published : sy_published w' = sy_published w;
  st_sending : sy_sending w' = sy_sending w;
  st_log : sy_log w `prefix_of` sy_log w' }.

Lemma stays_seq w w' : (sy_published w <= length (sy_log w))%nat -> stays w w' -> sy_seq w' = sy_seq w.
Proof. intros Hle [Hp _ [evs Hl]]. unfold sy_seq, deltasBefore. rewrite Hp, Hl. by rewrite take_app_le by lia. Qed.

(** The server forgets connections, or takes up this one. *)
Definition narrows (i : nat) (s s' : Server) : Prop :=
  forall j, j <> i -> (sv_preparing s' = Some j -> sv_preparing s = Some j) /\ (sv_current s' = Some j -> sv_current s = Some j).

Lemma link_ok_narrows s s' seq i j p l : j <> i -> narrows i s s' -> link_ok s seq j p l -> link_ok s' seq j p l.
Proof.
  intros Hj Hn [L1 L2 L3 L4 L5 L6]. destruct (Hn j Hj) as [Hp Hc]. split; [done| |auto|auto|done|done].
  intros [Ha|Ha]; apply L2; [left|right]; auto.
Qed.

(** One connection moves, and its part of the server. *)
Lemma linv_move w w' i c' l' :
  (sy_published w <= length (sy_log w))%nat -> linv w -> stays w w' ->
  sy_conns w' = <[i := c']> (sy_conns w) -> sy_links w' = <[i := l']> (sy_links w) -> narrows i (sy_server w) (sy_server w') ->
  link_ok (sy_server w') (sy_seq w) i (hc_phase c') l' ->
  (forall l, sy_links w !! i = Some l -> w_seq (lk_world l') = w_seq (lk_world l) \/ w_seq (lk_world l') = sy_seq w) ->
  linv w'.
Proof.
  intros Hle [I1 I2 I3] Hst Hcs Hls Hn Hl' Hseq. pose proof (stays_seq _ _ Hle Hst) as Hq. destruct Hst as [Hp Hs Hlog].
  split; rewrite ?Hq.
  - intros j c. rewrite Hcs, Hls. intros [[<- <-]|[Hne Hj]]%lookup_insert_Some; [exists l'; by rewrite lookup_insert_eq|].
    destruct (I1 j c Hj) as (l&Hl&Hok). exists l. rewrite lookup_insert_ne by done. split; [done|]. by eapply link_ok_narrows.
  - intros j l. rewrite Hcs, Hls. intros [[<- <-]|[Hne Hj]]%lookup_insert_Some; [by rewrite lookup_insert_eq|].
    rewrite lookup_insert_ne by done. eauto.
  - intros j frame n. rewrite Hs. intros Hsend. destruct (I3 j frame n Hsend) as ((e&snap&He&Hsn)&->&Hsnap&l&Hl&Hn').
    split; [exists e, snap; split; [rewrite Hp; by eapply prefix_lookup_Some|done]|]. split; [done|]. split; [done|]. rewrite Hls.
    destruct (decide (i = j)) as [<-|Hne]; [|exists l; by rewrite lookup_insert_ne].
    exists l'. rewrite lookup_insert_eq. split; [done|]. destruct (Hseq l Hl); congruence.
Qed.

(** Nothing of the connections moves. *)
Lemma linv_quiet w w' :
  (sy_published w <= length (sy_log w))%nat -> linv w -> stays w w' -> sy_conns w' = sy_conns w -> sy_links w' = sy_links w ->
  sv_preparing (sy_server w') = sv_preparing (sy_server w) -> sv_current (sy_server w') = sv_current (sy_server w) -> linv w'.
Proof.
  intros Hle [I1 I2 I3] Hst Hcs Hls Hsp Hsc. pose proof (stays_seq _ _ Hle Hst) as Hq. destruct Hst as [Hp Hs Hlog].
  split; rewrite ?Hq, ?Hcs, ?Hls.
  - intros j c Hj. destruct (I1 j c Hj) as (l&Hl&[L1 L2 L3 L4 L5 L6]). exists l. split; [done|].
    split; unfold attached in *; rewrite ?Hsp, ?Hsc; done.
  - done.
  - intros j frame n. rewrite Hs. intros Hsend. destruct (I3 j frame n Hsend) as ((e&snap&He&Hsn)&->&Hsnap&Hl).
    split_and!; [|done|done|done]. exists e, snap. split; [rewrite Hp; by eapply prefix_lookup_Some|done].
Qed.

Lemma inactive_idle seq w : cinv seq w -> cn_active (w_conn w) = false -> w_writer w = None /\ w_wire w = [].
Proof. intros Hi Ha. pose proof (ci_mode _ _ Hi) as Hm. rewrite Ha in Hm. by destruct Hm. Qed.

(** A connection whose hello was not read can only fail. *)
Lemma fresh_lstep w v :
  lstep w v -> w_writer w = None -> w_conn w = newConnection \/ w_conn w = fail newConnection -> w_conn v = fail newConnection.
Proof.
  intros Hs Hw Hc. destruct Hs as [w d c ok He| | | | | | | |w|]; cbn in *; try congruence.
  - destruct Hc as [Hc|Hc]; rewrite Hc in He; by injection He as <-.
  - by destruct Hc as [-> | ->].
Qed.

Lemma lk_local s seq i p l v : link_ok s seq i p l -> lstep (lk_world l) v -> link_ok s seq i p (set_world v l).
Proof.
  intros [(seq0&Hs0&Hr) L2 L3 L4 L5 L6] Hs. destruct (lstep_frame _ _ Hs) as (Hq&Hn&Ha&Hw). split; cbn; rewrite ?Hq, ?Hn, ?Ha; try done.
  - exists seq0. split; [done|]. by eapply cr_step, cs_local.
  - destruct p; try done; [|naive_solver..]. right. eapply fresh_lstep; [done| |done].
    eapply inactive_idle; [by eapply creachable_inv|]. by destruct L5 as [-> | ->].
Qed.

(** ** A published delta *)

Lemma deltaMessage_marshals n d : 0 <= n -> D !! Z.to_nat n = Some d -> marshalDelta (n + 1) d = inr (deltaMessage (n + 1)).
Proof.
  intros Hn Hd. destruct (D_marshals _ _ Hd) as [m Hm]. replace (Z.of_nat (Z.to_nat n) + 1) with (n + 1) in Hm by lia. rewrite Hm.
  unfold deltaMessage, deltaBytes, systemEncoding, runEncoding. replace (n + 1 - 1) with n by lia. rewrite Hd, Hm.
  revert Hm. unfold marshalDelta. destruct (marshalEnvelope _ _ _ _); [done|]. by intros [= <-].
Qed.

Lemma log_bound log : deltasOf log `prefix_of` D -> zlen (deltasOf log) < 18446744073709551616.
Proof. intros Hl%prefix_length. unfold zlen in *. lia. Qed.

Lemma publish_delta w e d conns :
  log_ok store (sy_owner w) (sy_log w) -> deltasOf (sy_log w) `prefix_of` D ->
  sy_log w !! sy_published w = Some e -> ev_Delta e = Some d ->
  presenter_Publish e (sy_server w) conns = publishMessage (deltaMessage (sy_seq w + 1)) (sy_server w) conns /\
  zlen (deltasBefore (sy_log w) (S (sy_published w))) = sy_seq w + 1 /\ sy_seq w + 1 <= zlen D.
Proof.
  intros [_ Hn Ha Hok _] Hpre He Hd. destruct (log_delta _ _ _ Hn Ha (log_bound _ Hpre) _ _ _ He Hd) as (Hs&Hl&Hnext&_).
  fold (sy_seq w) in Hs. rewrite Hnext, zlen_app. change (zlen [d]) with 1. fold (sy_seq w).
  pose proof (zlen_nonneg (deltasBefore (sy_log w) (sy_published w))) as Hpos. fold (sy_seq w) in Hpos.
  assert (D !! Z.to_nat (sy_seq w) = Some d) as HD.
  { eapply prefix_lookup_Some; [|done]. unfold sy_seq, zlen. by rewrite Nat2Z.id. }
  assert (sy_seq w + 1 <= zlen D) as Hle.
  { apply lookup_lt_Some in HD. unfold zlen in *. lia. }
  split_and!; [|done|done]. unfold presenter_Publish. rewrite Hd, Hs, (proj2 (Z.eqb_neq _ _)) by lia.
  rewrite Forall_forall in Hok. destruct (Hok e (list_elem_of_lookup_2 _ _ _ He)) as [Hv _]. rewrite Hd in Hv. rewrite Hv.
  cbn [orb]. by rewrite (deltaMessage_marshals _ _ Hpos HD).
Qed.

Lemma link_published s seq i p l :
  link_ok s seq i p l -> (p = HHandshake -> ~ attached s i) -> seq + 1 < 18446744073709551615 ->
  let w := lk_world l in
  link_ok s (seq + 1) i p (set_world (mkWorld (offered (deltaMessage (seq + 1)) s i (w_conn w))
    (if decide (attached s i) then seq + 1 else w_seq w) (w_snap w) (w_writer w) (w_wire w)) l).
Proof.
  intros [(seq0&Hs0&Hr) L2 L3 L4 L5 L6] Hh Hlt w. subst w. unfold offered. destruct (decide (attached s i)) as [Ha|Ha].
  - specialize (L2 Ha). destruct Ha as [Ha|Ha].
    + assert (sv_current s <> Some i) as Hc by (intros Hc; rewrite L4 in L3 by done; by specialize (L3 Ha)).
      rewrite decide_False, decide_True by done. specialize (L3 Ha). subst seq.
      destruct (prepare (deltaMessage (w_seq (lk_world l) + 1)) (w_conn (lk_world l))) as [c ok] eqn:Hp. cbn [fst].
      pose proof (prepare_active (deltaMessage (w_seq (lk_world l) + 1)) (w_conn (lk_world l))) as Hact. rewrite Hp in Hact. cbn [fst] in Hact.
      split; cbn -[isSnapshot]; rewrite ?Hact; try done; [exists seq0; split; [done|]; by eapply cr_step, cs_publish_preparing|].
      destruct p; try done. by destruct (Hh eq_refl); left.
    + assert (sv_preparing s <> Some i) as Hc by (intros Hc; rewrite L3 in L4 by done; by specialize (L4 Ha)).
      rewrite decide_True, decide_False by done. specialize (L4 Ha). subst seq.
      destruct (enqueueDelta (deltaMessage (w_seq (lk_world l) + 1)) (w_conn (lk_world l))) as [c [ok resync]] eqn:Hp. cbn [fst].
      pose proof (enqueueDelta_active (deltaMessage (w_seq (lk_world l) + 1)) (w_conn (lk_world l))) as Hact. rewrite Hp in Hact. cbn [fst] in Hact.
      split; cbn -[isSnapshot]; rewrite ?Hact; try done; [exists seq0; split; [done|]; by eapply cr_step, cs_publish_current|].
      destruct p; try done. by destruct (Hh eq_refl); right.
  - rewrite !decide_False by (unfold attached in Ha; tauto). destruct l as [[]]; split; cbn -[isSnapshot] in *; try done; [by exists seq0|lia].
Qed.

(** The server knows no connection whose hello is still to come. *)
Lemma attached_past w i c :
  hworld_ok (Some []) store (sy_hand w) -> sy_conns w !! i = Some c -> hc_phase c = HHandshake -> ~ attached (sy_server w) i.
Proof.
  intros [_ _ [last Hi]] Hc Hp [Ha|Ha].
  - destruct (hv_preparing _ _ _ _ Hi i Ha) as (d&Hd&_&Hor). assert (d = c) as -> by (unfold sy_conns in *; congruence).
    rewrite Hp in Hor. by destruct Hor.
  - destruct (hv_current _ _ _ _ Hi i Ha) as (d&Hd&_&_&Hor). assert (d = c) as -> by (unfold sy_conns in *; congruence).
    rewrite Hp in Hor. by destruct Hor.
Qed.

Lemma attached_conn w i :
  hworld_ok (Some []) store (sy_hand w) -> attached (sy_server w) i -> is_Some (sy_conns w !! i).
Proof.
  intros [_ _ [last Hi]] [Ha|Ha].
  - destruct (hv_preparing _ _ _ _ Hi i Ha) as (d&Hd&_). by exists d.
  - destruct (hv_current _ _ _ _ Hi i Ha) as (d&Hd&_). by exists d.
Qed.

Lemma sy_seq_next w links requests failing :
  sy_seq (next_event (with_links links (with_requests requests failing w))) = zlen (deltasBefore (sy_log w) (S (sy_published w))).
Proof. done. Qed.

Lemma linv_publish w e conns ok planned requests failing :
  shand_ok store w -> deltasOf (sy_log w) `prefix_of` D -> linv w ->
  sy_log w !! sy_published w = Some e -> ev_Snapshot e = None -> sy_sending w = None ->
  presenter_Publish e (sy_server w) (linkConns (sy_links w)) = (conns, ok, planned) ->
  linv (next_event (with_links
    (offeredTo conns (sy_server w) (zlen (deltasBefore (sy_log w) (S (sy_published w)))) (sy_links w)) (with_requests requests failing w))).
Proof.
  intros [Hh _ Hlog _ _] Hpre [I1 I2 _] He _ _ Hp. destruct (ev_Delta e) as [d|] eqn:Hd.
  - destruct (publish_delta w e d (linkConns (sy_links w)) Hlog Hpre He Hd) as (Hpub&Hseq&Hle). rewrite Hpub in Hp. rewrite Hseq.
    split; [| |done]; cbn [sy_links next_event with_links].
    + intros i c Hi. destruct (I1 i c Hi) as (l&Hl&Hok). unfold offeredTo. setoid_rewrite map_lookup_imap.
      pose proof (publishMessage_lookup (deltaMessage (sy_seq w + 1)) (sy_server w) (linkConns (sy_links w)) i) as Hc.
      rewrite Hp in Hc. cbn [fst] in Hc. unfold linkConns in Hc. rewrite lookup_fmap, Hl in Hc. cbn [fmap option_fmap option_map] in Hc.
      rewrite Hl. cbn [mbind option_bind]. rewrite Hc. eexists. split; [done|].
      rewrite sy_seq_next. rewrite Hseq. cbn [default from_option].
      apply link_published; [done| |lia]. by apply attached_past.
    + intros i l. unfold offeredTo. rewrite map_lookup_imap. destruct (sy_links w !! i) eqn:Hl; [|done]. intros _. by eapply I2.
  - assert (conns = linkConns (sy_links w)) as -> by (revert Hp; unfold presenter_Publish; rewrite Hd; by intros [= <- _ _]).
    pose proof (log_quiet (sy_log w) (sy_published w) e He Hd) as Hq. rewrite Hq. fold (sy_seq w).
    assert (offeredTo (linkConns (sy_links w)) (sy_server w) (sy_seq w) (sy_links w) = sy_links w) as Hsame.
    { apply map_eq. intros i. unfold offeredTo, linkConns. rewrite map_lookup_imap, lookup_fmap.
      destruct (sy_links w !! i) as [l|] eqn:Hl; [|done]. cbn. destruct (I2 i l Hl) as [c Hc]. destruct (I1 i c Hc) as (l'&Hl'&[_ Hs _ _ _ _]).
      assert (l' = l) as -> by congruence. f_equal. destruct l as [[]]; cbn in *. unfold set_world. cbn. case_decide; [|done].
      by rewrite Hs. }
    rewrite Hsame. split; [|done|done]. intros i c Hi. rewrite sy_seq_next. rewrite Hq. by apply I1.
Qed.

(** A snapshot was handed over, or nobody took it. *)
Lemma linv_next w e snap :
  shand_ok store w -> deltasOf (sy_log w) `prefix_of` D -> linv w ->
  sy_log w !! sy_published w = Some e -> ev_Snapshot e = Some snap -> linv (next_event w).
Proof.
  intros [_ _ [_ Hn Ha _ _] _ _] Hpre [I1 I2 _] He Hs.
  destruct (log_snapshot _ _ _ Hn Ha (log_bound _ Hpre) _ _ _ He Hs) as (_&_&Hd).
  split; [|done|done]. intros i c Hi. change (sy_seq (next_event w)) with (zlen (deltasBefore (sy_log w) (S (sy_published w)))).
  rewrite (log_quiet (sy_log w) _ e) by done. by apply I1.
Qed.

(** The frame of a snapshot event is one of the run. *)
Lemma linv_target w e snap i frame :
  shand_ok store w -> deltasOf (sy_log w) `prefix_of` D -> linv w ->
  sy_log w !! sy_published w = Some e -> ev_Snapshot e = Some snap ->
  snapshotTarget (generationAt (sy_conns w)) e snap (sy_server w) = inr (i, frame) -> linv (sending (i, frame, s_Sequence snap) w).
Proof.
  intros [Hh _ [_ Hn Ha _ _] _ _] Hpre [I1 I2 I3] He Hs Ht.
  destruct (log_snapshot _ _ _ Hn Ha (log_bound _ Hpre) _ _ _ He Hs) as (Hseq&Hv&Hd). split; [done|done|].
  intros j f n [= <- <- <-]. revert Ht. unfold snapshotTarget. destruct (marshalSnapshot snap) as [err|text] eqn:Hm; [done|].
  destruct (sv_current (sy_server w)) as [k|] eqn:Hk; [|done]. destruct (_ && _); [done|]. intros [= -> <-].
  destruct (attached_conn w i Hh ltac:(by right)) as [c Hc]. destruct (I1 i c Hc) as (l&Hl&[_ Hsq _ _ _ _]).
  split; [by exists e, snap|]. split; [done|]. split.
  - exists snap, text. split_and!; try done. rewrite Hseq, Hv. symmetry. apply viewAfter_prefix; [done|].
    unfold deltasBefore, zlen. pose proof (prefix_length _ _ (deltasOf_prefix _ _ (prefix_take (sy_log w) (sy_published w)))). lia.
  - exists l. split; [done|]. rewrite Hseq. apply Hsq. by right.
Qed.

(** ** Every step *)

Lemma sy_seq_bound w : deltasOf (sy_log w) `prefix_of` D -> 0 <= sy_seq w < 18446744073709551615.
Proof.
  intros Hpre%prefix_length. unfold sy_seq, deltasBefore.
  pose proof (prefix_length _ _ (deltasOf_prefix _ _ (prefix_take (sy_log w) (sy_published w)))). unfold zlen in *. lia.
Qed.

(** When the owner takes a request, everything it said was published. *)
Lemma quiet_owner w :
  shand_ok store w -> deltasOf (sy_log w) `prefix_of` D -> quiet w ->
  s_sequence (sy_owner w) = sy_seq w /\ view (sy_owner w) = viewAfter (startView store) D (sy_seq w) /\
  sy_seq w = zlen (deltasOf (sy_log w)).
Proof.
  intros [_ _ [_ Hn _ _ Hv] _ _] Hpre Hq. assert (sy_seq w = zlen (deltasOf (sy_log w))) as Hs.
  { unfold sy_seq, deltasBefore. rewrite Hq. by rewrite firstn_all. }
  pose proof (log_bound _ Hpre). split; [rewrite Hs; apply (numbered_count _ _ _ Hn); lia|]. split; [|done].
  rewrite Hv, fold_deltas, Hs, <-viewAfter_all. symmetry. apply viewAfter_prefix; [done|lia].
Qed.

(** A connection that leaves, or was taken out. *)
Lemma link_ok_over s s' seq i p p' l :
  link_ok s seq i p l -> match p' with HServing | HLeaving | HLost | HDone => True | _ => False end ->
  (sv_preparing s' = Some i -> sv_preparing s = Some i) -> (sv_current s' = Some i -> sv_current s = Some i) ->
  link_ok s' seq i p' l.
Proof.
  intros [L1 L2 L3 L4 _ L6] Hp Hsp Hsc. split; [done| |auto|auto|by destruct p'|done].
  intros [Ha|Ha]; apply L2; [left|right]; auto.
Qed.

Lemma narrows_refl i s : narrows i s s.
Proof. by intros j _. Qed.

Lemma narrows_done i s s' was : connectionDone i s = (s', was) ->
  narrows i s s' /\ sv_preparing s' <> Some i /\ sv_current s' <> Some i.
Proof.
  unfold connectionDone. intros [= <- _]. unfold narrows. cbn. repeat case_bool_decide; naive_solver.
Qed.

Lemma narrows_commit i act s s' r : commitHandoff i act s = (s', r) ->
  narrows i s s' /\ sv_preparing s' <> Some i /\ match r with Some _ => act = true /\ sv_current s' = Some i | None => sv_current s' = sv_current s end.
Proof.
  unfold commitHandoff, clearPreparing, narrows. destruct (_ || negb act) eqn:Hx; intros [= <- <-].
  - case_bool_decide; cbn; [split_and!; naive_solver|done].
  - apply orb_false_iff in Hx as [_ Hx]. destruct act; [|done]. cbn. split_and!; naive_solver.
Qed.

(** A connection takes a step of its own, with the server as it is. *)
Lemma linv_link w w' i l l' c p :
  (sy_published w <= length (sy_log w))%nat -> linv w -> stays w w' -> sy_conns w !! i = Some c -> sy_links w !! i = Some l ->
  sy_conns w' = <[i := at_hphase p c]> (sy_conns w) -> sy_links w' = <[i := l']> (sy_links w) -> sy_server w' = sy_server w ->
  w_seq (lk_world l') = w_seq (lk_world l) -> (link_ok (sy_server w) (sy_seq w) i (hc_phase c) l -> link_ok (sy_server w) (sy_seq w) i p l') -> linv w'.
Proof.
  intros Hle Hi Hst Hc Hl Hcs Hls Hs Hw Hok. eapply linv_move; try done; [rewrite Hs; apply narrows_refl| |].
  - rewrite Hs. apply Hok. destruct (li_links _ Hi i c Hc) as (l1&Hl1&Hok1). by assert (l1 = l) as -> by congruence.
  - intros l1 Hl1. left. congruence.
Qed.

Lemma link_snapshot s i l snap frame seq :
  link_ok s seq i HPreparing l -> sv_preparing s = Some i -> s_Sequence snap = seq ->
  snapshotView snap = viewAfter (startView store) D seq -> marshalSnapshot snap = inr frame ->
  let v := lk_world l in
  link_ok s seq i HReady (mkLink (mkWorld (w_conn v) (w_seq v) (Some (s_Sequence snap)) (w_writer v) (w_wire v)) (bytesOfText frame)).
Proof.
  intros [(seq0&Hs0&Hr) L2 L3 L4 L5 L6] Hp Hseq Hv Hm v. pose proof (L2 (or_introl Hp)) as Hw. split; cbn -[isSnapshot]; try done.
  - exists seq0. split; [done|]. rewrite Hseq, <-Hw. eapply cr_step; [exact Hr|]. apply cs_snapshot; [by apply L3|done].
  - exists (s_Sequence snap). split; [done|]. exists snap, frame. by rewrite Hseq, Hv.
Qed.

Lemma link_commit s s' i l n conn act r seq p :
  link_ok s seq i HReady l -> sv_preparing s = Some i -> w_snap (lk_world l) = Some n -> sv_current s <> Some i ->
  (if sv_closing s || negb (bool_decide (sv_preparing s = Some i))
   then conn = w_conn (lk_world l) /\ act = false else activate n (w_conn (lk_world l)) = Some (conn, act)) ->
  commitHandoff i act s = (s', r) ->
  match r with Some _ => exists g, p = HCurrent g | None => p = HLeaving end ->
  link_ok s' seq i p (set_link conn l).
Proof.
  intros [(seq0&Hs0&Hr) L2 L3 L4 (n'&Hn'&Hsn) L6] Hp Hn Hcur Hact Hcom Hph. assert (n' = n) as -> by congruence. specialize (L3 Hp).
  destruct (narrows_commit _ _ _ _ _ Hcom) as (_&Hp'&Hc').
  destruct (inactive_idle _ _ (creachable_inv _ _ Hs0 Hr) L3) as [Hwr _].
  assert (creachable seq0 (set_conn conn (lk_world l)) /\ cn_active conn = act) as [Hr' Hc].
  { rewrite bool_decide_eq_true_2 in Hact by done. cbn [negb] in Hact. rewrite orb_false_r in Hact. destruct (sv_closing s).
    - destruct Hact as [-> ->]. split; [|done]. by destruct (lk_world l).
    - rewrite (activate_active _ _ _ _ Hact), L3, orb_false_r. split; [|done]. eapply cr_step; [exact Hr|]. by eapply cs_activate. }
  split; cbn -[isSnapshot]; [by exists seq0|intros _; apply L2; by left|done| | |done].
  - intros Hi. destruct r; [by destruct Hc' as [<- _]|congruence].
  - destruct r; [destruct Hph as [g ->]|by subst p]. destruct Hc' as [<- _]. split_and!; [done|done|by exists n].
Qed.
Lemma link_serve s i l n seq :
  link_ok s seq i HBound l -> w_snap (lk_world l) = Some n ->
  let v := lk_world l in
  link_ok s seq i HServing (set_world (mkWorld (w_conn v) (w_seq v) (w_snap v) (Some WReply) (w_wire v ++ [FSnapshot (lk_frame l) n])) l).
Proof.
  intros [(seq0&Hs0&Hr) L2 L3 L4 (Ha&Hw&n'&Hn'&Hsn) L6] Hn v. assert (n' = n) as -> by congruence.
  split; cbn -[isSnapshot]; try done. exists seq0. split; [done|]. eapply cr_step; [exact Hr|]. by apply cs_start.
Qed.

(** The owner's answer to a resync. *)
Lemma link_resync s i p l frame c ok seq :
  link_ok s seq i p l -> isSnapshot (w_seq (lk_world l)) frame -> enqueueSnapshot frame (w_seq (lk_world l)) (w_conn (lk_world l)) = (c, ok) ->
  link_ok s seq i p (set_link c l).
Proof.
  intros [(seq0&Hs0&Hr) L2 L3 L4 L5 L6] Hsn He. pose proof (enqueueSnapshot_active _ _ _ _ _ He) as Ha.
  split; cbn -[isSnapshot]; rewrite ?Ha; try done; [exists seq0; split; [done|]; eapply cr_step; [exact Hr|]; by eapply cs_resync|].
  destruct p; try done. destruct L5 as [L5|L5]; rewrite L5 in He; injection He as <- _; auto.
Qed.

Lemma link_hello s s' i l g seq :
  0 <= seq < 18446744073709551615 -> link_ok s seq i HHandshake l -> ~ attached s i -> beginPrepare i s = Some (s', g) ->
  link_ok s' seq i HPreparing (set_world (mkWorld (w_conn (lk_world l)) seq None None []) l) /\ narrows i s s'.
Proof.
  intros Hseq [_ _ _ _ L5 _] Hna. unfold beginPrepare. destruct (_ || _); [done|]. intros [= <- _]. split.
  - split; cbn; [|done| |intros Hc; destruct Hna; by right|done|done].
    + exists seq. split; [done|]. destruct L5 as [-> | ->]; [apply cr_start|].
      exact (cr_step _ _ _ (cr_start seq) (cs_local _ _ (ls_fail (cstart seq)))).
    + intros _. by destruct L5 as [-> | ->].
  - intros j Hj. cbn. split; [congruence|done].
Qed.
Lemma prepares_conn w i c :
  hworld_ok (Some []) store (sy_hand w) -> sy_conns w !! i = Some c -> prepares (hc_phase c) = true ->
  sv_preparing (sy_server w) = Some i /\ sv_current (sy_server w) <> Some i.
Proof.
  intros [_ _ [last Hi]] Hc Hp. pose proof (hv_prepares _ _ _ _ Hi i c Hc Hp) as Hpr. split; [done|]. intros Hcur.
  destruct (hv_preparing _ _ _ _ Hi i Hpr) as (d&Hd&Hlt&_). destruct (hv_current _ _ _ _ Hi i Hcur) as (e&He&Hg&_).
  assert (d = e) as -> by congruence. lia.
Qed.

(** A connection that went on by itself is what [linv_link] wants. *)
Ltac keeps l := eapply (linv_link _ _ _ l); [done|done|done|done|done|try done; by rewrite insert_id|try done; by rewrite insert_id|done|try done|].

(** [handle], up to the hand-over. *)
Lemma linv_accept w w' i s :
  shand_ok store w -> deltasOf (sy_log w) `prefix_of` D -> linv w -> stays w w' -> sy_conns w !! i = None -> registerConn i (sy_server w) = Some s ->
  w' = with_link i (mkLink (mkWorld newConnection 0 None None []) [])
    (with_hand (with_conn i (mkHConn 0 false HHandshake) (with_serv s (sy_hand w))) w) -> linv w'.
Proof.
  intros [Hh _ _ Hle _] Hpre Hinv Hst Hi Hs ->.
  assert (sv_preparing s = sv_preparing (sy_server w) /\ sv_current s = sv_current (sy_server w)) as [Hsp Hsc].
  { revert Hs. unfold registerConn. destruct (sv_closing _); [done|]. by intros [= <-]. }
  assert (~ attached s i) as Hna.
  { unfold attached. rewrite Hsp, Hsc. intros Ha. destruct (attached_conn w i Hh Ha). congruence. }
  eapply (linv_move w _ i); [done|done|done|done|done| | |].
  - intros j _. cbn. rewrite Hsp, Hsc. done.
  - split; cbn; [exists 0; split; [lia|apply cr_start]|done|done|intros Hc; destruct Hna; by right|by left|by apply (sy_seq_bound w)].
  - intros l Hl. destruct (li_conns _ Hinv i l Hl). congruence.
Qed.

Lemma linv_prepare w w' i c l s g producer :
  shand_ok store w -> deltasOf (sy_log w) `prefix_of` D -> linv w -> stays w w' ->
  sy_conns w !! i = Some c -> hc_phase c = HHandshake -> sy_links w !! i = Some l -> beginPrepare i (sy_server w) = Some (s, g) ->
  w' = with_link i (set_world (mkWorld (w_conn (lk_world l)) (sy_seq w) None None []) l)
    (with_hand (with_conn i (mkHConn g producer HPreparing) (with_serv s (sy_hand w))) w) -> linv w'.
Proof.
  intros [Hh _ _ Hle _] Hpre Hinv Hst Hi Hp Hl Hs ->.
  destruct (li_links _ Hinv i c Hi) as (l1&Hl1&Hok). assert (l1 = l) as -> by congruence. rewrite Hp in Hok.
  destruct (link_hello _ _ _ _ _ _ (sy_seq_bound w Hpre) Hok (attached_past w i c Hh Hi Hp) Hs) as [Hok' Hnar].
  eapply (linv_move w _ i); [done|done|done|done|done|done|done|]. intros ? _. by right.
Qed.

Lemma linv_ready w w' i c l snap o frame :
  shand_ok store w -> deltasOf (sy_log w) `prefix_of` D -> linv w -> stays w w' ->
  sy_conns w !! i = Some c -> hc_phase c = HPreparing -> sy_links w !! i = Some l -> quiet w ->
  step (sy_owner w) (LSnapshot snap) o -> marshalSnapshot snap = inr frame ->
  (let v := lk_world l in
   w' = with_link i (mkLink (mkWorld (w_conn v) (w_seq v) (Some (s_Sequence snap)) (w_writer v) (w_wire v)) (bytesOfText frame))
     (with_hand (with_conn i (at_hphase HReady c) (with_owner o (sy_hand w))) w)) -> linv w'.
Proof.
  intros Hsh Hpre Hinv Hst Hi Hp Hl Hq Hs Hm ->. pose proof Hsh as [Hh _ _ Hle _].
  destruct (prepares_conn w i c Hh Hi ltac:(by rewrite Hp)) as [Hpr _]. destruct (quiet_owner w Hsh Hpre Hq) as (Hseq&Hview&_).
  assert (s_Sequence snap = sy_seq w /\ snapshotView snap = viewAfter (startView store) D (sy_seq w)) as [Hsq Hvw].
  { inversion Hs as [|? ? ? Hsn|]; subst. destruct (snapshot_view _ _ _ Hsn) as [-> ->]. done. }
  keeps l. rewrite Hp. intros Hok. by apply link_snapshot.
Qed.

Lemma linv_commit w w' i c l n conn act s r p :
  shand_ok store w -> linv w -> stays w w' -> sy_conns w !! i = Some c -> hc_phase c = HReady -> sy_links w !! i = Some l ->
  w_snap (lk_world l) = Some n ->
  (if sv_closing (sy_server w) || negb (bool_decide (sv_preparing (sy_server w) = Some i))
   then conn = w_conn (lk_world l) /\ act = false else activate n (w_conn (lk_world l)) = Some (conn, act)) ->
  commitHandoff i act (sy_server w) = (s, r) -> match r with Some _ => exists g, p = HCurrent g | None => p = HLeaving end ->
  w' = with_link i (set_link conn l) (with_hand (with_conn i (at_hphase p c) (with_serv s (sy_hand w))) w) -> linv w'.
Proof.
  intros [Hh _ _ Hle _] Hinv Hst Hi Hp Hl Hn Ha Hs Hph ->. destruct (prepares_conn w i c Hh Hi ltac:(by rewrite Hp)) as [Hpr Hcur].
  destruct (li_links _ Hinv i c Hi) as (l1&Hl1&Hok). assert (l1 = l) as -> by congruence. rewrite Hp in Hok.
  eapply (linv_move w _ i); [done|done|done|done|done|by eapply narrows_commit|by eapply link_commit|].
  intros l1 Hl1'. left. assert (l1 = l) as -> by congruence. done.
Qed.

(** The owner's snapshot was handed to the connection it was for. *)
Lemma linv_sent w i frame n l c ok :
  shand_ok store w -> deltasOf (sy_log w) `prefix_of` D -> linv w ->
  sy_sending w = Some (i, frame, n) -> sy_links w !! i = Some l -> enqueueSnapshot frame n (w_conn (lk_world l)) = (c, ok) ->
  linv (next_event (with_link i (set_link c l) w)).
Proof.
  intros Hsh Hpre Hinv Hsend Hl Hx. pose proof Hsh as [_ _ _ Hle _].
  destruct (li_sending _ Hinv _ _ _ Hsend) as ((e&snap&He&Hsn)&->&Hsnap&l1&Hl1&Hw). assert (l1 = l) as -> by congruence.
  destruct (li_conns _ Hinv i l Hl) as [c0 Hi].
  assert (linv (with_link i (set_link c l) w)) as Hinv'.
  { eapply (linv_link w _ i l _ c0 (hc_phase c0)); [done|done|by split|done|done| |done|done|done|].
    - rewrite insert_id; [done|]. by destruct c0.
    - intros Hok. rewrite <-Hw in Hx, Hsnap. by eapply link_resync. }
  eapply linv_next; [|exact Hpre|done|exact He|done]. by destruct Hsh; split.
Qed.

Lemma linv_local w w' i l v :
  shand_ok store w -> linv w -> stays w w' -> sy_links w !! i = Some l -> lstep (lk_world l) v ->
  sy_conns w' = sy_conns w -> sy_server w' = sy_server w -> sy_links w' = <[i := set_world v l]> (sy_links w) -> linv w'.
Proof.
  intros [_ _ _ Hle _] Hinv Hst Hl Hs Hcs Hsv Hls. destruct (li_conns _ Hinv i l Hl) as [c Hi].
  eapply (linv_link _ _ i l _ c (hc_phase c)); [done|done|done|done|done| |done|done| |].
  - rewrite Hcs, insert_id; [done|]. by destruct c.
  - by destruct (lstep_frame _ _ Hs) as [Hw _].
  - intros Hok. by eapply lk_local.
Qed.

Lemma linv_step w w' :
  shand_ok store w -> deltasOf (sy_log w') `prefix_of` D -> linv w -> sstep w w' -> linv w'.
Proof.
  intros Hsh Hpre' Hinv Hstep. destruct (sstep_log store w w' start_ok Hsh Hstep) as (_&_&_&Hlog).
  assert (deltasOf (sy_log w) `prefix_of` D) as Hpre by (etrans; [by apply deltasOf_prefix|done]). pose proof Hsh as [Hh _ _ Hle _].
  assert (sy_published w' = sy_published w -> sy_sending w' = sy_sending w -> stays w w') as Hst by (intros; by split).
  destruct Hstep as [w i s Hi Hs|w i c l s g producer Hi Hp Hl Hs Hn|w i c l snap o frame Hi Hp Hl Hq Hs Hv Hm v|w i c l n conn act s r Hi Hp Hl Hn Ha Hs p|
    w i c previous Hi Hp Hq|w i c l n Hi Hp Hl Hn v|w i c d command o reply Hi Hp Hq Hv Ht Hx|w i c Hi Hm|w i c s was Hi Hp Hs|w i c Hi Hp Hq|
    w i l v Hl Hs|w l o Hq Hol Hs|w e conns ok planned He Hsn Hsend Hpub seq|w e snap ok He Hsn Hsend Ht|w e snap i frame He Hsn Hsend Ht|
    w i frame n l c ok Hsend Hl Hx|w g l1 l2 r err o Hr Hq Hg Hs|w g l1 l2 i l Hf Hr Hl|w g l1 l2 Hf Hr|w s conns Hs];
    try (specialize (Hst eq_refl eq_refl)); try (by apply (linv_quiet w)).
  - by eapply linv_accept.
  - by eapply linv_prepare.
  - by eapply linv_ready.
  - eapply linv_commit; try done. subst p. cbn. destruct r; [by eexists|done].
  - destruct (li_links _ Hinv i c Hi) as (l&Hl&_). keeps l. rewrite Hp. intros []. by split.
  - keeps l. rewrite Hp. intros Hok. by apply link_serve.
  - destruct (li_links _ Hinv i c Hi) as (l&Hl&_). keeps l. intros Hok. by eapply link_ok_over.
  - destruct (li_links _ Hinv i c Hi) as (l&Hl&Hok). destruct (narrows_done _ _ _ _ Hs) as (Hnar&Hnp&Hnc).
    eapply (linv_move _ _ i _ l); [done|done|done|done|by rewrite insert_id|done| |].
    + eapply link_ok_over; [done|by destruct was|done|done].
    + intros l1 Hl1. left. congruence.
  - destruct (li_links _ Hinv i c Hi) as (l&Hl&_). keeps l. intros Hok. by eapply link_ok_over.
  - by eapply linv_local.
  - by eapply linv_publish.
  - by eapply linv_next.
  - by eapply linv_target.
  - by eapply linv_sent.
  - eapply linv_local; [done|done|done|exact Hl|apply ls_fail|done..].
  - revert Hs. unfold closeServer. intros [= <- _]. by apply (linv_quiet w).
Qed.

Lemma sreachable_links w : sreachable store w -> deltasOf (sy_log w) `prefix_of` D -> linv w.
Proof.
  apply (rtc_ind_r (fun w => deltasOf (sy_log w) `prefix_of` D -> linv w)).
  - intros _. by split.
  - intros w1 w2 Hr Hs IH Hpre. pose proof (sreachable_ok store w1 start_ok Hr) as Hsh.
    destruct (sstep_log store w1 w2 start_ok Hsh Hs) as (_&_&_&Hlog).
    eapply linv_step; [done|done| |done]. apply IH. etrans; [by apply deltasOf_prefix|done].
Qed.

End Links.
