(* ===== verification/EndToEnd.v ===== *)
(** * The owner and a presenter, end to end

    What a presenter that applies the frames on its wire holds, in a run of the
    whole presenter side ([sreachable]).  It may miss images, which a snapshot
    frame leaves out when they do not fit: views are compared with [sameTexts].

    The presenter's decoding is a parameter; [decodes] is what it has to do:
    undo [encoding/json] on the deltas of the run, and on its snapshots as far
    as texts go. *)
From stdpp Require Import gmap strings list.
From Stdlib Require Import ZArith Lia Strings.Byte.
From S2P Require Import Prelude GoLib Protocol Frame Notify History Owner OwnerInv OwnerOps OwnerAdd OwnerCmd OwnerTime OwnerRun OwnerGen Connection Commands Handover SnapshotFrame Views Publish System SystemInv.
Local Open Scope string_scope.
Local Open Scope list_scope.
Local Open Scope Z_scope.

Record decodes (decodeDelta : list Byte.byte -> option Delta) (decodeSnapshot : list Byte.byte -> option View)
    (v : View) (D : list Delta) : Prop := {
  dc_delta n d m : D !! n = Some d -> marshalDelta (Z.of_nat n + 1) d = inr m -> decodeDelta (ob_data m) = Some d;
  dc_snapshot b text : 0 <= s_Sequence b <= zlen D -> sameTexts (viewAfter v D (s_Sequence b)) (snapshotView b) ->
    marshalBodies b = inr text -> exists v', decodeSnapshot (bytesOfText text) = Some v' /\ sameTexts (snapshotView b) v' }.

Lemma run_stream decodeDelta decodeSnapshot v D :
  marshals D -> decodes decodeDelta decodeSnapshot v D ->
  owner_stream (H := runEncoding v D) decodeDelta decodeSnapshot (viewAfter v D) sameTexts (zlen D).
Proof.
  intros Hm [Hd Hs]. split.
  - intros n data Hn (snap&frame&<-&Hv&Hf&->). destruct (marshalSnapshot_texts _ _ Hf) as (b&Hb&Ht).
    assert (s_Sequence b = s_Sequence snap) as Hseq by (by injection Hb). pose proof (sameTexts_without _ _ Hb) as Hsame. rewrite Hv in Hsame.
    destruct (Hs b frame) as (v'&Hdec&Hv'); [by rewrite Hseq|by rewrite Hseq|done|]. exists v'. split; [done|]. by rewrite Hsame.
  - intros n Hn. destruct (lookup_lt_is_Some_2 D (Z.to_nat n)) as [d Hl]; [unfold zlen in Hn; lia|].
    destruct (Hm _ _ Hl) as [m Hmd]. pose proof (Hd _ _ _ Hl Hmd) as Hdec. replace (Z.of_nat (Z.to_nat n) + 1) with (n + 1) in Hmd by lia.
    exists d. cbn. replace (n + 1 - 1) with n by lia. rewrite Hl, Hmd. split; [done|]. apply viewAfter_next; [lia|done].
Qed.

(** A current connection with nothing left to write has written up to its
    number. *)
Definition caughtUp (w : sworld) (i : nat) (c : connection) : Prop :=
  quiet w /\ sv_current (sy_server w) = Some i /\ cn_failed c = false /\ cn_queue c = [] /\ cn_resyncNeeded c = false.

Lemma wireRuns_fun from wire t1 t2 : wireRuns from wire t1 -> wireRuns from wire t2 -> t1 = t2.
Proof.
  revert from. induction wire as [|[d s|m|d] wire IH]; intros from; cbn; [congruence|naive_solver| |naive_solver].
  destruct (_ =? 0); naive_solver.
Qed.

Lemma drained_last `{Encoding} seq0 w last :
  0 <= seq0 < 18446744073709551615 -> creachable seq0 w -> w_writer w <> None ->
  cn_failed (w_conn w) = false -> cn_queue (w_conn w) = [] -> cn_resyncNeeded (w_conn w) = false ->
  wireRuns 0 (w_wire w) last -> last = w_seq w.
Proof.
  intros Hs Hr Hw Hf Hq Hn Hruns. pose proof (creachable_inv seq0 w Hs Hr) as Hinv. destruct (w_writer w) as [v|] eqn:Hv; [|done].
  destruct (writer_live seq0 w v Hinv Hv) as [_ [_ (last'&_&Ho&Hl) _ _ Hres]]. unfold onWire in Ho. rewrite Hv in Ho.
  rewrite (wireRuns_fun _ _ _ _ Hruns Ho). rewrite Hq in Hl. cbn in Hl. unfold resync_ok in Hres.
  destruct (cn_resyncFrame (w_conn w)); [destruct Hres as [Hres _]; congruence|]. destruct Hres as (_&_&Hres). by rewrite <-Hl, Hres.
Qed.

Section EndToEnd.
Context `{MonotonicClock, Sink, PngLaws, Sha256Laws, ErrorText}.

(** C3: a presenter follows the owner end to end: in every run of the owner,
    the server, its hand-overs, its connections and their writers, the
    presenter that applies the frames on its wire, starting from nothing, holds
    the view the owner had after some number of its deltas, up to images;
    while the owner waits for a request, the current connection with nothing
    left to write has the owner's sequence number and its presenter holds
    exactly what the owner's next snapshot would say. *)
Theorem presenter_follows_owner decodeDelta decodeSnapshot store w i l :
  let D := deltasOf (sy_log w) in
  start_store_ok store -> sreachable store w -> zlen D < 18446744073709551615 -> marshals D ->
  decodes decodeDelta decodeSnapshot (startView store) D ->
  sy_links w !! i = Some l -> w_writer (lk_world l) <> None ->
  let wire := w_wire (lk_world l) in
  let held := fold_left (present decodeDelta decodeSnapshot) wire (mkView [] []) in
  exists last, wireRuns 0 wire last /\ 0 <= last <= zlen D /\ sameTexts (viewAfter (startView store) D last) held /\
    (caughtUp w i (w_conn (lk_world l)) -> last = s_sequence (sy_owner w) /\ sameTexts (view (sy_owner w)) held).
Proof.
  intros D Hst Hr HD Hm Hdec Hl Hw wire held. pose proof (sreachable_ok store w Hst Hr) as Hsh.
  pose proof (sreachable_links store Hst D HD Hm w Hr ltac:(done)) as [Hlinks Hconns _].
  destruct (Hconns i l Hl) as [c Hc]. destruct (Hlinks i c Hc) as (l'&Hl'&Hok). assert (l' = l) as -> by congruence.
  destruct (lk_run _ _ _ _ _ _ _ Hok) as (seq0&Hs0&Hcr).
  destruct (run_stream _ _ _ _ Hm Hdec) as [Hsnaps Hdeltas]. pose proof (sy_seq_bound D HD w ltac:(done)) as Hsb.
  assert (sy_seq w <= zlen D) as Hsd.
  { pose proof (prefix_length _ _ (deltasOf_prefix _ _ (prefix_take (sy_log w) (sy_published w)))). unfold sy_seq, deltasBefore, zlen, D. lia. }
  pose proof (lk_upto _ _ _ _ _ _ _ Hok) as Hup.
  destruct (wire_rebuilds (H := runEncoding (startView store) D) decodeDelta decodeSnapshot (viewAfter (startView store) D) sameTexts
    seq0 (lk_world l) (mkView [] []) Hs0 Hcr Hw) as (last&Hruns&Hlast&Hheld).
  { split; intros; [apply Hsnaps|apply Hdeltas]; lia || done. }
  exists last. split_and!; [done|lia|lia|done|]. intros (Hq&Hcur&Hf&Hqueue&Hneed).
  assert (last = sy_seq w) as ->.
  { rewrite <-(lk_seq _ _ _ _ _ _ _ Hok ltac:(by right)). by apply (drained_last (H := runEncoding (startView store) D) seq0). }
  destruct (quiet_owner store D HD w Hsh ltac:(done) Hq) as (Hsq&Hv&_). split; [done|]. by rewrite Hv.
Qed.

(** C29: the presenter side is made of its parts: in every run of the whole,
    the server with its hand-overs and the owner take the steps of the
    hand-over's model, and every connection takes the steps of the connection's
    model, with the frames of the owner's deltas and snapshots; the server
    keeps the connection that prepares and the current one at the number of the
    last delta published, the one not yet active, the other active, so that
    every delta goes into the pending list before the hand-over and into the
    queue after it. *)
Theorem presenter_side_refines store w :
  let D := deltasOf (sy_log w) in
  start_store_ok store -> sreachable store w -> zlen D < 18446744073709551615 -> marshals D ->
  hreachable (Some []) store (sy_hand w) /\
  forall i c, sy_conns w !! i = Some c -> exists l seq0, sy_links w !! i = Some l /\
    0 <= seq0 < 18446744073709551615 /\ creachable (H := runEncoding (startView store) D) seq0 (lk_world l) /\
    w_seq (lk_world l) <= sy_seq w /\ (attached (sy_server w) i -> w_seq (lk_world l) = sy_seq w) /\
    (sv_preparing (sy_server w) = Some i -> cn_active (w_conn (lk_world l)) = false) /\
    (sv_current (sy_server w) = Some i -> cn_active (w_conn (lk_world l)) = true).
Proof.
  intros D Hst Hr HD Hm. split; [exact (ssteps_hand _ _ Hr)|]. intros i c Hc.
  destruct (sreachable_links store Hst D HD Hm w Hr ltac:(done)) as [Hlinks _ _].
  destruct (Hlinks i c Hc) as (l&Hl&[(seq0&Hs0&Hcr) Hseq Hp Hcur _ Hup]). by exists l, seq0.
Qed.

End EndToEnd.
