(* ===== verification/Desktop.v ===== *)
(** * The program as its users see it

    The owner of the state, the presenter side and the D-Bus side together: the
    owner hands each of its events to [eventSink.Publish] of [app/run.go], which
    gives it to the presenter's server and then, once it was added, to the
    D-Bus server; it does nothing else meanwhile.  [xstep] interleaves the whole
    presenter side ([sstep]) with the goroutines of the D-Bus server
    ([bstep]).

    The presenter's user and the clients on the bus hear of the same events:
    [EndToEnd] says what the presenter shows, and here is what a client of the
    bus is told about its notifications. *)
From stdpp Require Import gmap strings list fin_maps.
From Stdlib Require Import ZArith Lia Strings.Byte.
From S2P Require Import Prelude GoLib Protocol Notify History Owner OwnerInv OwnerOps OwnerCmd OwnerTime OwnerRun Commands Handover Views Publish CallOrder Fdo BusName System.
Local Open Scope string_scope.
Local Open Scope list_scope.
Local Open Scope Z_scope.

(** ** The life of a notification in a log *)

Definition signalsIn (evs : list Event) : list queuedSignal := concat (map signalsOf evs).

(** The event that shows a notification for the first time. *)
Definition opens (id : Z) (e : Event) : bool :=
  match ev_Delta e with
  | Some d => match d_Kind d, d_Notification d with DeltaAdded, Some n => n_ID n =? id | _, _ => false end
  | None => false
  end.

Definition ends (id : Z) (signal : queuedSignal) : bool :=
  match signal with NotificationClosed i _ => i =? id | _ => false end.

Definition openings (id : Z) (evs : list Event) : Z := zlen (List.filter (opens id) evs).
Definition closings (id : Z) (signals : list queuedSignal) : Z := zlen (List.filter (ends id) signals).

(** A signal that a client may be told, given what the presenter holds. *)
Definition signal_ok (v : View) (signal : queuedSignal) : Prop :=
  match signal with
  | NotificationClosed id reason => id ∈ activeIDs v /\ id <> 0 /\ CloseReason_valid reason = true
  | ActionInvoked id _ | NotificationReplied id _ => id ∈ activeIDs v
  end.

Lemma signalsIn_app evs evs' : signalsIn (evs ++ evs') = signalsIn evs ++ signalsIn evs'.
Proof. unfold signalsIn. by rewrite map_app, concat_app. Qed.

Lemma closings_app id l l' : closings id (l ++ l') = closings id l + closings id l'.
Proof. unfold closings. by rewrite List.filter_app, zlen_app. Qed.

Definition shownIn (v : View) (id : Z) : Z := if bool_decide (id ∈ activeIDs v) then 1 else 0.

Lemma activeIDs_replace n act :
  map n_ID (map (fun m => if n_ID m =? n_ID n then n else m) act) = map n_ID act.
Proof. induction act as [|m act IH]; [done|]. cbn. rewrite IH. destruct (Z.eqb_spec (n_ID m) (n_ID n)); congruence. Qed.

Lemma activeIDs_filter i act : map n_ID (List.filter (fun m => negb (n_ID m =? i)) act) = List.filter (fun j => negb (j =? i)) (map n_ID act).
Proof. induction act as [|m act IH]; [done|]. cbn. destruct (n_ID m =? i); cbn; by rewrite IH. Qed.

(** What one delta does to the ids that are active. *)
Lemma delta_ids v d : deltaFits v d -> NoDup (activeIDs v) ->
  NoDup (activeIDs (applyDelta d v)) /\
  forall id, shownIn v id + (if opens id (mkEvent 0 (Some d) None None None 0) then 1 else 0) =
    shownIn (applyDelta d v) id + closings id (signalsOf (mkEvent 0 (Some d) None None None 0)).
Proof.
  unfold deltaFits, applyDelta, opens, signalsOf, closings, shownIn, activeIDs. cbn [ev_Delta ev_Action ev_Reply]. intros Hf Hn. destruct (d_Kind d); cbn in *.
  - destruct (d_Notification d) as [n|]; [|done]. cbn. rewrite map_app. cbn. split.
    + apply NoDup_app. split_and!; [done| |apply NoDup_singleton]. intros i Hi ->%list_elem_of_singleton. done.
    + intros id. change (zlen (@nil queuedSignal)) with 0. destruct (Z.eqb_spec (n_ID n) id) as [<-|Hne].
      * rewrite bool_decide_eq_false_2, bool_decide_eq_true_2 by set_solver. lia.
      * rewrite (bool_decide_ext (id ∈ map n_ID (v_active v) ++ [n_ID n]) (id ∈ map n_ID (v_active v))); [lia|]. rewrite elem_of_app, list_elem_of_singleton. naive_solver.
  - destruct (d_Notification d) as [n|]; [|done]. cbn. rewrite activeIDs_replace. split; [done|]. intros id. change (zlen (@nil queuedSignal)) with 0. lia.
  - rewrite activeIDs_filter. split; [by apply NoDup_ListNoDup, List.NoDup_filter, NoDup_ListNoDup|]. intros id. destruct (Z.eqb_spec (d_ID d) id) as [<-|Hne]; cbn.
    + rewrite bool_decide_eq_true_2 by done. rewrite bool_decide_eq_false_2; [done|].
      intros [_ Hx%negb_true_iff%Z.eqb_neq]%elem_of_list_filter_bool. done.
    + change (zlen (@nil queuedSignal)) with 0. rewrite (bool_decide_ext (id ∈ List.filter (fun j => negb (j =? d_ID d)) (map n_ID (v_active v))) (id ∈ map n_ID (v_active v))); [lia|].
      rewrite elem_of_list_filter_bool, negb_true_iff, Z.eqb_neq. naive_solver.
  - destruct (d_History d); cbn; (split; [done|]; intros id; change (zlen (@nil queuedSignal)) with 0; lia).
  - split; [done|]; intros id; change (zlen (@nil queuedSignal)) with 0; lia.
  - split; [done|]; intros id; change (zlen (@nil queuedSignal)) with 0; lia.
  - split; [done|]; intros id; change (zlen (@nil queuedSignal)) with 0; lia.
  - done.
Qed.

Lemma signalsOf_split e :
  signalsOf e = match ev_Delta e with Some d => signalsOf (mkEvent 0 (Some d) None None None 0) | None => [] end ++
    match ev_Action e with Some a => [ActionInvoked (ae_ID a) (ae_Key a)] | None => [] end ++
    match ev_Reply e with Some r => [NotificationReplied (rv_ID r) (rv_Text r)] | None => [] end.
Proof. unfold signalsOf. cbn [ev_Delta ev_Action ev_Reply]. destruct (ev_Delta e); [|done]. by rewrite !app_nil_r. Qed.

Lemma event_ids v e : eventFits v e -> NoDup (activeIDs v) ->
  NoDup (activeIDs (applyEvent v e)) /\
  forall id, shownIn v id + (if opens id e then 1 else 0) = shownIn (applyEvent v e) id + closings id (signalsOf e).
Proof.
  intros (Hd&_&_) Hn. assert (forall id, closings id (signalsOf e) =
    closings id (match ev_Delta e with Some d => signalsOf (mkEvent 0 (Some d) None None None 0) | None => [] end)) as Hc.
  { intros id. rewrite signalsOf_split, !closings_app. destruct (ev_Action e), (ev_Reply e); unfold closings at 2 3; cbn [List.filter ends]; change (zlen (@nil queuedSignal)) with 0; lia. }
  unfold applyEvent. destruct (ev_Delta e) as [d|] eqn:Hde.
  - destruct (delta_ids v d Hd Hn) as [Hn' Hids]. split; [done|]. intros id. rewrite Hc, <-Hids. unfold opens. by rewrite Hde.
  - split; [done|]. intros id. rewrite Hc. unfold opens. rewrite Hde. change (closings id []) with 0. lia.
Qed.

(** A notification is told to be closed exactly as often as it was shown first and
    is not there any more. *)
Lemma log_ids v evs : fits v evs -> NoDup (activeIDs v) ->
  NoDup (activeIDs (fold_left applyEvent evs v)) /\
  forall id, shownIn v id + openings id evs = shownIn (fold_left applyEvent evs v) id + closings id (signalsIn evs).
Proof.
  revert v. induction evs as [|e evs IH]; intros v; cbn [fits fold_left]; [intros _ Hn; split; [done|intros id; unfold openings, closings; cbn; change (zlen (@nil queuedSignal)) with 0; change (zlen (@nil Event)) with 0; lia]|].
  intros [He Hf] Hn. destruct (event_ids v e He Hn) as [Hn1 H1]. destruct (IH _ Hf Hn1) as [Hn2 H2]. split; [done|]. intros id.
  specialize (H1 id). specialize (H2 id). change (signalsIn (e :: evs)) with (signalsOf e ++ signalsIn evs). rewrite closings_app.
  assert (openings id (e :: evs) = (if opens id e then 1 else 0) + openings id evs) as ->; [|lia].
  unfold openings. cbn [List.filter]. destruct (opens id e); [rewrite zlen_cons|]; lia.
Qed.

Lemma fits_prefix v evs k : fits v evs -> fits v (take k evs).
Proof. intros Hf. rewrite <-(take_drop k evs) in Hf. by apply fits_app in Hf as [Hf _]. Qed.

Lemma signals_ok v e : eventFits v e -> event_ok e -> Forall (signal_ok v) (signalsOf e).
Proof.
  intros (Hd&Ha&Hr) [Hv _]. unfold signalsOf. repeat (apply Forall_app; split).
  - destruct (ev_Delta e) as [d|]; [|constructor]. unfold deltaFits, Delta_Validate in *. destruct (d_Kind d); try constructor; [|constructor].
    cbn. apply failIf_None in Hv. apply orb_false_iff in Hv as [Hz%Z.eqb_neq Hc%negb_false_iff].
    rewrite wrap32_small; [by split_and!|]. unfold CloseReason_valid, CloseExpired, CloseUndefined, is_u32 in *. lia.
  - destruct (ev_Action e); repeat constructor. exact Ha.
  - destruct (ev_Reply e); repeat constructor. exact Hr.
Qed.

Lemma log_signals_ok v evs k e : fits v evs -> Forall event_ok evs -> evs !! k = Some e ->
  Forall (signal_ok (fold_left applyEvent (take k evs) v)) (signalsOf e).
Proof.
  intros Hf Ho Hk. rewrite <-(take_drop_middle _ _ _ Hk) in Hf. apply fits_app in Hf as [_ [He _]].
  apply signals_ok; [done|]. rewrite Forall_forall in Ho. by apply Ho, list_elem_of_lookup_2 with k.
Qed.

(** ** The world *)

(** The presenter side with the owner; the D-Bus server; from which event on
    the D-Bus server is a sink, if it is one yet, and how many events the owner
    handed it or passed by; and the signals that found its queue full. *)
Record xworld := mkXWorld {
  xw_pres : sworld;
  xw_bus : bworld;
  xw_from : option nat;
  xw_published : nat;
  xw_refused : list queuedSignal }.

Definition xw_log (w : xworld) : list Event := sy_log (xw_pres w).

(** The D-Bus server has returned from [Publish] of every event that the
    presenter's server has returned from. *)
Definition busIdle (w : xworld) : Prop :=
  match xw_from w with
  | None => True
  | Some _ => (sy_published (xw_pres w) <= xw_published w)%nat /\ (bw_publish (xw_bus w)).1 = []
  end.

(** A step that is none of the owner's goroutine. *)
Definition aside (p p' : sworld) : Prop :=
  sy_owner p' = sy_owner p /\ sy_published p' = sy_published p /\ sy_sending p' = sy_sending p.

Section Desktop.
Context `{Clock, Sink, Png, Sha256, ErrorText}.
Variable uniqueName : string.

Inductive xstep : xworld -> xworld -> Prop :=
  | xs_presenter w p :
      sstep (xw_pres w) p -> busIdle w \/ aside (xw_pres w) p ->
      xstep w (mkXWorld p (xw_bus w) (xw_from w) (xw_published w) (xw_refused w))
  (* [eventSink.add]: an event that is under way has its copy of the sinks *)
  | xs_add w n :
      xw_from w = None -> sy_published (xw_pres w) = n \/ (S (sy_published (xw_pres w)) = n /\ is_Some (xw_log w !! sy_published (xw_pres w))) ->
      xstep w (mkXWorld (xw_pres w) (xw_bus w) (Some n) n (xw_refused w))
  (* [fdo.Server.Publish]: its call, and its sends *)
  | xs_publish w n e :
      xw_from w = Some n -> (xw_published w < sy_published (xw_pres w))%nat -> (bw_publish (xw_bus w)).1 = [] ->
      xw_log w !! xw_published w = Some e ->
      xstep w (mkXWorld (xw_pres w) (with_publish (signalsOf e, true) (bw_queued (xw_bus w)) (xw_bus w)) (xw_from w) (S (xw_published w)) (xw_refused w))
  | xs_send w signal signals b :
      (bw_publish (xw_bus w)).1 = signal :: signals -> (bw_publish b).1 = signals -> bstep uniqueName (xw_bus w) b ->
      xstep w (mkXWorld (xw_pres w) b (xw_from w) (xw_published w)
        (if zlen (ds_emitQueue (bw_server (xw_bus w))) <? emitQueueSize then xw_refused w else xw_refused w ++ [signal]))
  (* the D-Bus server's own goroutines and its callers *)
  | xs_bus w b :
      bstep uniqueName (xw_bus w) b -> bw_publish b = bw_publish (xw_bus w) ->
      xstep w (mkXWorld (xw_pres w) b (xw_from w) (xw_published w) (xw_refused w)).

Definition xstart (order : option CallOrder) (store : option Store) : xworld :=
  mkXWorld (systart store) (bstart (NewAtWithOrder true order)) None 0 [].

Definition xreachable (order : option CallOrder) (store : option Store) (w : xworld) : Prop := rtc xstep (xstart order store) w.

End Desktop.

(** The events the D-Bus server was given. *)
Definition heard (w : xworld) : list Event :=
  match xw_from w with Some n => drop n (take (xw_published w) (xw_log w)) | None => [] end.

Section Clients.
Context `{MonotonicClock, Sink, PngLaws, Sha256Laws, ErrorText}.
Context (uniqueName : string) (order : option CallOrder) (store : option Store).
Hypothesis Hstore : start_store_ok store.

(** What became of the signals of those events: still to be sent, refused, or
    queued. *)
Record xinv (w : xworld) : Prop := {
  xi_pres : sreachable store (xw_pres w);
  xi_bus : breachable uniqueName (xw_bus w);
  xi_from n : xw_from w = Some n -> (n <= xw_published w <= length (xw_log w))%nat;
  xi_sent : exists sent, signalsIn (heard w) = sent ++ (bw_publish (xw_bus w)).1 /\
    bw_queued (xw_bus w) `sublist_of` sent /\ xw_refused w `sublist_of` sent /\ sent ≡ₚ bw_queued (xw_bus w) ++ xw_refused w;
  xi_full : xw_refused w <> [] -> emitQueueSize <= zlen (bw_queued (xw_bus w)) }.

Lemma xinv_start : xinv (xstart order store).
Proof.
  split; cbn; try done; [apply rtc_refl|exists order; apply rtc_refl|by exists []].
Qed.

(** The log of events only grows at its end. *)
Lemma heard_presenter w p :
  xinv w -> sstep (xw_pres w) p ->
  xw_log w `prefix_of` sy_log p /\ heard (mkXWorld p (xw_bus w) (xw_from w) (xw_published w) (xw_refused w)) = heard w.
Proof.
  intros Hw Hs. pose proof (sreachable_ok store _ Hstore (xi_pres w Hw)) as Hok.
  destruct (sstep_log store _ _ Hstore Hok Hs) as (_&_&_&Hpre). split; [done|]. unfold heard, xw_log in *. cbn.
  destruct (xw_from w) as [n|] eqn:Hn; [|done]. pose proof (xi_from w Hw n Hn) as Hb. unfold xw_log in Hb. destruct Hpre as [k ->].
  by rewrite take_app_le by lia.
Qed.

Lemma queued_sent w b signal signals :
  bstep uniqueName w b -> (bw_publish w).1 = signal :: signals -> (bw_publish b).1 = signals ->
  bw_queued b = (if zlen (ds_emitQueue (bw_server w)) <? emitQueueSize then bw_queued w ++ [signal] else bw_queued w).
Proof.
  intros Hs Hp Hb. assert (forall l : list queuedSignal, signal :: l <> l) as Hne.
  { intros l Hl. apply (f_equal length) in Hl. cbn in Hl. lia. }
  destruct Hs; cbn in *; try (exfalso; apply (Hne signals); congruence).
  match goal with H : bw_publish _ = _ |- _ => rewrite H in Hp end. cbn in Hp. by injection Hp as -> ->.
Qed.

Lemma queued_same w b : bstep uniqueName w b -> bw_publish b = bw_publish w -> bw_queued b = bw_queued w.
Proof.
  intros Hs Hp. assert (forall (x : queuedSignal) l, l <> x :: l) as Hne.
  { intros x l Hl. apply (f_equal length) in Hl. cbn in Hl. lia. }
  destruct Hs; cbn in *; try done.
  match goal with H : bw_publish _ = (_ :: _, _) |- _ => rewrite H in Hp end. injection Hp as Hp _. by apply Hne in Hp.
Qed.

Lemma sublist_whole (l l' : list queuedSignal) : l `sublist_of` l' -> length l = length l' -> l = l'.
Proof.
  induction 1 as [|x l l' _ IH|x l l' Hs _]; cbn; intros Hl; [done|f_equal; apply IH; lia|].
  apply sublist_length in Hs. lia.
Qed.

Lemma breachable_step b b' : breachable uniqueName b -> bstep uniqueName b b' -> breachable uniqueName b'.
Proof. intros [o Hr] Hs. exists o. by eapply rtc_r. Qed.

Lemma xinv_step w w' : xinv w -> xstep uniqueName w w' -> xinv w'.
Proof.
  intros Hw Hs. pose proof (sreachable_ok store _ Hstore (xi_pres w Hw)) as Hok.
  destruct Hs as [w p Hs Hi|w n Hn Hp|w n e Hn Hlt Hp He|w signal signals b Hp Hb Hs|w b Hs Hp].
  - destruct (heard_presenter w p Hw Hs) as [Hpre Hh]. destruct Hw as [Hr Hb Hf Hsent Hfull]. split; cbn; [by eapply rtc_r|done| | |done].
    + intros n Hn. specialize (Hf n Hn). apply prefix_length in Hpre. unfold xw_log in *. cbn. lia.
    + by rewrite Hh.
  - destruct Hw as [Hr Hb Hf Hsent Hfull]. split; cbn; [done|done| | |done].
    + intros m [= ->]. pose proof (sh_published _ _ Hok). unfold xw_log in *. cbn.
      destruct Hp as [<-|[<- Hlt%lookup_lt_is_Some]]; lia.
    + unfold heard in *. rewrite Hn in Hsent. cbn. rewrite drop_ge by (rewrite length_take; lia). done.
  - destruct Hw as [Hr Hb Hf Hsent Hfull]. split; cbn; [done|eapply breachable_step, (bs_publish _ _ e); done| | |done].
    + intros m Hm. specialize (Hf m Hm). apply lookup_lt_Some in He. unfold xw_log in *. cbn. lia.
    + assert (heard (mkXWorld (xw_pres w) (with_publish (signalsOf e, true) (bw_queued (xw_bus w)) (xw_bus w)) (xw_from w) (S (xw_published w)) (xw_refused w))
        = heard w ++ [e]) as ->.
      { unfold heard, xw_log in *. cbn. rewrite Hn. specialize (Hf n Hn). rewrite (take_S_r _ _ e He), drop_app_le; [done|]. rewrite length_take. lia. }
      destruct Hsent as (sent&Hsi&Hrest). exists sent. rewrite signalsIn_app, Hsi, Hp, app_nil_r. split; [|done].
      unfold signalsIn. cbn. by rewrite app_nil_r.
  - pose proof (queued_sent _ _ _ _ Hs Hp Hb) as Hq. pose proof (breachable_step _ _ (xi_bus w Hw) Hs) as Hb'.
    pose proof (bi_sent _ (breachable_inv _ _ (xi_bus w Hw))) as Hbs.
    destruct Hw as [Hr _ Hf (sent&Hsi&Hql&Hrl&Hperm) Hfull]. split; cbn; [done|done|done| |].
    + exists (sent ++ [signal]). rewrite Hb, <-app_assoc. cbn [app]. rewrite <-Hp, Hq. split; [done|].
      destruct (_ <? _); split_and!.
      * by apply sublist_app.
      * by apply sublist_inserts_r.
      * rewrite Hperm. solve_Permutation.
      * by apply sublist_inserts_r.
      * by apply sublist_app.
      * rewrite Hperm. solve_Permutation.
    + rewrite Hq. destruct (Z.ltb_spec (zlen (ds_emitQueue (bw_server (xw_bus w)))) emitQueueSize) as [Hlt|Hge].
      * intros Hne. specialize (Hfull Hne). rewrite zlen_app. pose proof (zlen_nonneg [signal]). lia.
      * intros _. rewrite Hbs, !zlen_app. pose proof (zlen_nonneg (bw_emitted (xw_bus w))). pose proof (zlen_nonneg (inFlight (bw_emitter (xw_bus w)))). lia.
  - pose proof (queued_same _ _ Hs Hp) as Hq. pose proof (breachable_step _ _ (xi_bus w Hw) Hs) as Hb'.
    destruct Hw as [Hr _ Hf Hsent Hfull]. split; cbn; [done|done|done| |by rewrite Hq]. by rewrite Hq, Hp.
Qed.

Lemma xreachable_inv w : xreachable uniqueName order store w -> xinv w.
Proof. intros Hr. apply (rtc_ind_r xinv (xstart order store) xinv_start) with (2 := Hr). intros w1 w2 _ Hs Hw. by eapply xinv_step. Qed.

(** C4: what the clients on the bus are told is what happened: in every run of
    the whole program, the presenter side and the D-Bus side run as they do on
    their own.  Every event handed to the D-Bus server has its signals queued,
    in the order of the events and none twice, but for those that found one
    hundred and twenty-eight others waiting; they leave in that order.  In the
    owner's log, at every point, a notification was said to be closed exactly
    as often as it was shown for the first time, but once less while it is
    shown, and every signal is about a notification that is shown at that
    point, with a valid reason if it is its closing. *)
Theorem clients_are_told w :
  xreachable uniqueName order store w ->
  let log := xw_log w in
  let at_ k := fold_left applyEvent (take k log) (view (start (Some []) store)) in
  (sreachable store (xw_pres w) /\ breachable uniqueName (xw_bus w)) /\
  (exists sent waiting, signalsIn (heard w) = sent ++ (bw_publish (xw_bus w)).1 /\ sent ≡ₚ bw_queued (xw_bus w) ++ xw_refused w /\
    bw_queued (xw_bus w) `sublist_of` sent /\ bw_queued (xw_bus w) = bw_emitted (xw_bus w) ++ waiting /\
    (zlen (bw_queued (xw_bus w)) < emitQueueSize -> bw_queued (xw_bus w) = sent)) /\
  (forall k id, openings id (take k log) = closings id (signalsIn (take k log)) + (if bool_decide (id ∈ activeIDs (at_ k)) then 1 else 0)) /\
  (forall k e, log !! k = Some e -> Forall (signal_ok (at_ k)) (signalsOf e)) /\
  activeIDs (at_ (length log)) = s_order (sy_owner (xw_pres w)).
Proof.
  intros Hr log at_. destruct (xreachable_inv w Hr) as [Hp Hb _ (sent&Hsi&Hql&_&Hperm) Hfull].
  pose proof (sh_log _ _ (sreachable_ok store _ Hstore Hp)) as Hlog. change (sy_log (xw_pres w)) with log in Hlog.
  assert (activeIDs (view (start (Some []) store)) = []) as Hnone.
  { destruct (start_ok (Some []) store Hstore) as (_&_&_&_&->). done. }
  split_and!; [done|done| | | |].
  - exists sent. eexists. split_and!; [done|done|done|apply (bi_sent _ (breachable_inv _ _ Hb))|]. intros Hlt.
    destruct (xw_refused w) as [|x l]; [|specialize (Hfull ltac:(done)); lia]. rewrite app_nil_r in Hperm.
    apply sublist_whole; [done|]. by rewrite Hperm.
  - intros k id. destruct (log_ids (view (start (Some []) store)) (take k log)) as [_ Hids];
      [apply fits_prefix, Hlog|rewrite Hnone; apply NoDup_nil_2|]. specialize (Hids id). unfold shownIn at 1 in Hids.
    rewrite Hnone, bool_decide_eq_false_2 in Hids by (by intros ?%elem_of_nil). unfold shownIn in Hids. unfold at_. lia.
  - intros k e Hk. by apply log_signals_ok; [apply Hlog|apply Hlog|].
  - unfold at_. rewrite firstn_all, <-(lo_view _ _ _ Hlog). apply activeIDs_order.
    by destruct (reachable_ok (Some []) store _ Hstore (ho_owner _ _ _ (sh_hand _ _ (sreachable_ok store _ Hstore Hp)))).
Qed.

End Clients.
