(* ===== verification/TestBus.v ===== *)
(** * internal/dbustest: a bus of its own for each test

    [Session] of [bus.go] with the clean-up it registers.  Tests, and the
    goroutines of one test, call it at the same time; the mutex guards the map
    [sessions] alone, so that the lookup and the store are two critical sections
    with the start of a daemon between them.  That no two daemons that run
    listen on one address is what dbus-daemon promises; a test is its number. *)
From stdpp Require Import gmap strings list.
From Stdlib Require Import ZArith Lia.
From S2P Require Import Prelude.

(** A call of [Session]: before the lookup; starting a daemon; its address
    known; stored, the clean-up not yet registered; returned; given up by
    [Skip] or [Fatal]. *)
Inductive sessionCall :=
  | Looking | Starting | Started (address : string) | Stored (address : string) | Returned (address : string) | GivenUp.

Record tbus := mkTbus {
  tb_sessions : gmap nat string;
  tb_daemons : gmap string nat;            (** the test a daemon runs for *)
  tb_calls : gmap nat (nat * sessionCall);
  tb_cleanups : list (nat * string) }.

Definition at_call (i t : nat) (p : sessionCall) (w : tbus) : tbus :=
  mkTbus (tb_sessions w) (tb_daemons w) (<[i := (t, p)]> (tb_calls w)) (tb_cleanups w).

Inductive tstep : tbus -> tbus -> Prop :=
  | tb_call w i t : tb_calls w !! i = None -> tstep w (at_call i t Looking w)
  | tb_known w i t address :
      tb_calls w !! i = Some (t, Looking) -> tb_sessions w !! t = Some address -> tstep w (at_call i t (Returned address) w)
  | tb_unknown w i t :
      tb_calls w !! i = Some (t, Looking) -> tb_sessions w !! t = None -> tstep w (at_call i t Starting w)
  (* no daemon, or one that says nothing and is killed *)
  | tb_give_up w i t : tb_calls w !! i = Some (t, Starting) -> tstep w (at_call i t GivenUp w)
  | tb_start w i t address :
      tb_calls w !! i = Some (t, Starting) -> tb_daemons w !! address = None ->
      tstep w (at_call i t (Started address) (mkTbus (tb_sessions w) (<[address := t]> (tb_daemons w)) (tb_calls w) (tb_cleanups w)))
  | tb_store w i t address :
      tb_calls w !! i = Some (t, Started address) ->
      tstep w (at_call i t (Stored address) (mkTbus (<[t := address]> (tb_sessions w)) (tb_daemons w) (tb_calls w) (tb_cleanups w)))
  | tb_return w i t address :
      tb_calls w !! i = Some (t, Stored address) ->
      tstep w (at_call i t (Returned address) (mkTbus (tb_sessions w) (tb_daemons w) (tb_calls w) ((t, address) :: tb_cleanups w)))
  | tb_cleanup w l1 l2 t address :
      tb_cleanups w = l1 ++ (t, address) :: l2 ->
      tstep w (mkTbus (delete t (tb_sessions w)) (delete address (tb_daemons w)) (tb_calls w) (l1 ++ l2)).

Definition tstart : tbus := mkTbus ∅ ∅ ∅ [].

Definition treachable (w : tbus) : Prop := rtc tstep tstart w.

(** ** Every daemon is somebody's to stop *)

(** The daemons that a call has still to hand to a clean-up. *)
Definition carried (c : nat * sessionCall) : list (string * nat) :=
  match c with (t, Started address) | (t, Stored address) => [(address, t)] | _ => [] end.

Definition carriedBy (calls : gmap nat (nat * sessionCall)) : list (string * nat) := map_to_list calls ≫= (carried ∘ snd).

Definition attended (w : tbus) : list (string * nat) := map (fun c => (c.2, c.1)) (tb_cleanups w) ++ carriedBy (tb_calls w).

Lemma carriedBy_insert calls i c : carriedBy (<[i := c]> calls) ≡ₚ carried c ++ carriedBy (delete i calls).
Proof.
  unfold carriedBy. rewrite <-insert_delete_eq. rewrite map_to_list_insert by apply lookup_delete_eq. done.
Qed.

Lemma carriedBy_lookup calls i c : calls !! i = Some c -> carriedBy calls ≡ₚ carried c ++ carriedBy (delete i calls).
Proof. intros Hi. rewrite <-(insert_id calls i c Hi) at 1. apply carriedBy_insert. Qed.

(** The daemons that run are the ones somebody will stop, and the address of a
    session is that of a daemon that runs for its test. *)
Record tinv (w : tbus) : Prop := {
  ti_attended : map_to_list (tb_daemons w) ≡ₚ attended w;
  ti_session t address : tb_sessions w !! t = Some address -> tb_daemons w !! address = Some t }.

Lemma attended_runs w t address : tinv w -> (address, t) ∈ attended w -> tb_daemons w !! address = Some t.
Proof. intros [Ha _] Hin. rewrite <-Ha in Hin. by apply elem_of_map_to_list in Hin. Qed.

(** A call that carries the same daemons before and after a step. *)
Lemma tinv_call w i t p q :
  tinv w -> tb_calls w !! i = Some (t, p) -> carried (t, q) = carried (t, p) -> tinv (at_call i t q w).
Proof.
  intros [Ha Hs] Hi Hc. split; [|done]. cbn. rewrite Ha. unfold attended. cbn.
  by rewrite (carriedBy_lookup _ _ _ Hi), carriedBy_insert, Hc.
Qed.

Lemma tinv_step w w' : tinv w -> tstep w w' -> tinv w'.
Proof.
  intros Hw Hs. pose proof Hw as [Ha Hse]. destruct Hs as [w i t Hi|w i t a Hi Ht|w i t Hi Ht|w i t Hi|w i t a Hi Hd|w i t a Hi|w i t a Hi|w l1 l2 t a Hc].
  - split; [|done]. cbn. rewrite Ha. unfold attended. cbn. rewrite carriedBy_insert, delete_id by done. done.
  - by eapply tinv_call.
  - by eapply tinv_call.
  - by eapply tinv_call.
  - split; cbn.
    + rewrite map_to_list_insert by done. rewrite Ha. unfold attended. cbn. rewrite (carriedBy_lookup _ _ _ Hi), carriedBy_insert. cbn. solve_Permutation.
    + intros t' a' Ht'. specialize (Hse t' a' Ht'). rewrite lookup_insert_ne; [done|congruence].
  - assert (tb_daemons w !! a = Some t) as Hrun.
    { apply (attended_runs w); [done|]. unfold attended. rewrite (carriedBy_lookup _ _ _ Hi). cbn. set_solver. }
    apply (tinv_call _ _ _ (Started a)); [|done|done]. split; [done|]. cbn.
    intros t' a'. destruct (decide (t = t')) as [<-|Hne]; [rewrite lookup_insert_eq; congruence|rewrite lookup_insert_ne by done; apply Hse].
  - split; [|done]. cbn. rewrite Ha. unfold attended. cbn. rewrite (carriedBy_lookup _ _ _ Hi), carriedBy_insert. cbn. solve_Permutation.
  - assert (tb_daemons w !! a = Some t) as Hrun.
    { apply (attended_runs w); [done|]. unfold attended. rewrite Hc, map_app. cbn. set_solver. }
    split; cbn.
    + apply (Permutation_cons_inv (a := (a, t))). rewrite map_to_list_delete by done. rewrite Ha. unfold attended. cbn.
      rewrite Hc, !map_app. cbn. solve_Permutation.
    + intros t' a' [Hne Ht']%lookup_delete_Some. specialize (Hse t' a' Ht'). rewrite lookup_delete_ne; [done|congruence].
Qed.

(** Tests do not meet on a bus, and none is left behind: in every reachable
    state the address of a session is that of a daemon that runs for its test,
    so that two tests have different ones; and when every call is over and
    every clean-up was done, no daemon runs and no session is left. *)
Theorem sessions_isolated w :
  treachable w ->
  (forall t address, tb_sessions w !! t = Some address -> tb_daemons w !! address = Some t) /\
  (forall t t' address, tb_sessions w !! t = Some address -> tb_sessions w !! t' = Some address -> t = t') /\
  (tb_cleanups w = [] -> (forall i t p, tb_calls w !! i = Some (t, p) -> carried (t, p) = []) -> tb_daemons w = ∅ /\ tb_sessions w = ∅).
Proof.
  intros Hr. assert (tinv w) as Hw.
  { unfold treachable in Hr. pattern w. eapply rtc_ind_r; [| |exact Hr]; [by split|]. intros w1 w2 _ Hs Hw. by eapply tinv_step. }
  destruct Hw as [Ha Hs]. split_and!; [done|intros t t' a Ht%Hs Ht'%Hs; congruence|]. intros Hc Hcalls.
  assert (carriedBy (tb_calls w) = []) as Hnone.
  { unfold carriedBy. assert (Forall (fun c => carried c.2 = []) (map_to_list (tb_calls w))) as Hall.
    { apply Forall_forall. intros [i [t p]] Hin%elem_of_map_to_list. by eapply Hcalls. }
    induction Hall as [|c l Hc' _ IH]; [done|]. cbn. by rewrite Hc', IH. }
  unfold attended in Ha. rewrite Hc, Hnone in Ha. cbn in Ha. apply Permutation_nil_r, map_to_list_empty_iff in Ha. split; [done|].
  apply map_empty. intros t. destruct (tb_sessions w !! t) as [a|] eqn:Ht; [|done]. apply Hs in Ht. by rewrite Ha, lookup_empty in Ht.
Qed.
