(* ===== verification/Examples.v ===== *)
(** * Concrete runs

    Instances of the interfaces the model leaves open (a clock, a sink, an
    image codec, a hash, a writer, a URL parser) and concrete states, stores
    and requests on which the claims about the owner, its store, the frames and
    the connections are applied: every hypothesis of a claim is met by a run of
    the program.  [Scenarios] does the same for the parts around them. *)
From stdpp Require Import gmap strings list fin_maps.
From Stdlib Require Import ZArith Lia Ascii Strings.Byte.
From S2P Require Import Prelude GoLib Protocol Frame Notify History Owner OwnerInv OwnerOps OwnerAdd OwnerCmd OwnerTime OwnerRun OwnerGen OwnerExpiry OwnerClaims Connection Commands OwnerCalls CatchUp.
Local Open Scope string_scope.
Local Open Scope list_scope.
Local Open Scope Z_scope.

(** ** Instances *)

(** A clock that advances by a second at every reading. *)
#[local] Instance exClock : Clock := fun k => Z.of_nat (S k) * Second.

#[local] Instance exMonotonic : MonotonicClock.
Proof. split; intros; unfold Now, exClock, Second; lia. Qed.

#[local] Instance exSink : Sink := fun _ _ => true.

(** A codec whose images are the eight bytes of the PNG signature. *)
Definition signature : list Byte.byte := [x89; x50; x4e; x47; x0d; x0a; x1a; x0a].

#[local] Instance exPng : Png :=
  {| png_Encode := fun _ _ _ => inr signature; png_Decode := fun _ => inl (ErrNew "png: no decoder") |}.

#[local] Instance exPngLaws : PngLaws.
Proof. split. by intros w h pix data [= <-]. Qed.

#[local] Instance exSha256 : Sha256 := fun _ => replicate 32 x00.

#[local] Instance exSha256Laws : Sha256Laws.
Proof. by split. Qed.

(** A parser that knows one URI. *)
#[local] Instance exUrl : UrlParser := fun s =>
  if String.eqb s "file:///%ff" then inr ("", String "/"%char (String (ascii_of_nat 255) ""))
  else inl (ErrNew "url: unknown").

(** A stream in memory that takes at most two bytes of a write. *)
#[local] Instance exWriter : Writer (list Byte.byte) := fun w p => (w ++ take 2 p, (Z.min 2 (zlen p), None)).

#[local] Instance exWriterContract : WriterContract (list Byte.byte).
Proof.
  refine {| written := fun w => w |}. intros w p w' n err [= <- <- <-]. pose proof (zlen_nonneg p). split; [lia|].
  f_equal. unfold zlen. destruct p as [|a [|b [|c p]]]; try done.
  replace (Z.to_nat (Z.min 2 (Z.of_nat (length (a :: b :: c :: p))))) with 2%nat; [done|]. cbn. lia.
Defined.

(** ** Runs of the owner *)

Definition plain (kind : CommandKind) : Command :=
  mkCommand kind (mkCandidate "" "" "" "" 0 [] UrgencyNormal (-1) false false false "" "" None false "" None false zeroSender)
    None None 0 "" "" 0 0 [] [].

Definition candidateOf (summary : string) (urgency expire : Z) (transient : bool) : Candidate :=
  mkCandidate "app" "" summary "body" 0 [] urgency expire transient false false "" "" None false "" None false zeroSender.

Definition addOf (c : Candidate) : Command :=
  mkCommand Add c None None 0 "" "" 0 0 [] [].

Definition renewOf (generation : Z) (states : list Presentation) : Command :=
  mkCommand PresentationRenew (cm_Candidate (plain Add)) None None 0 "" "" generation 0 [] states.

Definition lostOf (generation : Z) : Command :=
  mkCommand PresenterLost (cm_Candidate (plain Add)) None None 0 "" "" generation 0 [] [].

Definition emptyStore : Store := mkStore [] false 0 0 false None false.

Lemma emptyStore_wf : store_wf emptyStore.
Proof. split; cbn; try constructor. done. Qed.

(** One command, and the timer set again. *)
Definition exec (s : ownerState) (c : Command) : ownerState := resetTimer (do_ c s).1.1.

Definition exStart : ownerState := start (Some []) (Some emptyStore).
Definition runs (cs : list Command) : ownerState := fold_left exec cs exStart.

Lemma exec_step s c : step s (LDo c (do_ c s).1.2 (do_ c s).2) (exec s c).
Proof. apply (step_do s c). by destruct (do_ c s) as [[? ?] ?]. Qed.

Lemma exec_steps cs s :
  Forall command_typed cs -> exists ls, Forall label_typed ls /\ steps s ls (fold_left exec cs s).
Proof.
  intros Hcs. revert s. induction Hcs as [|c cs Hc _ IH]; intros s; cbn; [exists []; split; constructor|].
  destruct (IH (exec s c)) as (ls&Hls&Hs). eexists. split; [|eapply steps_cons; [apply exec_step|exact Hs]]. by constructor.
Qed.

Lemma runs_reachable cs : Forall command_typed cs -> reachable (Some []) (Some emptyStore) (runs cs).
Proof. apply exec_steps. Qed.

Lemma typed_of c :
  match cm_PreparedHistoryImage c, cm_Producer c with None, None => True | _, _ => False end ->
  is_i32 (cd_ExpireTimeout (cm_Candidate c)) -> is_u64 (cm_Generation c) -> command_typed c.
Proof. intros Hn Hi Hg. split; try done; unfold typed_prepared; by destruct (cm_PreparedHistoryImage c), (cm_Producer c). Qed.

#[local] Ltac typed := repeat constructor; try (apply typed_of; done); try done.

(** Two notifications, the second transient; a presenter that hovers the first. *)
Definition exAdds : list Command :=
  [addOf (candidateOf "one" UrgencyNormal 10000 false); addOf (candidateOf "two" UrgencyNormal (-1) true)].
Definition exHover : list Command := exAdds ++ [renewOf 7 [mkPresentation 1 PresentationHovered]].

Lemma exAdds_typed : Forall command_typed exAdds.
Proof. typed. Qed.

Lemma exHover_typed : Forall command_typed exHover.
Proof. typed. Qed.

(** ** The owner's claims *)

Lemma owner_invariant_witness : wf (runs exHover) /\ producers_ok (runs exHover).
Proof. apply (owner_invariant (Some []) (Some emptyStore)); [exact emptyStore_wf|apply runs_reachable, exHover_typed]. Defined.


(** The snapshot of a state, as a step. *)
Lemma snapshot_step s : step s (LSnapshot (snapshot s).1) (snapshot s).2.
Proof. apply step_snapshot. by destruct (snapshot s). Qed.

(** A snapshot of the empty owner, both notifications, a snapshot: two deltas. *)
Lemma deltas_refine_snapshots_witness :
  exists evs, handed (snapshot exStart).2 evs (snapshot (fold_left exec exAdds (snapshot exStart).2)).2 /\
    Forall event_ok evs /\ numbered 0 evs 2 /\
    fold_left applyEvent evs (mkView [] []) = snapshotView (snapshot (fold_left exec exAdds (snapshot exStart).2)).1.
Proof.
  destruct (exec_steps exAdds (snapshot exStart).2 exAdds_typed) as (ls&Hls&Hs).
  apply (deltas_refine_snapshots (Some []) (Some emptyStore) exStart (snapshot exStart).1 (snapshot exStart).2 ls
    (fold_left exec exAdds (snapshot exStart).2) (snapshot (fold_left exec exAdds (snapshot exStart).2)).1
    (snapshot (fold_left exec exAdds (snapshot exStart).2)).2 emptyStore_wf (runs_reachable [] (List.Forall_nil _)) Hls
    (snapshot_step _) Hs (snapshot_step _)).
Defined.

Lemma snapshots_validate_witness :
  Snapshot_Validate (snapshot (runs exHover)).1 = None /\ s_Sequence (snapshot (runs exHover)).1 = 2.
Proof.
  apply (snapshots_validate (Some []) (Some emptyStore) (runs exHover) (snapshot (runs exHover)).1 (snapshot (runs exHover)).2
    emptyStore_wf (runs_reachable _ exHover_typed) (snapshot_step _)).
Defined.

(** Generation 7 is lost without a successor; a dismissal it sent comes late. *)
Definition lateDismiss : Command :=
  mkCommand Dismiss (cm_Candidate (plain Add)) None None 1 "" "" 7 0 [] [].

Lemma generation_fenced_witness :
  do_ lateDismiss (fold_left exec exAdds (runs (exHover ++ [lostOf 7]))) =
  (fold_left exec exAdds (runs (exHover ++ [lostOf 7])), zeroResult, Some ErrStale).
Proof.
  destruct (exec_steps exAdds (runs (exHover ++ [lostOf 7])) exAdds_typed) as (ls&Hls&Hs).
  refine (proj1 (generation_fenced (runs (exHover ++ [lostOf 7])) ls _ lateDismiss _ Hls Hs eq_refl _) eq_refl).
  - vm_compute. discriminate.
  - right. split; vm_compute; reflexivity.
Defined.

Lemma timer_closes_exactly_due_witness : s_records (handleTimer (runs exHover)) !! 3 = None.
Proof.
  rewrite (timer_closes_exactly_due (Some []) (Some emptyStore) (runs exHover) 3 emptyStore_wf
    (runs_reachable _ exHover_typed)). vm_compute. reflexivity.
Defined.

Lemma timer_always_armed_witness : armed (runs exHover).
Proof. apply (timer_always_armed (Some []) (Some emptyStore)); [exact emptyStore_wf|apply runs_reachable, exHover_typed]. Defined.

Lemma do_eta c s : do_ c s = ((do_ c s).1.1, (do_ c s).1.2, (do_ c s).2).
Proof. by destruct (do_ c s) as [[? ?] ?]. Qed.

(** The first notification again, within five seconds: merged. *)
Definition again : Command := addOf (candidateOf "one" UrgencyNormal 10000 false).

Lemma again_typed : command_typed again.
Proof. by apply typed_of. Qed.

Lemma add_outcome_witness : res_ID (do_ again (runs exAdds)).1.2 = 1 /\ s_order (do_ again (runs exAdds)).1.1 = s_order (runs exAdds).
Proof.
  destruct (add_outcome (Some []) (Some emptyStore) (runs exAdds) again _ _ _ emptyStore_wf
    (runs_reachable _ exAdds_typed) again_typed eq_refl (do_eta _ _)) as [(e&Herr&_)|(_&_&Hr)].
  - exfalso. revert Herr. vm_compute. discriminate.
  - assert ((do_ again (runs exAdds)).1.2 = mkResult 1 true []) as Hres by (vm_compute; reflexivity).
    rewrite Hres in *. destruct Hr as (_&_&Hord). split; [reflexivity|exact Hord].
Defined.

(** A full owner: 128 notifications with different summaries. *)
Definition exFull : list Command :=
  map (fun n => addOf (candidateOf (FormatUint (Z.of_nat n)) UrgencyNormal 0 false)) (seq 0 128).

Lemma exFull_typed : Forall command_typed exFull.
Proof. apply List.Forall_map, Forall_forall. intros n _. by apply typed_of. Qed.

(** The transient notification leaves no trace in the history. *)
(** ** Frames *)

Lemma frames_roundtrip_witness :
  exists bytes, (writeFrames [] [[x41; x42; x43]; [x44]]).1 = bytes /\
    readFrames 2 (bytes ++ [x99]) = (inr [[x41; x42; x43]; [x44]], [x99]).
Proof.
  destruct (frames_roundtrip (W := list Byte.byte) [] (writeFrames [] [[x41; x42; x43]; [x44]]).1
    [[x41; x42; x43]; [x44]] [x99]) as (bytes&Hw&Hr); [vm_compute; reflexivity|].
  exists bytes. split; [exact Hw|exact Hr].
Defined.

(** ** Requests *)

(** The counter is at its end and the next two ids are taken. *)
(** A 2x2 image with a row stride larger than its rows. *)
Definition exRaw : RawImage := mkRawImage 2 2 8 false 8 3 (replicate 14 x7f).

Lemma normalizeImage_safe_witness : exists result, normalizeImage exRaw = Some result.
Proof. destruct (normalizeImage_safe exRaw) as (result&Hr&_). exists result. exact Hr. Defined.

Definition exRequest : Request :=
  mkRequest "app" "icon" "summary" "body" 0 ["default"; "Open"]
    {[ HintUrgency := AUint8 2; HintTransient := ABool true ]} (-1) (mkSender ":1.2" 1 []).


(** ** The store *)

Definition exEntry (id : Z) (seen : bool) : HistoryEntry :=
  mkHistoryEntry id seen "app" "" "" "summary" "body" UrgencyNormal "" (1000000 * Second) None.

Definition exNow : Time := 1000001 * Second.

Definition exStore : Store := (Store_Add (Store_Add emptyStore (exEntry 1 false) exNow).1 (exEntry 2 false) exNow).1.

Lemma exStore_wf : store_wf exStore.
Proof.
  assert (forall s id, store_wf s -> is_u32 id -> store_wf (Store_Add s (exEntry id false) exNow).1) as Hadd.
  { intros s id Hs Hid. destruct (Store_Add s (exEntry id false) exNow) as [s' r] eqn:Heq.
    apply Store_Add_cases in Heq; [|done|done]. destruct Heq as [[-> _]|[[-> _]|(removed&image&_&_&Ha)]]; [done|done|]. apply Ha. }
  apply Hadd; [apply Hadd; [exact emptyStore_wf|]|]; split; vm_compute; congruence.
Qed.

Lemma documentBytes_exact_witness :
  exists json, document_json (encodeDocument (st_entries exStore)) = inr json /\ slen json + 1 = documentBytes (st_entries exStore).
Proof. apply (documentBytes_exact exStore exStore_wf). Defined.

Lemma Add_outcome_witness :
  exists removed image, (Store_Add exStore (exEntry 1 true) exNow).2 = inr (withImage (exEntry 1 true) image, removed).
Proof.
  assert (exists v, (Store_Add exStore (exEntry 1 true) exNow).2 = inr v /\ v.1 <> zeroEntry) as (v&Hv&Hz)
    by (eexists; split; [vm_compute; reflexivity|discriminate]).
  destruct (Store_Add exStore (exEntry 1 true) exNow) as [s' r] eqn:Heq. cbn [snd] in *.
  destruct (Add_outcome exStore (exEntry 1 true) exNow s' r exStore_wf) as [(_&e&He)|[(_&Hr&_)|(removed&image&Hr&_)]].
  - split; vm_compute; congruence.
  - exact Heq.
  - exfalso. congruence.
  - exfalso. rewrite Hr in Hv. injection Hv as <-. by apply Hz.
  - exists removed, image. exact Hr.
Defined.

(** ** A connection *)

(** A delta and a snapshot travel as the byte that numbers them. *)
Definition exByte (n : Z) : list Byte.byte := [if n =? 0 then x00 else if n =? 1 then x01 else x02].

#[local] Instance exEncoding : Encoding := {| deltaBytes := exByte; isSnapshot := fun n data => data = exByte n |}.

(** After the hand-over at 0: two deltas published, the first one written. *)
Definition exLive : connection := cset_active true newConnection.
Definition exHandover : world := mkWorld exLive 0 (Some 0) (Some WReply) [FSnapshot [x00] 0].
Definition exQueued (w : world) : world :=
  mkWorld (enqueueDelta (deltaMessage (w_seq w + 1)) (w_conn w)).1 (w_seq w + 1) (w_snap w) (w_writer w) (w_wire w).
Definition exWaiting : world := set_writer WSelect (exQueued (exQueued exHandover)).
Definition exWritten : world :=
  set_writer (WWritten (deltaMessage 1)) (write (FQueued (deltaMessage 1))
    (set_conn (cset_queue [deltaMessage 2] (w_conn exWaiting)) exWaiting)).

Lemma exHandover_reachable : creachable 0 exHandover.
Proof.
  apply (cr_step _ (mkWorld exLive 0 (Some 0) None [])); [apply (cr_step _ (mkWorld newConnection 0 (Some 0) None []))|].
  - apply (cr_step _ (cstart 0)); [apply cr_start|]. exact (cs_snapshot (cstart 0) eq_refl eq_refl).
  - exact (cs_activate (mkWorld newConnection 0 (Some 0) None []) 0 exLive true eq_refl eq_refl eq_refl).
  - exact (cs_start (mkWorld exLive 0 (Some 0) None []) 0 [x00] eq_refl eq_refl eq_refl eq_refl).
Qed.

Lemma exWaiting_reachable : creachable 0 exWaiting.
Proof.
  eapply cr_step; [|apply cs_local, (ls_no_resync (set_writer WResync (exQueued (exQueued exHandover)))); done].
  eapply cr_step; [|apply cs_local, (ls_no_reply (exQueued (exQueued exHandover))); done].
  eapply cr_step; [|apply (cs_publish_current (exQueued exHandover) _ true false); done].
  eapply cr_step; [apply exHandover_reachable|apply (cs_publish_current exHandover _ true false); done].
Qed.

Lemma exWritten_reachable : creachable 0 exWritten.
Proof.
  eapply cr_step; [apply exWaiting_reachable|]. by apply cs_local, (ls_pop exWaiting (deltaMessage 1) [deltaMessage 2]).
Qed.


Lemma queue_never_blocks_witness : zlen (cn_queue (w_conn exWaiting)) <= 256 /\ is_Some (takeResync (w_conn exWritten)).
Proof.
  split; [|by eexists]. destruct (queue_never_blocks 0 exWaiting) as [Hq _]; [lia|exact exWaiting_reachable|exact Hq].
Defined.

(** ** The calls to the owner *)

(** A caller adds a notification and takes the answer. *)
Definition callAt (p : callPhase) (reply : option response) : ownerCall :=
  mkOwnerCall (AskDo (addOf (candidateOf "one" UrgencyNormal 10000 false))) None p reply.

Definition callLabel : label := LDo (addOf (candidateOf "one" UrgencyNormal 10000 false)) (mkResult 1 false []) None.
Definition callResponse : response := mkResponse (mkResult 1 false []) zeroSnapshot None.
Definition callState : ownerState := exec exStart (addOf (candidateOf "one" UrgencyNormal 10000 false)).

Definition calledEntering : mworld := with_call 0%nat (callAt Entering None) (mstart (Some []) (Some emptyStore)).
Definition calledSending : mworld := with_call 0%nat (callAt Sending None) calledEntering.
Definition calledHandling : mworld := with_loop (LoopHandling 0) (with_call 0%nat (callAt Awaiting None) calledSending).
Definition calledAnswered : mworld := did (Some 0%nat) callLabel callState (with_call 0%nat (callAt Awaiting (Some callResponse)) calledHandling).
Definition calledBack : mworld := with_call 0%nat (callAt (Back (Replied callResponse)) None) calledAnswered.

Lemma calledHandling_reachable : mreachable (Some []) (Some emptyStore) calledHandling.
Proof.
  eapply rtc_l; [exact (ms_call (mstart (Some []) (Some emptyStore)) 0 (oc_ask (callAt Entering None)) None eq_refl)|].
  eapply rtc_l; [exact (ms_enter calledEntering 0 (callAt Entering None) eq_refl eq_refl)|].
  apply rtc_once. exact (ms_send calledSending 0 (callAt Sending None) eq_refl eq_refl eq_refl).
Qed.

Lemma calledBack_reachable : mreachable (Some []) (Some emptyStore) calledBack.
Proof.
  assert (do_ (addOf (candidateOf "one" UrgencyNormal 10000 false)) exStart =
    ((do_ (addOf (candidateOf "one" UrgencyNormal 10000 false)) exStart).1.1, mkResult 1 false [], None)) as Hd by (vm_compute; reflexivity).
  eapply rtc_r; [eapply rtc_r; [exact calledHandling_reachable|]|].
  - exact (ms_do calledHandling 0 (callAt Awaiting None) _ _ _ _ eq_refl eq_refl eq_refl Hd).
  - exact (ms_receive calledAnswered 0 (callAt Awaiting (Some callResponse)) callResponse eq_refl eq_refl eq_refl).
Qed.

Lemma owner_calls_linearize_witness :
  exists d s1 s2, ownerDo d (addOf (candidateOf "one" UrgencyNormal 10000 false)) s1 = (s2, inr (mkResult 1 false [])) /\ d = Answered.
Proof.
  destruct (owner_calls_linearize (Some []) (Some emptyStore) calledBack calledBack_reachable) as (_&_&Hret&_).
  destruct (Hret 0%nat (callAt (Back (Replied callResponse)) None) _ (Replied callResponse) eq_refl eq_refl eq_refl)
    as (d&_&_&_&s1&s2&_&_&_&_&Hdo&Hd). exists d, s1, s2. split; [exact Hdo|exact Hd].
Defined.

Lemma owner_calls_return_witness :
  exists w' c' r, rtc mstep calledHandling w' /\ mw_calls w' !! 0%nat = Some c' /\ oc_phase c' = Back (Replied r).
Proof.
  destruct (owner_calls_return (Some []) (Some emptyStore) calledHandling calledHandling_reachable) as [Hret _].
  destruct (Hret 0%nat (callAt Awaiting None) eq_refl) as (w'&c'&o&Hs&Hi&Hp&Ho).
  destruct Ho as [r ->]; [reflexivity|reflexivity|discriminate|]. exists w', c', r. split; [exact Hs|]. split; [exact Hi|exact Hp].
Defined.
