(* ===== verification/Scenarios.v ===== *)
(** * Concrete runs of the parts around the owner

    The claims about the presenter's requests and hand-over, the D-Bus calls,
    the lineage of a sender, the store on disk and the program as a whole,
    applied to concrete runs: instances of the interfaces these parts leave
    open, and states their steps reach. *)
From stdpp Require Import gmap strings list fin_maps sorting.
From Stdlib Require Import ZArith Lia Ascii Strings.Byte.
From S2P Require Import Prelude GoLib Paths Listen StateDir OpenStore Serving Protocol Frame Strict Notify History Owner OwnerInv OwnerOps OwnerAdd OwnerCmd OwnerTime OwnerRun OwnerGen OwnerClaims Connection Commands Handover CallOrder Lineage Fdo BusName Persist Reopen Sidecar SnapshotFrame Views Publish Reader Handshake App Shutdown System SystemInv EndToEnd Desktop Examples.
Local Open Scope string_scope.
Local Open Scope list_scope.
Local Open Scope Z_scope.

#[local] Existing Instance exClock.
#[local] Existing Instance exMonotonic.
#[local] Existing Instance exSink.
#[local] Existing Instance exPng.
#[local] Existing Instance exPngLaws.
#[local] Existing Instance exSha256.
#[local] Existing Instance exSha256Laws.
#[local] Existing Instance exUrl.

(** ** Commands *)

#[local] Instance exErrorText : ErrorText := fun e =>
  match e with ErrQuoted prefix arg => String.append prefix (quoted arg) | _ => "error" end.

#[local] Instance exErrorTextLaws : ErrorTextLaws.
Proof. split. intros prefix arg. unfold error_Error, exErrorText, quoted. rewrite slen_app, slen_cons, slen_app, slen_cons. change (slen "") with 0. lia. Qed.

Definition exDismiss : WireCommand := mkWireCommand CommandDismiss 1 [] "" "" [] None.

Lemma command_replies_witness :
  rp_OK (executeCommandForConnection Answered 7 false exDismiss (runs exHover)).2 = true /\
  Reply_Validate (executeCommandForConnection Answered 7 false exDismiss (runs exHover)).2 = None.
Proof.
  destruct (executeCommandForConnection Answered 7 false exDismiss (runs exHover)) as [s' reply] eqn:He.
  destruct (command_replies (Some []) (Some emptyStore) (runs exHover) 7 false exDismiss s' reply emptyStore_wf
    (runs_reachable _ exHover_typed)) as (_&Hcode&Hr); [vm_compute; reflexivity|exact I|lia|exact He|].
  assert (expected 7 exDismiss (runs exHover) = None) as Hx by (vm_compute; reflexivity).
  cbn [producerKind c_Kind exDismiss andb] in Hcode. rewrite Hx in Hcode. destruct (rp_Error reply); [discriminate Hcode|exact Hr].
Defined.

(** As long as a key may be. *)
Definition longKey : string := N.iter 16384 (String "a"%char) "".

Lemma long_key_reply_invalid_witness :
  is_Some (Reply_Validate (executeCommandForConnection Answered 7 false
    (mkWireCommand CommandAction 1 [] longKey "" [] None) (runs exHover)).2).
Proof.
  assert (exists r, s_records (runs exHover) !! 1 = Some r /\ n_Actions (r_notification r) = []) as (r&Hr&Ha)
    by (eexists; split; vm_compute; reflexivity).
  destruct (executeCommandForConnection Answered 7 false (mkWireCommand CommandAction 1 [] longKey "" [] None) (runs exHover))
    as [s' reply] eqn:He.
  refine (proj2 (long_key_reply_invalid (Some []) (Some emptyStore) (runs exHover) 1 r longKey 7 s' reply emptyStore_wf
    (runs_reachable _ exHover_typed) Hr _ _ _ _ _ _ He)); try (vm_compute; reflexivity).
  by rewrite Ha.
Defined.

(** ** The hand-over *)

(** A connection that was accepted and got into its read loop. *)
Lemma exServing :
  exists w, hreachable (Some []) (Some emptyStore) w /\ sv_current (hw_server w) = Some 0%nat /\
    hw_conns w = <[0%nat := mkHConn 1 false HServing]> ∅.
Proof.
  destruct (fresh_connects NewServer ∅ (start (Some []) (Some emptyStore)) 0) as (w&Hw&Hs&Hc); try done.
  exists w. rewrite Hs, Hc. by split_and!.
Qed.

Lemma only_current_commands_witness :
  exists w, hreachable (Some []) (Some emptyStore) w /\ forall kind, refused 1 kind (hw_owner w) = false.
Proof.
  destruct exServing as (w&Hw&Hcur&Hc). exists w. split; [exact Hw|].
  refine (proj1 (only_current_commands (Some []) (Some emptyStore) w 0 (mkHConn 1 false HServing) emptyStore_wf Hw Hcur _ _)).
  - rewrite Hc. apply lookup_insert_eq.
  - reflexivity.
Defined.

(** A connection that was served and left. *)
Lemma exGone :
  exists w c, hreachable (Some []) (Some emptyStore) w /\ hw_conns w = {[ 0%nat := c ]} /\ hc_phase c = HDone.
Proof.
  destruct exServing as (w&Hw&Hcur&Hc). destruct w as [s conns o]. cbn in Hcur, Hc. subst conns.
  destruct (connectionDone 0 s) as [s' was] eqn:Hd. assert (was = true) as ->.
  { unfold connectionDone in Hd. rewrite Hcur, bool_decide_eq_true_2 in Hd by done. by injection Hd. }
  eexists _, _. split.
  - eapply rtc_r; [eapply rtc_r; [eapply rtc_r; [exact Hw|]|]|].
    + by eapply (hs_leave _ 0%nat); [apply lookup_insert_eq|].
    + by eapply (hs_done _ 0%nat); [apply lookup_insert_eq| |exact Hd].
    + by eapply (hs_lost _ 0%nat); [apply lookup_insert_eq|].
  - cbn [hw_conns]. rewrite !insert_insert_eq. by split.
Qed.

Lemma gone_presenters_release_witness :
  exists w c, hw_conns w = {[ 0%nat := c ]} /\ s_presenterGeneration (hw_owner w) = 0 /\ s_leaseDeadline (hw_owner w) = 0.
Proof.
  destruct exGone as (w&c&Hw&Hc&Hph). exists w, c. split; [exact Hc|].
  destruct (gone_presenters_release (Some []) (Some emptyStore) w emptyStore_wf Hw) as (Hp&Hl&_).
  - intros i d. rewrite Hc. intros [_ <-]%lookup_singleton_Some. exact Hph.
  - split; [exact Hp|exact Hl].
Defined.

(** ** The order of calls *)

Definition exMessage (id : Z) (member signature : string) : Message :=
  mkMessage id true (Some ObjectPath) (Some Interface) (Some member) (Some signature) (Some ":1.2").

Definition exNotifyCall : Message := exMessage 1 "Notify" notifySignature.
Definition exCloseCall : Message := exMessage 2 "CloseNotification" closeSignature.

(** A Notify and a CloseNotification arrive; the handler of the second is the
    first to ask for its turn, and waits. *)
Definition exArrived : CallOrder := Observe exCloseCall (Observe exNotifyCall NewCallOrder).
Definition exPipelined : oworld :=
  mkOWorld (takeTicket 1 (takeTicket 2 exArrived).1).1
    [mkCall 1 ":1.2" 0 Running 0; mkCall 2 ":1.2" 1 Waiting 1] [(":1.2", 0%nat); (":1.2", 1%nat)] [(":1.2", 0%nat)].

Lemma exPipelined_reachable : oreachable exPipelined.
Proof.
  eapply rtc_l; [apply (os_observe _ exNotifyCall ":1.2"); [reflexivity|reflexivity|reflexivity|constructor|done]|].
  eapply rtc_l; [apply (os_observe _ exCloseCall ":1.2"); [reflexivity|reflexivity|reflexivity|by repeat constructor|done]|].
  eapply rtc_l; [eapply (os_take _ [_] (mkCall 2 ":1.2" 1 Observed 1) []); [reflexivity|reflexivity|vm_compute; reflexivity]|].
  eapply rtc_l; [eapply (os_take _ [] (mkCall 1 ":1.2" 0 Observed 0) [_]); [reflexivity|reflexivity|vm_compute; reflexivity]|].
  eapply rtc_l; [eapply (os_turn _ [] (mkCall 1 ":1.2" 0 Waiting 0) [_]); [reflexivity|reflexivity|vm_compute; reflexivity]|].
  apply rtc_refl.
Qed.

Lemma calls_in_order_witness : sentBy ":1.2" (ow_entered exPipelined) `prefix_of` sentBy ":1.2" (ow_arrived exPipelined).
Proof. apply (calls_in_order exPipelined ":1.2" exPipelined_reachable). vm_compute. reflexivity. Defined.


(** ** Notify *)

(** A process called ") (", the child of the first process. *)
Definition exStat : text :=
  statLine 1000 (bytes ") (") ((["S"%char] :: bytes (FormatUint 1) :: replicate 17 (bytes "0") ++ [bytes (FormatUint 77)]) ++ [bytes "5"]).

#[local] Instance exProc : ProcFS := fun _ pid => if pid =? 1000 then Some exStat else None.

#[local] Instance exBus : Bus := fun sender => if String.eqb sender ":1.2" then inr 1000 else inl (ErrNew "bus: gone").

(** The old name of a hint carries an image, the new one a number. *)
Definition exVariants : gmap string any :=
  <[legacyImageData := AImageData (mkRawImage 1 1 3 false 8 3 [x01; x02; x03])]>
    (<[HintImageData := AInt32 5]> {[ HintUrgency := AUint8 2 ]}).

Definition exCall : notifyCall := mkNotifyCall ":1.2" "app" 0 "icon" "three" "body" [] exVariants (-1).

Lemma Notify_outcome_witness :
  exists s' id rec, Fdo.Notify "/proc" exCall (Some (runs exAdds)) = Some (Some s', inr id) /\ s_records s' !! id = Some rec /\
    n_SenderLineage (r_notification rec) = Capture "/proc" 1000.
Proof.
  destruct (Notify_outcome (Some []) (Some emptyStore) (runs exAdds) "/proc" exCall emptyStore_wf (runs_reachable _ exAdds_typed))
    as (s'&result&Hn&_&Hout); [split; vm_compute; congruence|].
  assert (exists id, (Fdo.Notify "/proc" exCall (Some (runs exAdds)) ≫= fun r => Some r.2) = Some (inr id)) as [id Hid]
    by (eexists; vm_compute; reflexivity).
  rewrite Hn in Hid. cbn [mbind option_bind snd] in Hid. injection Hid as ->. destruct Hout as (rec&Hrec&_&_&_&_&Hl).
  exists s', id, rec. split; [exact Hn|]. split; [exact Hrec|exact Hl].
Defined.

(** ** The bus name *)

(** A server that has got the name. *)
Definition exNamed : bworld :=
  mkBWorld (setServed (mkDServer true true true false false false (Some NewCallOrder) [] [] [] false false)) (SReturned None) CIdle MSelect
    ESelect ([], true) false [CallExport; CallAddMatch; CallSignal; CallRequestName] [] [] [].

Lemma exNamed_reachable : breachable ":1.7" exNamed.
Proof.
  exists (Some NewCallOrder).
  eapply rtc_l; [by apply (bs_begin _ _ true)|].
  eapply rtc_l; [by apply (bs_serve_call _ _ CallExport None)|].
  eapply rtc_l; [by apply (bs_serve_call _ _ CallAddMatch None)|].
  eapply rtc_l; [by apply (bs_serve_call _ _ CallSignal None)|].
  eapply rtc_l; [apply (bs_serve_call _ _ CallRequestName None); [done|by exists RequestPrimaryOwner, None]|].
  eapply rtc_l; [by apply bs_mark|].
  eapply rtc_l; [by apply bs_go_emitter|].
  eapply rtc_l; [by apply bs_go_monitor|]. apply rtc_refl.
Qed.


(** ** The store on disk *)

Definition noFaults (op : fsop) : option error := None.
Definition noFiles : files := mkFiles None None.

(** The disk is full when the temporary file is written. *)
Definition diskFull (op : fsop) : option error := match op with OpWrite => Some (ErrNew "no space left on device") | _ => None end.

Definition exEntries : list retained := st_entries exStore.

Lemma exEntries_measured : Forall measured exEntries.
Proof. apply (sw_measured _ exStore_wf). Qed.

(** Entries are added to an empty store, and the worker takes them. *)
Definition exTaken : pworld :=
  mkPWorld (mkStore exEntries false 1 0 false None true) (PCommit exEntries 1) COpen noFiles [[]; exEntries].

Lemma exTaken_reachable : preachable [] noFiles exTaken.
Proof.
  eapply rtc_l; [apply (ps_mutate _ exEntries); [reflexivity|exact exEntries_measured]|].
  eapply rtc_l; [apply ps_take; reflexivity|]. apply rtc_refl.
Qed.

(** The worker after a commit with the given faults. *)
Definition afterCommit (faults : fsop -> option error) : pworld :=
  let '(_, f, err) := commit faults exEntries noFiles in
  let w := with_worker (PReport 1 err) (with_files f exTaken) in
  let w := with_worker (PFinish 1 err) (with_store (report err (pw_store w)) w) in
  with_worker (match err with Some _ => PRetry | None => PLoop end) (with_store (finish 1 err (pw_store w)) w).

Lemma afterCommit_reachable faults : preachable [] noFiles (afterCommit faults).
Proof.
  unfold afterCommit. destruct (commit faults exEntries noFiles) as [[trace f] err] eqn:Hc.
  eapply rtc_r; [eapply rtc_r; [eapply rtc_r; [exact exTaken_reachable|by eapply ps_commit]|]|].
  - by apply (ps_report _ 1 err).
  - by apply (ps_finish _ 1 err).
Qed.

Lemma flush_durable_witness : holds (pw_files (afterCommit noFaults)) exEntries.
Proof.
  apply (flush_durable [] noFiles ltac:(constructor) ltac:(reflexivity) (afterCommit noFaults) (afterCommit_reachable noFaults)).
  left. split; [vm_compute; reflexivity|]. left. split; [vm_compute; reflexivity|vm_compute; discriminate].
Defined.


(** The first commit failed. *)
Lemma persistence_completes_witness :
  fs_history (pw_files (afterCommit diskFull)) = None /\ exists w, worksTo (afterCommit diskFull) w /\ flushReturns w None.
Proof.
  split; [vm_compute; reflexivity|].
  refine (proj1 (persistence_completes [] noFiles ltac:(constructor) ltac:(reflexivity) (afterCommit diskFull)
    (afterCommit_reachable diskFull) _)). vm_compute. reflexivity.
Defined.

(** ** Opening the store *)

(** A codec that keeps the dimensions, of at most 255 pixels, after the signature. *)
Definition dimensionsPng : Png :=
  {| png_Encode := fun w h _ => if (0 <? w) && (w <? 256) && (0 <? h) && (h <? 256) then inr (signature ++ [byteOf w; byteOf h]) else inl (ErrNew "png: size");
     png_Decode := fun data =>
       match drop 8 data with
       | [w; h] => if (0 <? byteZ w) && (0 <? byteZ h) then inr (mkDecoded 0 0 (byteZ w) (byteZ h) (fun _ _ => [])) else inl (ErrNew "png: size")
       | _ => inl (ErrNew "png: truncated") end |}.

Lemma dimensionsPng_roundtrip : @PngRoundtrip dimensionsPng.
Proof.
  split.
  - intros data decoded. cbn. destruct (drop 8 data) as [|w [|h [|]]]; try done. destruct (_ && _) eqn:Hp; [|done].
    apply andb_true_iff in Hp as [?%Z.ltb_lt ?%Z.ltb_lt]. by intros [= <-].
  - intros w h pix data. cbn. destruct (_ && _) eqn:Hp; [|done]. rewrite !andb_true_iff, !Z.ltb_lt in Hp. intros [= <-]. cbn.
    rewrite !byteZ_byteOf, !Z.mod_small by lia. rewrite !(proj2 (Z.ltb_lt _ _)) by lia. by eexists.
Qed.

(** A hash that is the start of the data, and a stat structure whose inode
    tells the contents. *)
Definition prefixSha : Sha256 := fun data => take 32 (data ++ replicate 32 x00).

Lemma prefixSha_laws : @Sha256Laws prefixSha.
Proof. split. intros data. unfold sha256_Sum256, prefixSha, zlen. rewrite length_take, length_app, length_replicate. lia. Qed.

Definition inodeOf (data : list Byte.byte) : Z := Zpos (encode (Byte.to_N <$> data)).
Definition exKernel : Kernel := fun n data => mkFileInfo (inodeOf data) (zlen data) n n.

Lemma to_N_inj : Inj (=) (=) Byte.to_N.
Proof. intros a b Hab. enough (Some a = Some b) as [= ->] by done. by rewrite <-!Byte.of_to_N, Hab. Qed.

Lemma exKernel_laws : @KernelLaws exKernel.
Proof.
  split; [done|]. intros n a m b [= Hab _ _]. apply encode_inj in Hab. pose proof to_N_inj. by apply (inj (fmap Byte.to_N)) in Hab.
Qed.

Section Disk.
#[local] Existing Instance dimensionsPng | 0.
#[local] Existing Instance dimensionsPng_roundtrip | 0.
#[local] Existing Instance prefixSha | 0.
#[local] Existing Instance prefixSha_laws | 0.
#[local] Existing Instance exKernel | 0.
#[local] Existing Instance exKernel_laws | 0.

(** An entry with an image of 200 by 100 pixels, which is scaled down. *)
Definition exPicture : HistoryEntry :=
  withImage (exEntry 3 false) (Some (mkImage "image/png" 200 100 (signature ++ [byteOf 200; byteOf 100]))).

Definition exPictures : Store := (Store_Add exStore exPicture exNow).1.

Lemma exPictures_wf : store_wf exPictures.
Proof.
  unfold exPictures. destruct (Store_Add exStore exPicture exNow) as [s' r] eqn:Heq.
  apply Store_Add_cases in Heq; [|exact exStore_wf|split; vm_compute; congruence].
  destruct Heq as [[-> _]|[[-> _]|(removed&image&_&_&Ha)]]; [exact exStore_wf|exact exStore_wf|]. apply Ha.
Qed.

Lemma no_images_kept n l : map (fun e => (re_meta e, h_Image (re_entry e))) l = replicate n (None, None) -> Forall image_kept l.
Proof.
  revert n. induction l as [|e l IH]; intros [|n]; cbn; try done. intros [= Hm Hi Hl]. constructor; [|by eapply IH].
  unfold image_kept. by rewrite Hm, Hi.
Qed.

Lemma exPictures_kept : Forall image_kept (st_entries exPictures).
Proof.
  assert (Forall image_kept (st_entries exStore)) as Hk by (apply (no_images_kept 2); vm_compute; reflexivity).
  destruct (mutations_keep_images exStore exStore_wf Hk) as (_&Hadd&_). unfold exPictures. exact (Hadd exPicture exNow).
Qed.

(** The directory holds an old sidecar and a note of the user's. *)
Definition exDir : dir := <["old.png" := mkFile true 1 [x01]]> {[ "note.txt" := mkFile false 2 [x02] ]}.
Definition exStamps (n : nat) : Z := 5 + Z.of_nat n.
Definition exWrittenDir : dir := (writeImages (calm exStamps) (st_entries exPictures) exDir).1.1.

#[local] Instance usable_dec d e : Decision (usable d e).
Proof. unfold usable. destruct (re_meta e) as [m|]; [destruct (d !! _)|]; apply _. Defined.

(** The file is not mistaken for the image of the entry. *)
Definition tells (f : file) (e : retained) : Prop :=
  match h_Image (re_entry e) with Some image => digestOf (f_data f) = digestOf (i_Data image) -> f_data f = i_Data image | None => True end.

#[local] Instance tells_dec f e : Decision (tells f e).
Proof. unfold tells. destruct (h_Image (re_entry e)); apply _. Defined.


(** Opening a document of two entries, the first of them past its retention. *)
Definition exDocument : document :=
  mkDocument schemaVersion (map (fun e => diskEntryOf e None)
    [mkHistoryEntry 1 false "app" "" "" "old" "" UrgencyNormal "" Second None; exEntry 2 false]).

Lemma OpenAt_wf_witness : exists s, OpenAt (H1 := dirSidecars exDir) (inr (inr exDocument)) exNow None None None = inr s /\ IDs s = [2] /\ fresh_store exNow s.
Proof.
  eexists. split; [vm_compute; reflexivity|]. split; [reflexivity|].
  apply (OpenAt_wf (H2 := dirSidecars exDir) (inr (inr exDocument)) exNow None None None);
    [apply (bool_decide_unpack _); vm_compute; reflexivity|vm_compute; reflexivity].
Defined.

End Disk.

(** ** The requests of a presenter *)

(** The peer sends one command, the dismissal of the first notification. *)
#[local] Instance exTokenizer : Tokenizer := fun _ => mkDecoder [OpenObject; CloseObject] ErrEOF.
#[local] Instance exJsonValid : JsonValid := fun _ => true.
#[local] Instance exDecodeEnvelope : Decode Envelope := fun _ => (mkDecoder [] ErrEOF, inr (mkEnvelope KindCommand 1 0 "{}")).
#[local] Instance exDecodeHello : Decode Hello := fun _ => (mkDecoder [] ErrEOF, inl (ErrNew "not a hello")).
#[local] Instance exDecodeCommand : Decode WireCommand := fun _ => (mkDecoder [] ErrEOF, inr exDismiss).

#[local] Instance exJsonTyped : JsonTyped.
Proof. split. by intros data dec command [= <- <-]. Qed.

Definition exStream : list Byte.byte := frameOf [x7b; x7d].

(** The command is read, carried out and answered. *)
Lemma exServed o0 :
  exists w, rtc (rstep 7 false) (rstart exStream exLive o0) w /\ rw_phase w = RReading /\
    rw_executed w = [(1, exDismiss)] /\ rw_conn w = [].
Proof.
  destruct (executeCommandForConnection Answered 7 false exDismiss o0) as [o reply] eqn:Hex.
  destruct (replyMessage 1 reply) as [err|message] eqn:Hm; [done|].
  assert (exists c, enqueue message exLive = Some (c, true)) as [c Hc].
  { unfold enqueue. cbn [exLive cn_failed cn_active negb orb]. destruct (match reserve message exLive with Some _ => _ | None => _ end); by eexists. }
  eexists. split; [eapply rtc_l; [|eapply rtc_l; [|eapply rtc_l; [|apply rtc_refl]]]|].
  - apply (rs_read _ _ (rstart exStream exLive o0) 1 exDismiss []); [reflexivity|vm_compute; reflexivity].
  - by eapply (rs_execute 7 false _ 1 exDismiss Answered).
  - by eapply (rs_reply 7 false _ 1 reply message c).
  - by split_and!.
Qed.


(** ** The program *)

(** All goes well until the run is asked to stop; then closing the history
    fails. *)
Definition exEnv : env :=
  mkEnv (Some None) "/run/user/1000" None (fun _ => None) (fun _ => None) None (fun _ => None) ContextDone
    (fun p => match p with History => Some (ErrNew "history: disk") | _ => None end).

Lemma run_releases_witness :
  created (Run exEnv zeroConfig).1 ≡ₚ closed (Run exEnv zeroConfig).1 /\ (main exEnv).2 = 1%Z.
Proof.
  destruct (Run exEnv zeroConfig) as [trace returned] eqn:Hr.
  destruct (run_releases exEnv zeroConfig trace returned Hr) as ((said&Hrel&_)&Hn&Hm).
  split; [apply Hrel|]. rewrite (Hm eq_refl). destruct returned as [err|]; [reflexivity|].
  destruct (proj1 Hn eq_refl) as (_&_&_&_&_&_&Hc). specialize (Hc History). discriminate Hc.
Defined.

(** ** The whole presenter side *)

(** One presenter connects, is handed the empty state and reads; a notification
    is added, published and written. *)
Definition solo (v : world) (frame : list Byte.byte) (p : hphase) (generation : Z) (s : Server) (o : ownerState) (published : nat) : sworld :=
  mkSWorld (mkHWorld s {[0%nat := mkHConn generation false p]} o) {[0%nat := mkLink v frame]} published None [] [].

Definition soloServer (current preparing : option nat) (g : Z) : Server := mkServer current preparing g false ({[0%nat]} ∪ ∅).
Definition textOf (r : error + string) : string := match r with inr text => text | inl _ => "" end.

Definition sysFrame : list Byte.byte := bytesOfText (textOf (marshalSnapshot (snapshot exStart).1)).
Definition sysConn (active : bool) : connection := cset_active active newConnection.
Definition sysBound : ownerState := (Do (lostCommand 0 1) (snapshot exStart).2).1.
Definition sysOwner : ownerState := exec sysBound (addOf (candidateOf "one" UrgencyNormal 10000 false)).
Definition sysEvent : Event := Eval vm_compute in default (mkEvent 0 None None None None 0) (default [] (s_sink sysOwner) !! 0%nat).
Definition sysMessage : outbound := Eval vm_compute in
  match ev_Delta sysEvent with Some d => match marshalDelta 1 d with inr m => m | inl _ => mkOutbound [] 1 end | None => mkOutbound [] 1 end.
Definition sysServed : world := mkWorld (sysConn true) 0 (Some 0) (Some WReply) [FSnapshot sysFrame 0].
Definition sysQueued : world := mkWorld (enqueueDelta sysMessage (sysConn true)).1 1 (Some 0) (Some WSelect) [FSnapshot sysFrame 0].
Definition sysWritten : world :=
  set_writer (WWritten sysMessage) (write (FQueued sysMessage) (set_conn (cset_queue [] (w_conn sysQueued)) sysQueued)).

Definition sysEnd : sworld := solo sysWritten sysFrame HServing 1 (soloServer (Some 0%nat) None 1) sysOwner 1.

Lemma solo_moves w w' v frame p g s o k : sstep w w' -> w' = solo v frame p g s o k -> sstep w (solo v frame p g s o k).
Proof. by intros Hs <-. Qed.

#[local] Ltac solo_step := eapply rtc_r; [|eapply solo_moves; [|reflexivity]].

Lemma sysServed_reachable :
  sreachable (Some emptyStore) (solo sysServed sysFrame HServing 1 (soloServer (Some 0%nat) None 1) sysBound 0).
Proof.
  set (o1 := (snapshot exStart).2). set (n0 := newConnection). set (v0 := mkWorld n0 0 None None []).
  eapply rtc_r; [|refine (solo_moves _ _ _ _ _ _ _ _ _ (ss_serve (solo (mkWorld (sysConn true) 0 (Some 0) None []) sysFrame HBound 1
    (soloServer (Some 0%nat) None 1) sysBound 0) 0 _ _ 0 _ _ _ _) _)]; try reflexivity.
  eapply rtc_r; [|refine (solo_moves _ _ _ _ _ _ _ _ _ (ss_bind (solo (mkWorld (sysConn true) 0 (Some 0) None []) sysFrame (HCurrent 0) 1
    (soloServer (Some 0%nat) None 1) o1 0) 0 _ 0 _ _ _) _)]; try reflexivity.
  eapply rtc_r; [|refine (solo_moves _ _ _ _ _ _ _ _ _ (ss_commit (solo (mkWorld n0 0 (Some 0) None []) sysFrame HReady 1
    (soloServer None (Some 0%nat) 1) o1 0) 0 _ _ 0 (sysConn true) true (soloServer (Some 0%nat) None 1) (Some None) _ _ _ _ _ _) _)]; try reflexivity.
  eapply rtc_r; [|refine (solo_moves _ _ _ _ _ _ _ _ _ (ss_snapshot (solo v0 [] HPreparing 1
    (soloServer None (Some 0%nat) 1) exStart 0) 0 _ _ (snapshot exStart).1 o1 (textOf (marshalSnapshot (snapshot exStart).1)) _ _ _ _ (snapshot_step _) _ _) _)]; try reflexivity.
  eapply rtc_r; [|refine (solo_moves _ _ _ _ _ _ _ _ _ (ss_hello (solo v0 [] HHandshake 0
    (soloServer None None 0) exStart 0) 0 _ _ (soloServer None (Some 0%nat) 1) 1 false _ _ _ _ _) _)]; try reflexivity.
  apply rtc_once. refine (solo_moves _ _ _ _ _ _ _ _ _ (ss_accept (systart (Some emptyStore)) 0 (soloServer None None 0) _ _) _); reflexivity.
Qed.

Lemma sysEnd_reachable : sreachable (Some emptyStore) sysEnd.
Proof.
  set (s := soloServer (Some 0%nat) None 1). set (c := (enqueueDelta sysMessage (sysConn true)).1).
  set (at_ := fun v => mkWorld c 1 (Some 0) (Some v) [FSnapshot sysFrame 0]).
  eapply rtc_r; [|refine (solo_moves _ _ _ _ _ _ _ _ _ (ss_local (solo sysQueued sysFrame HServing 1 s sysOwner 1) 0 _ _ _
    (ls_pop _ sysMessage [] _ _)) _)]; try reflexivity.
  eapply rtc_r; [|refine (solo_moves _ _ _ _ _ _ _ _ _ (ss_local (solo (at_ WResync) sysFrame HServing 1 s sysOwner 1) 0 _ _ _
    (ls_no_resync _ c _ _)) _)]; try reflexivity.
  eapply rtc_r; [|refine (solo_moves _ _ _ _ _ _ _ _ _ (ss_local (solo (at_ WReply) sysFrame HServing 1 s sysOwner 1) 0 _ _ _
    (ls_no_reply _ c _ _)) _)]; try reflexivity.
  eapply rtc_r; [|refine (solo_moves _ _ _ _ _ _ _ _ _ (ss_publish (solo sysServed sysFrame HServing 1 s sysOwner 0) sysEvent
    {[0%nat := c]} true None _ _ _ _) _)]; try (vm_compute; reflexivity).
  eapply rtc_r; [|refine (solo_moves _ _ _ _ _ _ _ _ _ (ss_owner (solo sysServed sysFrame HServing 1 s sysBound 0) _ _ _ _ (exec_step _ _)) _)];
    try reflexivity.
  - exact sysServed_reachable.
  - split; [|done]. by split; [apply typed_of|].
Qed.

(** A decoder for this run: it knows the delta, and tells the two snapshots
    apart by the member after the kind. *)
Definition sysDecodeDelta (data : list Byte.byte) : option Delta :=
  if bool_decide (data = ob_data sysMessage) then ev_Delta sysEvent else None.

Definition sysDecodeSnapshot (data : list Byte.byte) : option View :=
  Some (viewAfter (startView (Some emptyStore)) (deltasOf (sy_log sysEnd)) (match data !! 20%nat with Some x70 => 0 | _ => 1 end)).

Lemma sysDeltas : deltasOf (sy_log sysEnd) = [default (mkDelta DeltaHistoryCleared None None None 0 [] 0) (ev_Delta sysEvent)].
Proof. vm_compute. reflexivity. Qed.

Lemma sysMarshals : marshals (deltasOf (sy_log sysEnd)).
Proof. rewrite sysDeltas. intros [|n] d; [|done]. intros [= <-]. eexists. vm_compute. reflexivity. Qed.

Lemma sysDecodes : decodes sysDecodeDelta sysDecodeSnapshot (startView (Some emptyStore)) (deltasOf (sy_log sysEnd)).
Proof.
  split.
  - rewrite sysDeltas. intros [|n] d m; [|done]. intros [= <-] Hm. assert (m = sysMessage) as ->.
    { enough (@inr error _ m = inr sysMessage) as [= ->] by done. rewrite <-Hm. vm_compute. reflexivity. }
    unfold sysDecodeDelta. by rewrite bool_decide_eq_true_2.
  - intros b text Hb Hv Ht. eexists. split; [reflexivity|]. rewrite <-Hv. rewrite sysDeltas in Hb. change (zlen _) with 1 in Hb.
    assert (bytesOfText text !! 20%nat = Some (if s_Sequence b =? 0 then x70 else x73)) as ->.
    { revert Ht. unfold marshalBodies. destruct (snapshot_json b) as [e|raw]; [done|].
      assert (s_Sequence b = 0 \/ s_Sequence b = 1) as [->| ->] by lia; intros [= <-]; reflexivity. }
    assert (s_Sequence b = 0 \/ s_Sequence b = 1) as [->| ->] by lia; reflexivity.
Qed.

Lemma presenter_follows_owner_witness :
  sreachable (Some emptyStore) sysEnd /\ s_sequence (sy_owner sysEnd) = 1 /\
  sameTexts (view (sy_owner sysEnd)) (fold_left (Connection.present sysDecodeDelta sysDecodeSnapshot) (w_wire sysWritten) (mkView [] [])).
Proof.
  destruct (presenter_follows_owner sysDecodeDelta sysDecodeSnapshot (Some emptyStore) sysEnd 0 (mkLink sysWritten sysFrame) emptyStore_wf
    sysEnd_reachable ltac:(rewrite sysDeltas; reflexivity) sysMarshals sysDecodes eq_refl ltac:(discriminate)) as (last&_&_&_&Hend).
  split; [exact sysEnd_reachable|]. split; [vm_compute; reflexivity|]. apply Hend. split_and!; reflexivity.
Defined.

Lemma presenter_side_refines_witness :
  hreachable (Some []) (Some emptyStore) (sy_hand sysEnd) /\ cn_active (w_conn sysWritten) = true /\ w_seq sysWritten = sy_seq sysEnd.
Proof.
  destruct (presenter_side_refines (Some emptyStore) sysEnd emptyStore_wf sysEnd_reachable ltac:(rewrite sysDeltas; reflexivity) sysMarshals)
    as (Hh&Hl). destruct (Hl 0%nat (mkHConn 1 false HServing) eq_refl) as (l&seq0&Hl0&_&_&_&Hseq&_&Hact).
  assert (mkLink sysWritten sysFrame = l) as <- by (injection Hl0; exact (fun h => h)).
  split; [exact Hh|]. split; [exact (Hact eq_refl)|exact (Hseq (or_intror eq_refl))].
Defined.

(** ** The directories and the socket on disk *)

(** A session's runtime directory, in which an earlier service left a socket
    that nobody answers on any more. *)
Definition exRuntime : list string := ["run"; "user"; "1000"].

Definition exSocket : string := pathOf (exRuntime ++ [serviceDir; socketName]).

Definition exSessionDisk : disk :=
  mkDisk (list_to_map [
    (pathOf ["run"], mkStat (Z.lor ModeDir 493) 0); (pathOf ["run"; "user"], mkStat (Z.lor ModeDir 493) 0);
    (pathOf exRuntime, mkStat (Z.lor ModeDir 448) 1000); (pathOf (exRuntime ++ [serviceDir]), mkStat (Z.lor ModeDir 448) 1000);
    (exSocket, mkStat (Z.lor ModeSocket 384) 1000)]) (fun _ => false) 1000 "/".

Lemma exRuntime_components : Forall component exRuntime.
Proof. by repeat constructor. Qed.

Lemma exRuntime_ready : ready exRuntime 1000 exSessionDisk.
Proof.
  split.
  - reflexivity.
  - intros k Hk. cbn in Hk. assert (k = 1 \/ k = 2 \/ k = 3)%nat as [->|[->| ->]] by lia;
      (eexists; split; [vm_compute; reflexivity|vm_compute; reflexivity]).
  - exists (mkStat (Z.lor ModeDir 448) 1000). split; [vm_compute; reflexivity|]. by split_and!.
  - intros i Hi. assert (i = mkStat (Z.lor ModeDir 448) 1000) as -> by (vm_compute in Hi; injection Hi as <-; reflexivity). by split_and!.
Qed.


(** A state home of which the last component is missing. *)
Definition exStateDisk : disk :=
  mkDisk (list_to_map [(pathOf ["home"], mkStat (Z.lor ModeDir 493) 0); (pathOf ["home"; ".local"], mkStat (Z.lor ModeDir 493) 1000)])
    (fun _ => false) 1000 "/".

(** A file that cannot be decoded, on a disk where it is. *)
Definition exUnreadable (path : string) : error + (error + document) := inr (inl (ErrNew "unexpected end of JSON input")).

Definition exHome : list string := ["home"; ".local"; "state"].

Definition exHistory : stat := mkStat 384 1000.

Definition exStoreDisk : disk :=
  set_files (<[storeFile exHome historyFilename := exHistory]> (<[storeDir exHome := mkStat (Z.lor ModeDir 493) 1000]>
    (<[pathOf exHome := mkStat (Z.lor ModeDir 493) 1000]> (dk_files exStateDisk)))) exStateDisk.

#[local] Instance exNoSidecars : Sidecars := {| sidecarInfo _ := inl ErrNotExist; sidecarData _ := inl ErrNotExist |}.


(** ** The life of the presenter's server *)

(** The server listens, a peer connects, and [Close] begins while its handle
    reads the hello. *)
Definition exListening : pserver := pRegister 0 (pAccepted (pGo (pInstall (pListened None (ps_serve ServeListen true vstart))))).

Definition exClosing : pserver := pCloseListener true [0%nat] None true (pClosing (pStop exListening)).

Lemma exClosing_reachable : vreachable exClosing.
Proof.
  unfold vreachable.
  assert (forall own w w' w'', vstep own w w' -> orderly w' -> rtc (fun w w' => exists own, servingStep own w w') w' w'' ->
    rtc (fun w w' => exists own, servingStep own w w') w w'') as Hgo by (intros own w w' w'' Hs Ho; apply rtc_l; by exists own).
  eapply Hgo; [apply (ps_begin _ (ps_serve ServeListen true vstart)); reflexivity|left; reflexivity|].
  eapply Hgo; [apply (ps_listened _ None); reflexivity|left; reflexivity|].
  eapply Hgo; [apply ps_install; reflexivity|left; reflexivity|].
  eapply Hgo; [apply ps_go; reflexivity|left; reflexivity|].
  eapply Hgo; [eapply ps_accepted; reflexivity|left; reflexivity|].
  eapply Hgo; [eapply (ps_register _ 0%nat); reflexivity|left; reflexivity|].
  eapply Hgo; [apply ps_stop; reflexivity|right; exact I|].
  eapply Hgo; [apply ps_closing; reflexivity|right; exact I|].
  eapply Hgo; [apply (ps_close_listener _ true [0%nat] None true); reflexivity|right; exact I|]. unfold exClosing, exListening. apply rtc_refl.
Qed.

Lemma Close_ends_witness :
  (exists w errs, rtc (servingStep true) exClosing w /\ pv_close w = CloseDone errs) /\
  Acc (fun w2 w1 => exists own, servingStep own w1 w2) exClosing.
Proof.
  destruct (Close_ends exClosing exClosing_reachable) as (_&_&Hend&Hacc&_).
  split; [apply Hend; discriminate|exact (Hacc I)].
Defined.

(** ** What a client of the bus is told *)

(** Nothing is connected: a notification is added and shown, and taken down by
    a call of the bus; its closing waits in the queue of the D-Bus server. *)
Definition deskWorld (o : ownerState) (published told : nat) (bus : bworld) : xworld :=
  mkXWorld (mkSWorld (with_owner o (hstart (Some []) (Some emptyStore))) ∅ published None [] []) bus (Some 0%nat) told [].

Definition deskAdded : ownerState := exec exStart (addOf (candidateOf "one" UrgencyNormal 10000 false)).
Definition deskClosed : ownerState := exec deskAdded (closeCommand 1).
Definition deskBus (publish : list queuedSignal * bool) : bworld := with_publish publish [] (bstart (NewAtWithOrder true None)).
Definition deskSent : bworld :=
  with_publish ([], true) [NotificationClosed 1 CloseRequestedReason] (with_server (setQueue [NotificationClosed 1 CloseRequestedReason] (NewAtWithOrder true None))
    (deskBus ([NotificationClosed 1 CloseRequestedReason], true))).
Definition deskEnd : xworld := deskWorld deskClosed 2 2 deskSent.

Lemma desk_moves w w' v : xstep ":1.9" w w' -> w' = v -> xstep ":1.9" w v.
Proof. by intros Hs <-. Qed.

Lemma desk_owner o k p b c :
  (k <= p)%nat -> (bw_publish b).1 = [] -> quiet (xw_pres (deskWorld o k p b)) -> outsideLabel (LDo c (do_ c o).1.2 (do_ c o).2) ->
  xstep ":1.9" (deskWorld o k p b) (deskWorld (exec o c) k p b).
Proof.
  intros Hk Hb Hq Hc. eapply desk_moves; [apply xs_presenter; [|by left; split]|]; [apply (ss_owner _ _ _ Hq Hc (exec_step _ _))|reflexivity].
Qed.

Lemma deskEnd_reachable : xreachable ":1.9" None (Some emptyStore) deskEnd.
Proof.
  set (b := deskBus ([], true)).
  eapply rtc_r; [|refine (desk_moves _ _ _ (xs_send ":1.9" (deskWorld deskClosed 2 2 (deskBus ([NotificationClosed 1 CloseRequestedReason], true)))
    (NotificationClosed 1 CloseRequestedReason) [] deskSent _ _ _) _)]; try reflexivity;
    [|apply (bs_send ":1.9" (deskBus ([NotificationClosed 1 CloseRequestedReason], true)) _ [] true _ true eq_refl eq_refl)].
  eapply rtc_r; [|refine (desk_moves _ _ _ (xs_publish ":1.9" (deskWorld deskClosed 2 1 b) 0
    (default (mkEvent 0 None None None None 0) (xw_log deskEnd !! 1%nat)) _ _ _ _) _)]; try (vm_compute; reflexivity); try (cbn; lia).
  eapply rtc_r; [|refine (desk_moves _ _ _ (xs_presenter ":1.9" (deskWorld deskClosed 1 1 b) _ (ss_publish _
    (default (mkEvent 0 None None None None 0) (xw_log deskEnd !! 1%nat)) _ _ _ _ _ _ _) _) _)]; try (vm_compute; reflexivity); try (by left; split).
  eapply rtc_r; [|apply desk_owner]; try reflexivity; try (by repeat split).
  eapply rtc_r; [|refine (desk_moves _ _ _ (xs_publish ":1.9" (deskWorld deskAdded 1 0 b) 0
    (default (mkEvent 0 None None None None 0) (xw_log deskEnd !! 0%nat)) _ _ _ _) _)]; try (vm_compute; reflexivity); try (cbn; lia).
  eapply rtc_r; [|refine (desk_moves _ _ _ (xs_presenter ":1.9" (deskWorld deskAdded 0 0 b) _ (ss_publish _
    (default (mkEvent 0 None None None None 0) (xw_log deskEnd !! 0%nat)) _ _ _ _ _ _ _) _) _)]; try (vm_compute; reflexivity); try (by left; split).
  eapply rtc_r; [|apply desk_owner]; try reflexivity; try (by repeat split).
  apply rtc_once. apply (xs_add ":1.9" (xstart None (Some emptyStore)) 0 eq_refl). by left.
Qed.

Lemma clients_are_told_witness :
  bw_queued (xw_bus deskEnd) = [NotificationClosed 1 CloseRequestedReason] /\
  openings 1 (xw_log deskEnd) = closings 1 (signalsIn (xw_log deskEnd)) /\ s_order (sy_owner (xw_pres deskEnd)) = [].
Proof.
  destruct (clients_are_told ":1.9" None (Some emptyStore) emptyStore_wf deskEnd deskEnd_reachable) as (_&_&Hids&_&Hend).
  split; [reflexivity|]. assert (s_order (sy_owner (xw_pres deskEnd)) = []) as Hnone by (vm_compute; reflexivity). split; [|exact Hnone].
  specialize (Hids (length (xw_log deskEnd)) 1). cbv zeta in Hids, Hend. rewrite Hend, Hnone, firstn_all in Hids.
  rewrite bool_decide_eq_false_2 in Hids by (by intros ?%elem_of_nil). rewrite Hids. apply Z.add_0_r.
Defined.

(** ** Closing the program *)

(** The server listens, nothing has come over the bus and nothing was said yet;
    the presenter's server is told to stop. *)
Definition exUp : pserver := pGo (pInstall (pListened None (ps_serve ServeListen true vstart))).
Definition exStore : pworld := pstart [] noFiles.

Lemma exUntouched : untouched ":1.9" (Some []) (Some emptyStore) exUp (bstart (NewAtWithOrder true None)) (OwnerCalls.mstart (Some []) (Some emptyStore)) exStore.
Proof.
  split.
  - split; [|split; [reflexivity|by eexists]]. unfold vreachable.
    eapply rtc_l; [exists false; split; [apply (ps_begin _ (ps_serve ServeListen true vstart)); reflexivity|by left]|].
    eapply rtc_l; [exists false; split; [apply (ps_listened _ None); reflexivity|by left]|].
    eapply rtc_l; [exists true; split; [by apply ps_install|by left]|].
    apply rtc_once. exists true. split; [by apply ps_go|by left].
  - split; [exists None; apply rtc_refl|reflexivity].
  - split; [apply rtc_refl|reflexivity].
  - split; [|reflexivity]. exists [], noFiles. split_and!; [apply List.Forall_nil|reflexivity|apply rtc_refl].
Qed.

Lemma shutdown_ends_witness :
  exists w, pv_close (pStop exUp) = CloseStopped /\
    sd_parts w = partsOf ":1.9" (Some []) (Some emptyStore) (pStop exUp) (bstart (NewAtWithOrder true None)) (OwnerCalls.mstart (Some []) (Some emptyStore)) exStore /\
    exists w' v2 b2 o2 p2, rtc sdstep w w' /\ sd_parts w' = partsOf ":1.9" (Some []) (Some emptyStore) v2 b2 o2 p2 /\ pw_closer p2 = CDone.
Proof.
  pose proof exUntouched as Hun. pose proof (un_presenter _ _ _ _ _ _ _ Hun) as (_&Hc&Hd).
  pose proof (sd_call (shutdownOf ":1.9" (Some []) (Some emptyStore) exUp (bstart (NewAtWithOrder true None)) (OwnerCalls.mstart (Some []) (Some emptyStore)) exStore)
    (mkRunning App.Presentation pserver presenter_stoppable presenter_stoppable_laws exUp) (pStop exUp) eq_refl eq_refl I (conj Hc (conj Hd eq_refl))) as Hs.
  destruct (shutdown_ends ":1.9" (Some []) (Some emptyStore) exUp _ _ exStore _ Hun (rtc_once _ _ Hs))
    as (v1&b1&o1&p1&Hsh&_&_&_&_&w'&v2&b2&o2&p2&Hr&Hsh2&_&_&_&Hp).
  match type of Hr with rtc _ ?w _ => exists w end. split; [reflexivity|]. split; [reflexivity|]. exists w', v2, b2, o2, p2. split; [exact Hr|]. by split.
Defined.

(** ** A presenter is let in *)

(** Its texts decode to a hello with the two capabilities it must have; the
    stream it reads takes two bytes at a time. *)
Definition exHelloDecoded : Decode Hello := fun _ =>
  (mkDecoder [] ErrEOF, inr (mkHello 1 2 "presenter" [RequiredCapability; "actions"; RequiredLifetimeCapability])).
Definition exHelloEnvelope : Decode Envelope := fun _ => (mkDecoder [] ErrEOF, inr (mkEnvelope KindHello 0 0 "{}")).
#[local] Existing Instances exHelloDecoded exHelloEnvelope exWriter exWriterContract | 0.

Definition exPeer (uid : Z) : peerSocket := mkPeerSocket None None (inr uid) None None None None (exStream ++ [x01]).

Lemma handshake_admits_witness :
  handshake 1000 (exPeer 1000) = Some (false, [x01]) /\ handshake 1000 (exPeer 0) = None /\
  exists hello bytes, helloFrame = inr hello /\ written (greet (exPeer 1000) "{}" []).1 = written [] ++ bytes /\
    readFrames 2 (bytes ++ [x99]) = (inr [bytesOfText hello; bytesOfText "{}"], [x99]).
Proof.
  assert (RequiredCapability ∈ [RequiredCapability; "actions"; RequiredLifetimeCapability]) as H1 by (apply list_elem_of_here).
  assert (RequiredLifetimeCapability ∈ [RequiredCapability; "actions"; RequiredLifetimeCapability]) as H2 by (do 2 apply list_elem_of_further; apply list_elem_of_here).
  split_and!.
  - apply (handshake_admits (W := list Byte.byte) 1000 (exPeer 1000) false [x01] [] [] ""). split_and!; try reflexivity.
    exists [x7b; x7d], (mkEnvelope KindHello 0 0 "{}"), (mkHello 1 2 "presenter" [RequiredCapability; "actions"; RequiredLifetimeCapability]).
    split_and!; try reflexivity; try exact H1; try exact H2; try (split; vm_compute; congruence); vm_compute; congruence.
  - reflexivity.
  - destruct (proj2 (handshake_admits (W := list Byte.byte) 1000 (exPeer 1000) false [x01] [] (greet (exPeer 1000) "{}" []).1 "{}"))
      as (hello&bytes&Hh&Hw&_&Hr); [vm_compute; reflexivity|].
    exists hello, bytes. split; [exact Hh|]. split; [exact Hw|apply Hr].
Defined.
